(* ===== verification/_CoqProject ===== *)
-Q . S2P
Prelude.v
Errors.v
Json.v
Data.v
Effects.v
Concurrent.v
Retry.v
Rls.v
Throttle.v
RateLimit.v
Otp.v
Rbac.v
Authz.v
Users.v
Tokens.v
Session.v
Idempotency.v
Facts.v
Supersession.v
Cursor.v
Secrets.v
OpenBao.v
Pii.v
OrgConfig.v
Webhooks.v
Blobs.v
Sessions.v
Projects.v
Prompts.v
Invites.v
Organizations.v
Retrieval.v
Authn.v
Formatter.v
Context.v
Ingest.v
Sweeps.v
Freshness.v
