(* ===== verification/Prelude.v ===== *)
(** * OpenZync: a verification development

    OpenZync stores conversations ("episodes") for organizations and their projects,
    derives facts from them, and answers context queries from what it stored. This
    library models the parts of its Python code that carry its guarantees: who may
    call, what is stored once, which fact holds now, and what a query is answered
    from. Definitions are translated function by function and keep the names of the
    source; theorems are about those definitions.

    ** How the code is modelled

    - [Prelude]: text functions of Python, integers in decimal, UUIDs, calendar
      dates, stable sorting, tactics and hint databases. A text is a [string] of
      code points below 256, except in [Formatter], where it is a list of code
      points. A UUID is an integer below 2^128 and an instant is a number of
      microseconds since the epoch.
    - [Errors] (core/exceptions.py): the exception classes, what catches them, and
      the response each one becomes.
    - [Data] (models/): a record per table, the unique and exclusion constraints,
      the database as a function from tables to lists of rows.
    - [Effects]: an [async def] is a program [prog A], a tree of calls to Redis,
      PostgreSQL, the clock, randomness and the mailer whose leaves return or raise;
      [try]/[except] is [catch]. [op_sem] gives the answer of each call in a world
      that answers. Two ways to run a program: [run] in a [World], of which
      [faulty] is one where chosen calls fail and take no effect (an effect whose
      answer is lost is not modelled), and [psteps], where programs that share one state are
      interleaved call by call. Redis is one keyspace with deadlines; INCR is
      unbounded (Redis stops at 64 bits). PostgreSQL is one store every statement
      reads and writes directly: the rows a transaction would hide from others are
      visible, [ROLLBACK] is modelled only where a request's outcome depends on it
      ([Effects.request]: all of a request's work or none); a lock that is held orders
      the steps after it. A statement whose new rows meet a uniqueness constraint
      fails as a whole ([UpdateUnique], [Insert]). What the services reached over
      HTTP remember is one opaque component of the state ([st_remote]). Two logics
      over [run] and [psteps]: what a program keeps of the database ([acts]), and
      requests reasoned about by what each may rely on. [steps_in] bounds the calls of
      a program whatever they answer, failures included.
    - [Concurrent]: [asyncio.gather] as a schedule of turns, rely/guarantee reasoning
      over [psteps], and the argument that of concurrent claims of one row at most
      one succeeds.
    - [Retry] (workers/tasks/base.py): [with_retry], which the workers' tasks run
      under. A retried task ends, with the outcome of its last attempt.
    - [Json]: [json.dumps] and [json.loads] of the values the code stores.

    ** The components

    Every file below requires [Prelude], [Errors], [Data] and [Effects], and the
    files it names.

    - [Rls] (core/rls.py, dependencies/db.py, migrations/versions/0059_force_rls.py):
      the context of a database session, set again in every transaction, and the
      policies of the tables. What a request that asks for no bypass can read and
      write, that its tenant outlives its commits, and when a bypass ends. The other
      files do not apply the policies to their queries.
    - [Throttle] (middleware/auth_throttle.py): fixed-window counters of login,
      sign-up, verification and reset attempts. The budget of a window, the exact
      outcome of a check, and compensation after a success.
    - [RateLimit] (middleware/rate_limit.py): the sliding window over a sorted set,
      the client address, the organization's quota. The bound on admissions in any
      trailing window, under concurrent draws; every failure answers 503.
    - [Otp] (services/otp_service.py): mailed codes. The budget of guesses, the
      round trip of a code, the cooldown.
    - [Rbac] (core/rbac.py): cached role, permission and password-flag lookups.
      They fail closed, follow the table within the cache's life, and keep to
      their own entries.
    - [Authz] (dependencies/auth.py, dependencies/project_auth.py): the permission,
      self, superadmin and project checks of a request, on [Rbac]'s lookups.
    - [Users] (repositories/user_repository.py, services/user_service.py,
      routers/users.py): accounts, their roles and permissions. An organization never
      loses its last administrator, and no grant goes beyond what the actor holds.
    - [Tokens] (services/auth/token.py, repositories/auth_repository.py): refresh
      rotation. One winner of concurrent refreshes under every interleaving, the
      result of a rotation, revocation of the family on a replay. The walk over a
      family stops after 30 hops as in the code.
    - [Session] (services/auth/session.py, password.py, passwordless.py): login,
      MFA and password changes on [Tokens], [Otp] and [Throttle].
    - [Idempotency] (services/idempotency_service.py, services/memory/dedup_claim.py,
      repositories/ingest_dedup_repository.py and the status bits of
      workers/tasks/base.py): idempotency keys, the content claim with its script
      and its database backstop, and the claim of a worker task.
    - [Facts] (services/facts/, repositories/fact_repository.py): identities,
      scans, batch inserts, supersession, retraction and model-driven invalidation.
      [Supersession] holds its theorems: history is kept, an assertion closes what
      it contradicts, a retraction is final, the identity locks, edges expire with
      their facts.
    - [Cursor] (core/cursor.py, core/sorting.py, domain/value_objects/,
      repositories/episode_repository.py): base64 and versioned cursors, keyset
      pages. Cursors round trip, the two decoders read every text alike, pages cover
      a listing exactly. [all_pages] takes fuel; one more than the number of pages is enough
      and the theorem says so.
    - [OpenBao] (core/openbao.py, core/transit.py): the client of the secret store,
      its login and retries, its KV, namespace and Transit operations. A request
      ends, and with what. It implements the interface [Secrets] states
      ([TransitManager] and [TransitLaws]), against which the next file is proved.
    - [Pii] (services/pii_service.py): the patterns and the matcher of Python's [re] for
      the constructs they use, the entities of spaCy, merging, filtering and masking.
      Detections are sound and masking is one pass over the text. The matcher's fuel is
      the length of the text.
    - [OrgConfig] (core/org_config.py, services/org_config_service.py): an organization's
      configuration, cached, read from OpenBao and updated by merging.
    - [Webhooks] (services/webhook_service.py, repositories/webhook_repository.py,
      services/worker/tasks/deliver_webhook.py): endpoints, the signed deliveries an
      event queues, and their attempts. SQLAlchemy's identity map is modelled where
      a loaded row is read again (an attribute set in memory hides the stored one).
      Every delivery is signed with its endpoint's secret; attempts end.
    - [Blobs] (core/blob_storage.py, services/blob_storage_service.py,
      repositories/episode_blob_repository.py, services/memory/blob_ingest.py): files
      attached to messages. Objects stay under their episode, every reference to a file
      becomes a row with the whole file behind it. Reading in chunks takes the length of
      the file as fuel.
    - [Sessions] (repositories/session_repository.py, services/session_service.py):
      sessions of a project, their counts and the next sequence number.
    - [Projects] (repositories/project_repository.py, project_pin_repository.py,
      services/project_service.py): projects, their members and pins. Ids and the limit
      of pins are kept, no pinned project is archived, a project keeps an owner, a
      listing is exact, and archiving can be taken back. On [Cursor], [Authz] and
      [Sessions].
    - [Prompts] (core/prompt_manifest.py, repositories/prompt_template_repository.py,
      services/prompt_template_service.py, routers/admin_organizations.py):
      versioned prompt templates. Requests keep them well formed, a rollback
      restores a version, the default of a type is the one the workers read.
    - [Invites] (services/invite_service.py, repositories/organization_repository.py):
      invitations by mail. One acceptance wins, within 72 hours.
    - [Organizations] (services/auth/registration.py, services/auth/org_join.py,
      services/organization_service.py, services/org_request_service.py,
      core/system_config.py, core/org_codes.py): how organizations come to be and whom
      they let in. Sign-up follows the operator's policy, joining by code is sound,
      one approval of an organization wins. It builds on [Users], [Tokens], [Otp],
      [Prompts], [OpenBao] and [Invites].
    - [Retrieval] (services/retrieval/, packages/reranker/): the search legs, rank
      fusion in the double arithmetic of the code, re-ranking and degradation: what a
      failure of each part costs, the sessions of concurrent legs included.
    - [Authn] (middleware/auth.py, services/api_key_service.py,
      repositories/api_key_repository.py, utils/crypto.py): the authentication
      middleware with its caches, and API keys from creation to revocation. The
      base-62 loop runs on the number itself as fuel, which bounds its length.
    - [Formatter] (services/context_formatter.py), [Context]
      (services/cache_service.py, services/context_service.py) and [Freshness],
      their theorems: generation-stamped cache keys refine a cache that is cleared,
      no request that follows a bump is answered from before it, and the SCAN purge
      ends (its fuel is the server's own measure of the scan) with the project's
      entries gone.
    - [Ingest] (services/memory/): a batch of messages from the checks over the claim,
      the redaction and the numbered rows to the commit and what follows it. Ingest is
      all or nothing: in the world that answers with the rows it stores, and in [faulty]
      as to what can be committed. It builds on [Idempotency], [Pii], [OrgConfig], [Blobs], [Sessions],
      [Webhooks] and [Context].
    - [Sweeps] (services/memory/project_wipe.py, workers/tasks/cleanup_orphan_blobs.py):
      the wipe of a project's memory and the collection of the files of deleted
      episodes, on [Ingest], [Blobs], [Concurrent] and [Retry]. A wipe clears the
      project and nothing else and leaves the rows of its files to the collection, which
      removes them after their objects in the bucket it reads. A sweep takes
      fuel: one more than the files of the project is enough.

    ** Parameters

    What is not under src/ is a class the definitions take: [Hashlib] (SHA-256),
    [Hmac], [Bcrypt], [Jwt] and [JwtDecode] (PyJWT), [IpAddress], [Orjson], [Datetime]
    and [IsoDate] (ISO dates), [PyStr] and [Repr] ([str] and [repr] of what the code
    only prints), [RedisScan] (the guarantees of SCAN), [Postgres] ([lower]),
    [BlobStorage] (presigned URLs), [S3] (the object store; [S3Laws]: a deletion that
    succeeds removes its object, and none brings one back), [Spacy] (the entities of a
    text), [PySet] (the order in which a set is gone through), [OrgConfigSchema],
    [IngestSchema] and [BlobSettings] (Pydantic models and limits), [Search] and
    [LegSession] (the ranked queries and sessions of the search legs), [RowOrder] (the
    order rows are listed in), [HttpServer] and [TransitServer] (OpenBao's answers),
    [Consumer] (the address a webhook is sent to), [PromptFiles] (the template texts),
    [SystemConfigSchema]
    (Pydantic's validation of the system configuration), [Frontend], [Deployment] and
    [Settings] (configuration). The worker's library calls a job again
    after it asked for a retry, at most as often as the job allows, as ARQ documents.
    Where a theorem relies on a parameter, it states the documented behaviour as a
    hypothesis and its witness takes a concrete instance.

    ** Not modelled

    Schemas, routers and dependency wiring beyond the checks above: FastAPI and
    Pydantic do the work there. The graph backends (packages/graph_backend/) are
    queries in the languages of FalkorDB, SurrealDB and PostgreSQL, and migrations are
    DDL: their meaning is the server's. The language-model clients, embeddings and the
    extraction tasks wait for a model's answer; the prompts they render are text.
    Mail, metrics, tracing and audit sinks lie in the services they call. The manifest
    of the development lists each part with its reason. Logging is left out
    throughout. *)
From Stdlib Require Export ZArith Lia Ascii.
From Stdlib Require String.
From Stdlib Require Import DecimalString DecimalZ DecimalFacts.
From stdpp Require Export base numbers strings gmap list sorting.
Export ListNotations.
#[export] Set Default Goal Selector "!".
Open Scope stdpp_scope.
Open Scope Z_scope.

(** * Automation *)

Create HintDb zync discriminated.
Create Rewrite HintDb zync_rw.

(** Split the conjunctions, existentials and pairs of the context. *)
Ltac destr_and :=
  repeat match goal with
  | H : _ ∧ _ |- _ => destruct H
  | H : ∃ _, _ |- _ => destruct H
  end.

(** Case on the first [decide] or [if] or [match] the goal is stuck on. *)
Ltac case_goal :=
  match goal with
  | |- context [match ?x with _ => _ end] => destruct x eqn:?
  end.

(** Case on what a hypothesis is stuck on. *)
Ltac case_in H :=
  match type of H with
  | context [match ?x with _ => _ end] => destruct x eqn:?
  end.

(** * Lists *)

Lemma NoDup_map_filter {A B} (f : A → B) (p : A → bool) (l : list A) :
  NoDup (map f l) → NoDup (map f (List.filter p l)).
Proof.
  induction l as [|a l IH]; [done|]. simpl. intros [Ha Hl]%NoDup_cons.
  destruct (p a); simpl; [|auto]. apply NoDup_cons. split; [|auto].
  intros (b & E & Hb)%list_elem_of_fmap. apply Ha. rewrite E. apply list_elem_of_fmap_2.
  apply list_elem_of_In in Hb. apply filter_In in Hb as [Hb _]. by apply list_elem_of_In.
Qed.

(** Whether a result is a value rather than an error. *)
Definition is_ok {E A : Type} (r : E + A) : bool := match r with inl _ => false | inr _ => true end.

(** * Text

    A Python [str] is a Rocq [string] read as a sequence of code points below 256;
    the character classes are those of [str] on that range. *)

Notation "c ':::' s" := (String c s) (at level 60, right associativity) : stdpp_scope.

(** The length [len(s)]. *)
Definition str_len (s : string) : Z := Z.of_nat (String.length s).

Fixpoint str_mem (c : ascii) (s : string) : bool :=
  match s with
  | EmptyString => false
  | a ::: r => Ascii.eqb a c || str_mem c r
  end.

Definition between (lo hi : nat) (c : ascii) : bool :=
  let n := nat_of_ascii c in ((lo <=? n) && (n <=? hi))%nat.

(** The characters [str.strip] removes and the class [\s] matches. *)
Definition is_space (c : ascii) : bool :=
  between 9 13 c || between 28 32 c || between 133 133 c || between 160 160 c.

(** [c.isupper()], [c.islower()] and [c.isdigit()]. *)
Definition is_upper (c : ascii) : bool := between 65 90 c || between 192 214 c || between 216 222 c.
Definition is_lower (c : ascii) : bool :=
  between 97 122 c || between 170 170 c || between 181 181 c || between 186 186 c
  || between 223 246 c || between 248 255 c.
Definition is_digit_char (c : ascii) : bool :=
  between 48 57 c || between 178 179 c || between 185 185 c.

(** The decimal digits of the ASCII range. *)
Definition is_digit (c : ascii) : bool := between 48 57 c.

Definition lower_ascii (c : ascii) : ascii :=
  if is_upper c then ascii_of_nat (nat_of_ascii c + 32) else c.

Fixpoint str_map (f : ascii → ascii) (s : string) : string :=
  match s with
  | EmptyString => EmptyString
  | a ::: r => f a ::: str_map f r
  end.

Fixpoint str_filter (p : ascii → bool) (s : string) : string :=
  match s with
  | EmptyString => EmptyString
  | a ::: r => if p a then a ::: str_filter p r else str_filter p r
  end.

Fixpoint str_exists (p : ascii → bool) (s : string) : bool :=
  match s with
  | EmptyString => false
  | a ::: r => p a || str_exists p r
  end.

Definition str_lower : string → string := str_map lower_ascii.

Fixpoint lstrip_by (p : ascii → bool) (s : string) : string :=
  match s with
  | EmptyString => EmptyString
  | a ::: r => if p a then lstrip_by p r else s
  end.

Fixpoint rstrip_by (p : ascii → bool) (s : string) : string :=
  match s with
  | EmptyString => EmptyString
  | a ::: r =>
      match rstrip_by p r with
      | EmptyString => if p a then EmptyString else a ::: EmptyString
      | r' => a ::: r'
      end
  end.

Definition strip_by (p : ascii → bool) (s : string) : string := rstrip_by p (lstrip_by p s).
Definition str_strip : string → string := strip_by is_space.

(** [s.partition(c)]: the text before the first [c], whether [c] occurs, the text after. *)
Fixpoint partition (c : ascii) (s : string) : string * bool * string :=
  match s with
  | EmptyString => (EmptyString, false, EmptyString)
  | a ::: r =>
      if Ascii.eqb a c then (EmptyString, true, r)
      else let '(h, f, t) := partition c r in (a ::: h, f, t)
  end.

(** [s.rpartition(c)]: the same at the last [c]; without one the head is empty. *)
Fixpoint rpartition (c : ascii) (s : string) : string * bool * string :=
  match s with
  | EmptyString => (EmptyString, false, EmptyString)
  | a ::: r =>
      let '(h, f, t) := rpartition c r in
      if f then (a ::: h, true, t)
      else if Ascii.eqb a c then (EmptyString, true, r)
      else (EmptyString, false, a ::: t)
  end.

(** [s.split(c)]. *)
Fixpoint str_split (c : ascii) (s : string) : list string :=
  match s with
  | EmptyString => [EmptyString]
  | a ::: r =>
      if Ascii.eqb a c then EmptyString :: str_split c r
      else match str_split c r with
           | [] => [a ::: EmptyString]
           | h :: t => (a ::: h) :: t
           end
  end.

Fixpoint str_prefix (p s : string) : bool :=
  match p, s with
  | EmptyString, _ => true
  | a ::: p', b ::: s' => Ascii.eqb a b && str_prefix p' s'
  | _, EmptyString => false
  end.

(** [s[n:]]. *)
Fixpoint str_drop (n : nat) (s : string) : string :=
  match n, s with
  | O, _ => s
  | _, EmptyString => EmptyString
  | S n', _ ::: r => str_drop n' r
  end.

(** [s[:n]]. *)
Fixpoint str_take (n : nat) (s : string) : string :=
  match n, s with S n, c ::: r => c ::: str_take n r | _, _ => EmptyString end.

(** [str.upper]; the two letters whose capitals lie beyond code point 255 stay, as
    they are letters of no code and of no reserved name in either form. *)
Definition upper_ascii (c : ascii) : string :=
  if Ascii.eqb c "223" then "SS"
  else if between 97 122 c || (between 224 254 c && negb (Ascii.eqb c "247")) then ascii_of_nat (nat_of_ascii c - 32) ::: EmptyString
  else c ::: EmptyString.
Fixpoint str_upper (s : string) : string :=
  match s with EmptyString => EmptyString | c ::: r => upper_ascii c +:+ str_upper r end.

(** [repr] of a string. *)
Class Repr := { py_repr : string → string }.

(** [s.replace(p, "")] for a non-empty [p]; [fuel] is at least the length of [s]. *)
Fixpoint str_remove (fuel : nat) (p s : string) : string :=
  match fuel with
  | O => s
  | S k =>
      match s with
      | EmptyString => EmptyString
      | a ::: r =>
          if str_prefix p s then str_remove k p (str_drop (String.length p) s)
          else a ::: str_remove k p r
      end
  end.

Lemma str_app_nil_l (s : string) : EmptyString +:+ s = s.
Proof. done. Qed.

Lemma str_app_cons a (s t : string) : (a ::: s) +:+ t = a ::: (s +:+ t).
Proof. done. Qed.

#[export] Hint Rewrite str_app_nil_l str_app_cons : zync_rw.

Lemma str_app_assoc (a b c : string) : (a +:+ b) +:+ c = a +:+ (b +:+ c).
Proof. induction a as [|x a IH]; [done|]. by rewrite !str_app_cons, IH. Qed.

(** Concatenations to the right, literals to the front. *)
Ltac str_norm :=
  repeat first [rewrite str_app_assoc | rewrite str_app_cons | rewrite str_app_nil_l].
Tactic Notation "str_norm" "in" hyp(H) :=
  repeat first [rewrite str_app_assoc in H | rewrite str_app_cons in H
               | rewrite str_app_nil_l in H].

Lemma str_app_nil_r (a : string) : a +:+ EmptyString = a.
Proof. induction a as [|x a IH]; [done|]. by rewrite str_app_cons, IH. Qed.

Lemma str_length_app (a b : string) :
  String.length (a +:+ b) = (String.length a + String.length b)%nat.
Proof. induction a as [|x a IH]; [done|]. rewrite str_app_cons. simpl. by rewrite IH. Qed.

Lemma lower_ascii_idem a : lower_ascii (lower_ascii a) = lower_ascii a.
Proof. destruct a as [[] [] [] [] [] [] [] []]; reflexivity. Qed.

Lemma str_lower_idem s : str_lower (str_lower s) = str_lower s.
Proof. induction s as [|a s IH]; [done|]. unfold str_lower in *. cbn [str_map].
  by rewrite lower_ascii_idem, IH. Qed.

Lemma str_app_inj_l (a b c : string) : a +:+ b = a +:+ c → b = c.
Proof. induction a as [|x a IH]; [done|]. rewrite !str_app_cons. intros [= H]. auto. Qed.

(** Two concatenations whose heads have the same length agree part by part. *)
Lemma str_app_inj_len (a a' b b' : string) :
  String.length a = String.length a' → a +:+ b = a' +:+ b' → a = a' ∧ b = b'.
Proof.
  revert a'; induction a as [|x a IH]; intros [|y a'] Hl; simpl in Hl; try lia.
  - done.
  - rewrite !str_app_cons. intros [= -> H].
    destruct (IH a' ltac:(lia) H) as [-> ->]. done.
Qed.

Lemma str_mem_app c (s t : string) : str_mem c (s +:+ t) = str_mem c s || str_mem c t.
Proof.
  induction s as [|a s IH]; [done|]. rewrite str_app_cons. simpl.
  by rewrite IH, orb_assoc.
Qed.

(** ** Slices of texts *)

Lemma str_drop_nil n : str_drop n EmptyString = EmptyString.
Proof. by destruct n. Qed.
Lemma str_drop_drop m n s : str_drop m (str_drop n s) = str_drop (n + m) s.
Proof. revert s; induction n as [|n IH]; intros [|c s]; cbn; [done|done|by rewrite str_drop_nil|apply IH]. Qed.
Lemma str_drop_length n s : String.length (str_drop n s) = (String.length s - n)%nat.
Proof. revert s; induction n as [|n IH]; intros [|c s]; cbn; try lia. apply IH. Qed.
Lemma str_take_length n s : String.length (str_take n s) = Nat.min n (String.length s).
Proof. revert s; induction n as [|n IH]; intros [|c s]; cbn; try done. by rewrite IH. Qed.

Lemma str_drop_take n s : str_take n s +:+ str_drop n s = s.
Proof. revert s; induction n as [|n IH]; intros [|c s]; cbn; try done.
  by rewrite str_app_cons, IH.
Qed.
Lemma str_take_all n s : (String.length s ≤ n)%nat → str_take n s = s.
Proof.
  revert s; induction n as [|n IH]; intros [|c s]; cbn; intros H; try lia; try done.
  f_equal. apply IH. lia.
Qed.
Lemma str_take_app n s t : (n ≤ String.length s)%nat → str_take n (s +:+ t) = str_take n s.
Proof.
  revert s; induction n as [|n IH]; intros [|c s]; cbn; intros H; try lia; try done; try by destruct t.
  f_equal. apply IH. lia.
Qed.
Lemma str_drop_app n s t : (n ≤ String.length s)%nat → str_drop n (s +:+ t) = str_drop n s +:+ t.
Proof.
  revert s; induction n as [|n IH]; intros [|c s]; cbn; intros H; try lia; try done.
  apply IH. lia.
Qed.

Lemma take_then_take n m s : (n ≤ m)%nat → str_take n s +:+ str_take (m - n) (str_drop n s) = str_take m s.
Proof.
  revert m s; induction n as [|n IH]; intros m s Hm; [by rewrite Nat.sub_0_r|]. destruct m as [|m]; [lia|].
  destruct s as [|c s]; cbn; [by destruct (m - n)%nat|]. rewrite str_app_cons. f_equal. apply IH. lia.
Qed.

Lemma str_take_take n m s : (n ≤ m)%nat → str_take n (str_take m s) = str_take n s.
Proof.
  revert m s; induction n as [|n IH]; intros [|m] [|c s] H; cbn; try done; [lia|]. by rewrite IH by lia. Qed.
Lemma str_drop_all n s : (String.length s ≤ n)%nat → str_drop n s = EmptyString.
Proof.
  revert s; induction n as [|n IH]; intros [|c s]; cbn; intros H; try lia; try done. apply IH. lia.
Qed.

Lemma partition_app c (s t : string) :
  str_mem c s = false → partition c (s +:+ (c ::: t)) = (s, true, t).
Proof.
  induction s as [|a s IH]; intros H.
  - rewrite str_app_nil_l. simpl. by rewrite Ascii.eqb_refl.
  - simpl in H. apply orb_false_elim in H as [Ha H].
    rewrite str_app_cons. simpl. by rewrite Ha, IH.
Qed.

Lemma partition_none c (s : string) :
  str_mem c s = false → partition c s = (s, false, EmptyString).
Proof.
  induction s as [|a s IH]; simpl; intros H; [done|].
  apply orb_false_elim in H as [Ha H]. by rewrite Ha, IH.
Qed.

Lemma rpartition_none c (s : string) :
  str_mem c s = false → rpartition c s = (EmptyString, false, s).
Proof.
  induction s as [|a s IH]; simpl; intros H; [done|].
  apply orb_false_elim in H as [Ha H]. by rewrite Ha, IH.
Qed.

Lemma rpartition_app c (s t : string) :
  str_mem c t = false → rpartition c (s +:+ (c ::: t)) = (s, true, t).
Proof.
  intros Ht. induction s as [|a s IH].
  - rewrite str_app_nil_l. simpl. by rewrite rpartition_none, Ascii.eqb_refl.
  - rewrite str_app_cons. simpl. by rewrite IH.
Qed.

(** Splitting at the last or the first occurrence of a separator is injective. *)
Lemma rsplit_inj c (a b x y : string) :
  str_mem c x = false → str_mem c y = false → a +:+ (c ::: x) = b +:+ (c ::: y) → a = b ∧ x = y.
Proof. intros Hx Hy E. apply (f_equal (rpartition c)) in E. rewrite !rpartition_app in E by done. by injection E. Qed.

Lemma lsplit_inj c (a b x y : string) :
  str_mem c a = false → str_mem c b = false → a +:+ (c ::: x) = b +:+ (c ::: y) → a = b ∧ x = y.
Proof. intros Ha Hb E. apply (f_equal (partition c)) in E. rewrite !partition_app in E by done. by injection E. Qed.

Lemma NoDup_map_inj {A K} (key : A → K) (l : list A) x y :
  NoDup (map key l) → x ∈ l → y ∈ l → key x = key y → x = y.
Proof.
  induction l as [|z l IH]; cbn; intros Hd Hx Hy E; [by apply elem_of_nil in Hx|].
  apply NoDup_cons in Hd as [Hz Hd].
  apply elem_of_cons in Hx as [->|Hx], Hy as [->|Hy]; [done| | |by apply IH];
    exfalso; apply Hz; [rewrite E|rewrite <- E]; by apply list_elem_of_fmap_2.
Qed.

Lemma filter_elem {A} (p : A → bool) (l : list A) x :
  x ∈ List.filter p l ↔ x ∈ l ∧ p x = true.
Proof. by rewrite !list_elem_of_In, filter_In. Qed.

Lemma filter_single {A} (p : A → bool) (l : list A) x :
  List.filter p l = [x] → x ∈ l ∧ p x = true.
Proof. intros E. apply filter_elem. rewrite E. left. Qed.

Lemma filter_unique {A K} (key : A → K) (p : A → bool) (l : list A) x :
  NoDup (map key l) → x ∈ l → p x = true → (∀ y, p y = true → key y = key x) →
  List.filter p l = [x].
Proof.
  induction l as [|y l IH]; cbn; intros Hd Hin Hp Hk; [by apply elem_of_nil in Hin|].
  apply NoDup_cons in Hd as [Hy Hd]. apply elem_of_cons in Hin as [<-|Hin].
  - rewrite Hp. f_equal. destruct (List.filter p l) as [|z t] eqn:E; [done|exfalso].
    assert (z ∈ List.filter p l) as [Hz Hpz]%filter_elem by (rewrite E; left).
    apply Hy. rewrite <- (Hk z Hpz). by apply list_elem_of_fmap_2.
  - destruct (p y) eqn:Ey; [|by apply IH].
    exfalso. apply Hy. rewrite (Hk y Ey). by apply list_elem_of_fmap_2.
Qed.

Lemma filter_none {A} (p : A → bool) (l : list A) :
  (∀ x, x ∈ l → p x = false) → List.filter p l = [].
Proof.
  induction l as [|x l IH]; intros Hp; [done|]. cbn. rewrite (Hp x) by left. apply IH.
  intros y Hy. apply Hp. by right.
Qed.

Lemma filter_all {A} (p : A → bool) (l : list A) :
  (∀ x, x ∈ l → p x = true) → List.filter p l = l.
Proof.
  induction l as [|x l IH]; intros Hp; [done|]. cbn. rewrite (Hp x) by left. f_equal. apply IH.
  intros y Hy. apply Hp. by right.
Qed.

Lemma filter_filter {A} (p q : A → bool) (l : list A) :
  List.filter p (List.filter q l) = List.filter (λ x, q x && p x) l.
Proof.
  induction l as [|x l IH]; [done|]. cbn. destruct (q x); cbn; [|done]. by destruct (p x); rewrite IH.
Qed.

Lemma filter_map_same {A} (p : A → bool) (g : A → A) l :
  (∀ x, p (g x) = p x) → List.filter p (map g l) = map g (List.filter p l).
Proof.
  intros Hp. induction l as [|x l IH]; [done|]. cbn. rewrite Hp, IH. by destruct (p x).
Qed.

Lemma existsb_filter {A} (p q : A → bool) (l : list A) :
  existsb p (List.filter q l) = existsb (λ x, q x && p x) l.
Proof. induction l as [|x l IH]; [done|]. cbn. destruct (q x); cbn; by rewrite IH. Qed.

Lemma existsb_none {A} (p : A → bool) (l : list A) :
  (∀ x, x ∈ l → p x = false) → existsb p l = false.
Proof.
  induction l as [|x l IH]; intros Hp; [done|]. cbn. rewrite (Hp x) by left. apply IH.
  intros y Hy. apply Hp. by right.
Qed.

(** A predicate that at most one row satisfies. *)
Lemma filter_found {A K} (key : A → K) (p : A → bool) (l : list A) x :
  NoDup (map key l) → x ∈ l → p x = true → (∀ y, y ∈ l → p y = true → y = x) → List.filter p l = [x].
Proof.
  induction l as [|y l IH]; cbn; intros Hd Hin Hp Hk; [by apply elem_of_nil in Hin|].
  apply NoDup_cons in Hd as [Hy Hd].
  assert (Hl : y = x → List.filter p l = []).
  { intros ->. apply filter_none. intros z Hz. destruct (p z) eqn:E; [|done]. exfalso. apply Hy.
    rewrite <- (Hk z); [by apply list_elem_of_fmap_2|by right|done]. }
  apply elem_of_cons in Hin as [->|Hin].
  - by rewrite Hp, Hl.
  - destruct (p y) eqn:Ey.
    + assert (y = x) as <- by (apply Hk; [left|done]). by rewrite Hl.
    + apply IH; [done..|]. intros z Hz. apply Hk. by right.
Qed.

Lemma filter_at_most {A K} (key : A → K) (p : A → bool) (l : list A) :
  NoDup (map key l) → (∀ x y, x ∈ l → y ∈ l → p x = true → p y = true → y = x) →
  ∃ o, List.filter p l = option_list o.
Proof.
  intros Hd Hp. destruct (List.filter p l) as [|x r] eqn:E; [by exists None|].
  assert (x ∈ List.filter p l) as [Hx Hpx]%filter_elem by (rewrite E; left).
  exists (Some x). rewrite <- E. cbn. apply (filter_found key); auto.
Qed.

(** Python's [l[:n]]. *)
Definition slice_to {A} (n : Z) (l : list A) : list A :=
  if n <? 0 then take (Z.to_nat (Z.of_nat (length l) + n)) l else take (Z.to_nat n) l.

(** [sorted]: stable, by a comparison of the keys. *)
Section sort_by.
Context {A : Type} (le : A → A → bool).

Fixpoint insert_by (x : A) (l : list A) : list A :=
  match l with
  | [] => [x]
  | y :: r => if le x y then x :: l else y :: insert_by x r
  end.

Fixpoint sort_by (l : list A) : list A :=
  match l with [] => [] | x :: r => insert_by x (sort_by r) end.

Lemma insert_by_perm x l : insert_by x l ≡ₚ x :: l.
Proof.
  induction l as [|y l IH]; [done|]. cbn. destruct (le x y); [done|]. rewrite IH. apply Permutation_swap.
Qed.

Lemma sort_by_perm l : sort_by l ≡ₚ l.
Proof. induction l as [|x l IH]; [done|]. cbn. by rewrite insert_by_perm, IH. Qed.

Context (le_total : ∀ x y, le x y = true ∨ le y x = true).
Context (le_trans : ∀ x y z, le x y = true → le y z = true → le x z = true).

(** Smaller, or equal and earlier. *)
Definition sorted_before (P : A → A → Prop) (x y : A) : Prop := le x y = true ∧ (le y x = true → P x y).

Lemma insert_by_sorted P x l :
  StronglySorted (sorted_before P) l → Forall (P x) l → StronglySorted (sorted_before P) (insert_by x l).
Proof.
  induction 1 as [|y l Hl IH Hy]; intros Hx; [repeat constructor|]. cbn.
  rewrite Forall_cons in Hx. destruct Hx as [Hxy Hx]. destruct (le x y) eqn:E.
  - constructor; [by constructor|]. constructor; [by split|]. rewrite Forall_forall in *.
    intros z Hz. split; [|auto]. destruct (Hy z Hz). eauto.
  - constructor; [auto|]. apply Forall_forall. intros z. rewrite insert_by_perm, elem_of_cons.
    rewrite Forall_forall in Hy. intros [->|Hz]; [|auto].
    split; [|congruence]. destruct (le_total x y); [congruence|done].
Qed.

Lemma sort_by_sorted P l : StronglySorted P l → StronglySorted (sorted_before P) (sort_by l).
Proof.
  induction 1 as [|x l Hl IH Hx]; [constructor|]. cbn. apply insert_by_sorted; [done|].
  rewrite Forall_forall in *. intros y. rewrite sort_by_perm. auto.
Qed.
End sort_by.

Lemma sorted_weaken {A} (R S : A → A → Prop) l :
  (∀ x y, x ∈ l → y ∈ l → R x y → S x y) → StronglySorted R l → StronglySorted S l.
Proof.
  intros HRS. induction 1 as [|x l Hl IH Hx]; [constructor|]. constructor.
  - apply IH. intros a b Ha Hb. apply HRS; by right.
  - rewrite Forall_forall in *. intros y Hy. apply HRS; [left|by right|auto].
Qed.

Lemma forallb_Forall_true {A} (p : A → bool) l : forallb p l = true → Forall (λ x, p x = true) l.
Proof.
  induction l as [|x l IH]; cbn; [by constructor|]. intros [Hx Hl]%andb_true_iff. by constructor; auto.
Qed.

(** * Decimal numbers *)

(** [str(n)]. *)
Definition str_of_Z (z : Z) : string := NilZero.string_of_int (Z.to_int z).
(** [int(s)] on a canonical decimal numeral; [None] is [ValueError]. *)
Definition Z_of_str (s : string) : option Z := option_map Z.of_int (NilZero.int_of_string s).

Lemma to_uint_nonnil p : Pos.to_uint p ≠ Decimal.Nil.
Proof.
  intros E. pose proof (DecimalPos.Unsigned.of_to p) as H.
  rewrite E in H. discriminate.
Qed.

Lemma Z_of_str_of_Z z : Z_of_str (str_of_Z z) = Some z.
Proof.
  unfold Z_of_str, str_of_Z. rewrite NilZero.isi.
  - simpl. by rewrite DecimalZ.of_to.
  - destruct z; simpl; try discriminate. intros [= E]. by apply to_uint_nonnil in E.
  - destruct z; simpl; try discriminate. intros [= E]. by apply to_uint_nonnil in E.
Qed.

#[export] Hint Rewrite Z_of_str_of_Z : zync_rw.

Lemma str_of_Z_sep z c : c ∈ [":"%char; "|"%char; "_"%char] → str_mem c (str_of_Z z) = false.
Proof.
  intros Hc.
  assert (∀ d, str_mem c (NilEmpty.string_of_uint d) = false) as Hd.
  { repeat (apply elem_of_cons in Hc as [->|Hc]; [by intros d; induction d|]). by apply elem_of_nil in Hc. }
  unfold str_of_Z, NilZero.string_of_int, NilZero.string_of_uint.
  destruct (Z.to_int z) as [[]|[]];
    repeat (apply elem_of_cons in Hc as [->|Hc]; [apply Hd || (cbn; apply Hd) || done|]); by apply elem_of_nil in Hc.
Qed.

(** The [n] low decimal digits of [z], most significant first: [f"{z:0nd}"] for
    [z] below [10^n]. *)
Definition dec_digit (d : Z) : ascii := ascii_of_nat (Z.to_nat (48 + d)).
Fixpoint decn (n : nat) (z : Z) : string :=
  match n with
  | O => EmptyString
  | S k => dec_digit (z / 10 ^ Z.of_nat k mod 10) ::: decn k z
  end.

(** [int(s)]: white space around, a sign, digits with single underscores between
    them; [None] is [ValueError]. Canonical numerals take the short way. *)
Fixpoint int_digits (acc : Z) (need : bool) (s : string) : option Z :=
  match s with
  | EmptyString => if need then None else Some acc
  | c ::: r =>
      if is_digit c then int_digits (acc * 10 + (Z.of_nat (nat_of_ascii c) - 48)) false r
      else if Ascii.eqb c "_" && negb need then int_digits acc true r
      else None
  end.

Definition py_int (s : string) : option Z :=
  match Z_of_str s with
  | Some n => Some n
  | None =>
      match str_strip s with
      | c ::: r =>
          if Ascii.eqb c "-" then option_map Z.opp (int_digits 0 true r)
          else if Ascii.eqb c "+" then int_digits 0 true r
          else int_digits 0 true (c ::: r)
      | EmptyString => None
      end
  end.

Lemma py_int_of_Z z : py_int (str_of_Z z) = Some z.
Proof. unfold py_int. by rewrite Z_of_str_of_Z. Qed.

Example py_int_demo : py_int " +1_000" = Some 1000 ∧ py_int "1__0" = None ∧ py_int "" = None.
Proof. vm_compute. done. Qed.

Lemma dec_digit_not_space d : 0 ≤ d < 10 → is_space (dec_digit d) = false.
Proof.
  intros H. assert (d ∈ seqZ 0 10) as Hin by (apply elem_of_seqZ; lia).
  repeat (apply elem_of_cons in Hin as [->|Hin]; [done|]). by apply elem_of_nil in Hin.
Qed.

Lemma decn_no_space n z : str_exists is_space (decn n z) = false.
Proof.
  induction n as [|n IH]; [done|]. cbn [decn str_exists].
  rewrite dec_digit_not_space, IH; [done|]. apply Z.mod_pos_bound. lia.
Qed.

(** * Calendar

    The civil date (year, month, day) of a day count since 1970-01-01. *)
Definition civil_from_days (days : Z) : Z * Z * Z :=
  let z := days + 719468 in
  let era := z / 146097 in
  let doe := z mod 146097 in
  let yoe := (doe - doe / 1460 + doe / 36524 - doe / 146096) / 365 in
  let doy := doe - (365 * yoe + yoe / 4 - yoe / 100) in
  let mp := (5 * doy + 2) / 153 in
  let d := doy - (153 * mp + 2) / 5 + 1 in
  let m := if mp <? 10 then mp + 3 else mp - 9 in
  let y := yoe + era * 400 + (if m <=? 2 then 1 else 0) in
  (y, m, d).

(** [strftime("%Y%m%d%H")] of a UTC instant in microseconds. *)
Definition strftime_YmdH (us : Z) : string :=
  let hours := us / 3600000000 in
  let '(y, m, d) := civil_from_days (hours / 24) in
  decn 4 y +:+ decn 2 m +:+ decn 2 d +:+ decn 2 (hours mod 24).

(** [isoformat()] of a naive datetime, and of a UTC instant, in microseconds. *)
Definition isoformat_naive (us : Z) : string :=
  let '(y, m, d) := civil_from_days (us / 86400000000) in
  let t := us mod 86400000000 in
  let frac := t mod 1000000 in
  decn 4 y +:+ "-" +:+ decn 2 m +:+ "-" +:+ decn 2 d +:+ "T" +:+ decn 2 (t / 3600000000) +:+ ":"
  +:+ decn 2 (t / 60000000 mod 60) +:+ ":" +:+ decn 2 (t / 1000000 mod 60)
  +:+ (if frac =? 0 then EmptyString else "." +:+ decn 6 frac).
Definition isoformat_utc (us : Z) : string := isoformat_naive us +:+ "+00:00".

Example isoformat_demo : isoformat_utc 1767225599000005 = "2025-12-31T23:59:59.000005+00:00"%string.
Proof. vm_compute. reflexivity. Qed.

Example strftime_demo : strftime_YmdH 1767225599000000 = "2025123123"%string.
Proof. vm_compute. reflexivity. Qed.

(** * UUIDs: 128-bit integers, printed in the 8-4-4-4-12 form *)

Abbreviation uuid := Z (only parsing).
Definition uuid_wf (u : Z) : Prop := 0 ≤ u < 2 ^ 128.

Definition hex_digit (d : Z) : ascii :=
  ascii_of_nat (Z.to_nat (if d <? 10 then 48 + d else 87 + d)).

Definition hex_val (c : ascii) : option Z :=
  let n := Z.of_nat (nat_of_ascii c) in
  if is_digit c then Some (n - 48)
  else if (97 <=? n) && (n <=? 102) then Some (n - 87)
  else if (65 <=? n) && (n <=? 70) then Some (n - 55)
  else None.

(** The [n] low hexadecimal digits of [z], most significant first. *)
Fixpoint hexn (n : nat) (z : Z) : string :=
  match n with
  | O => EmptyString
  | S k => hex_digit (z / 16 ^ Z.of_nat k mod 16) ::: hexn k z
  end.

Fixpoint unhex (acc : Z) (s : string) : option Z :=
  match s with
  | EmptyString => Some acc
  | c ::: r => match hex_val c with Some d => unhex (acc * 16 + d) r | None => None end
  end.

(** [u.hex] and [str(u)]. *)
Definition uuid_hex (u : Z) : string := hexn 32 u.
Definition uuid_str (u : Z) : string :=
  hexn 8 (u / 16 ^ 24) +:+ "-" +:+ hexn 4 (u / 16 ^ 20) +:+ "-" +:+ hexn 4 (u / 16 ^ 16)
  +:+ "-" +:+ hexn 4 (u / 16 ^ 12) +:+ "-" +:+ hexn 12 u.

(** Hexadecimal digits with single underscores between them. *)
Fixpoint hex_digits (acc : Z) (need : bool) (s : string) : option Z :=
  match s with
  | EmptyString => if need then None else Some acc
  | c ::: r =>
      match hex_val c with
      | Some d => hex_digits (acc * 16 + d) false r
      | None => if Ascii.eqb c "_" && negb need then hex_digits acc true r else None
      end
  end.

(** [int(s, 16)] of a text without a minus sign: white space around, a plus sign, a
    [0x] and its underscore are allowed; [None] is [ValueError]. *)
Definition hex_int (s : string) : option Z :=
  match unhex 0 s with
  | Some n => Some n
  | None =>
      let s := str_strip s in
      let s := match s with c ::: r => if Ascii.eqb c "+" then r else s | EmptyString => s end in
      match s with
      | "0" ::: x ::: r =>
          if Ascii.eqb x "x" || Ascii.eqb x "X"
          then match r with
               | "_" ::: r' => hex_digits 0 true r'
               | _ => hex_digits 0 true r
               end
          else hex_digits 0 true s
      | _ => hex_digits 0 true s
      end
  end%char.

(** [UUID(hex=s)]: drops [urn:], [uuid:], outer braces and hyphens, then wants 32
    characters [int] reads in base 16; [None] is [ValueError]. *)
Definition uuid_parse (s : string) : option Z :=
  let s := str_remove (String.length s) "urn:" s in
  let s := str_remove (String.length s) "uuid:" s in
  let s := strip_by (λ c, Ascii.eqb c "{"%char || Ascii.eqb c "}"%char) s in
  let s := str_filter (λ c, negb (Ascii.eqb c "-"%char)) s in
  if (String.length s =? 32)%nat then hex_int s else None.

Example uuid_parse_demo : uuid_parse "{0000-0000-0000-0000-0000-0000-0000-00ff}" = Some 255 ∧
  uuid_parse "+0x_00000000000000000000000000ff" = Some 255 ∧
  uuid_parse "0000000000000000000000000000__ff" = None.
Proof. vm_compute. done. Qed.

Lemma hex_digit_val d : 0 ≤ d < 16 → hex_val (hex_digit d) = Some d.
Proof.
  intros H. assert (d ∈ seqZ 0 16) as Hin by (apply elem_of_seqZ; lia).
  repeat (apply elem_of_cons in Hin as [->|Hin]; [done|]). by apply elem_of_nil in Hin.
Qed.

(** A hexadecimal digit is none of the separators the code uses. *)
Lemma hex_digit_sep d c :
  0 ≤ d < 16 → c ∈ [":"%char; "|"%char; "{"%char; "}"%char; "-"%char; "*"%char; "?"%char; "["%char; "\"%char] →
  Ascii.eqb (hex_digit d) c = false.
Proof.
  intros H Hc. assert (d ∈ seqZ 0 16) as Hin by (apply elem_of_seqZ; lia).
  repeat (apply elem_of_cons in Hc as [->|Hc];
    [repeat (apply elem_of_cons in Hin as [->|Hin]; [done|]); by apply elem_of_nil in Hin|]).
  by apply elem_of_nil in Hc.
Qed.

Lemma hexn_length n z : String.length (hexn n z) = n.
Proof. induction n; simpl; auto. Qed.

Lemma hexn_sep n z c :
  c ∈ [":"%char; "|"%char; "{"%char; "}"%char; "-"%char; "*"%char; "?"%char; "["%char; "\"%char] → str_mem c (hexn n z) = false.
Proof.
  intros Hc. induction n as [|n IH]; [done|]. cbn [hexn str_mem].
  rewrite hex_digit_sep, IH; [done| |done]. apply Z.mod_pos_bound. lia.
Qed.

Lemma hexn_app m n z : hexn (m + n) z = hexn m (z / 16 ^ Z.of_nat n) +:+ hexn n z.
Proof.
  induction m as [|m IH]; [done|]. cbn [hexn plus]. rewrite str_app_cons, IH. do 3 f_equal.
  rewrite Z.div_div by lia. f_equal.
  rewrite <- Z.pow_add_r by lia. f_equal. lia.
Qed.

Lemma unhex_hexn n z acc : unhex acc (hexn n z) = Some (acc * 16 ^ Z.of_nat n + z mod 16 ^ Z.of_nat n).
Proof.
  revert acc; induction n as [|n IH]; intros acc; cbn [hexn unhex].
  - f_equal. rewrite Z.mod_1_r. lia.
  - rewrite hex_digit_val by (apply Z.mod_pos_bound; lia). rewrite IH. f_equal.
    rewrite Nat2Z.inj_succ, Z.pow_succ_r by lia.
    rewrite (Z.mul_comm 16 (16 ^ _)), Z.rem_mul_r by lia. ring.
Qed.

Lemma str_prefix_no c p s : str_mem c p = true → str_mem c s = false → str_prefix p s = false.
Proof.
  revert s; induction p as [|a p IH]; intros [|b s]; simpl; try done.
  intros Hp Hs. apply orb_false_elim in Hs as [Hb Hs].
  destruct (Ascii.eqb_spec a b) as [->|]; [|done]. rewrite Hb in Hp. simpl in *. auto.
Qed.

Lemma str_remove_id c k p s : str_mem c p = true → str_mem c s = false → str_remove k p s = s.
Proof.
  intros Hp. revert s; induction k as [|k IH]; intros [|a s] Hs; try done.
  cbn [str_remove]. rewrite (str_prefix_no c) by done.
  simpl in Hs. apply orb_false_elim in Hs as [_ Hs]. by rewrite IH.
Qed.

Lemma strip_by_id p s : str_exists p s = false → strip_by p s = s.
Proof.
  intros H. unfold strip_by.
  assert (lstrip_by p s = s) as ->.
  { destruct s as [|a s]; [done|]. simpl in *. by apply orb_false_elim in H as [-> _]. }
  induction s as [|a s IH]; [done|]. simpl in H. apply orb_false_elim in H as [Ha H].
  cbn [rstrip_by]. rewrite IH by done. destruct s; [by rewrite Ha|done].
Qed.

Lemma str_exists_app p s t : str_exists p (s +:+ t) = str_exists p s || str_exists p t.
Proof. induction s as [|a s IH]; [done|]. rewrite str_app_cons. simpl. by rewrite IH, orb_assoc. Qed.

Lemma str_exists_mem2 c d s :
  str_exists (λ x, Ascii.eqb x c || Ascii.eqb x d) s = str_mem c s || str_mem d s.
Proof. induction s as [|a s IH]; [done|]. simpl. rewrite IH. repeat destruct (Ascii.eqb a _); simpl; by rewrite ?orb_true_r. Qed.

Lemma str_filter_app p s t : str_filter p (s +:+ t) = str_filter p s +:+ str_filter p t.
Proof. induction s as [|a s IH]; [done|]. rewrite str_app_cons. simpl. by destruct (p a); rewrite IH. Qed.

Lemma str_filter_not_mem c s :
  str_mem c s = false → str_filter (λ x, negb (Ascii.eqb x c)) s = s.
Proof.
  induction s as [|a s IH]; [done|]. simpl. intros [-> H]%orb_false_elim. simpl. by rewrite IH.
Qed.

Lemma uuid_str_filter u :
  str_filter (λ c, negb (Ascii.eqb c "-"%char)) (uuid_str u) = uuid_hex u.
Proof.
  unfold uuid_str, uuid_hex. rewrite !str_filter_app. cbn [str_filter Ascii.eqb Bool.eqb negb].
  rewrite !str_filter_not_mem by (apply hexn_sep; repeat constructor). rewrite !str_app_nil_l.
  change 32%nat with (8 + 24)%nat. rewrite hexn_app. f_equal.
  change 24%nat with (4 + 20)%nat. rewrite hexn_app. f_equal.
  change 20%nat with (4 + 16)%nat. rewrite hexn_app. f_equal.
  change 16%nat with (4 + 12)%nat. rewrite hexn_app. by f_equal.
Qed.

Lemma uuid_str_sep u c :
  c ∈ [":"%char; "|"%char; "{"%char; "}"%char; "*"%char; "?"%char; "["%char; "\"%char] → str_mem c (uuid_str u) = false.
Proof.
  intros Hc. unfold uuid_str.
  repeat (apply elem_of_cons in Hc as [->|Hc];
    [by rewrite !str_mem_app, !hexn_sep by (repeat constructor)|]).
  by apply elem_of_nil in Hc.
Qed.

Lemma uuid_str_length u : String.length (uuid_str u) = 36%nat.
Proof. unfold uuid_str. by rewrite !str_length_app, !hexn_length. Qed.

Lemma uuid_hex_parse u : uuid_wf u → hex_int (uuid_hex u) = Some u.
Proof.
  intros [H0 H1]. unfold hex_int, uuid_hex. rewrite unhex_hexn. f_equal.
  rewrite Z.mod_small; [lia|]. split; [done|].
  replace (16 ^ Z.of_nat 32) with (2 ^ 128) by done. done.
Qed.

Lemma uuid_parse_clean s :
  str_mem ":" s = false → str_mem "{" s = false → str_mem "}" s = false →
  uuid_parse s =
    let s := str_filter (λ c, negb (Ascii.eqb c "-"%char)) s in
    if (String.length s =? 32)%nat then hex_int s else None.
Proof.
  intros H1 H2 H3. unfold uuid_parse.
  rewrite (str_remove_id ":"%char _ "urn:") by done.
  rewrite (str_remove_id ":"%char _ "uuid:") by done.
  rewrite strip_by_id; [done|]. by rewrite str_exists_mem2, H2, H3.
Qed.

Lemma uuid_parse_str u : uuid_wf u → uuid_parse (uuid_str u) = Some u.
Proof.
  intros H. rewrite uuid_parse_clean by (apply uuid_str_sep; repeat constructor).
  rewrite uuid_str_filter. cbv zeta. unfold uuid_hex at 1. rewrite hexn_length.
  by apply uuid_hex_parse.
Qed.

Lemma uuid_parse_hex u : uuid_wf u → uuid_parse (uuid_hex u) = Some u.
Proof.
  intros H. unfold uuid_hex.
  rewrite uuid_parse_clean by (apply hexn_sep; repeat constructor).
  rewrite str_filter_not_mem by (apply hexn_sep; repeat constructor).
  cbv zeta. rewrite hexn_length. by apply uuid_hex_parse.
Qed.

Lemma hex_val_range c d : hex_val c = Some d → 0 ≤ d < 16.
Proof. destruct c as [[] [] [] [] [] [] [] []]; vm_compute; intros [= <-]; split; congruence. Qed.

(** [k] digits read so far and [n] characters left stay below [16 ^ (k + n)]. *)
Lemma digit_bound acc d k n :
  0 ≤ acc < 16 ^ Z.of_nat k → 0 ≤ d < 16 →
  0 ≤ acc * 16 + d < 16 ^ Z.of_nat (S k) ∧ Z.of_nat (S k + n) = Z.of_nat (k + S n).
Proof. intros. split; [|lia]. rewrite Nat2Z.inj_succ, Z.pow_succ_r by lia. lia. Qed.

Lemma unhex_bound s : ∀ acc k n,
  0 ≤ acc < 16 ^ Z.of_nat k → unhex acc s = Some n → 0 ≤ n < 16 ^ Z.of_nat (k + String.length s).
Proof.
  induction s as [|c s IH]; intros acc k n Ha; cbn [unhex String.length].
  - intros [= <-]. by rewrite Nat.add_0_r.
  - destruct (hex_val c) as [d|] eqn:Hd; [|done]. intros Hn. apply hex_val_range in Hd.
    destruct (digit_bound acc d k (String.length s) Ha Hd) as [Hb <-]. by eapply IH.
Qed.

Lemma hex_digits_bound s : ∀ acc need k n,
  0 ≤ acc < 16 ^ Z.of_nat k → hex_digits acc need s = Some n → 0 ≤ n < 16 ^ Z.of_nat (k + String.length s).
Proof.
  induction s as [|c s IH]; intros acc need k n Ha; cbn [hex_digits String.length].
  - destruct need; [done|]. intros [= <-]. by rewrite Nat.add_0_r.
  - destruct (hex_val c) as [d|] eqn:Hd.
    + intros Hn. apply hex_val_range in Hd.
      destruct (digit_bound acc d k (String.length s) Ha Hd) as [Hb <-]. by eapply IH.
    + destruct (_ && _); [|done]. intros Hn. apply (IH _ _ k) in Hn; [|done].
      split; [lia|]. eapply Z.lt_le_trans; [apply Hn|]. apply Z.pow_le_mono_r; lia.
Qed.

Lemma hex_digits_below s need n k :
  hex_digits 0 need s = Some n → (String.length s ≤ k)%nat → 0 ≤ n < 16 ^ Z.of_nat k.
Proof.
  intros Hn Hk. apply (hex_digits_bound s 0 need 0) in Hn; [|done]. split; [lia|].
  eapply Z.lt_le_trans; [apply Hn|]. apply Z.pow_le_mono_r; lia.
Qed.

Lemma rstrip_by_length p s : (String.length (rstrip_by p s) ≤ String.length s)%nat.
Proof. induction s as [|a s IH]; [done|]. cbn [rstrip_by]. repeat case_match; cbn in *; lia. Qed.

Lemma lstrip_by_length p s : (String.length (lstrip_by p s) ≤ String.length s)%nat.
Proof. induction s as [|a s IH]; [done|]. cbn [lstrip_by]. case_match; cbn in *; lia. Qed.

(** What [UUID] accepts fits in 128 bits. *)
Lemma uuid_parse_wf s u : uuid_parse s = Some u → uuid_wf u.
Proof.
  unfold uuid_parse. cbv zeta. set (t := str_filter _ _).
  destruct (Nat.eqb_spec (String.length t) 32) as [Hl|]; [|done]. intros H.
  change (0 ≤ u < 16 ^ Z.of_nat 32). rewrite <- Hl. unfold hex_int in H. cbv zeta in H.
  destruct (unhex 0 t) as [m|] eqn:E; [injection H as <-; by apply (unhex_bound t 0 0)|].
  assert (String.length (str_strip t) ≤ String.length t)%nat as Hs.
  { unfold str_strip, strip_by. etrans; [apply rstrip_by_length|apply lstrip_by_length]. }
  revert H Hs. generalize (str_strip t). intros w H Hs.
  repeat case_match; simplify_eq; (eapply hex_digits_below; [exact H|]); cbn [String.length] in *; lia.
Qed.

Lemma uuid_str_inj u v : uuid_wf u → uuid_wf v → uuid_str u = uuid_str v → u = v.
Proof.
  intros Hu Hv E. assert (Some u = Some v) as [= ->]; [|done].
  by rewrite <- (uuid_parse_str u), <- (uuid_parse_str v), E.
Qed.
