(* ===== verification/Errors.v ===== *)
(** Exceptions: the [AppError] hierarchy of core/exceptions.py with its status
    codes, codes and subclass relation, the builtin and library exceptions the
    modelled code meets, and the HTTP status each one becomes. *)
From S2P Require Import Prelude.

(** The classes of core/exceptions.py, [AppError] first. *)
Inductive app_kind :=
| AppError | NotFoundError | ValidationError | AuthenticationError | AuthorizationError
| ConflictError | RateLimitError | ExternalServiceError | LLMConfigurationError
| PayloadTooLargeError | EntityNotFoundError | EdgeNotFoundError | EpisodeNotFoundError
| GraphTimeoutError | LLMStructuredOutputError | ServiceUnavailableError
| CacheUnavailableError | GraphBackendUnavailableError | RateLimitUnavailableError
| MetricsUnavailableError | DatabaseUnavailableError | SearchLegFailedError | GoneError
| CursorExpiredError | PIIUnavailableError.

#[export] Instance app_kind_eq_dec : EqDecision app_kind.
Proof. solve_decision. Defined.

(** The direct base class inside the hierarchy. *)
Definition app_base (k : app_kind) : option app_kind :=
  match k with
  | AppError => None
  | LLMStructuredOutputError | PIIUnavailableError => Some ExternalServiceError
  | CacheUnavailableError | GraphBackendUnavailableError | RateLimitUnavailableError
  | MetricsUnavailableError | DatabaseUnavailableError | SearchLegFailedError =>
      Some ServiceUnavailableError
  | CursorExpiredError => Some ValidationError
  | _ => Some AppError
  end.

(** The class attribute [status_code], inherited where a class does not set it. *)
Definition status_code (k : app_kind) : Z :=
  match k with
  | AppError => 500
  | NotFoundError | EntityNotFoundError | EdgeNotFoundError | EpisodeNotFoundError => 404
  | ValidationError => 422
  | AuthenticationError => 401
  | AuthorizationError => 403
  | ConflictError => 409
  | RateLimitError => 429
  | ExternalServiceError | LLMConfigurationError | LLMStructuredOutputError => 502
  | PayloadTooLargeError => 413
  | GraphTimeoutError => 504
  | GoneError => 410
  | CursorExpiredError => 400
  | ServiceUnavailableError | CacheUnavailableError | GraphBackendUnavailableError
  | RateLimitUnavailableError | MetricsUnavailableError | DatabaseUnavailableError
  | SearchLegFailedError | PIIUnavailableError => 503
  end.

(** [isinstance] between the classes: [k] is [k'] or inherits from it (three levels). *)
Definition app_isinstance (k k' : app_kind) : bool :=
  bool_decide (k = k')
  || match app_base k with
     | None => false
     | Some b =>
         bool_decide (b = k')
         || match app_base b with None => false | Some c => bool_decide (c = k') end
     end.

(** The classes that also inherit from the builtin [ValueError]. *)
Definition app_is_value_error (k : app_kind) : bool :=
  match k with GoneError | CursorExpiredError => true | _ => false end.

(** The exceptions of httpx the code tells apart, each a [RequestError]. *)
Inductive httpx_kind := ConnectError | TimeoutException | OtherRequestError.

(** The classes of core/openbao_exceptions.py, [OpenBaoError] first. *)
Inductive openbao_kind :=
| OpenBaoError | OpenBaoConnectionError | OpenBaoAuthError | OpenBaoSecretNotFoundError
| OpenBaoNamespaceError | OpenBaoRateLimitError.

(** Every exception the modelled code raises or lets through. *)
Inductive exn :=
| AppExc (k : app_kind) (msg : string)
| HTTPException (status : Z) (title : string)
| ValueError (msg : string)
| TypeError (msg : string)
| KeyError (msg : string)
| IndexError
| RuntimeError (msg : string)
| IntegrityError
| MultipleResultsFound
| RedisError (msg : string)
| DatabaseError (msg : string)
| HttpxError (k : httpx_kind)
| OpenBaoExc (k : openbao_kind) (msg : string)
| Retry (defer_us : Z)
| CancelledError.

(** [except ValueError] catches this. *)
Definition is_value_error (e : exn) : bool :=
  match e with
  | AppExc k _ => app_is_value_error k
  | ValueError _ => true
  | _ => false
  end.

(** [except SQLAlchemyError] catches this. *)
Definition is_sqlalchemy_error (e : exn) : bool :=
  match e with DatabaseError _ | IntegrityError | MultipleResultsFound => true | _ => false end.

(** [except IntegrityError] catches this. *)
Definition is_integrity (e : exn) : bool := match e with IntegrityError => true | _ => false end.

(** [except Exception] catches everything but [asyncio.CancelledError]. *)
Definition is_exception (e : exn) : bool :=
  match e with CancelledError => false | _ => true end.

(** The table [register_exception_handlers] builds. *)
Definition handlers : list (app_kind * Z) :=
  [ (NotFoundError, 404); (ValidationError, 422); (CursorExpiredError, 400);
    (AuthenticationError, 401); (AuthorizationError, 403); (ConflictError, 409);
    (RateLimitError, 429); (ExternalServiceError, 502); (PIIUnavailableError, 503);
    (LLMConfigurationError, 502); (PayloadTooLargeError, 413); (EntityNotFoundError, 404);
    (EdgeNotFoundError, 404); (EpisodeNotFoundError, 404); (GraphTimeoutError, 504);
    (GoneError, 410); (ServiceUnavailableError, 503); (CacheUnavailableError, 503);
    (GraphBackendUnavailableError, 503); (RateLimitUnavailableError, 503);
    (MetricsUnavailableError, 503); (DatabaseUnavailableError, 503);
    (SearchLegFailedError, 503) ].

(** The status of the response an exception that leaves a handler becomes:
    [_to_problem_json] for the hierarchy (every class has a handler, the base one
    at least), the status an [HTTPException] carries, 500 for anything else. *)
Definition http_status (e : exn) : Z :=
  match e with
  | AppExc k _ => status_code k
  | HTTPException st _ => st
  | _ => 500
  end.

(** The [Retry-After] header of [_to_problem_json]. *)
Definition PII_RETRY_AFTER_SECONDS : Z := 30.
Definition retry_after_header (k : app_kind) : option Z :=
  if decide (k = PIIUnavailableError) then Some PII_RETRY_AFTER_SECONDS else None.

(** The status the handler table announces is the one the problem body carries. *)
Lemma handlers_agree : Forall (λ '(k, st), status_code k = st) handlers.
Proof. repeat constructor. Qed.
