(* ===== verification/Json.v ===== *)
(** The [json] module of the standard library: [dumps] with its default
    separators and [ensure_ascii], and [loads]. A text is a sequence of code
    points below 256; a number with a fraction or an exponent keeps its literal. *)
From S2P Require Import Prelude.
Open Scope Z_scope.

#[warnings="-register-all"]
Inductive json :=
| JNull
| JBool (b : bool)
| JInt (z : Z)
| JFloat (literal : string)
| JStr (s : string)
| JList (l : list json)
| JObj (l : list (string * json)).

Fixpoint json_eqb (a b : json) : bool :=
  match a, b with
  | JNull, JNull => true
  | JBool x, JBool y => Bool.eqb x y
  | JInt x, JInt y => x =? y
  | JFloat x, JFloat y | JStr x, JStr y => (x =? y)%string
  | JList l, JList l' =>
      (fix go l l' := match l, l' with
                      | [], [] => true
                      | x :: r, y :: r' => json_eqb x y && go r r'
                      | _, _ => false
                      end) l l'
  | JObj l, JObj l' =>
      (fix go l l' := match l, l' with
                      | [], [] => true
                      | (k, x) :: r, (k', y) :: r' => (k =? k')%string && json_eqb x y && go r r'
                      | _, _ => false
                      end) l l'
  | _, _ => false
  end.

Lemma json_eqb_eq : ∀ a b, json_eqb a b = true → a = b.
Proof.
  fix IH 1. intros [|x|x|x|x|l|l] [|y|y|y|y|l'|l']; cbn; try done.
  - by intros ->%Bool.eqb_prop.
  - by intros ->%Z.eqb_eq.
  - by intros ->%String.eqb_eq.
  - by intros ->%String.eqb_eq.
  - intros E. f_equal. revert l' E. induction l as [|x l IHl]; intros [|y l'] E; try done.
    apply andb_true_iff in E as [E1 E2]. f_equal; [by apply IH|by apply IHl].
  - intros E. f_equal. revert l' E. induction l as [|[k x] l IHl]; intros [|[k' y] l'] E; try done.
    apply andb_true_iff in E as [E1 E2]. apply andb_true_iff in E1 as [->%String.eqb_eq E1].
    f_equal; [f_equal; by apply IH|by apply IHl].
Qed.

Lemma json_eqb_refl : ∀ a, json_eqb a a = true.
Proof.
  fix IH 1. intros [|x|x|x|x|l|l]; cbn; [done|by destruct x|apply Z.eqb_refl|apply String.eqb_refl..| |].
  - induction l as [|x l IHl]; [done|]. by rewrite IH, IHl.
  - induction l as [|[k x] l IHl]; [done|]. by rewrite String.eqb_refl, IH, IHl.
Qed.

#[export] Instance json_eq_dec : EqDecision json.
Proof.
  intros a b. destruct (json_eqb a b) eqn:E; [left; by apply json_eqb_eq|].
  right. intros ->. by rewrite json_eqb_refl in E.
Defined.

Definition dquote : ascii := "034"%char.
Definition backslash : ascii := "092"%char.
Definition code (c : ascii) : Z := Z.of_nat (nat_of_ascii c).

(** * Printing *)

(** One code point of a string literal. *)
Definition esc (c : ascii) : string :=
  if Ascii.eqb c dquote then backslash ::: dquote ::: EmptyString
  else if Ascii.eqb c backslash then backslash ::: backslash ::: EmptyString
  else if code c =? 10 then backslash ::: "n"
  else if code c =? 13 then backslash ::: "r"
  else if code c =? 9 then backslash ::: "t"
  else if code c =? 12 then backslash ::: "f"
  else if code c =? 8 then backslash ::: "b"
  else if (32 <=? code c) && (code c <=? 126) then c ::: EmptyString
  else backslash ::: "u" +:+ hexn 4 (code c).

Fixpoint esc_str (s : string) : string :=
  match s with
  | EmptyString => EmptyString
  | c ::: r => esc c +:+ esc_str r
  end.

Definition quote (s : string) : string := dquote ::: (esc_str s +:+ (dquote ::: EmptyString)).

Fixpoint dumps (j : json) : string :=
  match j with
  | JNull => "null"
  | JBool true => "true"
  | JBool false => "false"
  | JInt z => str_of_Z z
  | JFloat f => f
  | JStr s => quote s
  | JList [] => "[]"
  | JList (v :: r) =>
      "[" +:+ dumps v +:+ (fix go l := match l with
                                      | [] => "]"
                                      | w :: t => ", " +:+ dumps w +:+ go t
                                      end) r
  | JObj [] => "{}"
  | JObj ((k, v) :: r) =>
      "{" +:+ quote k +:+ ": " +:+ dumps v
      +:+ (fix go l := match l with
                       | [] => "}"
                       | (k', w) :: t => ", " +:+ quote k' +:+ ": " +:+ dumps w +:+ go t
                       end) r
  end.

(** * Parsing *)

Definition push (c : ascii) (r : option (string * string)) : option (string * string) :=
  match r with Some (s, t) => Some (c ::: s, t) | None => None end.

Definition simple_escape (c : ascii) : option ascii :=
  if Ascii.eqb c dquote then Some dquote
  else if Ascii.eqb c backslash then Some backslash
  else if Ascii.eqb c "/" then Some "/"%char
  else if Ascii.eqb c "b" then Some "008"%char
  else if Ascii.eqb c "f" then Some "012"%char
  else if Ascii.eqb c "n" then Some "010"%char
  else if Ascii.eqb c "r" then Some "013"%char
  else if Ascii.eqb c "t" then Some "009"%char
  else None.

(** The rest of a string literal after its opening quote; control characters must
    be escaped. *)
Fixpoint scan_str (s : string) : option (string * string) :=
  match s with
  | EmptyString => None
  | c ::: r =>
      if Ascii.eqb c dquote then Some (EmptyString, r)
      else if Ascii.eqb c backslash then
        match r with
        | e ::: r1 =>
            if Ascii.eqb e "u" then
              match r1 with
              | x1 ::: x2 ::: x3 ::: x4 ::: r2 =>
                  match unhex 0 (x1 ::: x2 ::: x3 ::: x4 ::: EmptyString) with
                  | Some n => if n <? 256 then push (ascii_of_nat (Z.to_nat n)) (scan_str r2) else None
                  | None => None
                  end
              | _ => None
              end
            else match simple_escape e with
                 | Some x => push x (scan_str r1)
                 | None => None
                 end
        | EmptyString => None
        end
      else if code c <? 32 then None
      else push c (scan_str r)
  end.

Definition json_ws (c : ascii) : bool :=
  (code c =? 32) || (code c =? 9) || (code c =? 10) || (code c =? 13).

Definition skip_ws (s : string) : string := lstrip_by json_ws s.

Fixpoint scan_digits (s : string) : string * string :=
  match s with
  | c ::: r => if is_digit c then let '(d, t) := scan_digits r in (c ::: d, t) else (EmptyString, s)
  | EmptyString => (EmptyString, EmptyString)
  end.

(** An optional fraction or exponent: its text (empty when absent) and the rest. *)
Definition scan_frac (s : string) : string * string :=
  match s with
  | c ::: r =>
      if Ascii.eqb c "." then
        match scan_digits r with
        | (EmptyString, _) => (EmptyString, s)
        | (d, t) => (c ::: d, t)
        end
      else (EmptyString, s)
  | EmptyString => (EmptyString, s)
  end.

Definition scan_exp (s : string) : string * string :=
  match s with
  | c ::: r =>
      if Ascii.eqb c "e" || Ascii.eqb c "E" then
        let '(sign, r1) := match r with
                           | g ::: r' => if Ascii.eqb g "+" || Ascii.eqb g "-"
                                         then (g ::: EmptyString, r') else (EmptyString, r)
                           | EmptyString => (EmptyString, r)
                           end in
        match scan_digits r1 with
        | (EmptyString, _) => (EmptyString, s)
        | (d, t) => (c ::: (sign +:+ d), t)
        end
      else (EmptyString, s)
  | EmptyString => (EmptyString, s)
  end.

Definition scan_number (s : string) : option (json * string) :=
  let '(sign, r) := match s with
                    | c ::: r => if Ascii.eqb c "-" then (c ::: EmptyString, r) else (EmptyString, s)
                    | EmptyString => (EmptyString, s)
                    end in
  let '(int, r1) := match r with
                    | c ::: r' => if Ascii.eqb c "0" then (c ::: EmptyString, r') else scan_digits r
                    | EmptyString => (EmptyString, r)
                    end in
  match int with
  | EmptyString => None
  | _ =>
      let '(frac, r2) := scan_frac r1 in
      let '(exp, r3) := scan_exp r2 in
      match frac, exp with
      | EmptyString, EmptyString =>
          match Z_of_str (sign +:+ int) with Some z => Some (JInt z, r3) | None => None end
      | _, _ => Some (JFloat (sign +:+ int +:+ frac +:+ exp), r3)
      end
  end.

(** A literal keyword at the head of the text. *)
Definition keyword (s : string) : option (json * string) :=
  if str_prefix "null" s then Some (JNull, str_drop 4 s)
  else if str_prefix "true" s then Some (JBool true, str_drop 4 s)
  else if str_prefix "false" s then Some (JBool false, str_drop 5 s)
  else if str_prefix "NaN" s then Some (JFloat "NaN", str_drop 3 s)
  else if str_prefix "Infinity" s then Some (JFloat "Infinity", str_drop 8 s)
  else if str_prefix "-Infinity" s then Some (JFloat "-Infinity", str_drop 9 s)
  else None.

(** [d[k] = v] on an insertion-ordered dict. *)
Fixpoint dict_set (k : string) (v : json) (l : list (string * json)) : list (string * json) :=
  match l with
  | [] => [(k, v)]
  | (k', v') :: r => if String.eqb k k' then (k', v) :: r else (k', v') :: dict_set k v r
  end.

(** The text after the character [c], when it comes first. *)
Definition eat (c : ascii) (s : string) : option string :=
  match s with
  | d ::: r => if Ascii.eqb d c then Some r else None
  | EmptyString => None
  end.

Fixpoint parse (fuel : nat) (s : string) {struct fuel} : option (json * string) :=
  match fuel, s with
  | O, _ | _, EmptyString => None
  | S n, c ::: r =>
      if Ascii.eqb c dquote then
        match scan_str r with Some (x, t) => Some (JStr x, t) | None => None end
      else if Ascii.eqb c "[" then
        match eat "]" (skip_ws r) with
        | Some t => Some (JList [], t)
        | None =>
            match parse_items n (skip_ws r) with
            | Some (l, t) => Some (JList l, t)
            | None => None
            end
        end
      else if Ascii.eqb c "{" then
        match eat "}" (skip_ws r) with
        | Some t => Some (JObj [], t)
        | None =>
            match parse_members n [] (skip_ws r) with
            | Some (l, t) => Some (JObj l, t)
            | None => None
            end
        end
      else match keyword s with Some x => Some x | None => scan_number s end
  end
with parse_items (fuel : nat) (s : string) {struct fuel} : option (list json * string) :=
  match fuel with
  | O => None
  | S n =>
      match parse n s with
      | None => None
      | Some (v, t) =>
          match eat "]" (skip_ws t), eat "," (skip_ws t) with
          | Some t', _ => Some ([v], t')
          | _, Some t' =>
              match parse_items n (skip_ws t') with
              | Some (l, t'') => Some (v :: l, t'')
              | None => None
              end
          | _, _ => None
          end
      end
  end
with parse_members (fuel : nat) (acc : list (string * json)) (s : string) {struct fuel} :
    option (list (string * json) * string) :=
  match fuel with
  | O => None
  | S n =>
      match eat dquote s ≫= scan_str with
      | None => None
      | Some (k, t) =>
          match eat ":" (skip_ws t) with
          | None => None
          | Some t1 =>
              match parse n (skip_ws t1) with
              | None => None
              | Some (v, t2) =>
                  let acc' := dict_set k v acc in
                  match eat "}" (skip_ws t2), eat "," (skip_ws t2) with
                  | Some t3, _ => Some (acc', t3)
                  | _, Some t3 => parse_members n acc' (skip_ws t3)
                  | _, _ => None
                  end
              end
          end
      end
  end.

(** [json.loads(s)]; [None] is [JSONDecodeError], a [ValueError]. A value takes at
    most two parser calls per character, so the fuel is never the reason. *)
Definition loads (s : string) : option json :=
  match parse (S (2 * String.length s)) (skip_ws s) with
  | Some (v, t) => match skip_ws t with EmptyString => Some v | _ => None end
  | None => None
  end.

(** [bool(v)]: a number is false when no digit of its mantissa is other than 0. *)
Definition truthy (v : json) : bool :=
  match v with
  | JNull => false
  | JBool b => b
  | JInt z => negb (z =? 0)
  | JFloat f =>
      let '(m, _, _) := partition "e" f in
      let '(m, _, _) := partition "E" m in
      negb (str_exists is_digit f) || str_exists (λ c, is_digit c && negb (Ascii.eqb c "0")) m
  | JStr s => match s with EmptyString => false | _ => true end
  | JList l => match l with [] => false | _ => true end
  | JObj l => match l with [] => false | _ => true end
  end.

(** [d[key]]; [None] is [KeyError]. *)
Fixpoint obj_get (key : string) (l : list (string * json)) : option json :=
  match l with
  | [] => None
  | (k, v) :: r => if (k =? key)%string then Some v else obj_get key r
  end.

(** [d.update(config)], entry by entry. *)
Fixpoint obj_set (key : string) (v : json) (l : list (string * json)) : list (string * json) :=
  match l with
  | [] => [(key, v)]
  | (k, w) :: r => if (k =? key)%string then (k, v) :: r else (k, w) :: obj_set key v r
  end.
Definition obj_update (config l : list (string * json)) : list (string * json) :=
  fold_left (λ acc kv, obj_set kv.1 kv.2 acc) config l.

(** [d.pop(key, None)]. *)
Definition obj_del (key : string) : list (string * json) → list (string * json) :=
  List.filter (λ kv, negb (kv.1 =? key)%string).

(** [d.get(key)] of a dict. *)
Definition dict_get (key : string) : list (string * json) → json :=
  fix go l := match l with
              | [] => JNull
              | (k, v) :: r => if (k =? key)%string then v else go r
              end.

(** * The round trip *)

Lemma scan_esc c t : scan_str (esc c +:+ t) = push c (scan_str t).
Proof. destruct c as [[] [] [] [] [] [] [] []]; reflexivity. Qed.

Lemma scan_quoted s t : scan_str (esc_str s +:+ (dquote ::: t)) = Some (s, t).
Proof.
  induction s as [|c s IH]; [done|]. cbn [esc_str]. by rewrite str_app_assoc, scan_esc, IH.
Qed.

(** Values without numbers whose objects have distinct keys. *)
Fixpoint printable (j : json) : bool :=
  match j with
  | JInt _ | JFloat _ => false
  | JList l => forallb printable l
  | JObj l => bool_decide (NoDup (map fst l)) && forallb (λ kv, printable kv.2) l
  | _ => true
  end.

Lemma skip_ws_head c s : json_ws c = false → skip_ws (c ::: s) = c ::: s.
Proof. intros H. unfold skip_ws. cbn. by rewrite H. Qed.

(** Parsing undoes printing whatever text follows, given fuel. *)
Definition parses (v : json) : Prop :=
  ∀ n t, (2 * String.length (dumps v) < n)%nat → parse n (dumps v +:+ t) = Some (v, t).

Definition items_text : list json → string :=
  fix go l := match l with [] => "]" | w :: t => ", " +:+ dumps w +:+ go t end%string.

Definition members_text : list (string * json) → string :=
  fix go l := match l with
              | [] => "}"
              | (k', w) :: t => ", " +:+ quote k' +:+ ": " +:+ dumps w +:+ go t
              end%string.

(** A printed value starts with a character that is no space and closes nothing. *)
Definition starts (v : json) : Prop :=
  ∃ c s, dumps v = c ::: s ∧ json_ws c = false ∧ c ≠ "]"%char ∧ c ≠ "}"%char.

Lemma printable_starts v : printable v = true → starts v.
Proof.
  unfold starts. destruct v as [|[]| | |s|[|v l]|[|[k v] l]]; try done; intros _;
    cbn [dumps]; unfold quote; rewrite ?str_app_cons; eexists _, _; by split_and!.
Qed.

Lemma starts_skip v t : starts v → skip_ws (dumps v +:+ t) = dumps v +:+ t.
Proof. intros (c & s & -> & Hc & _). rewrite str_app_cons. by apply skip_ws_head. Qed.

Lemma items_text_pos l : (1 ≤ String.length (items_text l))%nat.
Proof. destruct l as [|w l]; [done|]. cbn [items_text]. rewrite str_app_cons. cbn. lia. Qed.

Lemma members_text_pos l : (1 ≤ String.length (members_text l))%nat.
Proof. destruct l as [|[k w] l]; [done|]. cbn [members_text]. rewrite str_app_cons. cbn. lia. Qed.

Lemma parse_items_text l v n t :
  Forall (λ w, parses w ∧ starts w) (v :: l) →
  (2 * (String.length (dumps v) + String.length (items_text l)) ≤ n)%nat →
  parse_items n (dumps v +:+ items_text l +:+ t) = Some (v :: l, t).
Proof.
  revert v n; induction l as [|w l IH]; intros v n [[Hv Hs] Hl]%Forall_cons_1 Hn;
    [pose proof (items_text_pos []) as Hp|pose proof (items_text_pos (w :: l)) as Hp];
    destruct n as [|n]; try lia; cbn [parse_items]; rewrite Hv by lia.
  - done.
  - cbn [items_text] in Hn |- *. rewrite !str_app_cons, !str_app_nil_l in *.
    cbn [String.length] in Hn. rewrite str_length_app in Hn.
    rewrite skip_ws_head by done. cbn [eat Ascii.eqb Bool.eqb].
    pose proof Hl as [[_ Hw] _]%Forall_cons_1.
    assert (∀ u, skip_ws (" "%char ::: u) = skip_ws u) as -> by done.
    rewrite str_app_assoc, starts_skip by done. rewrite IH by (done || lia). done.
Qed.

Lemma dict_set_fresh k v acc : k ∉ map fst acc → dict_set k v acc = acc ++ [(k, v)].
Proof.
  induction acc as [|[k' v'] acc IH]; intros Hk; [done|]. cbn in *.
  apply not_elem_of_cons in Hk as [H1 H2]. apply String.eqb_neq in H1. by rewrite H1, IH.
Qed.

Lemma parse_member n acc k v u t :
  k ∉ map fst acc → parses v → starts v → (2 * String.length (dumps v) < n)%nat →
  parse_members (S n) acc (quote k +:+ ": " +:+ dumps v +:+ u +:+ t) =
    match eat "}" (skip_ws (u +:+ t)), eat "," (skip_ws (u +:+ t)) with
    | Some t3, _ => Some (acc ++ [(k, v)], t3)
    | _, Some t3 => parse_members n (acc ++ [(k, v)]) (skip_ws t3)
    | _, _ => None
    end.
Proof.
  intros Hk Hv Hs Hn. cbn [parse_members]. unfold quote at 1. rewrite !str_app_cons.
  cbn [eat]. rewrite Ascii.eqb_refl. cbn [mbind option_bind].
  rewrite !str_app_assoc, !str_app_cons, !str_app_nil_l, scan_quoted.
  rewrite skip_ws_head by done. cbn [eat Ascii.eqb Bool.eqb].
  assert (∀ w, skip_ws (" "%char ::: w) = skip_ws w) as -> by done.
  by rewrite starts_skip, Hv, dict_set_fresh.
Qed.

Lemma parse_members_text l k v n acc t :
  Forall (λ kv, parses kv.2 ∧ starts kv.2) ((k, v) :: l) →
  NoDup (map fst (acc ++ (k, v) :: l)) →
  (2 * (String.length (dumps v) + String.length (members_text l)) ≤ n)%nat →
  parse_members n acc (quote k +:+ ": " +:+ dumps v +:+ members_text l +:+ t)
  = Some (acc ++ (k, v) :: l, t).
Proof.
  revert k v n acc; induction l as [|[k' w] l IH]; intros k v n acc [[Hv Hs] Hl]%Forall_cons_1 Hd Hn;
    [pose proof (members_text_pos []) as Hp|pose proof (members_text_pos ((k', w) :: l)) as Hp];
    (assert (k ∉ map fst acc) as Hk by (rewrite map_app in Hd; apply NoDup_app in Hd as (_ & Hd & _);
       intros Hin; apply (Hd _ Hin); left));
    destruct n as [|n]; try lia; rewrite parse_member by (done || lia).
  - done.
  - cbn [members_text] in Hn |- *. rewrite !str_app_cons, !str_app_nil_l in *.
    cbn [String.length] in Hn. do 3 (rewrite ?str_length_app in Hn; cbn [String.length] in Hn).
    rewrite skip_ws_head by done. cbn [eat Ascii.eqb Bool.eqb].
    assert (∀ u, skip_ws (" "%char ::: u) = skip_ws u) as -> by done.
    unfold quote at 1. rewrite !str_app_cons, skip_ws_head by done.
    pose proof (IH k' w n (acc ++ [(k, v)])) as IH'. rewrite <- app_assoc in IH'. cbn in IH'.
    unfold quote in IH' at 1. str_norm in IH'. str_norm. apply IH'; [done|done|lia].
Qed.

Lemma json_nested_ind (P : json → Prop) :
  P JNull → (∀ b, P (JBool b)) → (∀ z, P (JInt z)) → (∀ f, P (JFloat f)) → (∀ s, P (JStr s)) →
  (∀ l, Forall P l → P (JList l)) →
  (∀ l, Forall (λ kv, P kv.2) l → P (JObj l)) →
  ∀ j, P j.
Proof.
  intros H1 H2 H3 H4 H5 H6 H7. fix IH 1. intros [|b|z|f|s|l|l]; 
    [exact H1|apply H2|apply H3|apply H4|apply H5| |].
  - apply H6. induction l as [|x l IHl]; constructor; [apply IH|exact IHl].
  - apply H7. induction l as [|x l IHl]; constructor; [apply IH|exact IHl].
Qed.

Lemma printable_all {A} (f : A → json) (l : list A) :
  Forall (λ x, printable (f x) = true → parses (f x)) l →
  forallb (λ x, printable (f x)) l = true →
  Forall (λ x, parses (f x) ∧ starts (f x)) l.
Proof.
  intros IH Hp%forallb_Forall_true.
  eapply Forall_impl; [apply Forall_and; split; [exact IH|exact Hp]|].
  intros x [H1 H2]. split; [auto|by apply printable_starts].
Qed.

Lemma starts_not_closing v t :
  starts v → eat "]" (dumps v +:+ t) = None ∧ eat "}" (dumps v +:+ t) = None.
Proof.
  intros (c & s & -> & _ & H1 & H2). rewrite str_app_cons. cbn [eat].
  apply Ascii.eqb_neq in H1, H2. by rewrite H1, H2.
Qed.

Lemma list_parses l :
  Forall (λ w, parses w ∧ starts w) l → parses (JList l).
Proof.
  intros Hl n t Hn. destruct n as [|n]; [lia|]. destruct l as [|v l]; [done|].
  cbn [dumps] in Hn |- *. fold items_text in Hn |- *. str_norm.
  do 3 (rewrite ?str_length_app in Hn; cbn [String.length] in Hn).
  pose proof Hl as [[_ Hs] _]%Forall_cons_1.
  cbn [parse Ascii.eqb Bool.eqb dquote]. rewrite starts_skip by done.
  destruct (starts_not_closing v (items_text l +:+ t) Hs) as [-> _].
  rewrite parse_items_text; [done|done|lia].
Qed.

Lemma obj_parses l :
  NoDup (map fst l) → Forall (λ kv, parses kv.2 ∧ starts kv.2) l → parses (JObj l).
Proof.
  intros Hd Hl n t Hn. destruct n as [|n]; [lia|]. destruct l as [|[k v] l]; [done|].
  cbn [dumps] in Hn |- *. fold members_text in Hn |- *. str_norm.
  do 6 (rewrite ?str_length_app in Hn; cbn [String.length] in Hn).
  cbn [parse Ascii.eqb Bool.eqb dquote].
  pose proof (parse_members_text l k v n [] t Hl Hd ltac:(lia)) as E.
  unfold quote in E |- *. str_norm in E. str_norm.
  rewrite skip_ws_head by done. cbn [eat Ascii.eqb Bool.eqb dquote] in *. by rewrite E.
Qed.

Lemma printable_parses v : printable v = true → parses v.
Proof.
  induction v as [|b|z|f|s|l IH|l IH] using json_nested_ind; intros Hp; try done.
  - intros [|n] t Hn; [lia|done].
  - intros [|n] t Hn; [lia|by destruct b].
  - intros [|n] t Hn; [lia|]. unfold dumps, quote. str_norm. cbn [parse].
    by rewrite Ascii.eqb_refl, scan_quoted.
  - apply list_parses. by apply (printable_all id).
  - cbn [printable] in Hp. apply andb_true_iff in Hp as [Hd%bool_decide_eq_true Hp].
    apply obj_parses; [done|]. by apply (printable_all snd).
Qed.

(** [json.loads(json.dumps(v)) == v]. *)
Lemma loads_dumps v : printable v = true → loads (dumps v) = Some v.
Proof.
  intros Hp. unfold loads. pose proof (printable_parses v Hp (S (2 * String.length (dumps v))) "" ltac:(lia)) as H.
  rewrite str_app_nil_r in H.
  pose proof (starts_skip v "" (printable_starts v Hp)) as Hs. rewrite str_app_nil_r in Hs.
  by rewrite Hs, H.
Qed.
