(* ===== verification/Data.v ===== *)
(** The rows of models/: one record per table with the columns the modelled code
    reads or writes, the uniqueness and exclusion constraints the tables declare,
    and the database as a family of row lists. A [datetime] is a number of
    microseconds since the epoch; embeddings and free-form metadata are left out. *)
From Stdlib Require Export QArith.
From Stdlib Require Import FunctionalExtensionality.
From S2P Require Export Prelude Json.
Open Scope Z_scope.

(** models/user.py *)
Record User := mkUser {
  u_id : uuid;
  u_organization_id : uuid;
  u_external_id : string;
  u_name : option string;
  u_email : option string;
  u_role : option string;
  u_permissions : option (list string);
  u_password_hash : option string;
  u_is_active : bool;
  u_must_change_password : bool;
  u_is_deleted : bool;
  u_is_email_verified : bool;
  u_mfa_enabled : bool;
  u_invite_token_hash : option string;
  u_created_at : Z;
  u_metadata : list (string * json);
}.

(** models/refresh_token.py *)
Record RefreshToken := mkRefreshToken {
  rt_id : uuid;
  rt_user_id : string;
  rt_organization_id : uuid;
  rt_token_hash : string;
  rt_expires_at : Z;
  rt_is_revoked : bool;
  rt_rotated_by : option uuid;
}.

(** models/fact.py *)
Record Fact := mkFact {
  f_id : uuid;
  f_organization_id : uuid;
  f_project_id : uuid;
  f_user_id : uuid;
  f_content : string;
  f_subject : option string;
  f_predicate : option string;
  f_object : option string;
  f_subject_type : string;
  f_object_type : string;
  f_confidence : Q;
  f_source_episode_id : option uuid;
  f_subject_entity_id : option uuid;
  f_object_entity_id : option uuid;
  f_valid_from : option Z;
  f_valid_to : option Z;
  f_invalid_at : option Z;
  f_superseded_by_fact_id : option uuid;
  f_updated_at : option Z;
}.

(** models/fact_invalidation_event.py *)
Record FactInvalidationEvent := mkFactInvalidationEvent {
  ie_id : uuid;
  ie_organization_id : uuid;
  ie_project_id : uuid;
  ie_old_fact_id : uuid;
  ie_new_fact_id : option uuid;
  ie_kind : string;
  ie_reason : option string;
  ie_at_time : Z;
  ie_source_episode_id : option uuid;
}.

(** models/episode.py *)
Record Episode := mkEpisode {
  ep_id : uuid;
  ep_organization_id : uuid;
  ep_project_id : uuid;
  ep_session_id : uuid;
  ep_sequence_number : Z;
  ep_enrichment_status : Z;
  ep_is_deleted : bool;
  ep_user_id : uuid;
  ep_role : string;
  ep_content : string;
  ep_metadata : json;
  ep_created_at : Z;
}.

(** models/session.py *)
Record Session := mkSession {
  se_id : uuid;
  se_organization_id : uuid;
  se_project_id : uuid;
  se_user_id : uuid;
  se_external_id : string;
  se_metadata : list (string * json);
  se_is_active : bool;
  se_is_deleted : bool;
  se_closed_at : option Z;
  se_created_at : Z;
  se_updated_at : Z;
}.

(** models/project.py *)
Record Project := mkProject {
  p_id : uuid;
  p_organization_id : uuid;
  p_name : string;
  p_description : option string;
  p_metadata : list (string * json);
  p_is_archived : bool;
  p_created_by : option uuid;
  p_created_at : Z;
  p_updated_at : Z;
}.

(** models/project_member.py *)
Record ProjectMember := mkProjectMember {
  pm_id : uuid;
  pm_project_id : uuid;
  pm_user_id : uuid;
  pm_role : string;
  pm_created_at : Z;
}.

(** models/project_pin.py *)
Record ProjectPin := mkProjectPin {
  pp_id : uuid;
  pp_user_id : uuid;
  pp_project_id : uuid;
  pp_organization_id : uuid;
  pp_pinned_at : Z;
}.

(** models/ingest_dedup.py *)
Record IngestDedup := mkIngestDedup {
  dd_job_id : uuid;
  dd_project_id : uuid;
  dd_session_id : uuid;
  dd_content_hash : string;
  dd_created_at : Z;
}.

(** models/api_key.py *)
Record ApiKey := mkApiKey {
  ak_id : uuid;
  ak_organization_id : uuid;
  ak_project_id : uuid;
  ak_created_by : option uuid;
  ak_lookup_hash : string;
  ak_key_hash : string;
  ak_salt : string;
  ak_prefix : string;
  ak_name : option string;
  ak_permissions : list string;
  ak_last_used_at : option Z;
  ak_expires_at : option Z;
  ak_is_revoked : bool;
}.

(** models/episode_blob.py *)
Record EpisodeBlob := mkEpisodeBlob {
  eb_id : uuid;
  eb_organization_id : uuid;
  eb_project_id : uuid;
  eb_session_id : uuid;
  eb_episode_id : uuid;
  eb_storage_key : string;
  eb_file_name : string;
  eb_mime_type : string;
  eb_file_size : Z;
  eb_blob_index : Z;
  eb_created_by : uuid;
  eb_content_hash : string;
}.

(** models/organization.py *)
Record Organization := mkOrganization {
  o_id : uuid;
  o_name : string;
  o_plan : string;
  o_status : string;
  o_is_active : bool;
  o_org_code : string;
  o_join_enabled : bool;
}.

(** models/webhook.py *)
Record WebhookEndpoint := mkWebhookEndpoint {
  we_id : uuid;
  we_organization_id : uuid;
  we_name : string;
  we_url : string;
  we_events : string;
  we_is_active : bool;
  we_signing_secret : option string;
  we_last_delivery_at : option Z;
  we_created_at : Z;
}.

Record WebhookDeliveryLog := mkWebhookDeliveryLog {
  wl_id : uuid;
  wl_endpoint_id : uuid;
  wl_event_type : string;
  wl_attempt : Z;
  wl_status_code : option Z;
  wl_success : bool;
  wl_error : option string;
}.

(** models/prompt_template.py *)
Record PromptTemplate := mkPromptTemplate {
  pt_id : uuid;
  pt_organization_id : option uuid;
  pt_template_name : string;
  pt_template_text : string;
  pt_version : Z;
  pt_description : option string;
  pt_type : option string;
  pt_is_default_for_type : bool;
  pt_is_active : bool;
  pt_updated_at : Z;
}.

(** ** Tables *)

Inductive table :=
| users | refresh_tokens | facts | fact_invalidation_events | episodes | projects
| project_members | ingest_dedup | api_keys | episode_blobs | organizations
| webhook_endpoints | webhook_delivery_logs | prompt_templates | sessions | project_pins.

#[export] Instance table_eq_dec : EqDecision table.
Proof. solve_decision. Defined.

Definition row (t : table) : Type :=
  match t with
  | users => User
  | refresh_tokens => RefreshToken
  | facts => Fact
  | fact_invalidation_events => FactInvalidationEvent
  | episodes => Episode
  | projects => Project
  | project_members => ProjectMember
  | ingest_dedup => IngestDedup
  | api_keys => ApiKey
  | episode_blobs => EpisodeBlob
  | organizations => Organization
  | webhook_endpoints => WebhookEndpoint
  | webhook_delivery_logs => WebhookDeliveryLog
  | prompt_templates => PromptTemplate
  | sessions => Session
  | project_pins => ProjectPin
  end.

Definition database := ∀ t : table, list (row t).

(** Replace one table of the database. *)
Definition set_table (t : table) (l : list (row t)) (d : database) : database :=
  λ t', match t as t, t' as t' return list (row t) → list (row t') → list (row t') with
        | users, users => λ l _, l
        | refresh_tokens, refresh_tokens => λ l _, l
        | facts, facts => λ l _, l
        | fact_invalidation_events, fact_invalidation_events => λ l _, l
        | episodes, episodes => λ l _, l
        | projects, projects => λ l _, l
        | project_members, project_members => λ l _, l
        | ingest_dedup, ingest_dedup => λ l _, l
        | api_keys, api_keys => λ l _, l
        | episode_blobs, episode_blobs => λ l _, l
        | organizations, organizations => λ l _, l
        | webhook_endpoints, webhook_endpoints => λ l _, l
        | webhook_delivery_logs, webhook_delivery_logs => λ l _, l
        | prompt_templates, prompt_templates => λ l _, l
        | sessions, sessions => λ l _, l
        | project_pins, project_pins => λ l _, l
        | _, _ => λ _ l', l'
        end l (d t').

Lemma set_table_eq t l d : set_table t l d t = l.
Proof. by destruct t. Qed.

Lemma set_table_ne t t' l d : t ≠ t' → set_table t l d t' = d t'.
Proof. by destruct t, t'. Qed.

Lemma set_table_id t d : set_table t (d t) d = d.
Proof. apply functional_extensionality_dep. intros t'. by destruct t, t'. Qed.

Lemma set_table_twice t l l' d : set_table t l' (set_table t l d) = set_table t l' d.
Proof. apply functional_extensionality_dep. intros t'. by destruct t, t'. Qed.

#[export] Hint Rewrite set_table_eq : zync_rw.

(** ** Constraints *)

(** A start bound lies before an end bound; [None] is minus or plus infinity. *)
Definition bound_lt (s e : option Z) : bool :=
  match s, e with Some s, Some e => s <? e | _, _ => true end.

(** [tstzrange(a1, a2, '[)') && tstzrange(b1, b2, '[)')]; an empty range overlaps nothing. *)
Definition tstzrange_overlaps (a1 a2 b1 b2 : option Z) : bool :=
  bound_lt a1 b2 && bound_lt b1 a2 && bound_lt a1 a2 && bound_lt b1 b2.

(** SQL equality of two nullable columns: [NULL] equals nothing. *)
Definition sql_eq {A} `{EqDecision A} (x y : option A) : bool :=
  match x, y with Some a, Some b => bool_decide (a = b) | _, _ => false end.

(** [uq_facts_temporal_excl] (migration 0024). *)
Definition uq_facts_temporal_excl (a b : Fact) : bool :=
  bool_decide (f_invalid_at a = None) && bool_decide (f_invalid_at b = None)
  && sql_eq (f_source_episode_id a) (f_source_episode_id b)
  && sql_eq (f_subject a) (f_subject b)
  && sql_eq (f_predicate a) (f_predicate b)
  && sql_eq (f_object a) (f_object b)
  && tstzrange_overlaps (f_valid_from a) (f_valid_to a) (f_valid_from b) (f_valid_to b).

(** [uq_ingest_dedup_project_session_hash]. *)
Definition uq_ingest_dedup (a b : IngestDedup) : bool :=
  (dd_project_id a =? dd_project_id b) && (dd_session_id a =? dd_session_id b)
  && String.eqb (dd_content_hash a) (dd_content_hash b).

(** [uq_prompt_templates_org_name_version] (migration 0012) and
    [uq_prompt_templates_default_type] (migration 0015). *)
Definition uq_prompt_templates (a b : PromptTemplate) : bool :=
  sql_eq (pt_organization_id a) (pt_organization_id b)
  && (((pt_template_name a =? pt_template_name b)%string && (pt_version a =? pt_version b))
      || (pt_is_default_for_type a && pt_is_default_for_type b && sql_eq (pt_type a) (pt_type b))).

(** [uq_episodes_session_sequence] (migration 0053): of the rows that are not deleted. *)
Definition uq_episodes_session_sequence (a b : Episode) : bool :=
  negb (ep_is_deleted a) && negb (ep_is_deleted b)
  && (ep_session_id a =? ep_session_id b) && (ep_sequence_number a =? ep_sequence_number b).

(** Whether two rows of a table may not coexist. *)
Definition row_conflict (t : table) : row t → row t → bool :=
  match t with
  | users => λ a b,
      (u_id a =? u_id b)
      || ((u_organization_id a =? u_organization_id b)
          && String.eqb (u_external_id a) (u_external_id b))
      || (negb (u_is_deleted a) && negb (u_is_deleted b) && sql_eq (u_email a) (u_email b))
  | refresh_tokens => λ a b,
      (rt_id a =? rt_id b) || String.eqb (rt_token_hash a) (rt_token_hash b)
  | facts => λ a b, (f_id a =? f_id b) || uq_facts_temporal_excl a b
  | fact_invalidation_events => λ a b, ie_id a =? ie_id b
  | episodes => λ a b, (ep_id a =? ep_id b) || uq_episodes_session_sequence a b
  | projects => λ a b,
      (p_id a =? p_id b)
      || ((p_organization_id a =? p_organization_id b) && String.eqb (p_name a) (p_name b))
  | project_pins => λ a b,
      (pp_id a =? pp_id b) || ((pp_user_id a =? pp_user_id b) && (pp_project_id a =? pp_project_id b))
  | project_members => λ a b,
      (pm_id a =? pm_id b)
      || ((pm_project_id a =? pm_project_id b) && (pm_user_id a =? pm_user_id b))
  | ingest_dedup => λ a b, (dd_job_id a =? dd_job_id b) || uq_ingest_dedup a b
  | api_keys => λ a b, (ak_id a =? ak_id b) || String.eqb (ak_lookup_hash a) (ak_lookup_hash b)
  | episode_blobs => λ a b,
      (eb_id a =? eb_id b)
      || ((eb_episode_id a =? eb_episode_id b) && (eb_blob_index a =? eb_blob_index b))
  | organizations => λ a b, (o_id a =? o_id b) || String.eqb (o_org_code a) (o_org_code b)
  | webhook_endpoints => λ a b, we_id a =? we_id b
  | webhook_delivery_logs => λ a b, wl_id a =? wl_id b
  | prompt_templates => λ a b, (pt_id a =? pt_id b) || uq_prompt_templates a b
  | sessions => λ a b,
      (se_id a =? se_id b)
      || ((se_project_id a =? se_project_id b) && String.eqb (se_external_id a) (se_external_id b))
  end.

(** [ck_episode_role] and [ck_episode_content_length]. *)
Definition ck_episode (e : Episode) : bool :=
  bool_decide (ep_role e ∈ ["user"; "assistant"; "system"; "tool"]%string) && (str_len (ep_content e) <=? 65536).

(** [ck_project_members_role]. *)
Definition ck_project_member (m : ProjectMember) : bool := bool_decide (pm_role m ∈ ["owner"; "member"]%string).

(** The CHECK constraints of a new row; the one statement that changes what they read
    assigns a role that is allowed. *)
Definition insert_check (t : table) : row t → bool :=
  match t with episodes => ck_episode | project_members => ck_project_member | _ => λ _, true end.

(** A row PostgreSQL refuses whatever the others are: the index expression of
    [uq_facts_temporal_excl] raises on a range that ends before it starts. *)
Definition fact_range_ok (f : Fact) : bool :=
  negb (bool_decide (f_invalid_at f = None))
  || match f_valid_from f, f_valid_to f with Some a, Some b => a <=? b | _, _ => true end.

Definition row_check (t : table) : option (row t → bool) :=
  match t with facts => Some fact_range_ok | _ => None end.

Definition check_rows (t : table) (l : list (row t)) : bool :=
  match row_check t with Some ok => forallb ok l | None => true end.

Lemma check_rows_nil t : check_rows t [] = true.
Proof. unfold check_rows. by destruct (row_check t). Qed.

(** ** Column updates *)

Definition revoke (r : RefreshToken) : RefreshToken :=
  mkRefreshToken (rt_id r) (rt_user_id r) (rt_organization_id r) (rt_token_hash r)
    (rt_expires_at r) true (rt_rotated_by r).

Definition with_rotated_by (n : uuid) (r : RefreshToken) : RefreshToken :=
  mkRefreshToken (rt_id r) (rt_user_id r) (rt_organization_id r) (rt_token_hash r)
    (rt_expires_at r) (rt_is_revoked r) (Some n).

Definition with_valid_to (t : Z) (f : Fact) : Fact :=
  mkFact (f_id f) (f_organization_id f) (f_project_id f) (f_user_id f) (f_content f)
    (f_subject f) (f_predicate f) (f_object f) (f_subject_type f) (f_object_type f)
    (f_confidence f) (f_source_episode_id f) (f_subject_entity_id f) (f_object_entity_id f)
    (f_valid_from f) (Some t) (f_invalid_at f) (f_superseded_by_fact_id f) (Some t).

Definition with_invalid_at (t : Z) (f : Fact) : Fact :=
  mkFact (f_id f) (f_organization_id f) (f_project_id f) (f_user_id f) (f_content f)
    (f_subject f) (f_predicate f) (f_object f) (f_subject_type f) (f_object_type f)
    (f_confidence f) (f_source_episode_id f) (f_subject_entity_id f) (f_object_entity_id f)
    (f_valid_from f) (f_valid_to f) (Some t) (f_superseded_by_fact_id f) (Some t).

Definition with_superseded_by (n : option uuid) (t : Z) (f : Fact) : Fact :=
  mkFact (f_id f) (f_organization_id f) (f_project_id f) (f_user_id f) (f_content f)
    (f_subject f) (f_predicate f) (f_object f) (f_subject_type f) (f_object_type f)
    (f_confidence f) (f_source_episode_id f) (f_subject_entity_id f) (f_object_entity_id f)
    (f_valid_from f) (f_valid_to f) (f_invalid_at f) n (Some t).

Definition with_status (f : Z → Z) (e : Episode) : Episode :=
  mkEpisode (ep_id e) (ep_organization_id e) (ep_project_id e) (ep_session_id e)
    (ep_sequence_number e) (f (ep_enrichment_status e)) (ep_is_deleted e) (ep_user_id e) (ep_role e)
    (ep_content e) (ep_metadata e) (ep_created_at e).

Definition with_key_revoked (k : ApiKey) : ApiKey :=
  mkApiKey (ak_id k) (ak_organization_id k) (ak_project_id k) (ak_created_by k) (ak_lookup_hash k)
    (ak_key_hash k) (ak_salt k) (ak_prefix k) (ak_name k) (ak_permissions k) (ak_last_used_at k)
    (ak_expires_at k) true.

Definition with_last_used (t : option Z) (k : ApiKey) : ApiKey :=
  mkApiKey (ak_id k) (ak_organization_id k) (ak_project_id k) (ak_created_by k) (ak_lookup_hash k)
    (ak_key_hash k) (ak_salt k) (ak_prefix k) (ak_name k) (ak_permissions k) t
    (ak_expires_at k) (ak_is_revoked k).

Definition with_mfa_enabled (b : bool) (u : User) : User :=
  mkUser (u_id u) (u_organization_id u) (u_external_id u) (u_name u) (u_email u) (u_role u)
    (u_permissions u) (u_password_hash u) (u_is_active u) (u_must_change_password u)
    (u_is_deleted u) (u_is_email_verified u) b (u_invite_token_hash u) (u_created_at u) (u_metadata u).

Definition with_email_verified (b : bool) (u : User) : User :=
  mkUser (u_id u) (u_organization_id u) (u_external_id u) (u_name u) (u_email u) (u_role u)
    (u_permissions u) (u_password_hash u) (u_is_active u) (u_must_change_password u)
    (u_is_deleted u) b (u_mfa_enabled u) (u_invite_token_hash u) (u_created_at u) (u_metadata u).

(** The attribute assignments of [AuthRepository.update_dashboard_user]. *)
Definition with_profile (name email pwd : option string) (mcp : option bool) (u : User) : User :=
  mkUser (u_id u) (u_organization_id u)
    (match email with Some e => e | None => u_external_id u end)
    (match name with Some n => Some n | None => u_name u end)
    (match email with Some e => Some e | None => u_email u end)
    (u_role u) (u_permissions u)
    (match pwd with Some h => Some h | None => u_password_hash u end)
    (u_is_active u)
    (match mcp with Some b => b | None => u_must_change_password u end)
    (u_is_deleted u) (u_is_email_verified u) (u_mfa_enabled u) (u_invite_token_hash u)
    (u_created_at u) (u_metadata u).
