(* ===== verification/Effects.v ===== *)
(** Effectful code: an [async def] is a program [prog A], a finite tree of calls
    to the services (Redis, PostgreSQL, clock, randomness, mail and queue) whose
    leaves return or raise. Services are not defined here: the class [World]
    states what a world that answers must do, [op_sem], and what any world,
    answering or failing, may touch. *)
From S2P Require Import Prelude Errors Data.
Open Scope Z_scope.

(** * Redis: the keyspace and its commands

    A key holds a value and an optional deadline in microseconds; a key whose
    deadline has passed does not exist any more. *)

Inductive rvalue :=
| RStr (s : string)
| RHash (h : gmap string string)
| RZset (z : gmap string Z).

Record rentry := REntry { re_value : rvalue; re_deadline : option Z }.

Abbreviation keyspace := (gmap string rentry).

Definition us_per_s : Z := 1000000.

Definition live (now : Z) (e : rentry) : bool :=
  match re_deadline e with None => true | Some d => now <? d end.

Definition find_key (now : Z) (k : string) (m : keyspace) : option rentry :=
  match m !! k with
  | Some e => if live now e then Some e else None
  | None => None
  end.

(** A command, or a group of commands run as one step (MULTI/EXEC, EVAL). *)
Definition KS (X : Type) : Type := Z → keyspace → (exn + X) * keyspace.

Definition ks_ret {X} (x : X) : KS X := λ _ m, (inr x, m).
Definition ks_bind {X Y} (c : KS X) (f : X → KS Y) : KS Y := λ now m,
  match c now m with
  | (inl e, m') => (inl e, m')
  | (inr x, m') => f x now m'
  end.

Definition wrong_type : exn := RedisError "WRONGTYPE".

Definition ks_get (k : string) : KS (option string) := λ now m,
  match find_key now k m with
  | None => (inr None, m)
  | Some (REntry (RStr s) _) => (inr (Some s), m)
  | Some _ => (inl wrong_type, m)
  end.

Definition ks_exists (k : string) : KS bool := λ now m,
  (inr (bool_decide (is_Some (find_key now k m))), m).

Definition ks_setex (k : string) (ttl : Z) (v : string) : KS unit := λ now m,
  if ttl <=? 0 then (inl (RedisError "invalid expire time"), m)
  else (inr tt, <[k := REntry (RStr v) (Some (now + ttl * us_per_s))]> m).

Definition ks_set_nx_ex (k v : string) (ttl : Z) : KS bool := λ now m,
  if ttl <=? 0 then (inl (RedisError "invalid expire time"), m)
  else match find_key now k m with
       | Some _ => (inr false, m)
       | None => (inr true, <[k := REntry (RStr v) (Some (now + ttl * us_per_s))]> m)
       end.

Definition ks_incrby (d : Z) (k : string) : KS Z := λ now m,
  match find_key now k m with
  | None => (inr d, <[k := REntry (RStr (str_of_Z d)) None]> m)
  | Some (REntry (RStr s) dl) =>
      match Z_of_str s with
      | Some n => (inr (n + d), <[k := REntry (RStr (str_of_Z (n + d))) dl]> m)
      | None => (inl (RedisError "value is not an integer"), m)
      end
  | Some _ => (inl wrong_type, m)
  end.
Definition ks_incr : string → KS Z := ks_incrby 1.
Definition ks_decr : string → KS Z := ks_incrby (-1).

Definition ks_expire (k : string) (ttl : Z) : KS bool := λ now m,
  match find_key now k m with
  | None => (inr false, m)
  | Some e =>
      if ttl <=? 0 then (inr true, delete k m)
      else (inr true, <[k := REntry (re_value e) (Some (now + ttl * us_per_s))]> m)
  end.

Fixpoint ks_delete (ks : list string) : KS Z := λ now m,
  match ks with
  | [] => (inr 0, m)
  | k :: r =>
      let n := if bool_decide (is_Some (find_key now k m)) then 1 else 0 in
      match ks_delete r now (delete k m) with
      | (inr c, m') => (inr (n + c), m')
      | (inl e, m') => (inl e, m')
      end
  end.

Definition ks_hgetall (k : string) : KS (gmap string string) := λ now m,
  match find_key now k m with
  | None => (inr ∅, m)
  | Some (REntry (RHash h) _) => (inr h, m)
  | Some _ => (inl wrong_type, m)
  end.

(** The sorted set stored at a key, with its deadline. *)
Definition zset_at (now : Z) (k : string) (m : keyspace) : exn + (gmap string Z * option Z) :=
  match find_key now k m with
  | None => inr (∅, None)
  | Some (REntry (RZset z) d) => inr (z, d)
  | Some _ => inl wrong_type
  end.

(** An empty sorted set is no key at all. *)
Definition put_zset (k : string) (z : gmap string Z) (d : option Z) (m : keyspace) : keyspace :=
  if bool_decide (z = ∅) then delete k m else <[k := REntry (RZset z) d]> m.

Definition ks_zremrangebyscore (k : string) (lo hi : Z) : KS Z := λ now m,
  match zset_at now k m with
  | inl e => (inl e, m)
  | inr (z, d) =>
      let z' := filter (λ p : string * Z, ¬ (lo ≤ p.2 ≤ hi)) z in
      (inr (Z.of_nat (size z) - Z.of_nat (size z')), put_zset k z' d m)
  end.

Definition ks_zcard (k : string) : KS Z := λ now m,
  match zset_at now k m with
  | inl e => (inl e, m)
  | inr (z, _) => (inr (Z.of_nat (size z)), m)
  end.

Definition ks_zadd (k member : string) (score : Z) : KS Z := λ now m,
  match zset_at now k m with
  | inl e => (inl e, m)
  | inr (z, d) =>
      (inr (if bool_decide (is_Some (z !! member)) then 0 else 1),
       put_zset k (<[member := score]> z) d m)
  end.

Definition ks_ping : KS unit := ks_ret tt.

(** ** Looking up keys *)

Lemma find_key_insert now k e m : live now e = true → find_key now k (<[k := e]> m) = Some e.
Proof. intros H. unfold find_key. by rewrite lookup_insert_eq, H. Qed.

Lemma find_key_insert_ne now k k' e m :
  k ≠ k' → find_key now k' (<[k := e]> m) = find_key now k' m.
Proof. intros H. unfold find_key. by rewrite lookup_insert_ne. Qed.

Lemma find_key_live now k m e : find_key now k m = Some e → live now e = true.
Proof. unfold find_key. intros. repeat case_match; simplify_eq; done. Qed.

(** A deadline, when there is one, lies after [t]. *)
Definition before (t : Z) (d : option Z) : Prop :=
  match d with Some D => t < D | None => True end.

Lemma find_key_later now now' k m v D :
  find_key now k m = Some (REntry v D) → before now' D →
  find_key now' k m = Some (REntry v D).
Proof.
  unfold find_key. intros H HD. repeat case_match; simplify_eq; try done.
  unfold live, before in *. cbn in *. destruct D; [lia|done].
Qed.

Lemma find_key_none_later now now' k m :
  find_key now k m = None → now ≤ now' → find_key now' k m = None.
Proof.
  unfold find_key, live. intros H Hle. repeat case_match; simplify_eq/=; try done; lia.
Qed.

Lemma find_key_delete now k m : find_key now k (delete k m) = None.
Proof. unfold find_key. by rewrite lookup_delete_eq. Qed.

Lemma find_key_delete_ne now k k' m : k ≠ k' → find_key now k' (delete k m) = find_key now k' m.
Proof. intros H. unfold find_key. by rewrite lookup_delete_ne. Qed.

(** * Service calls *)

(** What leaves the program: mail, queue jobs, webhooks and metrics. *)
Inductive event :=
| EmailSent (to_ subject code : string)
| Metric (name : string) (value : Z)
| Effect (name : string) (args : list string).

(** What the other services reached over HTTP remember. *)
Definition remote : Type := gmap string string.

Record state := mkState {
  st_clock : Z;
  st_redis : keyspace;
  st_db : database;
  st_committed : database;
  st_tenant : option uuid;
  st_entropy : nat → Z;
  st_drawn : nat;
  st_out : list event;
  st_remote : remote;
}.

Inductive op : Type → Type :=
| Redis {X : Type} (c : KS X) : op X
| Select (t : table) (p : row t → bool) : op (list (row t))
| Update (t : table) (p : row t → bool) (f : row t → row t) : op Z
| UpdateUnique (t : table) (p : row t → bool) (f : row t → row t) : op Z
| UpdateReturning (t : table) (p : row t → bool) (f : row t → row t) : op (list (row t))
| Insert (t : table) (arbiter : row t → row t → bool) (rows : list (row t)) : op (list (row t))
| Delete (t : table) (p : row t → bool) : op Z
| SetTenant (org : option uuid) : op unit
| Commit : op unit
| Rollback : op unit
| Now : op Z
| Sleep (us : Z) : op unit
| Draw (bound : Z) : op Z
| Emit (e : event) : op unit
| Remote {X : Type} (f : remote → (exn + X) * remote) : op X.

(** INSERT: rows are checked in order against the stored ones and the earlier
    ones of the statement. A row that meets the arbiter of [ON CONFLICT DO NOTHING]
    is skipped; any other violated constraint, those of [insert_check] included, fails the
    whole statement. *)
Fixpoint insert_rows (t : table) (arbiter : row t → row t → bool) (new old : list (row t)) :
    option (list (row t) * list (row t)) :=
  match new with
  | [] => Some ([], old)
  | r :: rs =>
      if existsb (arbiter r) old then insert_rows t arbiter rs old
      else if negb (insert_check t r) || existsb (row_conflict t r) old then None
      else match insert_rows t arbiter rs (old ++ [r]) with
           | Some (ins, l) => Some (r :: ins, l)
           | None => None
           end
  end.

(** Whether the rows of a statement, the marked ones, meet no uniqueness constraint
    among the others. *)
Fixpoint unique_rows (t : table) (l : list (bool * row t)) : bool :=
  match l with
  | [] => true
  | (b, r) :: l =>
      forallb (λ x : bool * row t, negb ((b || x.1) && row_conflict t r x.2)) l && unique_rows t l
  end.

(** A plain INSERT, and [ON CONFLICT DO NOTHING] without a target. *)
Definition no_arbiter (t : table) (a b : row t) : bool := false.
Definition any_conflict (t : table) : row t → row t → bool := row_conflict t.

Definition set_redis (m : keyspace) (s : state) : state :=
  mkState (st_clock s) m (st_db s) (st_committed s) (st_tenant s) (st_entropy s) (st_drawn s)
    (st_out s) (st_remote s).
Definition set_db (d : database) (s : state) : state :=
  mkState (st_clock s) (st_redis s) d (st_committed s) (st_tenant s) (st_entropy s) (st_drawn s)
    (st_out s) (st_remote s).

Definition range_error : exn :=
  DatabaseError "range lower bound must be less than or equal to range upper bound".

(** The documented behaviour of each call; a row PostgreSQL refuses fails the whole
    statement. An [Update] is one that cannot meet a uniqueness constraint: it changes no
    constrained column, unsets a flag, or shortens a fact's range. [UpdateUnique] is any
    other one. *)
Definition op_sem {X : Type} (o : op X) (s : state) : (exn + X) * state :=
  match o in op X return (exn + X) * state with
  | Redis c => let r := c (st_clock s) (st_redis s) in (r.1, set_redis r.2 s)
  | Select t p => (inr (List.filter p (st_db s t)), s)
  | Update t p f =>
      if check_rows t (map f (List.filter p (st_db s t))) then
        (inr (Z.of_nat (length (List.filter p (st_db s t)))),
         set_db (set_table t (map (λ r, if p r then f r else r) (st_db s t)) (st_db s)) s)
      else (inl range_error, s)
  | UpdateUnique t p f =>
      if check_rows t (map f (List.filter p (st_db s t))) then
        if unique_rows t (map (λ r, if p r then (true, f r) else (false, r)) (st_db s t)) then
          (inr (Z.of_nat (length (List.filter p (st_db s t)))),
           set_db (set_table t (map (λ r, if p r then f r else r) (st_db s t)) (st_db s)) s)
        else (inl IntegrityError, s)
      else (inl range_error, s)
  | UpdateReturning t p f =>
      if check_rows t (map f (List.filter p (st_db s t))) then
        (inr (map f (List.filter p (st_db s t))),
         set_db (set_table t (map (λ r, if p r then f r else r) (st_db s t)) (st_db s)) s)
      else (inl range_error, s)
  | Insert t arbiter rows =>
      if check_rows t rows then
        match insert_rows t arbiter rows (st_db s t) with
        | Some (ins, l) => (inr ins, set_db (set_table t l (st_db s)) s)
        | None => (inl IntegrityError, s)
        end
      else (inl range_error, s)
  | Delete t p =>
      (inr (Z.of_nat (length (List.filter p (st_db s t)))),
       set_db (set_table t (List.filter (λ r, negb (p r)) (st_db s t)) (st_db s)) s)
  | SetTenant org =>
      (inr tt, mkState (st_clock s) (st_redis s) (st_db s) (st_committed s) org
                 (st_entropy s) (st_drawn s) (st_out s) (st_remote s))
  | Commit =>
      (inr tt, mkState (st_clock s) (st_redis s) (st_db s) (st_db s) (st_tenant s)
                 (st_entropy s) (st_drawn s) (st_out s) (st_remote s))
  | Rollback =>
      (inr tt, mkState (st_clock s) (st_redis s) (st_committed s) (st_committed s) (st_tenant s)
                 (st_entropy s) (st_drawn s) (st_out s) (st_remote s))
  | Now => (inr (st_clock s), s)
  | Sleep us =>
      (inr tt, mkState (st_clock s + Z.max 0 us) (st_redis s) (st_db s) (st_committed s)
                 (st_tenant s) (st_entropy s) (st_drawn s) (st_out s) (st_remote s))
  | Draw b =>
      (inr (st_entropy s (st_drawn s) mod b),
       mkState (st_clock s) (st_redis s) (st_db s) (st_committed s) (st_tenant s)
         (st_entropy s) (S (st_drawn s)) (st_out s) (st_remote s))
  | Emit e =>
      (inr tt, mkState (st_clock s) (st_redis s) (st_db s) (st_committed s) (st_tenant s)
                 (st_entropy s) (st_drawn s) (st_out s ++ [e]) (st_remote s))
  | Remote f =>
      (fst (f (st_remote s)),
       mkState (st_clock s) (st_redis s) (st_db s) (st_committed s) (st_tenant s) (st_entropy s)
         (st_drawn s) (st_out s) (snd (f (st_remote s))))
  end.

(** What a call may touch even when it fails: Redis commands leave the database
    alone, and every other call leaves Redis alone. *)
Definition op_frame {X : Type} (o : op X) (s s' : state) : Prop :=
  match o with
  | Redis _ => st_db s' = st_db s ∧ st_committed s' = st_committed s
  | Select _ _ | Now | Draw _ | Emit _ | SetTenant _ | Sleep _ | Remote _ =>
      st_redis s' = st_redis s ∧ st_db s' = st_db s ∧ st_committed s' = st_committed s
  | _ => st_redis s' = st_redis s
  end.

Class World (W : Type) := {
  exec : ∀ {X : Type}, op X → W → (exn + X) * W;
  abs : W → state;
  steady : W → Prop;
  exec_steady : ∀ (X : Type) (o : op X) (w : W), steady w →
    (exec o w).1 = (op_sem o (abs w)).1 ∧
    abs (exec o w).2 = (op_sem o (abs w)).2 ∧ steady (exec o w).2;
  exec_frame : ∀ (X : Type) (o : op X) (w : W), op_frame o (abs w) (abs (exec o w).2);
}.

(** ** Hash functions of the standard library

    Nothing is assumed of [sha256]: theorems speak of equal digests. *)
Class Hashlib := { sha256_hexdigest : string → string }.

(** The [fromisoformat] of [datetime]. *)
Class Datetime := { fromisoformat : string → exn + Z }.

(** * Programs *)

Inductive prog (A : Type) : Type :=
| Ret (a : A)
| Throw (e : exn)
| Call {X : Type} (o : op X) (k : exn + X → prog A).
Arguments Ret {A}.
Arguments Throw {A}.
Arguments Call {A X}.

#[export] Instance prog_ret : MRet prog := @Ret.
#[export] Instance prog_bind : MBind prog :=
  λ A B f, fix go p :=
    match p with
    | Ret a => f a
    | Throw e => Throw e
    | Call o k => Call o (λ r, go (k r))
    end.

(** An exception or a value, as a program. *)
Definition lift {A} (r : exn + A) : prog A :=
  match r with inl e => Throw e | inr a => Ret a end.

(** [try: p except: h]. *)
Fixpoint catch {A} (p : prog A) (h : exn → prog A) : prog A :=
  match p with
  | Ret a => Ret a
  | Throw e => h e
  | Call o k => Call o (λ r, catch (k r) h)
  end.

(** [try: p except <sel>: h]. *)
Definition try_except {A} (p : prog A) (sel : exn → bool) (h : exn → prog A) : prog A :=
  catch p (λ e, if sel e then h e else Throw e).

(** [await o]: a failure of the service is raised here. *)
Definition call {X} (o : op X) : prog X :=
  Call o (λ r, match r with inl e => Throw e | inr x => Ret x end).

Definition redis {X} (c : KS X) : prog X := call (Redis c).

(** dependencies/db.py: the request's session commits after the handler and rolls
    back when something raises. *)
Definition request {A} (handler : prog A) : prog A :=
  try_except (a ← handler; _ ← call Commit; Ret a) is_exception (λ e, _ ← call Rollback; Throw e).

(** [for x in l: body]. *)
Fixpoint for_each {A} (l : list A) (body : A → prog unit) : prog unit :=
  match l with
  | [] => Ret tt
  | x :: r => body x ≫= λ _, for_each r body
  end.

(** [for x in l: acc = body(acc, x)]. *)
Fixpoint for_fold {A S} (l : list A) (acc : S) (body : S → A → prog S) : prog S :=
  match l with
  | [] => Ret acc
  | x :: r => body acc x ≫= λ acc', for_fold r acc' body
  end.

(** [result.scalar_one_or_none()]. *)
Definition scalar_one_or_none {A} (l : list A) : prog (option A) :=
  match l with
  | [] => Ret None
  | [x] => Ret (Some x)
  | _ => Throw MultipleResultsFound
  end.

(** [uuid4()] and [secrets.token_hex(32)]. *)
Definition uuid4 : prog uuid := call (Draw (2 ^ 128)).
Definition token_hex_32 : prog string :=
  z ← call (Draw (16 ^ 64)); Ret (hexn 64 z).


(** A client that makes attempts one after the other, waiting before each, and
    notes which went through. *)
Definition passes (p : prog unit) : prog bool :=
  try_except (_ ← p; Ret true) is_exception (λ _, Ret false).

Fixpoint attempts (l : list (Z * prog unit)) : prog (list bool) :=
  match l with
  | [] => Ret []
  | (d, p) :: r =>
      _ ← call (Sleep d);
      b ← passes p;
      bs ← attempts r;
      Ret (b :: bs)
  end.

Definition total_delay (l : list (Z * prog unit)) : Z :=
  foldr (λ dp acc, Z.max 0 dp.1 + acc) 0 l.

Definition count_true (l : list bool) : Z := Z.of_nat (length (List.filter id l)).

Section run.
Context {W : Type} `{World W}.

Fixpoint run {A} (p : prog A) (w : W) : (exn + A) * W :=
  match p with
  | Ret a => (inr a, w)
  | Throw e => (inl e, w)
  | Call o k => let r := exec o w in run (k r.1) r.2
  end.

Lemma run_bind {A B} (p : prog A) (f : A → prog B) w :
  run (p ≫= f) w =
    match run p w with
    | (inl e, w') => (inl e, w')
    | (inr a, w') => run (f a) w'
    end.
Proof. revert w; induction p as [a|e|X o k IH]; intros w; [done|done|]. apply IH. Qed.

Lemma run_assoc {A B C} (p : prog A) (f : A → prog B) (g : B → prog C) w :
  run ((p ≫= f) ≫= g) w = run (p ≫= λ a, f a ≫= g) w.
Proof.
  rewrite !run_bind. destruct (run p w) as [[e|a] w']; [done|]. by rewrite run_bind.
Qed.

Lemma run_catch {A} (p : prog A) (h : exn → prog A) w :
  run (catch p h) w =
    match run p w with
    | (inl e, w') => run (h e) w'
    | (inr a, w') => (inr a, w')
    end.
Proof. revert w; induction p as [a|e|X o k IH]; intros w; [done|done|]. apply IH. Qed.

Lemma run_passes (p : prog unit) w :
  (∀ e, (run p w).1 = inl e → is_exception e = true) →
  run (passes p) w = (inr (is_ok (run p w).1), (run p w).2).
Proof.
  intros He. unfold passes, try_except. rewrite run_catch, run_bind.
  destruct (run p w) as [[e|[]] w']; [|done]. cbn. by rewrite (He e).
Qed.

Lemma run_call {X} (o : op X) w : run (call o) w = exec o w.
Proof. unfold call. cbn. destruct (exec o w) as [[e|x] w']; done. Qed.
End run.

Lemma run_request {W} `{World W} {A} (body : prog A) (w : W) :
  run (request body) w =
    match run body w with
    | (inr a, w1) => let c := exec Commit w1 in
                     match c.1 with
                     | inr _ => (inr a, c.2)
                     | inl e => if is_exception e then run (_ ← call Rollback; Throw e) c.2 else (inl e, c.2)
                     end
    | (inl e, w1) => if is_exception e then run (_ ← call Rollback; Throw e) w1 else (inl e, w1)
    end.
Proof.
  unfold request, try_except. rewrite run_catch, run_bind. destruct (run body w) as [[e|a] w1].
  - by destruct (is_exception e).
  - rewrite run_bind, run_call. destruct (exec Commit w1) as [[e|[]] w2]; [|done]. cbn.
    by destruct (is_exception e).
Qed.

Lemma op_sem_frame {X} (o : op X) s : op_frame o s (op_sem o s).2.
Proof.
  destruct o; simpl; try done; destruct (check_rows _ _); try done.
  - by destruct (unique_rows _ _).
  - by destruct (insert_rows t arbiter rows (st_db s t)) as [[??]|].
Qed.

(** The pure world: every service answers. *)
#[export] Instance state_world : World state.
Proof.
  refine {| exec := @op_sem; abs := id; steady := λ _, True |}.
  - done.
  - intros X o s. apply op_sem_frame.
Defined.

(** Run the next calls of a program in the pure world. *)
Ltac prun := unfold redis in *; rewrite ?run_bind, ?run_call; cbn.

(** One call and the rest of the program, in the pure world. *)
Lemma run_redis_ok {X A} (c : KS X) (f : X → prog A) (s : state) x m :
  c (st_clock s) (st_redis s) = (inr x, m) →
  run (redis c ≫= f) s = run (f x) (set_redis m s).
Proof. intros E. unfold redis. rewrite run_bind, run_call. cbn. by rewrite E. Qed.

Lemma run_redis_err {X A} (c : KS X) (f : X → prog A) (s : state) e m :
  c (st_clock s) (st_redis s) = (inl e, m) →
  run (redis c ≫= f) s = (inl e, set_redis m s).
Proof. intros E. unfold redis. rewrite run_bind, run_call. cbn. by rewrite E. Qed.

(** Run the next command, whose answer [E] gives. *)
Ltac redis_step E :=
  match goal with
  | |- context [run (redis ?c ≫= ?f) ?s] =>
      first [rewrite (run_redis_ok c f s _ _ E) | rewrite (run_redis_err c f s _ _ E)]
  end.

Lemma run_op {X A} (o : op X) (f : X → prog A) (s : state) x s' :
  op_sem o s = (inr x, s') → run (call o ≫= f) s = run (f x) s'.
Proof. intros E. rewrite run_bind, run_call. cbn [exec state_world]. by rewrite E. Qed.

Lemma run_ret_bind {A B} (a : A) (f : A → prog B) (s : state) : run (Ret a ≫= f) s = run (f a) s.
Proof. done. Qed.

Lemma run_select {A} t p (f : list (row t) → prog A) (s : state) :
  run (call (Select t p) ≫= f) s = run (f (List.filter p (st_db s t))) s.
Proof. by apply run_op. Qed.

Lemma run_update {A} t p f (k : Z → prog A) (s : state) :
  row_check t = None →
  run (call (Update t p f) ≫= k) s =
    run (k (Z.of_nat (length (List.filter p (st_db s t)))))
      (set_db (set_table t (map (λ r, if p r then f r else r) (st_db s t)) (st_db s)) s).
Proof. intros E. apply run_op. unfold op_sem, check_rows. by rewrite E. Qed.

Lemma run_sleep {A} d (f : unit → prog A) (s : state) :
  run (call (Sleep d) ≫= f) s = run (f tt) (op_sem (Sleep d) s).2.
Proof. by apply run_op. Qed.

Lemma run_now {A} (f : Z → prog A) (s : state) :
  run (call Now ≫= f) s = run (f (st_clock s)) s.
Proof. by apply run_op. Qed.

(** The [n]-th uuid of the source, and the one drawn next. *)
Definition drawn_uuid (s : state) (n : nat) : uuid := st_entropy s n mod 2 ^ 128.
Definition next_uuid (s : state) : uuid := drawn_uuid s (st_drawn s).

Lemma run_uuid4 {A} (f : uuid → prog A) (s : state) :
  run (uuid4 ≫= f) s = run (f (next_uuid s)) (op_sem (Draw (2 ^ 128)) s).2.
Proof. by apply run_op. Qed.

(** An update that matches no row. *)
Lemma run_update_none {A} t p g (f : Z → prog A) (s : state) :
  (∀ r, r ∈ st_db s t → p r = false) → run (call (Update t p g) ≫= f) s = run (f 0) s.
Proof.
  intros Hp. apply run_op. cbn.
  assert (∀ l : list (row t), (∀ r, r ∈ l → p r = false) →
    List.filter p l = [] ∧ map (λ r, if p r then g r else r) l = l) as Hl.
  { induction l as [|x l IH]; intros Hx; [done|]. cbn. rewrite (Hx x) by left.
    destruct IH as [-> ->]; [|done]. intros y Hy. apply Hx. by right. }
  destruct (Hl _ Hp) as [-> ->]. cbn. rewrite check_rows_nil, set_table_id. by destruct s.
Qed.

(** A row nothing is wrong with, the other rows apart. *)
Definition storable t (r : row t) : bool := check_rows t [r] && insert_check t r.

(** One row is inserted, or skipped. *)
Lemma run_insert_one {A} t arb r (f : list (row t) → prog A) (s : state) :
  storable t r = true →
  (∀ x, x ∈ st_db s t → arb r x = false) → (∀ x, x ∈ st_db s t → row_conflict t r x = false) →
  run (call (Insert t arb [r]) ≫= f) s
  = run (f [r]) (set_db (set_table t (st_db s t ++ [r]) (st_db s)) s).
Proof. intros [Hk Hi]%andb_true_iff Ha Hc. apply run_op. cbn. by rewrite Hk, Hi, !existsb_none. Qed.

Lemma run_insert_skipped {A} t arb r x (f : list (row t) → prog A) (s : state) :
  check_rows t [r] = true → x ∈ st_db s t → arb r x = true → run (call (Insert t arb [r]) ≫= f) s = run (f []) s.
Proof.
  intros Hk Hx Ha. apply run_op. cbn. rewrite Hk.
  assert (existsb (arb r) (st_db s t) = true) as ->.
  { apply existsb_exists. exists x. by rewrite <- list_elem_of_In. }
  rewrite set_table_id. by destruct s.
Qed.

(** A deletion that matches no row. *)
Lemma run_delete_none {A} t p (f : Z → prog A) (s : state) :
  (∀ r, r ∈ st_db s t → p r = false) → run (call (Delete t p) ≫= f) s = run (f 0) s.
Proof.
  intros Hp. apply run_op. cbn. rewrite filter_none, filter_all; [|by intros r ->%Hp|done].
  rewrite set_table_id. by destruct s.
Qed.

Lemma set_redis_id s : set_redis (st_redis s) s = s.
Proof. by destruct s. Qed.

Lemma ks_get_none now k m : find_key now k m = None → ks_get k now m = (inr None, m).
Proof. unfold ks_get. by intros ->. Qed.

Lemma ks_get_str now k m v d :
  find_key now k m = Some (REntry (RStr v) d) → ks_get k now m = (inr (Some v), m).
Proof. unfold ks_get. by intros ->. Qed.

Lemma ks_incr_str now k m n d :
  find_key now k m = Some (REntry (RStr (str_of_Z n)) d) →
  ks_incr k now m = (inr (n + 1), <[k := REntry (RStr (str_of_Z (n + 1))) d]> m).
Proof. unfold ks_incr, ks_incrby. intros ->. by rewrite Z_of_str_of_Z. Qed.

(** Functional behaviour in any world that answers is that of the pure one. *)
Lemma run_steady {W} `{World W} {A} (p : prog A) (w : W) :
  steady w →
  (run p w).1 = (run p (abs w)).1 ∧ abs (run p w).2 = (run p (abs w)).2 ∧ steady (run p w).2.
Proof.
  revert w; induction p as [a|e|X o k IH]; intros w Hw; [done|done|]. cbn.
  destruct (exec_steady X o w Hw) as (E1 & E2 & E3). rewrite E1.
  destruct (IH (op_sem o (abs w)).1 _ E3) as (F1 & F2 & F3). by rewrite F1, F2, E2.
Qed.

(** ** A world that may fail: the answers are lost as the fault plan says *)

Definition faulty : Type := state * list bool.

(** Calls that cross the network; the clock and the random source always answer. *)
Definition may_fail {X} (o : op X) : bool :=
  match o with Now | Draw _ | Sleep _ => false | _ => true end.

(** A world with no fault left answers every call. *)
#[export] Instance faulty_world : World faulty | 20.
Proof.
  refine {| exec := λ X o w,
              if may_fail o then
                match w.2 with
                | true :: l =>
                    (inl (match o with
                          | Redis _ => RedisError "down"
                          | Emit _ => AppExc ExternalServiceError "down"
                          | Remote _ => HttpxError ConnectError
                          | _ => DatabaseError "down"
                          end), (w.1, l))
                | _ :: l => let r := op_sem o w.1 in (r.1, (r.2, l))
                | [] => let r := op_sem o w.1 in (r.1, (r.2, []))
                end
              else let r := op_sem o w.1 in (r.1, (r.2, w.2));
            abs := fst; steady := λ w, w.2 = [] |}.
  - intros X o [s l] E. simpl in E. subst l. by destruct o.
  - intros X o [s l]. pose proof (op_sem_frame o s).
    destruct o; cbn [may_fail]; try done; by destruct l as [|[] l].
Defined.

(** ** Programs under faults

    [clean pl pl']: between the two fault plans no answer was lost. A program is
    [strict] when it returns normally only if every service answered it, and
    [plain] when all it can raise is an ordinary [Exception]. *)

Definition clean (pl pl' : list bool) : Prop :=
  ∃ n, pl' = drop n pl ∧ Forall (λ b, b = false) (take n pl).

Lemma clean_refl pl : clean pl pl.
Proof. exists 0%nat. by rewrite take_0, drop_0. Qed.

Lemma clean_trans p1 p2 p3 : clean p1 p2 → clean p2 p3 → clean p1 p3.
Proof.
  intros (n & -> & Hn) (m & -> & Hm). exists (n + m)%nat. split; [by rewrite drop_drop|].
  rewrite <- (take_drop n (take (n + m) p1)), take_take, Nat.min_l by lia.
  apply Forall_app. split; [done|]. by rewrite skipn_firstn_comm, Nat.add_comm, Nat.add_sub.
Qed.

(** The steps of a run that returned. *)
Lemma run_bind_ok {A B} (p : prog A) (f : A → prog B) (w : faulty) b w' :
  run (p ≫= f) w = (inr b, w') → ∃ a w1, run p w = (inr a, w1) ∧ run (f a) w1 = (inr b, w').
Proof. rewrite run_bind. destruct (run p w) as [[e|a] w1]; [done|]. eauto. Qed.

Lemma run_select_ok t p (w : faulty) l w' :
  run (call (Select t p)) w = (inr l, w') →
  l = List.filter p (st_db (abs w) t) ∧ abs w' = abs w.
Proof.
  destruct w as [s pl]. rewrite run_call. cbn.
  destruct pl as [|[] pl]; cbn; by intros [= <- <-].
Qed.

Lemma scalar_ok {A} (l : list A) (w : faulty) r w' :
  run (scalar_one_or_none l) w = (inr (Some r), w') → l = [r] ∧ w' = w.
Proof. destruct l as [|x [|]]; cbn; try done. by intros [= -> ->]. Qed.

Definition strict {A} (p : prog A) : Prop :=
  ∀ s pl a s' pl', run p ((s, pl) : faulty) = (inr a, (s', pl')) → clean pl pl'.

Definition plain {A} (p : prog A) : Prop :=
  ∀ (w : faulty) e w', run p w = (inl e, w') → is_exception e = true.

Lemma strict_ret {A} (a : A) : strict (Ret a).
Proof. intros s pl a' s' pl' [= _ _ <-]. apply clean_refl. Qed.

Lemma strict_throw {A} e : strict (Throw e : prog A).
Proof. by intros s pl a' s' pl' ?. Qed.

Lemma strict_bind {A B} (p : prog A) (f : A → prog B) :
  strict p → (∀ a, strict (f a)) → strict (p ≫= f).
Proof.
  intros Hp Hf s pl b s' pl'. rewrite run_bind.
  destruct (run p _) as [[e|a] [s1 pl1]] eqn:E; [done|]. intros H.
  eapply clean_trans; [by eapply Hp|by eapply Hf].
Qed.

Lemma strict_call {X} (o : op X) : strict (call o).
Proof.
  intros s pl x s' pl'. rewrite run_call. cbn. destruct (may_fail o).
  - destruct pl as [|[] pl]; intros E; simplify_eq/=.
    + apply clean_refl.
    + exists 1%nat. split; [done|]. by repeat constructor.
  - intros E; simplify_eq/=. apply clean_refl.
Qed.

Lemma strict_redis {X} (c : KS X) : strict (redis c).
Proof. apply strict_call. Qed.

Lemma strict_rethrow {A} (p : prog A) sel e : strict p → strict (try_except p sel (λ _, Throw e)).
Proof.
  intros Hp s pl a s' pl'. unfold try_except. rewrite run_catch.
  destruct (run p _) as [[e'|a'] [s1 pl1]] eqn:E; [by destruct (sel e')|].
  intros [= <- <- <-]. by eapply Hp.
Qed.

Lemma plain_ret {A} (a : A) : plain (Ret a).
Proof. by intros w e w' ?. Qed.

Lemma plain_throw {A} e : is_exception e = true → plain (Throw e : prog A).
Proof. by intros H w e' w' [= <- _]. Qed.

Lemma plain_bind {A B} (p : prog A) (f : A → prog B) :
  plain p → (∀ a, plain (f a)) → plain (p ≫= f).
Proof.
  intros Hp Hf w e w'. rewrite run_bind. destruct (run p w) as [[e'|a] w1] eqn:E.
  - intros [= -> _]. by eapply Hp.
  - apply Hf.
Qed.

Lemma plain_answered {X} (o : op X) : may_fail o = false → (∀ s, is_ok (op_sem o s).1) → plain (call o).
Proof.
  intros Ho Hok w e w'. rewrite run_call. cbn. rewrite Ho. specialize (Hok w.1).
  destruct (op_sem o w.1) as [[e'|x] s]; simpl in *; [done|]. by intros ?.
Qed.

Lemma plain_redis {X} (c : KS X) :
  (∀ now m e, (c now m).1 = inl e → is_exception e = true) → plain (redis c).
Proof.
  intros Hc [s pl] e w'. unfold redis. rewrite run_call. cbn.
  assert (∀ l, ((c (st_clock s) (st_redis s)).1, (set_redis (c (st_clock s) (st_redis s)).2 s, l))
    = (inl e, w') → is_exception e = true) as H by (intros l [= H _]; by eapply Hc).
  destruct pl as [|[] pl]; cbn; try apply H. by intros [= <- _].
Qed.

Lemma plain_rethrow {A} (p : prog A) sel e :
  is_exception e = true → plain p → plain (try_except p sel (λ _, Throw e)).
Proof.
  intros He Hp w e' w'. unfold try_except. rewrite run_catch.
  destruct (run p w) as [[e1|a] w1] eqn:E; [|done]. apply Hp in E.
  destruct (sel e1); cbn; by intros [= <- _].
Qed.

(** A program leaves a key alone, whatever fails. *)
Definition untouched {A} (k : string) (p : prog A) : Prop :=
  ∀ w : faulty, st_redis (abs (run p w).2) !! k = st_redis (abs w) !! k.

Lemma untouched_ret {A} k (a : A) : untouched k (Ret a).
Proof. done. Qed.

Lemma untouched_throw {A} k e : untouched k (Throw e : prog A).
Proof. done. Qed.

Lemma untouched_bind {A B} k (p : prog A) (f : A → prog B) :
  untouched k p → (∀ a, untouched k (f a)) → untouched k (p ≫= f).
Proof.
  intros Hp Hf w. rewrite run_bind. specialize (Hp w).
  destruct (run p w) as [[e|a] w1]; [exact Hp|]. cbn [snd] in *. by rewrite (Hf a w1).
Qed.

Lemma untouched_try {A} k (p : prog A) sel h :
  untouched k p → (∀ e, untouched k (h e)) → untouched k (try_except p sel h).
Proof.
  intros Hp Hh w. unfold try_except. rewrite run_catch. specialize (Hp w).
  destruct (run p w) as [[e|a] w1]; [|exact Hp]. cbn [snd] in *.
  destruct (sel e); [by rewrite (Hh e w1)|exact Hp].
Qed.

Lemma untouched_select k t p : untouched k (call (Select t p)).
Proof. intros [s pl]. rewrite run_call. cbn. by destruct pl as [|[] pl]. Qed.

Lemma untouched_redis {X} k (c : KS X) :
  (∀ now m, (c now m).2 !! k = m !! k) → untouched k (redis c).
Proof.
  intros Hc [s pl]. unfold redis. rewrite run_call. cbn.
  destruct pl as [|[] pl]; cbn; auto.
Qed.

(** A handler for every [Exception] makes a plain program total. *)
Lemma plain_total {A} (p : prog A) h :
  plain p → ∀ w : faulty, run (try_except p is_exception h) w =
    match run p w with
    | (inl e, w') => run (h e) w'
    | r => r
    end.
Proof.
  intros Hp w. unfold try_except. rewrite run_catch.
  destruct (run p w) as [[e|a] w'] eqn:E; [|done]. by rewrite (Hp _ _ _ E).
Qed.

#[export] Hint Resolve strict_ret strict_throw strict_bind strict_call strict_redis
  strict_rethrow plain_ret plain_throw plain_bind plain_rethrow
  untouched_ret untouched_throw untouched_bind untouched_try untouched_select : zync.

(** * Interleavings

    Requests that run at the same time: each [await] of a pending request is one
    step, and the clock may advance between steps. *)

Inductive pstep {A} : list (prog A) * state → list (prog A) * state → Prop :=
| pstep_call (i : nat) (ps : list (prog A)) (s : state) (X : Type) (o : op X)
    (k : exn + X → prog A) :
    ps !! i = Some (Call o k) →
    pstep (ps, s) (<[i := k (op_sem o s).1]> ps, (op_sem o s).2)
| pstep_time (ps : list (prog A)) (s : state) (d : Z) :
    0 ≤ d → pstep (ps, s) (ps, (op_sem (Sleep d) s).2).

Definition psteps {A} : list (prog A) * state → list (prog A) * state → Prop := rtc pstep.

(** One step of one program: its next call is answered. *)
Definition resume {A} (p : prog A) (s : state) : option (prog A * state) :=
  match p with
  | Call o k => Some (k (op_sem o s).1, (op_sem o s).2)
  | _ => None
  end.

Lemma pstep_inv {A} (ps ps' : list (prog A)) (s s' : state) :
  pstep (ps, s) (ps', s') →
  (∃ i p p', ps !! i = Some p ∧ resume p s = Some (p', s') ∧ ps' = <[i := p']> ps) ∨
  (ps' = ps ∧ ∃ d, 0 ≤ d ∧ s' = (op_sem (Sleep d) s).2).
Proof.
  inversion 1 as [i ps1 s1 X o k Hi|ps1 s1 d Hd]; subst.
  - left. exists i, (Call o k), (k (op_sem o s).1). by split_and!.
  - right. split; [done|]. by exists d.
Qed.

(** Programs that take turns as the schedule says. *)
Fixpoint take_turns {A} (turns : list nat) (ps : list (prog A)) (s : state) : list (prog A) * state :=
  match turns with
  | [] => (ps, s)
  | i :: r =>
      match ps !! i with
      | Some p => match resume p s with
                  | Some (p', s') => take_turns r (<[i := p']> ps) s'
                  | None => take_turns r ps s
                  end
      | None => take_turns r ps s
      end
  end.

Lemma take_turns_psteps {A} turns (ps : list (prog A)) (s : state) : psteps (ps, s) (take_turns turns ps s).
Proof.
  revert ps s; induction turns as [|i r IH]; intros ps s; [apply rtc_refl|]. cbn.
  destruct (ps !! i) as [p|] eqn:Hi; [|apply IH]. destruct p as [a|e|X o k]; try apply IH.
  eapply rtc_l; [by eapply pstep_call|apply IH].
Qed.

(** What is left of a program that has run. *)
Definition outcome {A} (r : exn + A) : prog A :=
  match r with inl e => Throw e | inr a => Ret a end.

(** One program may run to its end while the others wait. *)
Lemma run_psteps {A} i (p : prog A) (ps : list (prog A)) (s : state) :
  ps !! i = Some p → psteps (ps, s) (<[i := outcome (run p s).1]> ps, (run p s).2).
Proof.
  revert ps s; induction p as [a|e|X o k IH]; intros ps s Hi.
  - cbn. rewrite list_insert_id by done. apply rtc_refl.
  - cbn. rewrite list_insert_id by done. apply rtc_refl.
  - eapply rtc_l; [by eapply pstep_call|]. cbn [run exec state_world].
    specialize (IH (op_sem o s).1 (<[i := k (op_sem o s).1]> ps) (op_sem o s).2).
    rewrite list_insert_insert_eq in IH. apply IH. apply list_lookup_insert_eq.
    by eapply lookup_lt_Some.
Qed.

(** Every call a program may make preserves [I]. *)
Fixpoint keeps {A} (I : state → Prop) (p : prog A) : Prop :=
  match p with
  | Call o k => (∀ s, I s → I (op_sem o s).2) ∧ ∀ r, keeps I (k r)
  | _ => True
  end.

(** Whatever the answers, the program does not return normally. *)
Fixpoint never_ret {A} (p : prog A) : Prop :=
  match p with
  | Ret _ => False
  | Throw _ => True
  | Call o k => ∀ r, never_ret (k r)
  end.

Lemma keeps_bind {A B} I (p : prog A) (f : A → prog B) :
  keeps I p → (∀ a, keeps I (f a)) → keeps I (p ≫= f).
Proof.
  intros Hp Hf. induction p as [a|e|X o k IH]; [apply Hf|done|]. destruct Hp as [Ho Hk].
  split; [exact Ho|]. intros r. by apply IH.
Qed.

Lemma keeps_try {A} I (p : prog A) sel h :
  keeps I p → (∀ e, keeps I (h e)) → keeps I (try_except p sel h).
Proof.
  intros Hp Hh. unfold try_except. induction p as [a|e|X o k IH]; [done| |].
  - cbn. destruct (sel e); [apply Hh|done].
  - destruct Hp as [Ho Hk]. split; [exact Ho|]. intros r. by apply IH.
Qed.

Lemma keeps_call {X} I (o : op X) : (∀ s, I s → I (op_sem o s).2) → keeps I (call o).
Proof. intros Ho. split; [exact Ho|]. by intros [e|x]. Qed.

Lemma keeps_scalar {A} I (l : list A) : keeps I (scalar_one_or_none l).
Proof. by destruct l as [|x [|]]. Qed.

Lemma keeps_resume {A} I (p p' : prog A) (s s' : state) :
  keeps I p → I s → resume p s = Some (p', s') → keeps I p' ∧ I s'.
Proof. destruct p as [a|e|X o k]; [done|done|]. intros [Ho Hk] Hs [= <- <-]. auto. Qed.

Lemma never_ret_bind {A B} (p : prog A) (f : A → prog B) :
  (∀ a, never_ret (f a)) → never_ret (p ≫= f).
Proof. intros Hf. induction p as [a|e|X o k IH]; [apply Hf|done|]. intros r. apply IH. Qed.

Lemma never_ret_resume {A} (p p' : prog A) (s s' : state) :
  never_ret p → resume p s = Some (p', s') → never_ret p'.
Proof. destruct p; [done|done|]. intros Hk [= <- <-]. apply Hk. Qed.

(** Every call a program makes, whatever the answers it gets, takes a step in [R]. *)
Fixpoint steps_in {A} (R : state → state → Prop) (p : prog A) : Prop :=
  match p with
  | Call o k => (∀ s, R s (op_sem o s).2) ∧ ∀ r, steps_in R (k r)
  | _ => True
  end.

(** While [D] holds of the states it is answered in, the program can only return [Φ]. *)
Fixpoint finds {A} (D : state → Prop) (p : prog A) (Φ : A → Prop) : Prop :=
  match p with
  | Ret a => Φ a
  | Throw _ => True
  | Call o k => ∀ s, D s → finds D (k (op_sem o s).1) Φ
  end.

Lemma steps_in_bind {A B} R (p : prog A) (f : A → prog B) :
  steps_in R p → (∀ a, steps_in R (f a)) → steps_in R (p ≫= f).
Proof.
  intros Hp Hf. induction p as [a|e|X o k IH]; [apply Hf|done|]. destruct Hp as [Hs Hk].
  split; [exact Hs|]. intros r. by apply IH.
Qed.

Lemma steps_in_try {A} R (p : prog A) sel h :
  steps_in R p → (∀ e, steps_in R (h e)) → steps_in R (try_except p sel h).
Proof.
  intros Hp Hh. unfold try_except. induction p as [a|e|X o k IH]; [done| |].
  - cbn. destruct (sel e); [apply Hh|done].
  - destruct Hp as [Hs Hk]. split; [exact Hs|]. intros r. by apply IH.
Qed.

Lemma steps_in_catch {A} R (p : prog A) h : steps_in R p → (∀ e, steps_in R (h e)) → steps_in R (catch p h).
Proof.
  intros Hp Hh. induction p as [a|e|X o k IH]; [done|apply Hh|]. destruct Hp as [Hs Hk].
  split; [exact Hs|]. intros r. by apply IH.
Qed.

Lemma steps_in_call {X} R (o : op X) : (∀ s, R s (op_sem o s).2) → steps_in R (call o).
Proof. intros Ho. split; [exact Ho|]. by intros [e|x]. Qed.

Lemma steps_in_weaken {A} (R R' : state → state → Prop) (p : prog A) :
  (∀ s s', R s s' → R' s s') → steps_in R p → steps_in R' p.
Proof.
  intros HR. induction p as [a|e|X o k IH]; [done|done|]. intros [Hs Hk]. split; auto.
Qed.

Lemma finds_bind {A B} D (p : prog A) (f : A → prog B) Φ Ψ :
  finds D p Φ → (∀ a, Φ a → finds D (f a) Ψ) → finds D (p ≫= f) Ψ.
Proof.
  intros Hp Hf. induction p as [a|e|X o k IH]; [by apply Hf|done|]. intros s Hs. by apply IH, Hp.
Qed.

(** * Runs that return

    [safe I p Φ]: started in [I], a run of [p] that returns ends in [I] with a
    result in [Φ]. *)
Definition safe {A} (I : state → Prop) (p : prog A) (Φ : A → Prop) : Prop :=
  ∀ s a s', I s → run p s = (inr a, s') → I s' ∧ Φ a.

Lemma safe_ret {A} I (a : A) (Φ : A → Prop) : Φ a → safe I (Ret a) Φ.
Proof. by intros HΦ s a' s' HI [= <- <-]. Qed.

Lemma safe_throw {A} I e (Φ : A → Prop) : safe I (Throw e) Φ.
Proof. by intros s a s' _ ?. Qed.

Lemma safe_bind {A B} I (p : prog A) (f : A → prog B) (Φ : A → Prop) (Ψ : B → Prop) :
  safe I p Φ → (∀ a, Φ a → safe I (f a) Ψ) → safe I (p ≫= f) Ψ.
Proof.
  intros Hp Hf s b s' HI. rewrite run_bind. destruct (run p s) as [[e|a] s1] eqn:E; [done|].
  destruct (Hp _ _ _ HI E) as [HI1 Ha]. by apply Hf.
Qed.

Lemma safe_weaken {A} I (p : prog A) (Φ Ψ : A → Prop) :
  safe I p Φ → (∀ a, Φ a → Ψ a) → safe I p Ψ.
Proof. intros Hp HΦ s a s' HI E. destruct (Hp _ _ _ HI E). auto. Qed.

Lemma safe_call {X} I (o : op X) (Φ : X → Prop) :
  (∀ s x s', I s → op_sem o s = (inr x, s') → I s' ∧ Φ x) → safe I (call o) Φ.
Proof. intros Ho s x s' HI. rewrite run_call. by apply Ho. Qed.

Lemma safe_for_fold {A S} I (l : list A) acc (body : S → A → prog S) (Φ : S → Prop) :
  Φ acc → (∀ acc x, x ∈ l → Φ acc → safe I (body acc x) Φ) → safe I (for_fold l acc body) Φ.
Proof.
  revert acc; induction l as [|x l IH]; intros acc Ha Hb; [by apply safe_ret|]. cbn.
  apply (safe_bind _ _ _ Φ); [apply Hb; [left|done]|]. intros acc' Ha'. apply IH; [done|].
  intros acc0 y Hy. apply Hb. by right.
Qed.

Lemma safe_for_each {A} I (l : list A) (body : A → prog unit) :
  (∀ x, x ∈ l → safe I (body x) (λ _, True)) → safe I (for_each l body) (λ _, True).
Proof.
  induction l as [|x l IH]; intros Hb; [by apply safe_ret|]. cbn.
  apply (safe_bind _ _ _ (λ _, True)); [apply Hb; left|]. intros _ _. apply IH.
  intros y Hy. apply Hb. by right.
Qed.

(** * What a run does to the database

    [acts p R]: a run of [p] in the pure world relates the database it starts from, its
    result and the database it ends with by [R], or raises an [Exception]; it commits
    nothing. *)
Definition acts {A} (p : prog A) (R : database → A → database → Prop) : Prop :=
  ∀ s : state, match run p s with
               | (inr a, s') => R (st_db s) a (st_db s') ∧ st_committed s' = st_committed s
               | (inl e, s') => is_exception e = true ∧ st_committed s' = st_committed s
               end.

Lemma acts_ret {A} (a : A) (R : database → A → database → Prop) : (∀ d, R d a d) → acts (Ret a) R.
Proof. intros HR s. cbn. auto. Qed.

Lemma acts_throw {A} e (R : database → A → database → Prop) : is_exception e = true → acts (Throw e) R.
Proof. intros He s. cbn. auto. Qed.

Lemma acts_bind {A B} (p : prog A) (f : A → prog B) R (S : A → database → B → database → Prop)
    (T : database → B → database → Prop) :
  acts p R → (∀ a, acts (f a) (S a)) → (∀ d a d1 b d2, R d a d1 → S a d1 b d2 → T d b d2) → acts (p ≫= f) T.
Proof.
  intros Hp Hf HT s. rewrite run_bind. specialize (Hp s). destruct (run p s) as [[e|a] s1]; [done|].
  destruct Hp as [HR Hc]. specialize (Hf a s1). destruct (run (f a) s1) as [[e|b] s2].
  - destruct Hf. split; [done|congruence].
  - destruct Hf as [HS Hc']. split; [eauto|congruence].
Qed.

(** One after the other. *)
Definition andthen {A B} (R : database → A → database → Prop) (S : A → database → B → database → Prop)
    (d : database) (b : B) (d' : database) : Prop := ∃ a d1, R d a d1 ∧ S a d1 b d'.

Lemma acts_seq {A B} (p : prog A) (f : A → prog B) R S :
  acts p R → (∀ a, acts (f a) (S a)) → acts (p ≫= f) (andthen R S).
Proof. intros Hp Hf. eapply acts_bind; [done|done|]. intros d a d1 b d2 Ha Hb. by exists a, d1. Qed.

Lemma acts_weaken {A} (p : prog A) (R T : database → A → database → Prop) :
  acts p R → (∀ d a d', R d a d' → T d a d') → acts p T.
Proof. intros Hp HT s. specialize (Hp s). destruct (run p s) as [[e|a] s1]; [done|]. destruct Hp. auto. Qed.

(** A handler that raises something else. *)
Lemma acts_reraise {A} (p : prog A) sel (h : exn → prog A) R :
  acts p R → (∀ e, ∃ e', h e = Throw e' ∧ is_exception e' = true) → acts (try_except p sel h) R.
Proof.
  intros Hp Hh s. unfold try_except. rewrite run_catch. specialize (Hp s).
  destruct (run p s) as [[e|a] s1]; [|done]. destruct (sel e); [|done].
  destruct (Hh e) as (e' & -> & He'). destruct Hp. by split.
Qed.

(** The calls. *)
Definition answers {X} (o : op X) (d : database) (x : X) (d' : database) : Prop :=
  match o in op X return X → Prop with
  | Select t p => λ l, l = List.filter p (d t) ∧ d' = d
  | Update t p f => λ n, n = Z.of_nat (length (List.filter p (d t)))
                         ∧ d' = set_table t (map (λ r, if p r then f r else r) (d t)) d
  | UpdateUnique t p f => λ n, n = Z.of_nat (length (List.filter p (d t)))
                               ∧ unique_rows t (map (λ r, if p r then (true, f r) else (false, r)) (d t)) = true
                               ∧ d' = set_table t (map (λ r, if p r then f r else r) (d t)) d
  | UpdateReturning t p f => λ l, l = map f (List.filter p (d t))
                                  ∧ d' = set_table t (map (λ r, if p r then f r else r) (d t)) d
  | Insert t arb rows => λ ins, ∃ l, insert_rows t arb rows (d t) = Some (ins, l) ∧ d' = set_table t l d
  | Delete t p => λ n, n = Z.of_nat (length (List.filter p (d t)))
                       ∧ d' = set_table t (List.filter (λ r, negb (p r)) (d t)) d
  | Commit | Rollback => λ _, True
  | _ => λ _, d' = d
  end x.

(** A call that does not end the transaction and raises nothing but an [Exception]. *)
Definition orderly {X} (o : op X) : Prop :=
  match o in op X return Prop with
  | Redis c => ∀ now m e, (c now m).1 = inl e → is_exception e = true
  | Remote f => ∀ r e, (f r).1 = inl e → is_exception e = true
  | Commit | Rollback => False
  | _ => True
  end.

Lemma acts_call {X} (o : op X) : orderly o → acts (call o) (answers o).
Proof.
  intros Ho s. rewrite run_call. cbn [exec state_world].
  destruct o; cbn in *; try done;
    try (destruct (check_rows _ _); [|done]; cbn; try done).
  - destruct (c (st_clock s) (st_redis s)) as [[e|x] m] eqn:E; cbn; [|done]. split; [|done].
    eapply Ho. by rewrite E.
  - destruct (unique_rows _ _) eqn:E; [|done]. done.
  - destruct (insert_rows t arbiter rows (st_db s t)) as [[ins l]|]; cbn; [|done]. eauto.
  - destruct (f (st_remote s)) as [[e|x] m] eqn:E; cbn; [|done]. split; [|done]. eapply Ho. by rewrite E.
Qed.

Lemma acts_scalar {A} (l : list A) :
  acts (scalar_one_or_none l) (λ d o d', l = option_list o ∧ d' = d).
Proof. intros s. by destruct l as [|x [|]]. Qed.

Lemma acts_uuid4 : acts uuid4 (λ d _ d', d' = d).
Proof. by apply (acts_call (Draw _)). Qed.

(** The row that meets a condition. *)
Lemma acts_one t (p : row t → bool) :
  acts (l ← call (Select t p); scalar_one_or_none l)
    (λ d o d', List.filter p (d t) = option_list o ∧ d' = d).
Proof.
  eapply acts_weaken; [apply acts_seq; [by apply acts_call|apply acts_scalar]|].
  intros d o d' (l & d1 & [-> ->] & ? & ->). done.
Qed.

(** One new row. *)
Lemma acts_insert t (r : row t) :
  acts (call (Insert t (no_arbiter t) [r]))
    (λ d _ d', d' = set_table t (d t ++ [r]) d ∧ ∀ x, x ∈ d t → row_conflict t r x = false).
Proof.
  eapply acts_weaken; [by apply acts_call|]. intros d ins d' (l & Hi & ->). cbn [insert_rows] in Hi.
  assert (Ha : existsb (no_arbiter t r) (d t) = false) by by apply existsb_none.
  rewrite Ha in Hi. destruct (insert_check t r); [|done]. cbn [negb orb] in Hi.
  destruct (existsb (row_conflict t r) (d t)) eqn:Ec; [done|]. injection Hi as <- <-.
  split; [done|]. intros x Hx. destruct (row_conflict t r x) eqn:E; [|done].
  rewrite <- Ec. symmetry. apply existsb_exists. exists x. by rewrite <- list_elem_of_In.
Qed.

(** A program that leaves the database alone, whether it returns or raises. *)
Definition reads_only {A} (p : prog A) : Prop :=
  ∀ s : state, st_db (run p s).2 = st_db s ∧ st_committed (run p s).2 = st_committed s ∧
    ∀ e, (run p s).1 = inl e → is_exception e = true.

Definition writes_nothing {X} (o : op X) : bool :=
  match o with
  | Update _ _ _ | UpdateUnique _ _ _ | UpdateReturning _ _ _ | Insert _ _ _ | Delete _ _
  | Commit | Rollback => false
  | _ => true
  end.

(** Steps that write nothing. *)
Definition same_tables (s s' : state) : Prop := st_db s' = st_db s ∧ st_committed s' = st_committed s.
Definition keeps_tables (R : state → state → Prop) : Prop := ∀ s s', same_tables s s' → R s s'.

Lemma same_tables_kept : keeps_tables same_tables.
Proof. by intros s s'. Qed.

Lemma steps_read {X} (R : state → state → Prop) (o : op X) :
  keeps_tables R → writes_nothing o = true → steps_in R (call o).
Proof. intros HR Ho. apply steps_in_call. intros s. apply HR. by destruct o. Qed.

Lemma steps_scalar {A} R (l : list A) : steps_in R (scalar_one_or_none l).
Proof. by destruct l as [|x [|]]. Qed.

Lemma steps_lift {A} R (r : exn + A) : steps_in R (lift r).
Proof. by destruct r. Qed.

Lemma steps_run {A} (p : prog A) (s : state) : steps_in same_tables p → same_tables s (run p s).2.
Proof.
  revert s; induction p as [a|e|X o k IH]; intros s Hp; [done|done|]. destruct Hp as [Hs Hk]. destruct (Hs s) as [H1 H2].
  destruct (IH (op_sem o s).1 (op_sem o s).2 (Hk _)) as [H3 H4]. unfold same_tables. cbn in *.
  destruct (op_sem o s) as [r s1]. cbn in *. split; congruence.
Qed.

(** Go through a program whose calls are steps in [R]. *)
Ltac stepping :=
  repeat first
    [ done
    | solve [auto with zync nocore]
    | apply steps_scalar
    | apply steps_lift
    | apply steps_read; [assumption || apply same_tables_kept|reflexivity]
    | apply steps_in_bind; [|intros ?]
    | apply steps_in_try; [|intros ?]
    | case_goal ].

Lemma reads_ret {A} (a : A) : reads_only (Ret a).
Proof. by intros s. Qed.
Lemma reads_throw {A} e : is_exception e = true → reads_only (Throw e : prog A).
Proof. intros He s. cbn. split_and!; [done..|]. by intros e' [= <-]. Qed.

Lemma reads_bind {A B} (p : prog A) (f : A → prog B) : reads_only p → (∀ a, reads_only (f a)) → reads_only (p ≫= f).
Proof.
  intros Hp Hf s. rewrite run_bind. specialize (Hp s) as (H1 & H2 & H3).
  destruct (run p s) as [[e|a] s1]; cbn in *.
  { split_and!; [done..|]. intros e' [= <-]. by apply H3. }
  specialize (Hf a s1) as (H4 & H5 & H6). split_and!; [congruence..|done].
Qed.

Lemma reads_try {A} (p : prog A) sel h : reads_only p → (∀ e, reads_only (h e)) → reads_only (try_except p sel h).
Proof.
  intros Hp Hh s. unfold try_except. rewrite run_catch. specialize (Hp s) as (H1 & H2 & H3).
  destruct (run p s) as [[e|a] s1]; cbn in *; [|by split_and!].
  destruct (sel e); [|cbn; split_and!; [done..|]; intros e' [= <-]; by apply H3].
  specialize (Hh e s1) as (H4 & H5 & H6). split_and!; [congruence..|done].
Qed.

Lemma reads_call {X} (o : op X) : orderly o → writes_nothing o = true → reads_only (call o).
Proof.
  intros Ho Hw s. pose proof (acts_call o Ho s) as Ha. rewrite run_call in *. cbn [exec state_world] in *.
  destruct o; try done; cbn in *; try (by split_and!).
  all: split_and!; [done..|].
  - intros e He. apply (Ho _ _ _ He).
  - intros e He. apply (Ho _ _ He).
Qed.

Lemma reads_scalar {A} (l : list A) : reads_only (scalar_one_or_none l).
Proof. destruct l as [|x [|]]; [apply reads_ret..|by apply reads_throw]. Qed.

Lemma reads_lift {A} (r : exn + A) : (∀ e, r = inl e → is_exception e = true) → reads_only (lift r).
Proof. destruct r; intros He; [apply reads_throw; auto|apply reads_ret]. Qed.

Lemma reads_acts {A} (p : prog A) : reads_only p → acts p (λ d _ d', d' = d).
Proof.
  intros Hp s. specialize (Hp s) as (H1 & H2 & H3). destruct (run p s) as [[e|a] s1]; cbn in *; auto.
Qed.

Lemma reads_then {A B} (p : prog A) (f : A → prog B) R : reads_only p → (∀ a, acts (f a) R) → acts (p ≫= f) R.
Proof. intros Hp Hf. eapply acts_bind; [by apply reads_acts|exact Hf|]. by intros d a d1 b d2 ->. Qed.

Lemma acts_drop {A B} (p : prog A) (b : B) (R : database → database → Prop) :
  acts p (λ d _ d', R d d') → acts (p ≫= λ _, Ret b) (λ d _ d', R d d').
Proof.
  intros Hp. eapply acts_bind; [exact Hp|intros a; by apply (acts_ret b (λ d _ d', d' = d))|].
  by intros d a d1 c d2 ? ->.
Qed.

(** A Redis command fails, if it does, with Redis' own errors. *)
Definition ks_orderly {X} (c : KS X) : Prop := ∀ now m e, (c now m).1 = inl e → is_exception e = true.

Lemma reads_redis {X} (c : KS X) : ks_orderly c → reads_only (redis c).
Proof. intros Hc. by apply reads_call. Qed.

Lemma ks_get_orderly k : ks_orderly (ks_get k).
Proof. intros now m e. unfold ks_get. repeat case_match; by intros [= <-]. Qed.
Lemma ks_setex_orderly k ttl v : ks_orderly (ks_setex k ttl v).
Proof. intros now m e. unfold ks_setex. case_match; by intros [= <-]. Qed.
Lemma ks_exists_orderly k : ks_orderly (ks_exists k).
Proof. by intros now m e. Qed.
Lemma ks_incr_orderly k : ks_orderly (ks_incr k).
Proof. intros now m e. unfold ks_incr, ks_incrby. repeat case_match; by intros [= <-]. Qed.
Lemma ks_expire_orderly k ttl : ks_orderly (ks_expire k ttl).
Proof. intros now m e. unfold ks_expire. repeat case_match; by intros [= <-]. Qed.
Lemma ks_delete_orderly ks : ks_orderly (ks_delete ks).
Proof.
  induction ks as [|k ks IH]; intros now m e; [done|]. cbn. specialize (IH now (delete k m)).
  repeat case_match; cbn in *; try done; intros [= <-]; by apply IH.
Qed.
Lemma ks_bind_orderly {X Y} (p : KS X) (f : X → KS Y) : ks_orderly p → (∀ x, ks_orderly (f x)) → ks_orderly (ks_bind p f).
Proof.
  intros Hp Hf now m e. unfold ks_bind. specialize (Hp now m).
  destruct (p now m) as [[e'|x] m']; cbn in *; [intros [= <-]; by apply Hp|apply Hf].
Qed.

#[export] Hint Resolve ks_get_orderly ks_setex_orderly ks_exists_orderly ks_incr_orderly ks_expire_orderly
  ks_delete_orderly reads_scalar : zync.

(** Go through a program that writes nothing. *)
Ltac reading :=
  repeat first
    [ done
    | solve [auto with zync nocore]
    | apply reads_ret
    | apply reads_throw; done
    | apply reads_redis; auto with zync nocore
    | apply reads_call; done
    | apply reads_bind; [|intros ?]
    | apply reads_try; [|intros ?]
    | case_goal ].

(** A request that commits does so once, with all its work; another leaves the
    database as it was. *)
Lemma acts_request {A} (p : prog A) R (s : state) :
  acts p R → st_db s = st_committed s →
  st_db (run (request p) s).2 = st_committed (run (request p) s).2 ∧
  ((∃ a, (run (request p) s).1 = inr a ∧ R (st_db s) a (st_db (run (request p) s).2)) ∨
   (∃ e, (run (request p) s).1 = inl e ∧ st_db (run (request p) s).2 = st_db s)).
Proof.
  intros Hp Hs. rewrite run_request. specialize (Hp s).
  destruct (run p s) as [[e|a] s1]; cbn; destruct Hp as [HR Hc].
  - rewrite HR. cbn. split; [done|]. right. eexists. split; [done|]. congruence.
  - split; [done|]. left. by exists a.
Qed.

(** ** Programs that roll back

    [begins p R]: from a state without uncommitted work, where a rollback has a meaning. *)
Definition begins {A} (p : prog A) (R : database → A → database → Prop) : Prop :=
  ∀ s : state, st_db s = st_committed s →
    match run p s with
    | (inr a, s') => R (st_db s) a (st_db s') ∧ st_committed s' = st_committed s
    | (inl e, s') => is_exception e = true ∧ st_committed s' = st_committed s
    end.

Lemma begins_acts {A} (p : prog A) R : acts p R → begins p R.
Proof. intros Hp s _. apply Hp. Qed.

Lemma begins_weaken {A} (p : prog A) (R T : database → A → database → Prop) :
  begins p R → (∀ d a d', R d a d' → T d a d') → begins p T.
Proof. intros Hp HT s Hs. specialize (Hp s Hs). destruct (run p s) as [[e|a] s1]; [done|]. destruct Hp. auto. Qed.

Lemma begins_reads {A B} (p : prog A) (f : A → prog B) R : reads_only p → (∀ a, begins (f a) R) → begins (p ≫= f) R.
Proof.
  intros Hp Hf s Hs. rewrite run_bind. specialize (Hp s) as (H1 & H2 & H3).
  destruct (run p s) as [[e|a] s1]; cbn in *; [split; [by apply H3|done]|].
  specialize (Hf a s1 ltac:(congruence)). by rewrite H1, H2 in Hf.
Qed.

(** What follows does not concern the database. *)
Lemma begins_drop {A B} (p : prog A) (b : B) (R : database → database → Prop) :
  begins p (λ d _ d', R d d') → begins (p ≫= λ _, Ret b) (λ d _ d', R d d').
Proof. intros Hp s Hs. rewrite run_bind. specialize (Hp s Hs). by destruct (run p s) as [[e|a] s1]. Qed.

(** An IntegrityError undoes everything; then something else is done. *)
Lemma begins_undo {A} (p q : prog A) R Q :
  acts p R → begins q Q →
  begins (try_except p is_integrity (λ _, _ ← call Rollback; q)) (λ d a d', R d a d' ∨ Q d a d').
Proof.
  intros Hp Hq s Hs. unfold try_except. rewrite run_catch. specialize (Hp s).
  destruct (run p s) as [[e|a] s1]; [|destruct Hp; auto]. destruct Hp as [He Hc].
  destruct (is_integrity e); [|done]. rewrite run_bind, run_call. cbn [exec state_world op_sem].
  set (s2 := mkState _ _ _ _ _ _ _ _ _). assert (E : st_db s2 = st_db s) by (cbn; congruence).
  assert (Ec : st_committed s2 = st_committed s) by exact Hc.
  specialize (Hq s2 ltac:(congruence)). cbn beta iota. rewrite E, Ec in Hq.
  destruct (run q s2) as [[e'|a] s3]; [done|]. destruct Hq. auto.
Qed.

Lemma begins_request {A} (p : prog A) R (s : state) :
  begins p R → st_db s = st_committed s →
  st_db (run (request p) s).2 = st_committed (run (request p) s).2 ∧
  ((∃ a, (run (request p) s).1 = inr a ∧ R (st_db s) a (st_db (run (request p) s).2)) ∨
   (∃ e, (run (request p) s).1 = inl e ∧ st_db (run (request p) s).2 = st_db s)).
Proof.
  intros Hp Hs. rewrite run_request. specialize (Hp s Hs).
  destruct (run p s) as [[e|a] s1]; cbn; destruct Hp as [HR Hc].
  - rewrite HR. cbn. split; [done|]. right. eexists. split; [done|]. congruence.
  - split; [done|]. left. by exists a.
Qed.

(** ** Programs that fail anyhow

    [works p R]: a run that returns relates the databases by [R]; whatever it raises,
    nothing is committed. *)
Definition works {A} (p : prog A) (R : database → A → database → Prop) : Prop :=
  ∀ s : state, st_committed (run p s).2 = st_committed s ∧
    ∀ a, (run p s).1 = inr a → R (st_db s) a (st_db (run p s).2).

Lemma works_acts {A} (p : prog A) R : acts p R → works p R.
Proof. intros Hp s. specialize (Hp s). destruct (run p s) as [[e|a] s1]; cbn in *; destruct Hp as [HR Hc]; (split; [done|]); by intros ? [= <-]. Qed.

Lemma works_ret {A} (a : A) (R : database → A → database → Prop) : (∀ d, R d a d) → works (Ret a) R.
Proof. intros HR. by apply works_acts, acts_ret. Qed.

Lemma works_throw {A} e (R : database → A → database → Prop) : works (Throw e) R.
Proof. by intros s. Qed.

Lemma works_steps {A} (p : prog A) : steps_in same_tables p → works p (λ d _ d', d' = d).
Proof. intros Hp s. destruct (steps_run p s Hp) as [H1 H2]. auto. Qed.

Lemma works_weaken {A} (p : prog A) (R T : database → A → database → Prop) :
  works p R → (∀ d a d', R d a d' → T d a d') → works p T.
Proof. intros Hp HT s. destruct (Hp s) as [Hc HR]. auto. Qed.

Lemma works_bind_if {A B} (p : prog A) (f : A → prog B) R (Φ : A → Prop) (S : A → database → B → database → Prop)
    (T : database → B → database → Prop) :
  works p R → (∀ d a d', R d a d' → Φ a) → (∀ a, Φ a → works (f a) (S a)) →
  (∀ d a d1 b d2, R d a d1 → S a d1 b d2 → T d b d2) → works (p ≫= f) T.
Proof.
  intros Hp HΦ Hf HT s. rewrite run_bind. specialize (Hp s). destruct (run p s) as [[e|a] s1]; [by destruct Hp|].
  destruct Hp as [Hc HR]. cbn in *. specialize (HR a eq_refl).
  destruct (Hf a (HΦ _ _ _ HR) s1) as [Hc' HS]. split; [by rewrite Hc'|]. eauto.
Qed.

Lemma works_bind {A B} (p : prog A) (f : A → prog B) R (S : A → database → B → database → Prop)
    (T : database → B → database → Prop) :
  works p R → (∀ a, works (f a) (S a)) → (∀ d a d1 b d2, R d a d1 → S a d1 b d2 → T d b d2) → works (p ≫= f) T.
Proof. intros Hp Hf. by apply (works_bind_if _ _ _ (λ _, True)). Qed.

Lemma works_last {A B} (p : prog A) (f : A → B) R :
  works p R → works (p ≫= λ a, Ret (f a)) (λ d b d', ∃ a, b = f a ∧ R d a d').
Proof.
  intros Hp. eapply works_bind; [exact Hp|intros a; by apply (works_ret (f a) (λ d b d', d' = d ∧ b = f a))|].
  intros d a d1 b d2 Hr [-> ->]. eauto.
Qed.

(** The database at the beginning, as a constant. *)
Lemma works_from {A} (p : prog A) (R : database → database → A → database → Prop) :
  (∀ d0, works p (R d0)) → works p (λ d a d', R d d a d').
Proof. intros Hp s. apply (Hp (st_db s) s). Qed.

(** First something that leaves the tables alone. *)
Lemma works_then {A B} (p : prog A) (f : A → prog B) T : steps_in same_tables p → (∀ a, works (f a) T) → works (p ≫= f) T.
Proof. intros Hp Hf. eapply works_bind; [by apply works_steps|exact Hf|]. by intros d a d1 b d2 ->. Qed.

Lemma works_lift {A B} (r : exn + A) (f : A → prog B) T : (∀ a, r = inr a → works (f a) T) → works (lift r ≫= f) T.
Proof. intros Hf. destruct r as [e|a]; [apply works_throw|by apply Hf]. Qed.

(** A handler that only raises something else. *)
Lemma works_reraise {A} (p : prog A) sel (h : exn → exn) R : works p R → works (try_except p sel (λ e, Throw (h e))) R.
Proof.
  intros Hp s. unfold try_except. rewrite run_catch. specialize (Hp s). destruct (run p s) as [[e|a] s1]; [|done].
  destruct Hp as [Hc _]. by destruct (sel e).
Qed.

(** A loop, by an invariant of what is left of the list, the accumulator and the database. *)
Lemma works_for_fold {A S} (I : list A → S → database → Prop) (l : list A) acc (body : S → A → prog S) :
  (∀ x r acc, works (body acc x) (λ d acc' d', I (x :: r) acc d → I r acc' d')) →
  works (for_fold l acc body) (λ d acc' d', I l acc d → I [] acc' d').
Proof.
  intros Hb. revert acc; induction l as [|x l IH]; intros acc; [by apply works_ret|]. cbn [for_fold].
  eapply works_bind; [apply (Hb x l)|exact IH|]. auto.
Qed.

(** A request that first looks something up: it leaves the database as it was, or what
    follows did its work. *)
Lemma request_reads {A B} (p : prog A) (f : A → prog B) (R : A → database → B → database → Prop) (s : state) :
  steps_in same_tables p → (∀ a, begins (f a) (R a)) → st_db s = st_committed s →
  let r := run (request (p ≫= f)) s in
  st_db r.2 = st_committed r.2 ∧
  (st_db r.2 = st_db s ∨ ∃ a b, (run p s).1 = inr a ∧ r.1 = inr b ∧ R a (st_db s) b (st_db r.2)).
Proof.
  intros Hp Hf Hs. cbn zeta. rewrite run_request, run_bind. destruct (steps_run p s Hp) as [H1 H2].
  destruct (run p s) as [[e|a] s1]; cbn [fst snd] in *.
  - destruct (is_exception e); cbn; (split; [congruence|]); left; congruence.
  - specialize (Hf a s1 ltac:(congruence)). destruct (run (f a) s1) as [[e|b] s2].
    + destruct Hf as [-> Hc]. cbn. split; [done|]. left. congruence.
    + destruct Hf as [HR Hc]. cbn. split; [done|]. right. exists a, b. split_and!; [done|done|]. by rewrite <- H1.
Qed.

(** ** The tables a program writes *)

Definition touches {A} (T : table → bool) (p : prog A) : Prop := acts p (λ d _ d', ∀ t, T t = false → d' t = d t).

Lemma touches_bind {A B} T (p : prog A) (f : A → prog B) : touches T p → (∀ a, touches T (f a)) → touches T (p ≫= f).
Proof.
  intros Hp Hf. eapply (acts_bind _ _ _ (λ _ d _ d', ∀ t, T t = false → d' t = d t)); [exact Hp|exact Hf|].
  intros d a d1 b d2 H1 H2 t Ht. by rewrite H2, H1.
Qed.

Lemma touches_reads {A} T (p : prog A) : reads_only p → touches T p.
Proof. intros Hp. eapply acts_weaken; [by apply reads_acts|]. by intros d a d' ->. Qed.

Definition op_writes {X} (o : op X) (t : table) : bool :=
  match o with
  | Update t' _ _ | UpdateUnique t' _ _ | UpdateReturning t' _ _ | Insert t' _ _ | Delete t' _ => bool_decide (t = t')
  | _ => false
  end.

Lemma touches_call {X} T (o : op X) : orderly o → (∀ t, op_writes o t = true → T t = true) → touches T (call o).
Proof.
  intros Ho HT. eapply acts_weaken; [by apply acts_call|].
  assert (Hs : ∀ t t' l d, (bool_decide (t = t') = true → T t = true) → T t = false → set_table t' l d t = d t).
  { intros t t' l d Hw Ht. apply set_table_ne. intros ->. rewrite Hw in Ht; [done|by apply bool_decide_true]. }
  intros d x d' Ha t Ht. destruct o; cbn in *; try done; try by subst.
  - destruct Ha as [_ ->]. done.
  - destruct Ha as [_ ->]. apply Hs; auto.
  - destruct Ha as (_ & _ & ->). apply Hs; auto.
  - destruct Ha as [_ ->]. apply Hs; auto.
  - destruct Ha as (l & _ & ->). apply Hs; auto.
  - destruct Ha as [_ ->]. apply Hs; auto.
Qed.

(** Steps that write the tables of [T] at most. *)
Definition writes_in (T : table → bool) (s s' : state) : Prop := ∀ t, T t = false → st_db s' t = st_db s t.

#[export] Instance writes_in_preorder T : PreOrder (writes_in T).
Proof. split; [by intros s t|]. intros s1 s2 s3 H1 H2 t Ht. by rewrite H2, H1. Qed.

Lemma writes_in_kept T : keeps_tables (writes_in T).
Proof. intros s s' [Hd _] t _. by rewrite Hd. Qed.

(** A step ends no transaction backwards. *)
Lemma steps_writes {X} T (o : op X) :
  orderly o → (∀ t, op_writes o t = true → T t = true) → steps_in (writes_in T) (call o).
Proof.
  intros Ho HT. apply steps_in_call. intros s t Ht. pose proof (touches_call T o Ho HT s) as Hs. rewrite run_call in Hs.
  cbn [exec state_world] in Hs. destruct (op_sem o s) as [[e|x] s1] eqn:E; [|by apply Hs]. cbn [snd].
  destruct o; cbn in E; repeat case_match; simplify_eq; try done.
Qed.

(** What the steps of a run add up to. *)
Lemma steps_in_run {A} (R : state → state → Prop) `{!PreOrder R} (p : prog A) (s : state) : steps_in R p → R s (run p s).2.
Proof.
  revert s; induction p as [a|e|X o k IH]; intros s Hp; [done|done|]. destruct Hp as [Hs Hk].
  etrans; [apply Hs|]. by apply IH.
Qed.

(** Whatever fails: a call that fails takes no step. *)
Lemma steps_in_faulty {A} (R : state → state → Prop) `{!PreOrder R} (p : prog A) (w : faulty) :
  steps_in R p → R (abs w) (abs (run p w).2).
Proof.
  revert w; induction p as [a|e|X o k IH]; intros w Hp; [done|done|]. destruct Hp as [Hs Hk].
  cbn [run]. etrans; [|by apply IH]. cbn.
  destruct w as [s [|[] l]]; destruct (may_fail o); cbn; done || apply Hs.
Qed.

Lemma steps_in_for_fold {A S} R (l : list A) acc (body : S → A → prog S) :
  (∀ acc x, steps_in R (body acc x)) → steps_in R (for_fold l acc body).
Proof.
  intros Hb. revert acc; induction l as [|x l IH]; intros acc; [done|]. cbn.
  apply steps_in_bind; [apply Hb|exact IH].
Qed.

Lemma touches_for_fold {A S} T (l : list A) acc (body : S → A → prog S) :
  (∀ acc x, touches T (body acc x)) → touches T (for_fold l acc body).
Proof.
  intros Hb. revert acc; induction l as [|x l IH]; intros acc; [by apply touches_reads, reads_ret|].
  cbn. apply touches_bind; [apply Hb|exact IH].
Qed.

(** Requests one after the other, each keeping an invariant of the database. *)
Lemma requests_keep (I : database → Prop) (l : list (Z * prog unit)) (s : state) :
  (∀ d p, (d, p) ∈ l → ∃ q, p = request q ∧ acts q (λ d _ d', I d → I d')) →
  st_db s = st_committed s → I (st_db s) →
  st_db (run (attempts l) s).2 = st_committed (run (attempts l) s).2 ∧ I (st_db (run (attempts l) s).2).
Proof.
  revert s. induction l as [|[d p] l IH]; intros s Hl Hs HI; [done|]. cbn [attempts].
  rewrite run_bind, run_call. cbn [exec state_world op_sem].
  set (s0 := mkState _ _ _ _ _ _ _ _ _).
  destruct (Hl d p) as (q & -> & Hq); [left|].
  destruct (acts_request q _ s0 Hq Hs) as [Hs1 Hc].
  assert (He : ∀ e, (run (request q) s0).1 = inl e → is_exception e = true).
  { intros e. rewrite run_request. specialize (Hq s0).
    destruct (run q s0) as [[e'|a] s1]; cbn; [|done]. destruct Hq as [He' _]. rewrite He'. cbn. by intros [= <-]. }
  rewrite run_bind, run_passes by done.
  destruct (IH (run (request q) s0).2) as [Hd HI']; [by intros ???; eapply Hl; right|done| |].
  { destruct Hc as [(a & _ & HR)|(e & _ & ->)]; [by apply HR|done]. }
  cbn beta iota. rewrite run_bind. destruct (run (attempts l) _) as [[e|bs] s2] eqn:E; rewrite ?E in *; cbn in *; done.
Qed.

(** Rows that conflict only with themselves. *)
Lemma unique_rows_keys {K} t (key : row t → K) (l : list (bool * row t)) :
  NoDup (map (λ x, key x.2) l) → (∀ a b, a ∈ l → b ∈ l → row_conflict t a.2 b.2 = true → key a.2 = key b.2) →
  unique_rows t l = true.
Proof.
  induction l as [|[b r] l IH]; cbn; intros Hd Hk; [done|]. apply NoDup_cons in Hd as [Hr Hd].
  apply andb_true_iff. split.
  - apply forallb_forall. intros [b' x] Hx%list_elem_of_In. apply negb_true_iff, andb_false_iff. right.
    apply Bool.not_true_iff_false. intros Hc. apply Hr. cbn in Hc.
    assert (key r = key x) as -> by (apply (Hk (b, r) (b', x)); [by left|by right|done]).
    exact (list_elem_of_fmap_2 (λ x, key x.2) l (b', x) Hx).
  - apply IH; [done|]. intros x y Hx Hy. apply Hk; by right.
Qed.

Lemma run_update_unique {A} t (p : row t → bool) (f : row t → row t) (k : Z → prog A) (s : state) :
  row_check t = None →
  unique_rows t (map (λ r : row t, if p r then (true, f r) else (false, r)) (st_db s t)) = true →
  run (call (UpdateUnique t p f) ≫= k) s =
    run (k (Z.of_nat (length (List.filter p (st_db s t)))))
      (set_db (set_table t (map (λ r, if p r then f r else r) (st_db s t)) (st_db s)) s).
Proof. intros E Hu. apply run_op. unfold op_sem, check_rows. by rewrite E, Hu. Qed.

(** What an INSERT stores: some of the new rows, none in conflict with an old one. *)
Lemma insert_rows_spec t arb new old ins l :
  insert_rows t arb new old = Some (ins, l) →
  l = old ++ ins ∧ ∀ r, r ∈ ins → r ∈ new ∧ ∀ x, x ∈ old → row_conflict t r x = false.
Proof.
  revert old ins l; induction new as [|r new IH]; intros old ins l; cbn.
  - intros [= <- <-]. rewrite app_nil_r. split; [done|]. by intros r ?%elem_of_nil.
  - destruct (existsb (arb r) old).
    { intros (-> & Hi)%IH. split; [done|]. intros r' Hr'. destruct (Hi r' Hr') as [? ?].
      split; [by right|done]. }
    destruct (insert_check t r); [|done]. cbn [negb orb]. destruct (existsb (row_conflict t r) old) eqn:Ec; [done|].
    destruct (insert_rows t arb new (old ++ [r])) as [[ins' l']|] eqn:E; [|done].
    intros [= <- <-]. destruct (IH _ _ _ E) as (-> & Hi). split; [by rewrite <- app_assoc|].
    intros r' [->|Hr']%elem_of_cons.
    + split; [left|]. intros x Hx. destruct (row_conflict t r x) eqn:Ex; [|done].
      assert (existsb (row_conflict t r) old = true); [|congruence].
      apply existsb_exists. exists x. by rewrite <- list_elem_of_In.
    + destruct (Hi r' Hr') as [Hn Hx]. split; [by right|]. intros x ?. apply Hx, elem_of_app. by left.
Qed.

(** An empty world at time 0 with a fixed source of randomness. *)
Definition empty_state : state :=
  mkState 0 ∅ (λ t, match t with
                    | users | refresh_tokens | facts | fact_invalidation_events | episodes
                    | projects | project_members | ingest_dedup | api_keys | episode_blobs
                    | organizations | webhook_endpoints | webhook_delivery_logs | prompt_templates | sessions | project_pins => []
                    end)
    (λ t, match t with
          | users | refresh_tokens | facts | fact_invalidation_events | episodes
          | projects | project_members | ingest_dedup | api_keys | episode_blobs
                    | organizations | webhook_endpoints | webhook_delivery_logs | prompt_templates | sessions | project_pins => []
          end) None (λ i, Z.of_nat i) 0 [] ∅.
