(* ===== verification/Concurrent.v ===== *)
(** Coroutines of one request ([asyncio.gather]) and reasoning about interleaved
    requests by what each may rely on: a relation that every step of every request
    keeps. *)
From S2P Require Import Prelude Errors Data Effects.
Open Scope Z_scope.

(** * [asyncio.gather]

    The coroutines take turns, one call at a time, in the order the schedule says, and
    then run to their end. When one raises, the others are still run, as they are not
    cancelled; the exception comes out afterwards. *)

Fixpoint interleave {A} (turns : list nat) (ps : list (prog A)) : prog (list (prog A)) :=
  match turns with
  | [] => Ret ps
  | i :: r =>
      match ps !! i with
      | Some (Call o k) => Call o (λ x, interleave r (<[i := k x]> ps))
      | _ => interleave r ps
      end
  end.

(** A coroutine's result, its exception included. *)
Definition attempt {A} (p : prog A) : prog (exn + A) := catch (a ← p; Ret (inr a)) (λ e, Ret (inl e)).

Fixpoint finish {A} (ps : list (prog A)) : prog (list (exn + A)) :=
  match ps with
  | [] => Ret []
  | p :: r => x ← attempt p; xs ← finish r; Ret (x :: xs)
  end.

Fixpoint all_ok {A} (l : list (exn + A)) : exn + list A :=
  match l with
  | [] => inr []
  | inl e :: _ => inl e
  | inr a :: r => match all_ok r with inl e => inl e | inr xs => inr (a :: xs) end
  end.

Definition gather {A} (turns : list nat) (ps : list (prog A)) : prog (list A) :=
  rest ← interleave turns ps; xs ← finish rest; lift (all_ok xs).

(** * Relying on a relation

    [rely R s p Φ]: started in [s] while the others take steps in [R], every call of
    [p] is a step in [R] and what it returns meets [Φ] in the state it is returned in. *)

Fixpoint rely {A} (R : state → state → Prop) (s : state) (p : prog A) (Φ : A → state → Prop) : Prop :=
  match p with
  | Ret a => ∀ s', R s s' → Φ a s'
  | Throw _ => True
  | Call o k => ∀ s', R s s' → R s' (op_sem o s').2 ∧ rely R (op_sem o s').2 (k (op_sem o s').1) Φ
  end.

Section rely.
Context (R : state → state → Prop) `{!PreOrder R}.

Lemma rely_ret {A} s (a : A) (Φ : A → state → Prop) : (∀ s', R s s' → Φ a s') → rely R s (Ret a) Φ.
Proof. done. Qed.

Lemma rely_throw {A} s e (Φ : A → state → Prop) : rely R s (Throw e) Φ.
Proof. done. Qed.

Lemma rely_later {A} s s' (p : prog A) Φ : R s s' → rely R s p Φ → rely R s' p Φ.
Proof.
  intros Hs. destruct p as [a|e|X o k]; [|done|]; intros Hp s1 Hs1; apply Hp; by etrans.
Qed.

(** The continuation starts when the result is there, and it stays. *)
Lemma rely_bind {A B} s (p : prog A) (f : A → prog B) Φ Ψ :
  rely R s p Φ → (∀ a s', R s s' → (∀ s1, R s' s1 → Φ a s1) → rely R s' (f a) Ψ) → rely R s (p ≫= f) Ψ.
Proof.
  revert s; induction p as [a|e|X o k IH]; intros s Hp Hf; [|done|].
  - by apply Hf.
  - intros s1 Hs1. destruct (Hp s1 Hs1) as [Ho Hk]. split; [exact Ho|].
    apply IH; [exact Hk|]. intros a s' Hs'. apply Hf. by do 2 (etrans; [eassumption|]).
Qed.

Lemma rely_weaken {A} s (p : prog A) (Φ Ψ : A → state → Prop) :
  rely R s p Φ → (∀ a s', R s s' → Φ a s' → Ψ a s') → rely R s p Ψ.
Proof.
  revert s; induction p as [a|e|X o k IH]; intros s Hp HΦ; [|done|].
  - intros s' Hs'. apply HΦ; [done|]. by apply Hp.
  - intros s1 Hs1. destruct (Hp s1 Hs1) as [Ho Hk]. split; [exact Ho|].
    apply IH; [exact Hk|]. intros a s' Hs'. apply HΦ. by do 2 (etrans; [eassumption|]).
Qed.

Lemma rely_call {X A} s (o : op X) (f : X → prog A) Φ :
  (∀ s', R s s' → R s' (op_sem o s').2 ∧
     ∀ x, (op_sem o s').1 = inr x → rely R (op_sem o s').2 (f x) Φ) →
  rely R s (call o ≫= f) Φ.
Proof.
  intros Ho s' Hs'. destruct (Ho s' Hs') as [Hr Hk]. split; [exact Hr|].
  destruct (op_sem o s').1 as [e|x]; [done|by apply Hk].
Qed.

Lemma rely_last {X} s (o : op X) (Φ : X → state → Prop) :
  (∀ s', R s s' → R s' (op_sem o s').2 ∧
     ∀ x s1, (op_sem o s').1 = inr x → R (op_sem o s').2 s1 → Φ x s1) →
  rely R s (call o) Φ.
Proof.
  intros Ho s' Hs'. destruct (Ho s' Hs') as [Hr Hk]. split; [exact Hr|].
  destruct (op_sem o s').1 as [e|x]; [done|]. intros s1. by apply Hk.
Qed.

Lemma rely_catch {A} s (p : prog A) h Φ :
  rely R s p Φ → (∀ e s', R s s' → rely R s' (h e) Φ) → rely R s (catch p h) Φ.
Proof.
  revert s; induction p as [a|e|X o k IH]; intros s Hp Hh; [done|by apply Hh|].
  intros s1 Hs1. destruct (Hp s1 Hs1) as [Ho Hk]. split; [exact Ho|].
  apply IH; [exact Hk|]. intros e s' Hs'. apply Hh. by do 2 (etrans; [eassumption|]).
Qed.

Lemma rely_try {A} s (p : prog A) sel h Φ :
  rely R s p Φ → (∀ e s', R s s' → rely R s' (h e) Φ) → rely R s (try_except p sel h) Φ.
Proof.
  intros Hp Hh. apply rely_catch; [done|]. intros e s' Hs'. destruct (sel e); [by apply Hh|done].
Qed.

Lemma rely_scalar {A} s (l : list A) (Φ : option A → state → Prop) :
  (∀ s', R s s' → l = [] → Φ None s') → (∀ x s', R s s' → l = [x] → Φ (Some x) s') →
  rely R s (scalar_one_or_none l) Φ.
Proof. intros Hn Hs. destruct l as [|x [|]]; [intros s' ?; by apply Hn|intros s' ?; by apply Hs|done]. Qed.

(** Coroutines that only take steps in [R] do so together. *)
Definition takes {A} (s : state) (p : prog A) : Prop := rely R s p (λ _ _, True).

Lemma takes_later {A} s s' (p : prog A) : R s s' → takes s p → takes s' p.
Proof. apply rely_later. Qed.

Lemma takes_interleave {A} turns (ps : list (prog A)) s :
  Forall (takes s) ps → rely R s (interleave turns ps) (λ rest s', Forall (takes s') rest).
Proof.
  revert ps s; induction turns as [|i turns IH]; intros ps s Hps.
  - intros s' Hs'. eapply Forall_impl; [exact Hps|]. intros p. by apply takes_later.
  - cbn [interleave]. destruct (ps !! i) as [[a|e|X o k]|] eqn:Hi; try by apply IH.
    intros s' Hs'. pose proof (Forall_lookup_1 _ _ _ _ Hps Hi) as Hp.
    destruct (Hp s' Hs') as [Ho Hk]. split; [exact Ho|]. apply IH, Forall_insert; [|exact Hk].
    eapply Forall_impl; [exact Hps|]. intros p. apply takes_later. by etrans.
Qed.

Lemma takes_finish {A} (ps : list (prog A)) s : Forall (takes s) ps → takes s (finish ps).
Proof.
  revert s; induction ps as [|p ps IH]; intros s Hps; [done|]. apply Forall_cons in Hps as [Hp Hps].
  cbn [finish]. unfold takes. eapply rely_bind with (Φ := λ _ _, True).
  - apply rely_catch; [|done]. eapply rely_bind; [exact Hp|done].
  - intros x s' Hs' _. eapply rely_bind with (Φ := λ _ _, True); [|done].
    apply IH. eapply Forall_impl; [exact Hps|]. intros q. by apply takes_later.
Qed.

Lemma takes_gather {A} turns (ps : list (prog A)) s : Forall (takes s) ps → takes s (gather turns ps).
Proof.
  intros Hps. unfold takes, gather. eapply rely_bind; [by apply takes_interleave|].
  intros rest s' _ Hrest. specialize (Hrest s' (reflexivity _)). cbn beta in Hrest.
  eapply rely_bind with (Φ := λ _ _, True); [by apply takes_finish|]. intros xs s1 _ _. by destruct (all_ok xs).
Qed.

(** ** Pools of requests *)

Context (R_time : ∀ s d, 0 ≤ d → R s (op_sem (Sleep d) s).2).

Definition relies {A} (Φ : nat → A → state → Prop) (ps : list (prog A)) (s : state) : Prop :=
  ∀ i p, ps !! i = Some p → rely R s p (Φ i).

Lemma relies_later {A} (Φ : nat → A → state → Prop) ps s s' : R s s' → relies Φ ps s → relies Φ ps s'.
Proof. intros Hs Hps i p Hi. eapply rely_later; [exact Hs|]. by apply Hps. Qed.

(** Coroutines that all return have each met their postcondition. *)
Lemma rely_interleave {A} (Φ : nat → A → state → Prop) turns ps s :
  relies Φ ps s → rely R s (interleave turns ps) (λ rest s', length rest = length ps ∧ relies Φ rest s').
Proof.
  revert ps s; induction turns as [|i turns IH]; intros ps s Hps.
  - intros s' Hs'. split; [done|]. by eapply relies_later.
  - cbn [interleave]. destruct (ps !! i) as [[a|e|X o k]|] eqn:Hi; try by apply IH.
    intros s' Hs'. destruct (Hps i _ Hi s' Hs') as [Ho Hk]. split; [exact Ho|]. eapply rely_weaken.
    + apply IH. intros j q Hj. apply list_lookup_insert_Some in Hj as [(<- & <- & _)|[_ Hj]]; [exact Hk|].
      eapply rely_later; [|by apply Hps]. by etrans.
    + cbn. by rewrite length_insert.
Qed.

Lemma rely_finish {A} (Φ : nat → A → state → Prop) ps s :
  relies Φ ps s → rely R s (finish ps) (λ xs s', length xs = length ps ∧ ∀ i a, xs !! i = Some (inr a) → Φ i a s').
Proof.
  revert Φ s; induction ps as [|p ps IH]; intros Φ s Hps; [by intros s' _|]. cbn [finish].
  eapply rely_bind with (Φ := λ x s', ∀ a, x = inr a → Φ 0%nat a s').
  - apply rely_catch; [|done]. eapply rely_bind; [by apply (Hps 0%nat p)|].
    intros a s' Hs' Ha. apply rely_ret. intros s1 Hs1 a' [= <-]. by apply Ha.
  - intros x s' Hs' Hx. eapply rely_bind; [apply (IH (λ i, Φ (S i)))|].
    + intros i q Hi. eapply rely_later; [exact Hs'|]. by apply (Hps (S i)).
    + intros xs s1 Hs1 Hxs. apply rely_ret. intros s2 Hs2. destruct (Hxs s2 Hs2) as [Hl Hi]. split; [cbn; congruence|].
      intros [|i] a Ha; [|by apply Hi]. injection Ha as ->. apply (Hx s2); [|done]. by etrans.
Qed.

Lemma all_ok_inr {A} (xs : list (exn + A)) l : all_ok xs = inr l → xs = map inr l.
Proof.
  revert l; induction xs as [|[e|a] xs IH]; intros l; cbn; [by intros [= <-]|done|].
  destruct (all_ok xs) as [e|l']; [done|]. intros [= <-]. cbn. by rewrite (IH l').
Qed.

Lemma rely_gather {A} (Φ : nat → A → state → Prop) turns ps s :
  relies Φ ps s → rely R s (gather turns ps) (λ l s', length l = length ps ∧ ∀ i a, l !! i = Some a → Φ i a s').
Proof.
  intros Hps. unfold gather. eapply rely_bind; [by apply rely_interleave|]. intros rest s' Hs' Hrest.
  destruct (Hrest s' (reflexivity _)) as [Hl Hr]. eapply rely_bind; [by apply rely_finish|]. intros xs s1 Hs1 Hxs.
  destruct (all_ok xs) as [e|l] eqn:E; [done|]. apply all_ok_inr in E as ->. apply rely_ret. intros s2 Hs2.
  destruct (Hxs s2 Hs2) as [Hl' Hi]. rewrite length_map in Hl'. split; [congruence|].
  intros i a Ha. apply Hi. by rewrite list_lookup_fmap, Ha.
Qed.

Lemma relies_psteps {A} (Φ : nat → A → state → Prop) ps s ps' s' :
  psteps (ps, s) (ps', s') → relies Φ ps s → R s s' ∧ relies Φ ps' s'.
Proof.
  intros Hst. remember (ps, s) as c eqn:Ec. remember (ps', s') as c' eqn:Ec'.
  revert ps s Ec ps' s' Ec'. induction Hst as [c|c [ps1 s1] c' Hstep Hrest IH]; intros ps s -> ps' s' Ec' Hps.
  - injection Ec' as <- <-. done.
  - specialize (IH _ _ eq_refl _ _ Ec').
    apply pstep_inv in Hstep as [(i & p & p' & Hi & Hr & ->)|(-> & d & Hd & ->)].
    + destruct p as [a|e|X o k]; [done|done|]. cbn in Hr.
      assert (p' = k (op_sem o s).1 ∧ s1 = (op_sem o s).2) as [-> ->] by (split; congruence).
      destruct (Hps i _ Hi s) as [Ho Hk]; [done|].
      destruct IH as [Hs1 Hps1]; [|split; [by etrans|done]].
      intros j q Hj. destruct (decide (i = j)) as [<-|Hne].
      * rewrite list_lookup_insert_eq in Hj by (by eapply lookup_lt_Some). by injection Hj as <-.
      * rewrite list_lookup_insert_ne in Hj by done. eapply rely_later; [exact Ho|]. by apply Hps.
    + destruct IH as [Hs1 Hps1]; [by eapply relies_later; [apply R_time|]|].
      split; [|done]. etrans; [by apply R_time|exact Hs1].
Qed.

(** A run on its own is one of the interleavings. *)
Lemma rely_run {A} (p : prog A) s Φ :
  rely R s p Φ → R s (run p s).2 ∧ ∀ a, (run p s).1 = inr a → Φ a (run p s).2.
Proof.
  revert s; induction p as [a|e|X o k IH]; intros s Hp.
  - split; [done|]. intros a' [= <-]. by apply Hp.
  - split; [done|]. by intros a ?.
  - destruct (Hp s) as [Ho Hk]; [done|]. destruct (IH _ _ Hk) as [H1 H2]. split; [|done].
    etrans; [exact Ho|exact H1].
Qed.
End rely.

(** * One winner

    Something is there to be claimed while [avail] holds, and [I] holds throughout. A [claimant] returns only after
    a call of its own that found it and took it; the others never bring it back. *)
Section one_winner.
Context (I avail : state → Prop).

(** What is gone stays gone, and the invariant holds on. *)
Definition gone (s s' : state) : Prop := I s → I s' ∧ (avail s' → avail s).
Context (gone_time : ∀ s d, 0 ≤ d → gone s (op_sem (Sleep d) s).2).

Fixpoint claimant {A} (p : prog A) : Prop :=
  match p with
  | Ret _ => False
  | Throw _ => True
  | Call o k => ∀ s, I s → gone s (op_sem o s).2 ∧
      (claimant (k (op_sem o s).1) ∨
       avail s ∧ ¬ avail (op_sem o s).2 ∧ steps_in gone (k (op_sem o s).1))
  end.

Lemma claimant_lost {A B} (p : prog A) (f : A → prog B) :
  steps_in gone p → (∀ a, claimant (f a)) → claimant (p ≫= f).
Proof.
  intros Hp Hf. induction p as [a|e|X o k IH]; [apply Hf|done|]. intros s _. destruct Hp as [Hs Hk].
  split; [apply Hs|]. left. by apply IH.
Qed.

Lemma claimant_bind {A B} (p : prog A) (f : A → prog B) : claimant p → (∀ a, steps_in gone (f a)) → claimant (p ≫= f).
Proof.
  intros Hp Hf. induction p as [a|e|X o k IH]; [done|done|]. intros s HI. destruct (Hp s HI) as [Hs Hk].
  split; [exact Hs|]. destruct Hk as [Hk|(Ha & Hn & Hk)]; [left; by apply IH|].
  right. split_and!; [done|done|]. by apply steps_in_bind.
Qed.

(** The claiming call itself: what it answers tells whether it took the thing. *)
Lemma claimant_call {X A} (o : op X) (f : X → prog A) :
  (∀ s, I s → gone s (op_sem o s).2 ∧ ∀ x, (op_sem o s).1 = inr x →
     claimant (f x) ∨ avail s ∧ ¬ avail (op_sem o s).2 ∧ steps_in gone (f x)) →
  claimant (call o ≫= f).
Proof.
  intros Ho s HI. destruct (Ho s HI) as [Hs Hx]. split; [exact Hs|].
  destruct (op_sem o s).1 as [e|x]; [by left|]. by apply Hx.
Qed.

Lemma claimant_try {A} (p : prog A) sel h :
  claimant p → (∀ e, claimant (h e)) → (∀ e, steps_in gone (h e)) → claimant (try_except p sel h).
Proof.
  intros Hp Hh Hg. unfold try_except. induction p as [a|e|X o k IH]; [done| |].
  - cbn. destruct (sel e); [apply Hh|done].
  - intros s HI. destruct (Hp s HI) as [Hs Hk]. split; [exact Hs|].
    destruct Hk as [Hk|(Ha & Hn & Hk)]; [left; by apply IH|]. right. split_and!; [done|done|].
    by apply (steps_in_try gone _ sel h).
Qed.

(** Claimants, at the places [C] says, and others. *)
Definition contest {A} (C : nat → Prop) (won : option nat) (ps : list (prog A)) : Prop :=
  ∀ i p, ps !! i = Some p →
    if decide (won = Some i) then steps_in gone p else (C i → claimant p) ∧ (¬ C i → steps_in gone p).

Definition contested {A} (C : nat → Prop) (c : list (prog A) * state) : Prop :=
  I c.2 ∧ ∃ won, contest C won c.1 ∧ (is_Some won → ¬ avail c.2).

Lemma contest_insert {A} C won i (p : prog A) ps :
  contest C won ps →
  (if decide (won = Some i) then steps_in gone p else (C i → claimant p) ∧ (¬ C i → steps_in gone p)) →
  contest C won (<[i := p]> ps).
Proof.
  intros Hc Hp j q Hj. apply list_lookup_insert_Some in Hj as [(-> & -> & _)|[_ Hj]]; [exact Hp|]. by apply Hc.
Qed.

Lemma contested_step {A} C (ps ps' : list (prog A)) s s' (Hdec : ∀ i, Decision (C i)) :
  contested C (ps, s) → pstep (ps, s) (ps', s') → contested C (ps', s').
Proof.
  intros (HI & won & Hc & Hn) [(i & p & p' & Hp & Hr & ->)|(-> & d & Hd & ->)]%pstep_inv; cbn [fst snd] in *.
  2:{ destruct (gone_time s d Hd HI) as [HI' Hg]. split; [done|]. exists won. split; [exact Hc|]. intros Hw Ha. by apply (Hn Hw), Hg. }
  destruct p as [a|e|X o k]; [done|done|].
  assert (p' = k (op_sem o s).1 ∧ s' = (op_sem o s).2) as [-> ->] by (split; cbn in Hr; congruence).
  specialize (Hc i _ Hp) as Hi.
  assert (Hkeep : gone s (op_sem o s).2 → (if decide (won = Some i) then steps_in gone (k (op_sem o s).1)
            else (C i → claimant (k (op_sem o s).1)) ∧ (¬ C i → steps_in gone (k (op_sem o s).1))) →
          contested C (<[i := k (op_sem o s).1]> ps, (op_sem o s).2)).
  { intros Hs Hk. destruct (Hs HI) as [HI' Hg]. split; [exact HI'|]. exists won. split; [by apply contest_insert|]. intros Hw Ha. by apply (Hn Hw), Hg. }
  destruct (decide (won = Some i)) as [->|Hne]; [destruct Hi as [Hs Hk]; apply Hkeep; [apply Hs|apply Hk]|].
  destruct Hi as [Hcl Hot]. destruct (decide (C i)) as [Ci|Ci];
    [|destruct (Hot Ci) as [Hs Hk]; apply Hkeep; [apply Hs|split; [done|intros _; apply Hk]]].
  destruct (Hcl Ci s HI) as [Hs [Hk|(Ha & Hg & Hk)]]; [by apply Hkeep|].
  assert (won = None) as -> by (destruct won; [by destruct (Hn ltac:(done))|done]).
  destruct (Hs HI) as [HI' _]. split; [exact HI'|]. exists (Some i). split; [|done]. intros j q Hj.
  apply list_lookup_insert_Some in Hj as [(<- & <- & _)|[Hij Hj]]; [by rewrite decide_True|].
  rewrite decide_False by congruence. specialize (Hc j q Hj). by rewrite decide_False in Hc by done.
Qed.

(** However they are interleaved, at most one claimant returns. *)
Lemma one_winner {A} (C : nat → Prop) (Hdec : ∀ i, Decision (C i)) (ps ps' : list (prog A)) s s' i j a b :
  I s → (∀ k p, ps !! k = Some p → (C k → claimant p) ∧ (¬ C k → steps_in gone p)) →
  psteps (ps, s) (ps', s') → C i → C j → ps' !! i = Some (Ret a) → ps' !! j = Some (Ret b) → i = j.
Proof.
  intros HI Hps Hst Ci Cj Hi Hj.
  assert (contested C (ps', s')) as (_ & won & Hc & _).
  { assert (contested C (ps, s)) as H0.
    { split; [exact HI|]. exists None. split; [|by intros [? ?]]. intros k p Hk. rewrite decide_False by done. by apply Hps. }
    remember (ps, s) as c eqn:E. remember (ps', s') as c' eqn:E'. clear E Hps.
    revert E'. induction Hst as [c|[ps1 s1] [ps2 s2] c' Hstep _ IH]; intros E'; [by subst|].
    apply IH; [|done]. by eapply contested_step. }
  cbn in Hc. pose proof (Hc i _ Hi) as Hwi. pose proof (Hc j _ Hj) as Hwj.
  destruct (decide (won = Some i)) as [->|]; [|by destruct Hwi as [Hwi _]; destruct (Hwi Ci)].
  destruct (decide (Some i = Some j)) as [[= <-]|]; [done|]. by destruct Hwj as [Hwj _]; destruct (Hwj Cj).
Qed.
End one_winner.

(** * Coroutines whose calls are steps in a relation *)

Lemma steps_in_finish {A} R (ps : list (prog A)) : Forall (steps_in R) ps → steps_in R (finish ps).
Proof.
  induction ps as [|p ps IH]; intros Hps; [done|]. apply Forall_cons in Hps as [Hp Hps]. cbn [finish].
  apply steps_in_bind; [|intros x; apply steps_in_bind; [by apply IH|done]].
  apply steps_in_catch; [by apply steps_in_bind|done].
Qed.

Lemma steps_in_gather {A} R turns (ps : list (prog A)) : Forall (steps_in R) ps → steps_in R (gather turns ps).
Proof.
  unfold gather. revert ps; induction turns as [|i turns IH]; intros ps Hps.
  - apply (steps_in_bind R (finish ps)); [by apply steps_in_finish|]. intros xs. apply steps_lift.
  - cbn [interleave]. destruct (ps !! i) as [[a|e|X o k]|] eqn:Hi; try by apply IH.
    destruct (Forall_lookup_1 _ _ _ _ Hps Hi) as [Hs Hk]. split; [exact Hs|]. intros r.
    apply IH, Forall_insert; [done|apply Hk].
Qed.

(** * Programs that raise ordinary exceptions only

    [tame Ψ p]: whatever the calls of [p] answer, it raises an [Exception] or returns a
    result in [Ψ]; so do coroutines that take turns. *)

Fixpoint tame {A} (Ψ : A → Prop) (p : prog A) : Prop :=
  match p with
  | Ret a => Ψ a
  | Throw e => is_exception e = true
  | Call o k =>
      (∀ s e, (op_sem o s).1 = inl e → is_exception e = true) ∧
      ∀ r, (∀ e, r = inl e → is_exception e = true) → tame Ψ (k r)
  end.

Abbreviation harmless := (tame (λ _, True)).

Lemma tame_bind {A B} (p : prog A) (f : A → prog B) Ψ Φ :
  tame Ψ p → (∀ a, Ψ a → tame Φ (f a)) → tame Φ (p ≫= f).
Proof.
  intros Hp Hf. induction p as [a|e|X o k IH]; [by apply Hf|done|]. destruct Hp as [Ho Hk].
  split; [exact Ho|]. intros r Hr. by apply IH, Hk.
Qed.

Lemma tame_catch {A} (p : prog A) h Ψ :
  tame Ψ p → (∀ e, is_exception e = true → tame Ψ (h e)) → tame Ψ (catch p h).
Proof.
  intros Hp Hh. induction p as [a|e|X o k IH]; [done|by apply Hh|]. destruct Hp as [Ho Hk].
  split; [exact Ho|]. intros r Hr. by apply IH, Hk.
Qed.

Lemma tame_try {A} (p : prog A) sel h Ψ :
  tame Ψ p → (∀ e, is_exception e = true → tame Ψ (h e)) → tame Ψ (try_except p sel h).
Proof. intros Hp Hh. apply tame_catch; [done|]. intros e He. destruct (sel e); [by apply Hh|done]. Qed.

Lemma tame_weaken {A} (p : prog A) (Ψ Φ : A → Prop) : (∀ a, Ψ a → Φ a) → tame Ψ p → tame Φ p.
Proof.
  intros HΨ. induction p as [a|e|X o k IH]; [apply HΨ|done|]. intros [Ho Hk]. split; [exact Ho|]. auto.
Qed.

Lemma tame_call {X} (o : op X) :
  (∀ s e, (op_sem o s).1 = inl e → is_exception e = true) → harmless (call o).
Proof. intros Ho. split; [exact Ho|]. intros [e|x] Hr; [by apply Hr|done]. Qed.

(** Calls to the database, the clock, the random source and the queue. *)
Definition ordinary {X} (o : op X) : bool := match o with Redis _ | Remote _ => false | _ => true end.

Lemma tame_ordinary {X} (o : op X) : ordinary o = true → harmless (call o).
Proof.
  intros Ho. apply tame_call. intros s e. destruct o; cbn; try done;
    (destruct (check_rows _ _); [|by intros [= <-]]); try done.
  - destruct (unique_rows _ _); [done|by intros [= <-]].
  - destruct (insert_rows _ _ _ _) as [[??]|]; [done|by intros [= <-]].
Qed.

Lemma tame_scalar {A} (l : list A) : harmless (scalar_one_or_none l).
Proof. by destruct l as [|x [|]]. Qed.

Lemma tame_lift {A} (r : exn + A) : (∀ e, r = inl e → is_exception e = true) → harmless (lift r).
Proof. intros Hr. destruct r; [by apply Hr|done]. Qed.

Lemma tame_interleave {A} turns (ps : list (prog A)) :
  Forall harmless ps → tame (Forall harmless) (interleave turns ps).
Proof.
  revert ps; induction turns as [|i turns IH]; intros ps Hps; [exact Hps|]. cbn [interleave].
  destruct (ps !! i) as [[a|e|X o k]|] eqn:Hi; try by apply IH.
  pose proof (Forall_lookup_1 _ _ _ _ Hps Hi) as [Ho Hk]. split; [exact Ho|]. intros r Hr.
  apply IH, Forall_insert; [done|by apply Hk].
Qed.

Lemma tame_finish {A} (ps : list (prog A)) :
  Forall harmless ps → tame (Forall (λ r, ∀ e, r = inl e → is_exception e = true)) (finish ps).
Proof.
  induction ps as [|p ps IH]; intros Hps; [constructor|]. apply Forall_cons in Hps as [Hp Hps]. cbn [finish].
  eapply tame_bind with (Ψ := λ r, ∀ e, r = inl e → is_exception e = true).
  - apply tame_catch; [|by intros e He e' [= <-]]. eapply tame_bind; [exact Hp|]. by intros a _ e ?.
  - intros x Hx. eapply tame_bind; [by apply IH|]. intros xs Hxs. by constructor.
Qed.

Lemma tame_gather {A} turns (ps : list (prog A)) : Forall harmless ps → harmless (gather turns ps).
Proof.
  intros Hps. eapply tame_bind; [by apply tame_interleave|]. intros rest Hrest.
  eapply tame_bind; [by apply tame_finish|]. intros xs Hxs. apply tame_lift. intros e.
  induction xs as [|[e'|a] xs IH]; cbn; [done|intros [= <-]; by apply Forall_cons in Hxs as [Hx _]; apply Hx|].
  apply Forall_cons in Hxs as [_ Hxs]. destruct (all_ok xs); [|done]. intros [= <-]. by apply IH.
Qed.

(** Whatever fails, and whenever. *)
Lemma tame_run {A} (p : prog A) Ψ (w : faulty) :
  tame Ψ p → match (run p w).1 with inl e => is_exception e = true | inr a => Ψ a end.
Proof.
  revert w; induction p as [a|e|X o k IH]; intros w Hp; [done|done|]. destruct Hp as [Ho Hk].
  cbn [run]. apply IH, Hk. intros e. cbn. destruct (may_fail o); [|apply Ho].
  destruct w as [s [|[] l]]; cbn; try apply Ho. destruct o; by intros [= <-].
Qed.

Lemma tame_plain {A} (p : prog A) Ψ : tame Ψ p → plain p.
Proof. intros Hp w e w' E. pose proof (tame_run p Ψ w Hp) as Hr. by rewrite E in Hr. Qed.

(** * Programs that always return

    [surely Ψ p]: whatever the state its calls are answered in, [p] returns a result in
    [Ψ]; so do coroutines that take turns. *)

Fixpoint surely {A} (Ψ : A → Prop) (p : prog A) : Prop :=
  match p with
  | Ret a => Ψ a
  | Throw _ => False
  | Call o k => ∀ s, surely Ψ (k (op_sem o s).1)
  end.

Lemma surely_bind {A B} (p : prog A) (f : A → prog B) Ψ Φ :
  surely Ψ p → (∀ a, Ψ a → surely Φ (f a)) → surely Φ (p ≫= f).
Proof. intros Hp Hf. induction p as [a|e|X o k IH]; [by apply Hf|done|]. intros s. apply IH, Hp. Qed.

Lemma surely_catch {A} (p : prog A) h Ψ : surely Ψ p → surely Ψ (catch p h).
Proof. intros Hp. induction p as [a|e|X o k IH]; [done|done|]. intros s. apply IH, Hp. Qed.

Lemma surely_interleave {A} Ψ turns (ps : list (prog A)) :
  Forall (surely Ψ) ps → surely (Forall (surely Ψ)) (interleave turns ps).
Proof.
  revert ps; induction turns as [|i turns IH]; intros ps Hps; [exact Hps|]. cbn [interleave].
  destruct (ps !! i) as [[a|e|X o k]|] eqn:Hi; try by apply IH.
  pose proof (Forall_lookup_1 _ _ _ _ Hps Hi) as Hk. intros s. apply IH, Forall_insert; [done|apply Hk].
Qed.

Lemma surely_finish {A} Ψ (ps : list (prog A)) :
  Forall (surely Ψ) ps → surely (Forall (λ r, is_ok r = true)) (finish ps).
Proof.
  induction ps as [|p ps IH]; intros Hps; [constructor|]. apply Forall_cons in Hps as [Hp Hps]. cbn [finish].
  eapply surely_bind with (Ψ := λ r, is_ok r = true).
  - apply surely_catch. by eapply surely_bind.
  - intros x Hx. eapply surely_bind; [by apply IH|]. intros xs Hxs. by constructor.
Qed.

Lemma surely_gather {A} Ψ turns (ps : list (prog A)) : Forall (surely Ψ) ps → surely (λ _, True) (gather turns ps).
Proof.
  intros Hps. eapply surely_bind; [by apply surely_interleave|]. intros rest Hrest.
  eapply surely_bind; [by eapply surely_finish|]. intros xs Hxs.
  induction Hxs as [|[e|a] xs Hx Hxs IH]; [done|done|]. cbn. by destruct (all_ok xs).
Qed.

Lemma surely_run {A} Ψ (p : prog A) (s : state) : surely Ψ p → ∃ a, (run p s).1 = inr a ∧ Ψ a.
Proof. revert s; induction p as [a|e|X o k IH]; intros s Hp; [by exists a|done|]. apply IH, Hp. Qed.
