(* ===== verification/Retry.v ===== *)
(** workers/tasks/base.py: [with_retry], which every task of the workers runs under. *)
From S2P Require Import Prelude Errors Data Effects.
Open Scope Z_scope.

Definition DEFAULT_MAX_RETRIES : nat := 3.
Definition DEFAULT_BASE_DELAY : Z := us_per_s.
Definition DEFAULT_MAX_DELAY : Z := 30 * us_per_s.

(** One call of the function: its exception is kept if it is an [Exception]. *)
Definition caught {A} (func : prog A) : prog (exn + A) :=
  catch (a ← func; Ret (inr a)) (λ e, if is_exception e then Ret (inl e) else Throw e).

Section retry.
Context {A : Type} (max_delay : Z) (log : bool) (is_retryable : exn → bool) (func : prog A).

(** Retries are exhausted; without an attempt there is nothing to raise. *)
Definition exhausted (last_exc : option exn) : prog (option A) :=
  if log then Ret None
  else Throw (default (TypeError "exceptions must derive from BaseException") last_exc).

(** [n] attempts are left. *)
Fixpoint attempts (n : nat) (delay : Z) (last_exc : option exn) : prog (option A) :=
  match n with
  | O => exhausted last_exc
  | S n =>
      x ← caught func;
      match x with
      | inr a => Ret (Some a)
      | inl e =>
          if negb (is_retryable e) then Throw e
          else _ ← match n with O => Ret tt | S _ => call (Sleep delay) end;
               attempts n (Z.min (delay * 2) max_delay) (Some e)
      end
  end.
End retry.

(** [None] is what "log" returns; delays are in microseconds. *)
Definition with_retry {A} (max_retries : nat) (base_delay max_delay : Z) (log : bool) (is_retryable : exn → bool) (func : prog A) :
    prog (option A) :=
  attempts max_delay log is_retryable func max_retries base_delay None.

(** * What a call under [with_retry] comes to *)

Section outcome.
Context {A : Type} (base_delay max_delay : Z) (log : bool) (is_retryable : exn → bool) (func : prog A).

(** The wait after attempt [i], counted from 0; only the later ones are capped. *)
Definition delay (i : nat) : Z := if (i =? 0)%nat then base_delay else Z.min (base_delay * 2 ^ Z.of_nat i) max_delay.

(** The world before attempt [i], all the earlier ones having failed. *)
Fixpoint before_try (i : nat) (w : faulty) : faulty :=
  match i with
  | O => w
  | S i => (run (call (Sleep (delay i))) (run func (before_try i w)).2).2
  end.
Definition try_result (i : nat) (w : faulty) : exn + A := (run func (before_try i w)).1.

Definition retried (r : exn + A) : bool := match r with inl e => is_exception e && is_retryable e | inr _ => false end.

(** What the call returns when the last attempt made ended with [r]. *)
Definition final (r : exn + A) : exn + option A :=
  match r with
  | inr a => inr (Some a)
  | inl e => if retried r && log then inr None else inl e
  end.

Lemma run_caught (w : faulty) :
  run (caught func) w =
    match run func w with
    | (inr a, w') => (inr (inr a), w')
    | (inl e, w') => (if is_exception e then inr (inl e) else inl e, w')
    end.
Proof. unfold caught. rewrite run_catch, run_bind. destruct (run func w) as [[e|a] w']; [by destruct (is_exception e)|done]. Qed.

Lemma delay_next i : 0 ≤ max_delay → Z.min (delay i * 2) max_delay = delay (S i).
Proof.
  intros Hm. unfold delay. destruct i as [|i]; cbn [Nat.eqb]; [by change (2 ^ Z.of_nat 1) with 2|].
  rewrite (Nat2Z.inj_succ (S i)), Z.pow_succ_r by lia. nia.
Qed.

Lemma run_retried n i last (w : faulty) :
  0 ≤ max_delay →
  ∃ k, (k ≤ n)%nat ∧ (∀ j, (j < k)%nat → retried (try_result (i + j) w) = true)
    ∧ (k = n ∨ retried (try_result (i + k) w) = false)
    ∧ run (attempts max_delay log is_retryable func (S n) (delay i) last) (before_try i w)
      = (final (try_result (i + k) w), (run func (before_try (i + k) w)).2).
Proof.
  intros Hm. revert i last; induction n as [|n IH]; intros i last.
  - exists 0%nat. rewrite Nat.add_0_r. split_and!; [lia|lia|by left|].
    cbn [attempts]. rewrite run_bind, run_caught. unfold try_result, final, retried, exhausted.
    destruct (run func (before_try i w)) as [[e|a] w1]; [|done]. cbn [fst snd]. destruct (is_exception e); [|done].
    cbn [run]. destruct (is_retryable e); cbn [negb andb]; [|done]. by destruct log.
  - destruct (retried (try_result i w)) eqn:Er.
    + destruct (IH (S i) (match try_result i w with inl e => Some e | inr _ => None end)) as (k & Hk & Hj & Hlast & Hrun). exists (S k).
      rewrite <- Nat.add_succ_comm. split_and!; [lia| |by destruct Hlast; [left; lia|right]|].
      { intros [|j] Hj'; [by rewrite Nat.add_0_r|]. rewrite <- Nat.add_succ_comm. apply Hj. lia. }
      rewrite <- Hrun. remember (S n) as m. cbn [attempts]. rewrite run_bind, run_caught.
      unfold try_result in Er |- *. cbn [before_try]. destruct (run func (before_try i w)) as [[e|a] w1]; [|done].
      cbn [retried fst snd] in *. apply andb_true_iff in Er as [He Hr]. rewrite He. cbn [run]. rewrite Hr. cbn [negb].
      subst m. rewrite run_bind, run_call. cbn [fst snd]. rewrite delay_next by done. by destruct w1 as [s pl].
    + exists 0%nat. rewrite Nat.add_0_r. split_and!; [lia|lia|by right|]. remember (S n) as m. cbn [attempts].
      rewrite run_bind, run_caught. unfold try_result, final in *. rewrite Er.
      destruct (run func (before_try i w)) as [[e|a] w1]; [|done]. cbn [retried fst snd] in *.
      destruct (is_exception e); [|done]. cbn [run]. cbn [andb] in Er. by rewrite Er.
Qed.
End outcome.

(** C40. A task that is retried ends: with [max_retries] attempts allowed, the attempts
    before the last one made all failed with errors worth another attempt, the last one
    succeeded, failed with an error that is not, or was the last allowed; between attempts
    it waits the base delay and then twice as long each time up to the cap; the outcome is
    the last attempt's, or [None] where exhaustion is only logged. Nothing else happens,
    whatever fails in the services meanwhile. *)
Theorem retry_outcome {A} n base_delay max_delay log is_retryable (func : prog A) (w : faulty) :
  (0 < n)%nat → 0 ≤ max_delay →
  let result := try_result base_delay max_delay func in
  ∃ k, (k < n)%nat ∧ (∀ j, (j < k)%nat → retried is_retryable (result j w) = true)
    ∧ (S k = n ∨ retried is_retryable (result k w) = false)
    ∧ run (with_retry n base_delay max_delay log is_retryable func) w
      = (final log is_retryable (result k w), (run func (before_try base_delay max_delay func k w)).2).
Proof.
  intros Hn Hm. cbn zeta. destruct n as [|n]; [lia|].
  destruct (run_retried base_delay max_delay log is_retryable func n 0 None w Hm) as (k & Hk & Hj & Hlast & Hrun).
  exists k. split_and!; [lia|exact Hj|destruct Hlast; [left; lia|by right]|exact Hrun].
Qed.

(** ** At a concrete task *)

(** It fails on its first two calls, which leave a mark. *)
Definition third_time : prog Z :=
  n ← redis (ks_incr "calls"); if n <? 3 then Throw (RedisError "busy") else Ret n.
Definition usually {A} : prog A → prog (option A) :=
  with_retry DEFAULT_MAX_RETRIES DEFAULT_BASE_DELAY DEFAULT_MAX_DELAY false (λ _, true).

Lemma retry_outcome_witness :
  (run (usually third_time) ((empty_state, []) : faulty)).1 = inr (Some 3)
  ∧ st_clock (run (usually third_time) ((empty_state, []) : faulty)).2.1 = 3 * us_per_s
  ∧ ∃ k, (k < 3)%nat ∧ (∀ j, (j < k)%nat → retried (λ _, true) (try_result us_per_s (30 * us_per_s) third_time j (empty_state, [])) = true)
    ∧ run (usually third_time) ((empty_state, []) : faulty)
      = (final false (λ _, true) (try_result us_per_s (30 * us_per_s) third_time k (empty_state, [])),
         (run third_time (before_try us_per_s (30 * us_per_s) third_time k (empty_state, []))).2).
Proof.
  split; [by vm_compute|]. split; [by vm_compute|].
  destruct (retry_outcome 3 us_per_s (30 * us_per_s) false (λ _, true) third_time (empty_state, []) ltac:(lia) ltac:(done))
    as (k & Hk & Hj & _ & Hrun).
  exists k. split_and!; [exact Hk|exact Hj|exact Hrun].
Defined.

(** Without an attempt there is no exception to raise again. *)
Example no_attempt :
  (run (with_retry 0 1 1 false (λ _, true) third_time) empty_state).1 = inl (TypeError "exceptions must derive from BaseException").
Proof. done. Qed.
