(* ===== verification/Rls.v ===== *)
(** core/rls.py, the session dependencies of dependencies/db.py and the policies of
    migrations/versions/0059_force_rls.py: what a database session may see. A session
    is modelled with the settings of its open transaction, the context it remembers,
    and a plan of the statements that fail. *)
From S2P Require Import Prelude Errors Data.
Open Scope Z_scope.

(** * Contexts and policies *)

Record RlsContext := mkRlsContext {
  org_id : string;
  bypass_rls : bool;
  lookup_code : string;
}.

Definition no_context : RlsContext := mkRlsContext "" false "".

Definition is_empty (c : RlsContext) : bool :=
  (org_id c =? "")%string && negb (bypass_rls c) && (lookup_code c =? "")%string.

Arguments is_empty : simpl never.

Definition with_org (o : string) (c : RlsContext) : RlsContext :=
  mkRlsContext o (bypass_rls c) (lookup_code c).
Definition with_bypass (b : bool) (c : RlsContext) : RlsContext :=
  mkRlsContext (org_id c) b (lookup_code c).
Definition with_lookup (code : string) (c : RlsContext) : RlsContext :=
  mkRlsContext (org_id c) (bypass_rls c) code.

(** [NULLIF(current_setting('app.org_id', true), '')::UUID], for the settings the code
    makes, which are empty or the text of a UUID. *)
Definition _org_id_expr (g : RlsContext) : option uuid :=
  if (org_id g =? "")%string then None else uuid_parse (org_id g).

(** [organization_id = ...]: NULL equals nothing. *)
Definition org_matches (g : RlsContext) (o : uuid) : bool := sql_eq (Some o) (_org_id_expr g).

(** The organization a row of a table belongs to; the tables without one are not under
    row-level security, and a member belongs where its project does. *)
Definition tenant (d : database) (t : table) : row t → option (list uuid) :=
  match t with
  | users => λ r, Some [u_organization_id r]
  | refresh_tokens => λ r, Some [rt_organization_id r]
  | facts => λ r, Some [f_organization_id r]
  | fact_invalidation_events => λ r, Some [ie_organization_id r]
  | episodes => λ r, Some [ep_organization_id r]
  | sessions => λ r, Some [se_organization_id r]
  | projects => λ r, Some [p_organization_id r]
  | project_pins => λ r, Some [pp_organization_id r]
  | project_members => λ r, Some
      (map p_organization_id (List.filter (λ p, p_id p =? pm_project_id r) (d projects)))
  | api_keys => λ r, Some [ak_organization_id r]
  | episode_blobs => λ r, Some [eb_organization_id r]
  | organizations => λ r, Some [o_id r]
  | webhook_endpoints => λ r, Some [we_organization_id r]
  | prompt_templates => λ r, Some (option_list (pt_organization_id r))
  | ingest_dedup | webhook_delivery_logs => λ _, None
  end.

(** [_policy_body]: the USING expression of [org_isolation_<table>], which is also the
    check of rows that are written. *)
Definition _policy_body (g : RlsContext) (d : database) (t : table) (r : row t) : bool :=
  match tenant d t r with
  | None => true
  | Some os => bypass_rls g || existsb (org_matches g) os
  end.

(** [org_join_code_lookup], for SELECT only. *)
Definition join_code_lookup (g : RlsContext) (t : table) : row t → bool :=
  match t with
  | organizations => λ r, negb (lookup_code g =? "")%string && (o_org_code r =? lookup_code g)%string
  | _ => λ _, false
  end.

Definition readable (g : RlsContext) (d : database) (t : table) (r : row t) : bool :=
  _policy_body g d t r || join_code_lookup g t r.

(** * Sessions *)

(** A connection is outside a transaction, in one with its local settings, or in one
    that a failed statement has aborted. *)
Inductive transaction := NoTxn | Open (guc : RlsContext) | Aborted.

(** [seen] notes the settings each data statement was evaluated under. *)
Record session := mkSession {
  txn : transaction;
  rls_context : RlsContext;
  rows : database;
  committed : database;
  seen : list RlsContext;
  faults : list bool;
}.

Definition db (A : Type) : Type := session → (exn + A) * session.

#[export] Instance db_ret : MRet db := λ A a s, (inr a, s).
#[export] Instance db_bind : MBind db :=
  λ A B f p s, match p s with (inl e, s') => (inl e, s') | (inr a, s') => f a s' end.

Definition raise {A} (e : exn) : db A := λ s, (inl e, s).

(** [try: p except <sel>: h], and [try: p finally: q]. *)
Definition db_except {A} (p : db A) (sel : exn → bool) (h : exn → db A) : db A := λ s,
  match p s with (inl e, s') => if sel e then h e s' else (inl e, s') | r => r end.
Definition db_finally {A} (p : db A) (q : db unit) : db A := λ s,
  let '(r, s1) := p s in match q s1 with (inl e, s2) => (inl e, s2) | (inr _, s2) => (r, s2) end.

Inductive statement : Type → Type :=
| SetConfig (c : RlsContext) : statement unit
| SetBypass (b : bool) : statement unit
| SelectRows (t : table) (p : row t → bool) : statement (list (row t))
| UpdateRows (t : table) (p : row t → bool) (f : row t → row t) : statement Z
| DeleteRows (t : table) (p : row t → bool) : statement Z
| InsertRow (t : table) (r : row t) : statement unit.

Definition policy_violation : exn := DatabaseError "new row violates row-level security policy".

(** The answer of a statement under the settings [g], the new settings and tables. *)
Definition evaluate {X} (st : statement X) (g : RlsContext) (d : database) :
    exn + X * RlsContext * database :=
  match st in statement X return exn + X * RlsContext * database with
  | SetConfig c => inr (tt, c, d)
  | SetBypass b => inr (tt, with_bypass b g, d)
  | SelectRows t p => inr (List.filter (λ r, p r && readable g d t r) (d t), g, d)
  | UpdateRows t p f =>
      let hit r := p r && _policy_body g d t r in
      if forallb (λ r, _policy_body g d t (f r)) (List.filter hit (d t)) then
        inr (Z.of_nat (length (List.filter hit (d t))), g,
             set_table t (map (λ r, if hit r then f r else r) (d t)) d)
      else inl policy_violation
  | DeleteRows t p =>
      let hit r := p r && _policy_body g d t r in
      inr (Z.of_nat (length (List.filter hit (d t))), g,
           set_table t (List.filter (λ r, negb (hit r)) (d t)) d)
  | InsertRow t r =>
      if negb (_policy_body g d t r) then inl policy_violation
      else if existsb (row_conflict t r) (d t) then inl IntegrityError
      else inr (tt, g, set_table t (d t ++ [r]) d)
  end.

Definition is_data {X} (st : statement X) : bool :=
  match st with SetConfig _ | SetBypass _ => false | _ => true end.

(** [session.execute(st)]: the first statement opens a transaction, whose local
    settings are unset; a failed statement aborts it. *)
Definition execute {X} (st : statement X) : db X := λ s,
  match txn s with
  | Aborted => (inl (DatabaseError "current transaction is aborted"), s)
  | _ =>
      let g := match txn s with Open g => g | _ => no_context end in
      let log := if is_data st then g :: seen s else seen s in
      match faults s with
      | true :: fl => (inl (DatabaseError "down"), mkSession Aborted (rls_context s) (rows s) (committed s) (seen s) fl)
      | _ =>
          let fl := drop 1 (faults s) in
          match evaluate st g (rows s) with
          | inl e => (inl e, mkSession Aborted (rls_context s) (rows s) (committed s) log fl)
          | inr (x, g', d') => (inr x, mkSession (Open g') (rls_context s) d' (committed s) log fl)
          end
      end
  end.

Definition remember (c : RlsContext) : db unit := λ s,
  (inr tt, mkSession (txn s) c (rows s) (committed s) (seen s) (faults s)).
Definition remembered : db RlsContext := λ s, (inr (rls_context s), s).
Definition in_transaction : db bool := λ s,
  (inr (match txn s with NoTxn => false | _ => true end), s).

(** The end of a transaction: a COMMIT of an aborted one rolls it back, and one that
    fails leaves the connection to be discarded. *)
Definition end_transaction (keep : bool) : db unit := λ s,
  let '(r, fl) := match faults s with
                  | true :: fl => (inl (DatabaseError "down"), fl)
                  | _ => (inr tt, drop 1 (faults s))
                  end in
  let d := match txn s with
           | Open _ => if keep && is_ok r then rows s else committed s
           | _ => committed s
           end in
  (r, mkSession NoTxn (rls_context s) d d (seen s) fl).

(** * core/rls.py *)

(** [RlsAsyncSession._rebind_rls_context]. *)
Definition _rebind_rls_context : db unit :=
  ctx ← remembered; if is_empty ctx then mret tt else execute (SetConfig ctx).

(** [RlsAsyncSession.commit] and [rollback]. *)
Definition commit : db unit := _ ← end_transaction true; _rebind_rls_context.
Definition rollback : db unit :=
  in_transaction ≫= λ had_transaction : bool,
  _ ← end_transaction false;
  if had_transaction then _rebind_rls_context else mret tt.

Definition _apply_context (ctx : RlsContext) : db unit := _ ← execute (SetConfig ctx); remember ctx.

Definition set_tenant_context (o : string) : db unit :=
  ctx ← remembered; _apply_context (with_org o ctx).
Definition set_bypass_rls (enabled : bool) : db unit :=
  ctx ← remembered; _apply_context (with_bypass enabled ctx).
Definition set_lookup_code (code : string) : db unit :=
  ctx ← remembered; _apply_context (with_lookup code ctx).

Definition init_context (o : option string) : db unit :=
  _apply_context (mkRlsContext (str_strip (default EmptyString o)) false "").

Definition release_tenant_context : db unit :=
  db_except (_ ← remember no_context; rollback) is_sqlalchemy_error (λ _, mret tt).

(** The [finally] of [rls_bypass]. *)
Definition end_bypass : db unit :=
  db_except (execute (SetBypass false)) is_sqlalchemy_error (λ _,
    _ ← db_except rollback is_sqlalchemy_error (λ _, mret tt);
    db_except (execute (SetBypass false)) is_sqlalchemy_error (λ _, mret tt)).

(** [async with rls_bypass(db): body]. *)
Definition rls_bypass {A} (body : db A) : db A :=
  _ ← execute (SetBypass true); db_finally body end_bypass.

(** * dependencies/db.py *)

(** The [try]/[except]/[finally] both dependencies put around a request. *)
Definition served {A} (body : db A) : db A :=
  db_finally (db_except body is_exception (λ e, _ ← rollback; raise e)) release_tenant_context.

Definition blank (o : option string) : option string :=
  match o with Some o => if (str_strip o =? "")%string then None else Some o | None => None end.

Definition get_db {A} (o : option string) (handler : db A) : db A :=
  served (_ ← init_context (blank o); a ← handler; _ ← commit; mret a).

(** [get_db_superadmin], once [verify] (_ensure_superadmin) has passed on a session of
    its own. *)
Definition verify_superadmin (o : string) (verify : db unit) : db unit :=
  db_finally (_ ← init_context (Some o); verify) release_tenant_context.

Definition superadmin_session {A} (platform_org_id : string) (handler : db A) : db A :=
  _ ← set_tenant_context platform_org_id;
  _ ← set_bypass_rls true;
  served (a ← handler; _ ← commit; mret a).

(** [rls_scoped_session_factory] of services/worker/worker.py. *)
Definition rls_scoped_session {A} (task : db A) : db A := _ ← init_context None; task.

(** A session as the factory opens it. *)
Definition fresh (d : database) (fl : list bool) : session := mkSession NoTxn no_context d d [] fl.

(** * Requests

    What a handler does with its session: data statements, commits and rollbacks, under
    any control flow, calls of [extra], and bypassed blocks when [nest] says so. *)

Inductive handler (nest : bool) (extra : db unit → Prop) : ∀ {A}, db A → Prop :=
| handler_ret A (a : A) : handler nest extra (mret a : db A)
| handler_raise A e : handler nest extra (raise e : db A)
| handler_bind A B (p : db A) (f : A → db B) :
    handler nest extra p → (∀ a, handler nest extra (f a)) → handler nest extra (p ≫= f)
| handler_except A (p : db A) sel h :
    handler nest extra p → (∀ e, handler nest extra (h e)) → handler nest extra (db_except p sel h)
| handler_finally A (p : db A) q :
    handler nest extra p → handler nest extra q → handler nest extra (db_finally p q)
| handler_data X (st : statement X) : is_data st = true → handler nest extra (execute st)
| handler_commit : handler nest extra commit
| handler_rollback : handler nest extra rollback
| handler_extra p : extra p → handler nest extra p
| handler_bypass A (p : db A) : nest = true → handler nest extra p → handler nest extra (rls_bypass p).

(** [p] preserves [I], whether it returns or raises. *)
Definition preserves {A} (I : session → Prop) (p : db A) : Prop := ∀ s, I s → I (p s).2.

Lemma preserves_ret {A} I (a : A) : preserves I (mret a : db A).
Proof. by intros s. Qed.
Lemma preserves_raise {A} I e : preserves I (raise e : db A).
Proof. by intros s. Qed.
Lemma preserves_bind {A B} I (p : db A) (f : A → db B) :
  preserves I p → (∀ a, preserves I (f a)) → preserves I (p ≫= f).
Proof.
  intros Hp Hf s Hs. unfold mbind, db_bind. specialize (Hp s Hs).
  destruct (p s) as [[e|a] s1]; [exact Hp|]. by apply Hf.
Qed.
Lemma preserves_except {A} I (p : db A) sel h :
  preserves I p → (∀ e, preserves I (h e)) → preserves I (db_except p sel h).
Proof.
  intros Hp Hh s Hs. unfold db_except. specialize (Hp s Hs).
  destruct (p s) as [[e|a] s1]; [|exact Hp]. destruct (sel e); [by apply Hh|exact Hp].
Qed.
Lemma preserves_finally {A} I (p : db A) q :
  preserves I p → preserves I q → preserves I (db_finally p q).
Proof.
  intros Hp Hq s Hs. unfold db_finally. specialize (Hp s Hs). destruct (p s) as [r s1].
  specialize (Hq s1 Hp). by destruct (q s1) as [[e|[]] s2].
Qed.

Create HintDb rls discriminated.
#[export] Hint Resolve preserves_ret preserves_raise preserves_bind preserves_except preserves_finally : rls.

(** The rule of a handler: what its statements and extra calls preserve. *)
Lemma handler_preserves {A} I nest extra (p : db A) :
  handler nest extra p →
  (∀ X (st : statement X), is_data st = true → preserves I (execute st)) →
  preserves I commit → preserves I rollback → (∀ q, extra q → preserves I q) →
  (nest = true → ∀ B (q : db B), preserves I q → preserves I (rls_bypass q)) → preserves I p.
Proof. induction 1; intros Hst Hc Hr Hx Hn; eauto with rls. Qed.

(** Settings in [G], remembered contexts in [C], throughout a session. *)
Record kept (C G : RlsContext → Prop) (s : session) : Prop := {
  kept_context : C (rls_context s);
  kept_open : ∀ g, txn s = Open g → G g;
  kept_seen : Forall G (seen s);
}.

Section kept.
Context (C G : RlsContext → Prop) (HCG : ∀ c, C c → G c) (HG : G no_context).

Lemma kept_execute {X} (st : statement X) :
  (∀ g d x g' d', G g → evaluate st g d = inr (x, g', d') → G g') → preserves (kept C G) (execute st).
Proof.
  intros Hst s Hs. unfold execute. destruct (txn s) eqn:Et; [| |done].
  all: assert (G (match txn s with Open g => g | _ => no_context end)) as Hg
    by (rewrite Et; try done; by apply Hs); rewrite Et in Hg; cbn beta iota in Hg |- *.
  all: assert (Forall G (if is_data st then match txn s with Open g => g | _ => no_context end :: seen s else seen s))
    as Hseen by (rewrite Et; destruct (is_data st); [constructor; [done|]|]; apply Hs); rewrite Et in Hseen; cbn beta iota in Hseen.
  all: destruct (faults s) as [|[] fl]; cbn [drop];
    try (split; cbn; [apply Hs|done|apply Hs]).
  all: destruct (evaluate st _ (rows s)) as [e|[[x g'] d']] eqn:E; split; cbn; try done; try apply Hs.
  all: intros g0 [= <-]; by eapply Hst.
Qed.

Lemma kept_data {X} (st : statement X) : is_data st = true → preserves (kept C G) (execute st).
Proof.
  intros Hst. apply kept_execute. intros g d x g' d' Hg. destruct st; cbn; try done; try by intros [= _ <- _].
  all: repeat case_match; intros [= ]; by subst.
Qed.

Lemma kept_set_config c : G c → preserves (kept C G) (execute (SetConfig c)).
Proof. intros Hc. apply kept_execute. by intros g d x g' d' _ [= _ <- _]. Qed.

Lemma kept_end_transaction keep : preserves (kept C G) (end_transaction keep).
Proof. intros s [Hc _ Hs]. unfold end_transaction. by destruct (faults s) as [|[] fl]; split; cbn. Qed.

Lemma kept_rebind : preserves (kept C G) _rebind_rls_context.
Proof.
  intros s Hs. unfold _rebind_rls_context, remembered, mbind, db_bind. cbn.
  destruct (is_empty (rls_context s)); [done|]. apply kept_set_config; [|done]. apply HCG, Hs.
Qed.

Lemma kept_commit : preserves (kept C G) commit.
Proof. apply preserves_bind; [apply kept_end_transaction|intros _; apply kept_rebind]. Qed.

Lemma kept_rollback : preserves (kept C G) rollback.
Proof.
  unfold rollback. apply preserves_bind; [by intros s|]. intros had.
  apply preserves_bind; [apply kept_end_transaction|]. intros _.
  destruct had; [apply kept_rebind|apply preserves_ret].
Qed.

Lemma kept_remember c : C c → preserves (kept C G) (remember c).
Proof. intros Hc s [_ Ho Hs]. by split. Qed.

Lemma kept_apply c : C c → preserves (kept C G) (_apply_context c).
Proof.
  intros Hc. apply preserves_bind; [by apply kept_set_config, HCG|]. intros _. by apply kept_remember.
Qed.

Lemma kept_set (f : RlsContext → RlsContext) :
  (∀ c, C c → C (f c)) → preserves (kept C G) (ctx ← remembered; _apply_context (f ctx)).
Proof.
  intros Hf s Hs. unfold mbind, db_bind, remembered. apply kept_apply; [|done]. apply Hf, Hs.
Qed.

(** A handler whose extra calls are as good. *)
Lemma kept_handler {A} nest extra (p : db A) :
  handler nest extra p → (∀ q, extra q → preserves (kept C G) q) →
  (nest = true → ∀ B (q : db B), preserves (kept C G) q → preserves (kept C G) (rls_bypass q)) →
  preserves (kept C G) p.
Proof.
  intros Hp Hx Hn. apply (handler_preserves _ _ _ _ Hp); auto using kept_commit, kept_rollback.
  intros X st. apply kept_data.
Qed.
End kept.

(** ** Confinement to a tenant *)

(** Settings that bind at most the tenant [o] and one of [codes], without the bypass. *)
Definition confined (o : string) (codes : string → Prop) (g : RlsContext) : Prop :=
  (org_id g = EmptyString ∨ org_id g = o) ∧ bypass_rls g = false ∧
  (lookup_code g = EmptyString ∨ codes (lookup_code g)).

(** A row of the organizations [os] is of [o]'s. *)
Definition owned (o : string) (os : list uuid) : Prop := ∃ u, u ∈ os ∧ uuid_parse o = Some u ∧ o ≠ EmptyString.

(** The organization that has [code] as its join code. *)
Definition coded (code : string) (t : table) : row t → Prop :=
  match t with
  | organizations => λ r, o_org_code r = code
  | _ => λ _, False
  end.

(** Under such settings a row under row-level security can be written only when it is
    [o]'s, and read only when it is, or is the organization of a code presented. *)
Definition only_rows_of (o : string) (codes : string → Prop) (g : RlsContext) : Prop :=
  ∀ d t r os, tenant d t r = Some os →
    (_policy_body g d t r = true → owned o os) ∧
    (readable g d t r = true → owned o os ∨ ∃ code, codes code ∧ code ≠ EmptyString ∧ coded code t r).

Lemma confined_rows o codes g : confined o codes g → only_rows_of o codes g.
Proof.
  intros (Ho & Hb & Hl) d t r os Ht.
  assert (_policy_body g d t r = true → owned o os) as Hw.
  { unfold _policy_body. rewrite Ht, Hb. cbn [orb].
    intros (u & Hu & Hm)%existsb_exists. apply list_elem_of_In in Hu. exists u. split; [done|].
    unfold org_matches, _org_id_expr, sql_eq in Hm.
    destruct (org_id g =? "")%string eqn:Ee; [done|]. apply String.eqb_neq in Ee.
    destruct Ho as [Ho|Ho]; [done|]. rewrite Ho in *.
    destruct (uuid_parse o) as [v|]; [|done]. by apply bool_decide_eq_true in Hm as ->. }
  split; [done|]. unfold readable. intros [H|H]%orb_true_iff; [left; by apply Hw|right].
  destruct t; try done. cbn in H. apply andb_true_iff in H as [Hne%negb_true_iff%String.eqb_neq Hc%String.eqb_eq].
  exists (lookup_code g). split_and!; [by destruct Hl|done|done].
Qed.

(** The calls that keep a session in its tenant: binding it again, presenting a code. *)
Definition own_calls (o : string) (codes : string → Prop) (q : db unit) : Prop :=
  q = set_tenant_context o ∨ ∃ code, codes code ∧ q = set_lookup_code code.

Lemma confined_empty o codes : confined o codes no_context.
Proof. split; [by left|]. split; [done|by left]. Qed.

Lemma confined_bound o codes : confined o codes (mkRlsContext o false "").
Proof. split; [by right|]. split; [done|by left]. Qed.

(** The tenant of [G], and of every remembered context. *)
Lemma own_calls_kept (o : string) codes (G : RlsContext → Prop) q :
  (∀ c, confined o codes c → G c) → own_calls o codes q → preserves (kept (confined o codes) G) q.
Proof.
  intros HG [->|(code & Hcode & ->)].
  - apply (kept_set _ _ HG (HG _ (confined_empty o codes)) (with_org o)). intros c [_ Hb]. split; [by right|done].
  - apply (kept_set _ _ HG (HG _ (confined_empty o codes)) (with_lookup code)). intros c (Ho & Hb & _).
    split; [done|]. split; [done|by right].
Qed.

(** What [release_tenant_context] leaves: no transaction, and nothing to bind again. *)
Lemma release_ends s :
  let r := release_tenant_context s in
  r.1 = inr tt ∧ txn r.2 = NoTxn ∧ rls_context r.2 = no_context ∧ seen r.2 = seen s.
Proof.
  unfold release_tenant_context, db_except, rollback, mbind, db_bind, remember, in_transaction,
    end_transaction. cbn.
  by destruct (txn s), (faults s) as [|[] fl].
Qed.

Lemma served_release {A} (body : db A) s :
  let r := served body s in txn r.2 = NoTxn ∧ rls_context r.2 = no_context ∧
    seen r.2 = seen (db_except body is_exception (λ e, _ ← rollback; raise e) s).2.
Proof.
  unfold served, db_finally. cbn. destruct (db_except body _ _ s) as [r s1].
  destruct (release_ends s1) as (H1 & H2 & H3 & H4). destruct (release_tenant_context s1) as [[e|[]] s2]; cbn in *; by subst.
Qed.

(** The tenant a request's session is bound to. *)
Definition bound_to (o : option string) : string := str_strip (default EmptyString (blank o)).

(** C22. A request whose handler asks for no bypass stays in its organization: the
    handler is made of data statements, commits, rollbacks, calls that bind the tenant
    again and calls that present one of [codes] as a join code, under any control flow,
    and any statement may fail. Every row under row-level security that one of its
    statements can write is of the request's organization, and every row one can read
    is, or is the organization that has one of [codes] as its join code; a public
    request owns no row. The session is handed back outside a transaction with no
    context to bind again. *)
Theorem request_confined {A} (o : option string) (codes : string → Prop) (h : db A) d fl :
  handler false (own_calls (bound_to o) codes) h →
  let r := get_db o h (fresh d fl) in
  Forall (only_rows_of (bound_to o) codes) (seen r.2) ∧ txn r.2 = NoTxn ∧ rls_context r.2 = no_context.
Proof.
  intros Hh r. destruct (served_release (_ ← init_context (blank o); a ← h; _ ← commit; mret a) (fresh d fl))
    as (H1 & H2 & H3). fold (get_db o h) in H1, H2, H3. fold r in H1, H2, H3.
  split; [|by split]. rewrite H3. pose proof (confined_empty (bound_to o) codes) as He.
  assert (preserves (kept (confined (bound_to o) codes) (confined (bound_to o) codes)) h) as Hk.
  { apply (kept_handler _ _ (λ _ H, H) He false (own_calls (bound_to o) codes)); [done| |done]. intros q. by apply own_calls_kept. }
  eapply Forall_impl; [|apply confined_rows]. apply (kept_seen (confined (bound_to o) codes)).
  apply (preserves_except _ _ _ _); [| |by split].
  - apply preserves_bind; [apply (kept_apply _ _ (λ _ H, H) He), confined_bound|]. intros _.
    apply preserves_bind; [done|]. intros a. apply preserves_bind; [by apply kept_commit|]. auto with rls.
  - intros e. apply preserves_bind; [by apply kept_rollback|auto with rls].
Qed.

(** ** A session keeps its tenant *)

(** Bound to [c] in a transaction of its own, or aborted; no statement was lost. *)
Record settled (c : RlsContext) (s : session) : Prop := {
  settled_context : rls_context s = c;
  settled_txn : txn s = Open c ∨ txn s = Aborted;
  settled_seen : Forall (eq c) (seen s);
  settled_faults : faults s = [];
}.

Lemma settled_data c {X} (st : statement X) : is_data st = true → preserves (settled c) (execute st).
Proof.
  intros Hst s [Hc Ht Hs Hf]. unfold execute. destruct Ht as [Ht|Ht]; rewrite Ht; [|by split; auto].
  rewrite Hf, Hst. cbn [drop]. destruct (evaluate st c (rows s)) as [e|[[x g'] d']] eqn:E.
  - split; cbn; auto.
  - assert (g' = c) as ->; [|by split; cbn; auto].
    destruct st; cbn in *; try done; repeat case_match; by simplify_eq.
Qed.

Lemma settled_end c keep s :
  is_empty c = false → settled c s →
  settled c ((_ ← end_transaction keep; _rebind_rls_context) s).2.
Proof.
  intros He [Hc Ht Hs Hf]. unfold _rebind_rls_context, remembered, end_transaction, mbind, db_bind.
  rewrite Hf. cbn. rewrite Hc, He. split; cbn; auto.
Qed.

(** C23. While the database answers, every statement of a handler, before and after any
    commit, rollback or failed statement, is evaluated under exactly the tenant the
    request was bound to. *)
Theorem tenant_survives_commits {A} (o : string) (h : db A) d :
  handler false (λ _, False) h → str_strip o ≠ EmptyString →
  Forall (eq (mkRlsContext (str_strip o) false "")) (seen (get_db (Some o) h (fresh d [])).2).
Proof.
  intros Hh Ho. apply String.eqb_neq in Ho.
  set (c := mkRlsContext (str_strip o) false "").
  assert (is_empty c = false) as He by (unfold is_empty; cbn; by rewrite Ho).
  assert (preserves (settled c) commit) as Hcommit by (intros s; by apply settled_end).
  assert (preserves (settled c) rollback) as Hrollback.
  { intros s Hs. unfold rollback, in_transaction. pose proof (settled_end c false s He Hs) as H.
    unfold mbind, db_bind in *. by destruct Hs as [_ [-> | ->] _ _]. }
  assert (preserves (settled c) h) as Hk.
  { apply (handler_preserves _ _ _ _ Hh); [|done|done|done|done]. intros X st. apply settled_data. }
  unfold get_db, blank. cbn [default]. rewrite Ho.
  destruct (served_release (_ ← init_context (Some o); a ← h; _ ← commit; mret a) (fresh d [])) as (_ & _ & ->).
  apply (settled_seen c). unfold db_except.
  assert (settled c ((_ ← init_context (Some o); a ← h; _ ← commit; mret a) (fresh d [])).2) as H.
  { change (settled c ((a ← h; _ ← commit; mret a) (mkSession (Open c) c d d [] [])).2).
    apply preserves_bind; [done| |by split; auto]. intros a. apply preserves_bind; auto with rls. }
  destruct ((_ ← init_context (Some o); a ← h; _ ← commit; mret a) (fresh d [])) as [[e|a] s1]; [|done].
  destruct (is_exception e); [|done]. apply preserves_bind; auto with rls.
Qed.

(** ** The bypass ends with its block *)

Definition tenant_only (o : string) (codes : string → Prop) (g : RlsContext) : Prop :=
  (org_id g = EmptyString ∨ org_id g = o) ∧ (lookup_code g = EmptyString ∨ codes (lookup_code g)).

Lemma tenant_only_empty o codes : tenant_only o codes no_context.
Proof. split; by left. Qed.

(** A session that is not bypassing and stays in its tenant. *)
Definition unbypassed (o : string) (codes : string → Prop) (s : session) : Prop :=
  confined o codes (rls_context s) ∧ ∀ g, txn s = Open g → confined o codes g.

Lemma end_bypass_confines o codes s :
  confined o codes (rls_context s) → (∀ g, txn s = Open g → tenant_only o codes g) →
  unbypassed o codes (end_bypass s).2.
Proof.
  intros Hc Ho. unfold end_bypass, db_except, rollback, _rebind_rls_context, remembered, in_transaction, end_transaction, execute,
    mbind, db_bind.
  destruct s as [t c rw cm sn fl]; cbn in *.
  assert (∀ g, tenant_only o codes g → confined o codes (with_bypass false g)) as Hw by (by intros g []).
  pose proof (tenant_only_empty o codes) as He.
  assert (tenant_only o codes c) as Hct by (by destruct Hc as (? & _ & ?)).
  destruct t as [|g|], fl as [|[] [|[] [|[] [|[] fl]]]]; cbn; try destruct (is_empty c) eqn:Ee; cbn; split; cbn; try done.
  all: intros g0 [= <-]; auto.
Qed.

(** A session that stays in its tenant, bypassing or not. *)
Definition in_tenant (o : string) (codes : string → Prop) : session → Prop :=
  kept (confined o codes) (tenant_only o codes).

Lemma confined_tenant o codes c : confined o codes c → tenant_only o codes c.
Proof. by intros (? & _ & ?). Qed.

Lemma tenant_bypass o codes b : preserves (in_tenant o codes) (execute (SetBypass b)).
Proof.
  apply kept_execute; [apply tenant_only_empty|]. by intros g d x g' d' Hg [= _ <- _].
Qed.

Lemma tenant_end_bypass o codes : preserves (in_tenant o codes) end_bypass.
Proof.
  assert (preserves (in_tenant o codes) rollback)
    by (apply kept_rollback; [apply confined_tenant|apply tenant_only_empty]).
  pose proof (tenant_bypass o codes false). unfold end_bypass. eauto 6 with rls.
Qed.

Lemma tenant_rls_bypass o codes {A} (body : db A) :
  preserves (in_tenant o codes) body → preserves (in_tenant o codes) (rls_bypass body).
Proof.
  pose proof (tenant_bypass o codes true). pose proof (tenant_end_bypass o codes). unfold rls_bypass. eauto with rls.
Qed.

Lemma tenant_block o codes {A} (body : db A) :
  handler true (own_calls o codes) body → preserves (in_tenant o codes) body.
Proof.
  intros Hb. apply (kept_handler _ _ (confined_tenant o codes) (tenant_only_empty o codes) true (own_calls o codes)); [done| |].
  - intros q. apply own_calls_kept, confined_tenant.
  - intros _ B q. apply tenant_rls_bypass.
Qed.

(** However the block of a row-level-security bypass ends, and whatever fails inside
    it or while it is closed, the session is not bypassing the policies afterwards and
    is still confined to its tenant. *)
Theorem bypass_ends_with_block {A} (o : string) (codes : string → Prop) (body : db A) s :
  handler true (own_calls o codes) body → in_tenant o codes s → unbypassed o codes s →
  unbypassed o codes (rls_bypass body s).2.
Proof.
  intros Hb Hs Hu. unfold rls_bypass. pose proof (tenant_bypass o codes true s Hs) as H1.
  unfold mbind at 1, db_bind at 1. destruct (execute (SetBypass true) s) as [[e|[]] s1] eqn:E; cbn [snd] in *.
  - split; [apply H1|]. intros g Hg. exfalso. revert E Hg. unfold execute.
    destruct (txn s) eqn:Et; [| |by intros [= <- <-]; rewrite Et];
      destruct (faults s) as [|[] fl]; cbn; intros [= <- <-]; cbn; done.
  - unfold db_finally. pose proof (tenant_block o codes body Hb s1 H1) as H2.
    destruct (body s1) as [r s2]. cbn [snd] in H2.
    pose proof (end_bypass_confines o codes s2 (kept_context _ _ _ H2) (kept_open _ _ _ H2)) as H3.
    by destruct (end_bypass s2) as [[e|[]] s3].
Qed.

(** * Witnesses and examples *)

Definition org_a : uuid := 1.
Definition org_b : uuid := 2.
Definition two_orgs : database :=
  set_table organizations [mkOrganization org_a "A" "free" "approved" true "AAAAAAAA" true;
                           mkOrganization org_b "B" "free" "approved" true "BBBBBBBB" true]
  (set_table projects [mkProject 10 org_a "pa" None [] false None 0 0; mkProject 20 org_b "pb" None [] false None 0 0]
     (λ t, match t with _ => [] end)).

(** A handler that reads, commits in the middle, and reads again. *)
Definition list_projects : db (list Project) := execute (SelectRows projects (λ _, true)).
Definition commit_between : db (list Project * list Project) :=
  before ← list_projects; _ ← commit; after ← list_projects; mret (before, after).

Lemma commit_between_handler nest extra : handler nest extra commit_between.
Proof.
  apply handler_bind; [by apply handler_data|]. intros l. apply handler_bind; [apply handler_commit|]. intros _.
  apply handler_bind; [by apply handler_data|]. intros l'. apply handler_ret.
Qed.

(** A handler that looks an organization up by its join code as well. *)
Definition join_lookup (code : string) : db (list Organization) :=
  _ ← set_lookup_code code; execute (SelectRows organizations (λ _, true)).
Definition join_and_list : db (list Organization * (list Project * list Project)) :=
  found ← join_lookup "BBBBBBBB"; listed ← commit_between; mret (found, listed).

Lemma join_and_list_handler o : handler false (own_calls o (λ c, c = "BBBBBBBB"%string)) join_and_list.
Proof.
  apply handler_bind; [apply handler_bind|].
  - apply handler_extra. right. by exists "BBBBBBBB"%string.
  - intros _. by apply handler_data.
  - intros l. apply handler_bind; [apply commit_between_handler|]. intros. apply handler_ret.
Qed.

(** The code shows the other organization, and nothing else of it. *)
Example join_code_shows_organization :
  match (get_db (Some (uuid_str org_a)) join_and_list (fresh two_orgs [])).1 with
  | inr (os, (before, after)) => map o_id os = [org_a; org_b] ∧ map p_id before = [10] ∧ map p_id after = [10]
  | inl _ => False
  end.
Proof. by vm_compute. Qed.

Lemma request_confined_witness :
  let r := get_db (Some (uuid_str org_a)) join_and_list (fresh two_orgs [false; false; false; true]) in
  Forall (only_rows_of (bound_to (Some (uuid_str org_a))) (λ c, c = "BBBBBBBB"%string)) (seen r.2) ∧
  txn r.2 = NoTxn ∧ rls_context r.2 = no_context.
Proof.
  apply (request_confined (Some (uuid_str org_a)) (λ c, c = "BBBBBBBB"%string) join_and_list two_orgs
    [false; false; false; true]).
  apply join_and_list_handler.
Defined.

Lemma tenant_survives_commits_witness :
  Forall (eq (mkRlsContext (uuid_str org_a) false ""))
    (seen (get_db (Some (uuid_str org_a)) commit_between (fresh two_orgs [])).2).
Proof.
  apply (tenant_survives_commits (uuid_str org_a) commit_between two_orgs);
    [apply commit_between_handler|by vm_compute].
Defined.

Lemma bypass_ends_with_block_witness :
  let s := (init_context (Some (uuid_str org_a)) (fresh two_orgs [false; false; true])).2 in
  unbypassed (uuid_str org_a) (λ _, False) (rls_bypass list_projects s).2.
Proof.
  apply (bypass_ends_with_block (uuid_str org_a) (λ _, False) list_projects); [by apply handler_data| |].
  - split; cbn; [apply confined_bound| |constructor]. intros g [= <-]. apply confined_tenant, confined_bound.
  - split; [apply confined_bound|]. intros g [= <-]. apply confined_bound.
Defined.

(** Both reads of the handler see the one project of the organization. *)
Example commit_keeps_tenant :
  (get_db (Some (uuid_str org_a)) commit_between (fresh two_orgs [])).1
  = inr ([mkProject 10 org_a "pa" None [] false None 0 0], [mkProject 10 org_a "pa" None [] false None 0 0]).
Proof. by vm_compute. Qed.

(** A public request sees no organization, whatever its id: the lookup of the invite's
    organization by [get_invite_info] finds nothing. *)
Example public_request_sees_no_organization :
  (get_db None (execute (SelectRows organizations (λ r, o_id r =? org_a))) (fresh two_orgs [])).1 = inr [].
Proof. by vm_compute. Qed.

(** A bypassed lookup inside a superadmin's session turns its own bypass off. *)
Example nested_bypass_narrows_superadmin :
  (superadmin_session (uuid_str 9)
     (before ← list_projects; _ ← rls_bypass list_projects; after ← list_projects;
      mret (length before, length after)) (fresh two_orgs [])).1 = inr (2, 0)%nat.
Proof. by vm_compute. Qed.
