(* ===== verification/Throttle.v ===== *)
(** middleware/auth_throttle.py: fixed-window attempt counters in Redis for the
    authentication endpoints. A counter is an integer string; the first attempt
    of a window sets its deadline. *)
From S2P Require Import Prelude Errors Data Effects.
Open Scope Z_scope.

(** * State and operations *)

Record AuthThrottle := mkAuthThrottle {
  login_max_per_ip : Z;
  login_window_sec : Z;
  login_max_per_email : Z;
  signup_max_per_ip : Z;
  signup_window_sec : Z;
}.

Definition default_throttle : AuthThrottle := mkAuthThrottle 20 900 5 3 3600.

Definition _normalize_email (email : string) : string := str_lower (str_strip email).
Definition _normalize_ip (ip : string) : string := str_strip ip.

(** [n = incr(key); if n == 1: expire(key, window)]. *)
Definition count_attempt (key : string) (window : Z) : prog Z :=
  n ← redis (ks_incr key);
  if n =? 1 then (_ ← redis (ks_expire key window); Ret n) else Ret n.

Definition rate_limited {A} (msg : string) : prog A := Throw (AppExc RateLimitError msg).

(** The body every two-counter check shares: both counters are bumped before
    either limit is tested, the e-mail limit first. *)
Definition check_pair (email_key : string) (email_window : Z) (ip_key : string)
    (ip_window email_max ip_max : Z) (email_msg ip_msg : string) : prog unit :=
  email_attempts ← count_attempt email_key email_window;
  ip_attempts ← count_attempt ip_key ip_window;
  if email_max <? email_attempts then rate_limited email_msg
  else if ip_max <? ip_attempts then rate_limited ip_msg
  else Ret tt.

Definition login_email_key (email : string) : string :=
  "auth:throttle:login:email:" +:+ _normalize_email email.
Definition login_ip_key (ip : string) : string :=
  "auth:throttle:login:ip:" +:+ _normalize_ip ip.

Definition check_login_attempt (self : AuthThrottle) (email ip : string) : prog unit :=
  check_pair (login_email_key email) (login_window_sec self)
    (login_ip_key ip) (login_window_sec self)
    (login_max_per_email self) (login_max_per_ip self)
    "Too many login attempts for this account. Try again later."
    "Too many login attempts from this IP address. Try again later.".

(** [int(current)] raises [ValueError] on a value that is no integer. *)
Definition _decrement_if_positive (key : string) : prog unit :=
  current ← redis (ks_get key);
  match current with
  | None => Ret tt
  | Some s =>
      match py_int s with
      | None => Throw (ValueError "invalid literal for int()")
      | Some n => if 0 <? n then (_ ← redis (ks_decr key); Ret tt) else Ret tt
      end
  end.

Definition record_login_success (email ip : string) : prog unit :=
  _ ← _decrement_if_positive (login_email_key email);
  _decrement_if_positive (login_ip_key ip).

Definition check_signup_attempt (self : AuthThrottle) (ip : string) : prog unit :=
  attempts ← count_attempt ("auth:throttle:signup:ip:" +:+ ip) (signup_window_sec self);
  if signup_max_per_ip self <? attempts then
    rate_limited "Too many signup attempts from this IP address. Try again later."
  else Ret tt.

Definition check_verify_attempt (email ip : string) : prog unit :=
  check_pair ("auth:throttle:verify:email:" +:+ email) 900
    ("auth:throttle:verify:ip:" +:+ ip) 900 10 20
    "Too many verification attempts for this email. Please request a new code."
    "Too many verification attempts from this IP address. Try again later.".

Definition check_forgot_password_attempt (email ip : string) : prog unit :=
  check_pair ("auth:throttle:forgot:email:" +:+ email) 3600
    ("auth:throttle:forgot:ip:" +:+ ip) 900 3 10
    "Too many password reset requests for this email. Try again later."
    "Too many password reset requests from this IP address. Try again later.".

Definition reset_email_key (email : string) : string :=
  "auth:throttle:reset:email:" +:+ _normalize_email email.
Definition reset_ip_key (ip : string) : string :=
  "auth:throttle:reset:ip:" +:+ _normalize_ip ip.

Definition check_reset_attempt (email ip : string) : prog unit :=
  check_pair (reset_email_key email) 900 (reset_ip_key ip) 900 10 20
    "Too many reset attempts for this email. Please request a new code."
    "Too many reset attempts from this IP address. Try again later.".

Definition record_reset_success (email ip : string) : prog unit :=
  _ ← _decrement_if_positive (reset_email_key email);
  _decrement_if_positive (reset_ip_key ip).

Definition check_passwordless_send (email ip : string) : prog unit :=
  check_pair ("auth:throttle:passwordless:send:email:" +:+ email) 3600
    ("auth:throttle:passwordless:send:ip:" +:+ ip) 900 5 10
    "Too many login code requests for this email. Try again later."
    "Too many login code requests from this IP address. Try again later.".

Definition check_passwordless_verify (email ip : string) : prog unit :=
  check_pair ("auth:throttle:passwordless:verify:email:" +:+ email) 900
    ("auth:throttle:passwordless:verify:ip:" +:+ ip) 900 10 20
    "Too many login verification attempts for this email. Please request a new code."
    "Too many login verification attempts from this IP address. Try again later.".

Definition check_mfa_send (email ip : string) : prog unit :=
  check_pair ("auth:throttle:mfa:send:email:" +:+ email) 3600
    ("auth:throttle:mfa:send:ip:" +:+ ip) 900 5 10
    "Too many MFA code requests for this email. Try again later."
    "Too many MFA code requests from this IP address. Try again later.".

Definition check_mfa_verify (email ip : string) : prog unit :=
  check_pair ("auth:throttle:mfa:verify:email:" +:+ email) 900
    ("auth:throttle:mfa:verify:ip:" +:+ ip) 900 10 20
    "Too many MFA verification attempts for this email. Please request a new code."
    "Too many MFA verification attempts from this IP address. Try again later.".

(** * Counters *)

(** The count and deadline at a key: an absent key counts 0, [None] is a value
    that is no integer. *)
Definition counter (now : Z) (k : string) (m : keyspace) : option (Z * option Z) :=
  match find_key now k m with
  | None => Some (0, None)
  | Some (REntry (RStr s) d) => option_map (λ n, (n, d)) (Z_of_str s)
  | Some _ => None
  end.

Definition counter_of (k : string) (s : state) : option (Z * option Z) :=
  counter (st_clock s) k (st_redis s).

(** The entry an attempt leaves behind. *)
Definition bumped (now window n : Z) (d : option Z) : rentry :=
  REntry (RStr (str_of_Z (n + 1))) (if n =? 0 then Some (now + window * us_per_s) else d).

Lemma counter_deadline now k m n d : counter now k m = Some (n, Some d) → now < d.
Proof.
  unfold counter. destruct (find_key now k m) as [[[v| |] dl]|] eqn:E; [|done..].
  apply find_key_live in E. destruct (Z_of_str v); [|done]. simpl. intros [= _ ->].
  by apply Z.ltb_lt in E.
Qed.

(** What INCR answers and leaves on a counter. *)
Lemma ks_incr_counter now k m n d :
  counter now k m = Some (n, d) →
  ks_incr k now m = (inr (n + 1), <[k := REntry (RStr (str_of_Z (n + 1))) d]> m).
Proof.
  unfold counter, ks_incr, ks_incrby.
  destruct (find_key now k m) as [[[v| |] dl]|] eqn:E; try done; intros H.
  - destruct (Z_of_str v); [|done]. by simplify_eq/=.
  - by simplify_eq.
Qed.

Lemma counter_live now k m n d :
  counter now k m = Some (n, d) → live now (REntry (RStr (str_of_Z (n + 1))) d) = true.
Proof.
  intros H. destruct d as [d|]; [|done]. apply counter_deadline in H.
  by apply Z.ltb_lt.
Qed.

(** One attempt on a counter: the count rises by one, and a count that was 0
    opens a new window. *)
Lemma count_attempt_run s k w n d :
  0 < w → counter_of k s = Some (n, d) →
  run (count_attempt k w) s =
    (inr (n + 1), set_redis (<[k := bumped (st_clock s) w n d]> (st_redis s)) s).
Proof.
  intros Hw Hc. unfold count_attempt. prun.
  rewrite (ks_incr_counter _ _ _ _ _ Hc). unfold bumped. cbn.
  assert ((n + 1 =? 1) = (n =? 0)) as -> by (destruct (Z.eqb_spec n 0); lia).
  destruct (Z.eqb_spec n 0) as [->|]; [|done].
  prun. unfold ks_expire.
  rewrite find_key_insert by (by eapply (counter_live _ _ _ 0)).
  assert ((w <=? 0) = false) as -> by lia. cbn. by rewrite insert_insert_eq.
Qed.

Lemma counter_bumped now k w n d m :
  0 < w → counter now k m = Some (n, d) →
  counter now k (<[k := bumped now w n d]> m) =
    Some (n + 1, if n =? 0 then Some (now + w * us_per_s) else d).
Proof.
  intros Hw Hc. unfold counter. rewrite find_key_insert.
  - unfold bumped. by rewrite Z_of_str_of_Z.
  - unfold bumped, live, us_per_s. cbn. destruct (n =? 0); [apply Z.ltb_lt; lia|].
    exact (counter_live _ _ _ _ _ Hc).
Qed.

Lemma counter_insert_ne now k k' e m :
  k ≠ k' → counter now k' (<[k := e]> m) = counter now k' m.
Proof. intros H. unfold counter. by rewrite find_key_insert_ne. Qed.

Lemma ks_incrby_other d now k k' m :
  k ≠ k' → find_key now k' (ks_incrby d k now m).2 = find_key now k' m.
Proof.
  intros Hk. unfold ks_incrby.
  destruct (find_key now k m) as [[[v| |] dl]|]; cbn; try done.
  - destruct (Z_of_str v); cbn; [by rewrite find_key_insert_ne|done].
  - by rewrite find_key_insert_ne.
Qed.

Lemma ks_expire_other now k k' w m :
  k ≠ k' → find_key now k' (ks_expire k w now m).2 = find_key now k' m.
Proof.
  intros Hk. unfold ks_expire. destruct (find_key now k m); [|done].
  destruct (w <=? 0); cbn; [|by rewrite find_key_insert_ne].
  unfold find_key. by rewrite lookup_delete_ne.
Qed.

(** An attempt on another key never disturbs a key, whatever the other key holds. *)
Lemma count_attempt_other s k k' w :
  k ≠ k' →
  let s' := (run (count_attempt k w) s).2 in
  st_clock s' = st_clock s ∧
  find_key (st_clock s) k' (st_redis s') = find_key (st_clock s) k' (st_redis s).
Proof.
  intros Hk. unfold count_attempt. prun.
  pose proof (ks_incrby_other 1 (st_clock s) k k' (st_redis s) Hk) as H1.
  unfold ks_incr. destruct (ks_incrby 1 k (st_clock s) (st_redis s)) as [[e|n] m]; [done|].
  cbn in *. destruct (n =? 1); [|done]. prun.
  pose proof (ks_expire_other (st_clock s) k k' w m Hk) as H2.
  destruct (ks_expire k w (st_clock s) m) as [[e|b] m']; cbn in *; by rewrite H2.
Qed.

(** * The budget of a window *)

Lemma counter_later now now' k m n D :
  counter now k m = Some (n, D) → n ≠ 0 → before now' D → counter now' k m = Some (n, D).
Proof.
  unfold counter. intros H Hn HD.
  destruct (find_key now k m) as [[v d]|] eqn:E; [|by simplify_eq].
  assert (d = D) as ->.
  { destruct v; try done. destruct (Z_of_str s); [|done]. by simplify_eq/=. }
  by rewrite (find_key_later _ _ _ _ _ _ E).
Qed.

(** A check that counts its attempts at key [k] and lets at most [max] through. *)
Definition limits (k : string) (w max : Z) (p : prog unit) : Prop :=
  ∀ s n d, counter_of k s = Some (n, d) →
    let r := run p s in
    st_clock r.2 = st_clock s ∧
    counter_of k r.2 = Some (n + 1, if n =? 0 then Some (st_clock s + w * us_per_s) else d) ∧
    (r.1 = inr tt → n + 1 ≤ max) ∧
    (∀ e, r.1 = inl e → is_exception e = true).

Lemma ks_incrby_error d k now m e : (ks_incrby d k now m).1 = inl e → is_exception e = true.
Proof. unfold ks_incrby. repeat case_match; cbn; by intros [= <-]. Qed.

Lemma ks_expire_error k w now m e : (ks_expire k w now m).1 = inl e → is_exception e = true.
Proof. unfold ks_expire. repeat case_match; cbn; by intros [= <-]. Qed.

Lemma count_attempt_error (s : state) k w e :
  (run (count_attempt k w) s).1 = inl e → is_exception e = true.
Proof.
  unfold count_attempt. prun. unfold ks_incr.
  pose proof (ks_incrby_error 1 k (st_clock s) (st_redis s)) as He.
  destruct (ks_incrby 1 k (st_clock s) (st_redis s)) as [[e'|n] m]; cbn in *.
  { intros [= <-]. by apply He. }
  destruct (n =? 1); [|done]. prun.
  pose proof (ks_expire_error k w (st_clock s) m) as He'.
  destruct (ks_expire k w (st_clock s) m) as [[e'|b] m']; cbn in *; [|done].
  intros [= <-]. by apply He'.
Qed.

Lemma check_pair_limits ek ew ik iw emax imax em im :
  0 < ew → ek ≠ ik → limits ek ew emax (check_pair ek ew ik iw emax imax em im).
Proof.
  intros Hw Hk s n d Hc. unfold check_pair.
  rewrite run_bind, (count_attempt_run _ _ _ _ _ Hw Hc), run_bind.
  set (s1 := set_redis _ s).
  destruct (count_attempt_other s1 ik ek iw (not_eq_sym Hk)) as [H1 H2].
  assert (counter_of ek s1 = Some (n + 1, if n =? 0 then Some (st_clock s + ew * us_per_s) else d))
    as H3 by by apply counter_bumped.
  assert (∀ s2, st_clock s2 = st_clock s1 →
    find_key (st_clock s1) ek (st_redis s2) = find_key (st_clock s1) ek (st_redis s1) →
    counter_of ek s2 = counter_of ek s1) as H4.
  { intros s2 E1 E2. unfold counter_of, counter. by rewrite E1, E2. }
  pose proof (count_attempt_error s1 ik iw) as H5.
  destruct (run (count_attempt ik iw) s1) as [[e|m] s2]; cbn in H1, H2, H5; cbn zeta.
  - split; [done|]. split; [by cbn; rewrite (H4 s2)|]. split; [done|].
    intros e' [= <-]. by apply H5.
  - destruct (Z.ltb_spec emax (n + 1)); [|destruct (Z.ltb_spec imax m)]; cbn;
      (split; [done|]; split; [by rewrite (H4 s2)|]; split; [done || lia|]);
      intros e' Hx; by simplify_eq.
Qed.

Lemma budget_open k w max l s n D :
  Forall (λ dp, limits k w max dp.2) l →
  counter_of k s = Some (n, D) → 1 ≤ n → before (st_clock s + total_delay l) D →
  ∃ bs s', run (attempts l) s = (inr bs, s') ∧ count_true bs ≤ Z.max 0 (max - n).
Proof.
  revert s n; induction l as [|[d p] l IH]; intros s n Hl Hc Hn HD.
  { exists [], s. split; [done|]. unfold count_true. cbn. lia. }
  apply Forall_cons_1 in Hl as [Hp Hl]; cbn [snd] in Hp. cbn [attempts total_delay foldr fst] in *.
  fold (total_delay l) in HD.
  rewrite run_bind, run_call. cbn [exec state_world op_sem].
  set (s1 := mkState _ _ _ _ _ _ _ _ _).
  assert (0 ≤ total_delay l) as Ht.
  { clear. induction l as [|[??] l IH]; cbn; [lia|]. fold (total_delay l). lia. }
  assert (counter_of k s1 = Some (n, D)) as Hc1.
  { eapply counter_later; [exact Hc|lia|]. destruct D; [|done]. cbn in *. lia. }
  destruct (Hp s1 n D Hc1) as (Hck & Hc2 & Hmax & Herr).
  rewrite run_bind, (run_passes p s1 Herr).
  assert ((n =? 0) = false) as E0 by lia. rewrite E0 in Hc2.
  destruct (IH (run p s1).2 (n + 1) Hl Hc2) as (bs & s' & Hr & Hb).
  { lia. } { rewrite Hck. destruct D; [|done]. cbn in *. lia. }
  exists (is_ok (run p s1).1 :: bs), s'.
  rewrite run_bind, Hr. split; [done|].
  destruct ((run p s1).1) as [e|[]]; unfold count_true in *; cbn.
  - lia.
  - specialize (Hmax eq_refl). rewrite Nat2Z.inj_succ. lia.
Qed.

(** From an untouched counter, at most [max] attempts of one window go through. *)
Lemma budget_fresh k w max l s d0 p0 :
  0 < w → 0 ≤ max → Forall (λ dp, limits k w max dp.2) ((d0, p0) :: l) →
  find_key (st_clock s) k (st_redis s) = None →
  total_delay l < w * us_per_s →
  ∃ bs s', run (attempts ((d0, p0) :: l)) s = (inr bs, s') ∧ count_true bs ≤ max.
Proof.
  intros Hw Hm Hl Hf HD. apply Forall_cons_1 in Hl as [Hp Hl]; cbn [snd] in Hp. cbn [attempts].
  rewrite run_bind, run_call. cbn [exec state_world op_sem].
  set (s1 := mkState _ _ _ _ _ _ _ _ _).
  assert (counter_of k s1 = Some (0, None)) as Hc.
  { unfold counter_of, counter.
    by rewrite (find_key_none_later (st_clock s)) by (done || cbn; lia). }
  destruct (Hp s1 0 None Hc) as (Hck & Hc2 & Hmax & Herr). cbn in Hc2.
  rewrite run_bind, (run_passes p0 s1 Herr).
  destruct (budget_open k w max l (run p0 s1).2 1 (Some (st_clock s1 + w * us_per_s)) Hl Hc2)
    as (bs & s' & Hr & Hb).
  { lia. } { rewrite Hck. cbn. lia. }
  exists (is_ok (run p0 s1).1 :: bs), s'.
  rewrite run_bind, Hr. split; [done|].
  destruct ((run p0 s1).1) as [e|[]]; unfold count_true in *; cbn.
  - lia.
  - specialize (Hmax eq_refl). rewrite Nat2Z.inj_succ. lia.
Qed.

(** * Properties *)

Definition login_attempts (self : AuthThrottle) (l : list (Z * string * string)) :
    list (Z * prog unit) :=
  map (λ '(d, email, ip), (d, check_login_attempt self email ip)) l.

(** Every attempt of the list names the account [email], in whatever spelling. *)
Definition same_account (email : string) (l : list (Z * string * string)) : Prop :=
  Forall (λ '(_, e, _), _normalize_email e = _normalize_email email) l.

Lemma login_keys_ne email ip : login_email_key email ≠ login_ip_key ip.
Proof. unfold login_email_key, login_ip_key. intros [=]. Qed.

Lemma login_limits self email e ip :
  0 < login_window_sec self → _normalize_email e = _normalize_email email →
  limits (login_email_key email) (login_window_sec self) (login_max_per_email self)
    (check_login_attempt self e ip).
Proof.
  intros Hw He. unfold check_login_attempt, login_email_key. rewrite He.
  apply check_pair_limits; [done|]. apply login_keys_ne.
Qed.

Lemma login_attempts_limits self email l :
  0 < login_window_sec self → same_account email l →
  Forall (λ dp, limits (login_email_key email) (login_window_sec self)
    (login_max_per_email self) dp.2) (login_attempts self l).
Proof.
  intros Hw Hl. apply Forall_map. eapply Forall_impl; [exact Hl|].
  intros [[d e] ip] He. by apply login_limits.
Qed.

(** C1. Brute force is bounded: from an untouched counter, however an attacker
    spells the account's address, spreads over IP addresses and paces the
    attempts, at most [login_max_per_email] of the attempts made within one
    window go through; the rest are refused, and the run itself never fails. *)
Theorem login_window_budget {W} `{World W} (w : W) self email d e ip l :
  steady w → 0 < login_window_sec self → 0 ≤ login_max_per_email self →
  same_account email ((d, e, ip) :: l) →
  find_key (st_clock (abs w)) (login_email_key email) (st_redis (abs w)) = None →
  total_delay (login_attempts self l) < login_window_sec self * us_per_s →
  ∃ bs, (run (attempts (login_attempts self ((d, e, ip) :: l))) w).1 = inr bs ∧
        count_true bs ≤ login_max_per_email self.
Proof.
  intros Hs Hw Hm Hl Hf HD.
  destruct (budget_fresh (login_email_key email) (login_window_sec self)
    (login_max_per_email self) (login_attempts self l) (abs w) d
    (check_login_attempt self e ip)) as (bs & s' & Hr & Hb); try done.
  - exact (login_attempts_limits self email ((d, e, ip) :: l) Hw Hl).
  - exists bs. split; [|done]. rewrite (proj1 (run_steady _ w Hs)).
    change (login_attempts self ((d, e, ip) :: l))
      with ((d, check_login_attempt self e ip) :: login_attempts self l). by rewrite Hr.
Qed.

(** The state one attempt leaves: both counters bumped. *)
Definition login_bumped (self : AuthThrottle) (email ip : string) (ne : Z) (de : option Z)
    (ni : Z) (di : option Z) (s : state) : state :=
  set_redis
    (<[login_ip_key ip := bumped (st_clock s) (login_window_sec self) ni di]>
      (<[login_email_key email := bumped (st_clock s) (login_window_sec self) ne de]>
        (st_redis s))) s.

(** A login check counts on both counters, also when it refuses, and its
    outcome is decided by the two new counts, the account's limit first. *)
Theorem check_login_attempt_spec {W} `{World W} (w : W) self email ip ne de ni di :
  steady w → 0 < login_window_sec self →
  counter_of (login_email_key email) (abs w) = Some (ne, de) →
  counter_of (login_ip_key ip) (abs w) = Some (ni, di) →
  let r := run (check_login_attempt self email ip) w in
  r.1 = (if login_max_per_email self <? ne + 1 then
           inl (AppExc RateLimitError "Too many login attempts for this account. Try again later.")
         else if login_max_per_ip self <? ni + 1 then
           inl (AppExc RateLimitError
             "Too many login attempts from this IP address. Try again later.")
         else inr tt) ∧
  abs r.2 = login_bumped self email ip ne de ni di (abs w).
Proof.
  intros Hs Hw He Hi. cbn zeta.
  destruct (run_steady (check_login_attempt self email ip) w Hs) as (-> & -> & _).
  unfold check_login_attempt, check_pair. rewrite run_bind.
  rewrite (count_attempt_run _ _ _ _ _ Hw He), run_bind.
  rewrite (count_attempt_run _ _ _ ni di Hw).
  - cbn. by repeat case_match.
  - unfold counter_of in *. cbn. rewrite counter_insert_ne; [done|]. apply login_keys_ne.
Qed.

(** The window opens with two commands, INCR then EXPIRE. When the second one
    is lost the counter keeps counting but never expires: from then on, over any
    stretch of time, all but [login_max_per_email - 1] attempts on the account
    are refused. *)
Theorem lost_expire_locks_account (s : state) self email ip l :
  0 < login_window_sec self →
  find_key (st_clock s) (login_email_key email) (st_redis s) = None →
  same_account email l →
  let w := (run (check_login_attempt self email ip) (s, [false; true])).2 in
  ∃ bs, (run (attempts (login_attempts self l)) w).1 = inr bs ∧
        count_true bs ≤ Z.max 0 (login_max_per_email self - 1).
Proof.
  intros Hw Hf Hl. cbn zeta.
  set (s1 := set_redis (<[login_email_key email := REntry (RStr (str_of_Z 1)) None]>
    (st_redis s)) s).
  assert ((run (check_login_attempt self email ip) (s, [false; true])).2 = (s1, [])) as ->.
  { unfold check_login_attempt, check_pair, count_attempt. cbn.
    unfold ks_incr, ks_incrby. rewrite Hf. done. }
  destruct (budget_open (login_email_key email) (login_window_sec self)
    (login_max_per_email self) (login_attempts self l) s1 1 None)
    as (bs & s' & Hr & Hb); [by apply login_attempts_limits| |lia|done|].
  { unfold counter_of, counter. cbn. by rewrite find_key_insert. }
  exists bs. split; [|done].
  assert (steady ((s1, []) : faulty)) as Hs by done.
  rewrite (proj1 (run_steady _ _ Hs)). change (abs ((s1, []) : faulty)) with s1. by rewrite Hr.
Qed.

(** * Witnesses *)

Definition six_tries : list (Z * string * string) :=
  [(1000000, "a@x.io", "10.0.0.2"); (0, " A@x.io", "10.0.0.3"); (5, "a@X.io ", "10.0.0.4");
   (60000000, "a@x.io", "10.0.0.5"); (7, "a@x.io", "10.0.0.6")]%string.

Lemma login_window_budget_witness :
  ∃ bs, (run (attempts (login_attempts default_throttle
           ((0, "A@x.io", "10.0.0.1")%string :: six_tries))) empty_state).1 = inr bs ∧
        count_true bs ≤ 5.
Proof.
  apply (login_window_budget empty_state default_throttle "a@x.io" 0 "A@x.io" "10.0.0.1" six_tries).
  - exact I.
  - reflexivity.
  - discriminate.
  - repeat constructor.
  - reflexivity.
  - reflexivity.
Defined.

(** Five of the six spellings went through, the sixth did not. *)
Example six_tries_run :
  (run (attempts (login_attempts default_throttle
     ((0, "A@x.io", "10.0.0.1")%string :: six_tries))) empty_state).1
  = inr [true; true; true; true; true; false].
Proof. vm_compute. reflexivity. Qed.

Lemma check_login_attempt_spec_witness :
  let r := run (check_login_attempt default_throttle "a@x.io" "10.0.0.1") empty_state in
  r.1 = inr tt ∧
  abs r.2 = login_bumped default_throttle "a@x.io" "10.0.0.1" 0 None 0 None (abs empty_state).
Proof.
  exact (check_login_attempt_spec empty_state default_throttle "a@x.io" "10.0.0.1" 0 None 0 None
    I eq_refl eq_refl eq_refl).
Defined.

Lemma lost_expire_locks_account_witness :
  let w := (run (check_login_attempt default_throttle "a@x.io" "1") (empty_state, [false; true])).2 in
  ∃ bs, (run (attempts (login_attempts default_throttle six_tries)) w).1 = inr bs ∧
        count_true bs ≤ 4.
Proof.
  apply (lost_expire_locks_account empty_state default_throttle "a@x.io" "1" six_tries).
  - reflexivity.
  - reflexivity.
  - repeat constructor.
Defined.
