(* ===== verification/RateLimit.v ===== *)
(** middleware/rate_limit.py: the sliding-window limiter over a Redis sorted set
    and the ASGI middleware that applies it, failing closed. *)
From S2P Require Import Prelude Errors Data Effects.
Open Scope Z_scope.

(** * Constants and settings *)

Definition AUTH_RATE_LIMIT : Z := 10.
Definition AUTH_RATE_WINDOW : Z := 60.
Definition FALLBACK_ORG_RATE_LIMIT : Z := 1000.
Definition FALLBACK_ORG_WINDOW : Z := 60.
Definition RFC_7807_TYPE : string := "https://errors.openzync.tech/rate_limit_exceeded".
Definition RFC_7807_TYPE_UNAVAILABLE : string :=
  "https://errors.openzync.tech/rate_limit_unavailable".

(** The fields of [get_settings()] the middleware reads. *)
Record Settings := mkSettings {
  RATE_LIMIT_IP_MAX : Z;
  RATE_LIMIT_WINDOW_SEC : Z;
  TRUSTED_PROXY_IPS : string;
}.

(** The standard library's [ipaddress]: parsing and network membership;
    [None] is [ValueError]. *)
Class IpAddress := {
  ip_addr : Type;
  ip_addr_eqb : ip_addr → ip_addr → bool;
  ip_address : string → option ip_addr;
  in_ip_network : ip_addr → string → option bool;
}.

(** * Client address *)

Section client_ip.
Context `{IpAddress}.

(** One entry of the trusted list: does it name the peer? *)
Definition trusted_entry (peer : ip_addr) (entry : string) : bool :=
  let entry := str_strip entry in
  if (entry =? "")%string then false
  else if str_mem "/" entry then
    match in_ip_network peer entry with Some b => b | None => false end
  else match ip_address entry with Some a => ip_addr_eqb peer a | None => false end.

Definition _is_trusted_proxy (peer_ip trusted : string) : bool :=
  match ip_address peer_ip with
  | None => false
  | Some peer => existsb (trusted_entry peer) (str_split "," trusted)
  end.

(** The parts of an ASGI scope the middleware reads; header names are the raw
    ones, and as in the dict the code builds the last of equal names counts. *)
Record Scope := mkScope {
  sc_type : string;
  sc_path : string;
  sc_client : option string;
  sc_headers : list (string * string);
  sc_org_id : option string;
  sc_redis : bool;
}.

Definition header (scope : Scope) (name : string) : option string :=
  fold_left (λ acc kv, if (str_lower kv.1 =? name)%string then Some kv.2 else acc)
    (sc_headers scope) None.

Definition _get_client_ip (settings : Settings) (scope : Scope) : string :=
  let peer := match sc_client scope with Some p => p | None => "unknown" end in
  match header scope "x-forwarded-for" with
  | Some forwarded =>
      if negb (forwarded =? "")%string
         && _is_trusted_proxy peer (TRUSTED_PROXY_IPS settings)
      then match str_split "," forwarded with
           | first :: _ => if (str_strip first =? "")%string then peer else str_strip first
           | [] => peer
           end
      else peer
  | None => peer
  end.
End client_ip.

(** * The window *)

Definition int_or (v : option string) (default : Z) : prog Z :=
  match v with
  | None => Ret default
  | Some s => match py_int s with
              | Some n => Ret n
              | None => Throw (ValueError "invalid literal for int()")
              end
  end.

Definition _get_org_rate_limit (org_id : string) : prog (Z * Z) :=
  try_except
    (quota_data ← redis (ks_hgetall ("org:quota:" +:+ org_id));
     if bool_decide (quota_data = ∅) then Ret (FALLBACK_ORG_RATE_LIMIT, FALLBACK_ORG_WINDOW)
     else (max_req ← int_or (quota_data !! "rate_limit_max") FALLBACK_ORG_RATE_LIMIT;
           window ← int_or (quota_data !! "rate_limit_window") FALLBACK_ORG_WINDOW;
           Ret (max_req, window)))
    is_exception
    (λ _, Throw (AppExc RateLimitUnavailableError
                   "Failed to read org rate-limit config from Redis.")).

(** [time.time()] in microseconds. *)
Definition time_us : prog Z := call Now.

(** The pipeline: prune, count, add, refresh the deadline; one MULTI/EXEC. *)
Definition window_tx (key member : string) (now_ms window_ms window_seconds : Z) : KS Z :=
  ks_bind (ks_zremrangebyscore key 0 (now_ms - window_ms)) (λ _,
  ks_bind (ks_zcard key) (λ current_count,
  ks_bind (ks_zadd key member now_ms) (λ _,
  ks_bind (ks_expire key (window_seconds + 5)) (λ _,
  ks_ret current_count)))).

Definition member_name (now_ms : Z) (u : uuid) : string :=
  str_of_Z now_ms +:+ ":" +:+ uuid_hex u.

Definition _check_rate_limit (key : string) (max_requests window_seconds : Z) :
    prog (bool * Z * Z) :=
  let window_ms := window_seconds * 1000 in
  t1 ← time_us;
  let now_ms := t1 / 1000 in
  now_us ← time_us;
  u ← uuid4;
  current_count ← redis (window_tx key (member_name now_ms u) now_ms window_ms window_seconds);
  let is_allowed := current_count <? max_requests in
  let remaining := Z.max 0 (max_requests - current_count - 1) in
  let reset_time := now_us / us_per_s + window_seconds in
  Ret (is_allowed, remaining, reset_time).

(** * The middleware *)

(** What becomes of a request: it reaches the downstream application, with the
    rate-limit headers added to its response when it was counted, or it is
    answered here. *)
Inductive outcome :=
| Downstream (headers : option (Z * Z * Z))
| Respond429 (type_ : string) (max_req reset_time retry_after : Z)
| Respond503 (type_ : string).

Definition _respond_503 : outcome := Respond503 RFC_7807_TYPE_UNAVAILABLE.

Definition BYPASS_PATHS : list string := ["/health"; "/ready"]%string.

Section middleware.
Context `{IpAddress} (settings : Settings).

Definition limit_key (scope : Scope) : prog (Z * Z * string) :=
  match sc_org_id scope with
  | Some org_id =>
      if (org_id =? "")%string then
        Ret (RATE_LIMIT_IP_MAX settings, RATE_LIMIT_WINDOW_SEC settings,
             "rate:auth:" +:+ _get_client_ip settings scope)
      else
        (mw ← _get_org_rate_limit org_id;
         Ret (mw.1, mw.2, "rate:api:" +:+ org_id))
  | None =>
      Ret (RATE_LIMIT_IP_MAX settings, RATE_LIMIT_WINDOW_SEC settings,
           "rate:auth:" +:+ _get_client_ip settings scope)
  end.

Definition __call__ (scope : Scope) : prog outcome :=
  if negb (sc_type scope =? "http")%string then Ret (Downstream None)
  else if existsb (String.eqb (sc_path scope)) BYPASS_PATHS then Ret (Downstream None)
  else if negb (sc_redis scope) then Ret _respond_503
  else
    ping ← try_except (_ ← redis ks_ping; Ret true) is_exception (λ _, Ret false);
    if negb ping then Ret _respond_503
    else
      checked ← try_except
        (mwk ← limit_key scope;
         r ← _check_rate_limit mwk.2 mwk.1.1 mwk.1.2;
         Ret (Some (mwk.1.1, r)))
        is_exception (λ _, Ret None);
      match checked with
      | None => Ret _respond_503
      | Some (max_req, (is_allowed, remaining, reset_time)) =>
          now ← time_us;
          let retry_after := Z.max 1 (reset_time - now / us_per_s) in
          if negb is_allowed then Ret (Respond429 RFC_7807_TYPE max_req reset_time retry_after)
          else Ret (Downstream (Some (max_req, remaining, reset_time)))
      end.
End middleware.

(** * The sorted set behind the window *)

Lemma zset_at_insert now k z d m :
  live now (REntry (RZset z) d) = true →
  zset_at now k (<[k := REntry (RZset z) d]> m) = inr (z, d).
Proof. intros H. unfold zset_at, find_key. by rewrite lookup_insert_eq, H. Qed.

Lemma zset_at_live now k m z d :
  zset_at now k m = inr (z, d) → live now (REntry (RZset z) d) = true.
Proof.
  unfold zset_at, find_key. intros. repeat case_match; simplify_eq; try done.
Qed.

Lemma zset_at_put now k m z z' d :
  zset_at now k m = inr (z, d) →
  ∃ d', zset_at now k (put_zset k z' d m) = inr (z', d').
Proof.
  intros Hz. apply zset_at_live in Hz. unfold put_zset. case_bool_decide as E.
  - subst z'. exists None. unfold zset_at, find_key. by rewrite lookup_delete_eq.
  - exists d. by apply zset_at_insert.
Qed.

(** The members a prune keeps. *)
Definition kept (cutoff_ms : Z) (z : gmap string Z) : gmap string Z :=
  filter (λ p : string * Z, ¬ (0 ≤ p.2 ≤ cutoff_ms)) z.

(** The pipeline answers the size of the pruned window and leaves it, with the new
    member added, under a fresh deadline. *)
Lemma window_tx_run k mem now now_ms W m z d :
  zset_at now k m = inr (z, d) → 0 ≤ W →
  ∃ m', window_tx k mem now_ms (W * 1000) W now m
        = (inr (Z.of_nat (size (kept (now_ms - W * 1000) z))), m') ∧
    zset_at now k m' =
      inr (<[mem := now_ms]> (kept (now_ms - W * 1000) z), Some (now + (W + 5) * us_per_s)).
Proof.
  intros Hz HW. unfold window_tx, ks_bind.
  unfold ks_zremrangebyscore. rewrite Hz. cbn.
  set (z1 := filter _ z). change (kept _ z) with z1.
  destruct (zset_at_put now k m z z1 d Hz) as [d1 H1].
  unfold ks_zcard. rewrite H1. unfold ks_zadd. rewrite H1.
  set (m1 := put_zset k z1 d m) in *.
  assert (put_zset k (<[mem:=now_ms]> z1) d1 m1 = <[k := REntry (RZset (<[mem:=now_ms]> z1)) d1]> m1)
    as ->.
  { unfold put_zset. rewrite bool_decide_eq_false_2; [done|]. apply insert_non_empty. }
  assert (live now (REntry (RZset (<[mem:=now_ms]> z1)) d1) = true) as Hl.
  { apply zset_at_live in H1. exact H1. }
  unfold ks_expire. unfold find_key at 1. rewrite lookup_insert_eq, Hl.
  assert ((W + 5 <=? 0) = false) as -> by lia. unfold ks_ret. eexists. split; [done|].
  cbn. apply zset_at_insert. unfold live, us_per_s. cbn. lia.
Qed.

Lemma size_members (z : gmap string Z) (l : list string) :
  NoDup l → (∀ x, x ∈ l → is_Some (z !! x)) → (length l ≤ size z)%nat.
Proof.
  intros Hn Hin. rewrite <- (size_list_to_set (C := gset string) l) by done.
  rewrite <- size_dom. apply subseteq_size. intros x Hx.
  apply elem_of_list_to_set in Hx. apply elem_of_dom. auto.
Qed.

(** * Histories of counted requests *)

(** A counted request: its instant, the index of the random draw that named its
    member, and whether it was admitted. Histories are newest first. *)
Record counted := Counted { ct_time : Z; ct_draw : nat; ct_allowed : bool }.

Definition draw_uuid (s : state) (i : nat) : uuid := st_entropy s i mod 2 ^ 128.
Definition ct_member (s : state) (c : counted) : string :=
  member_name (ct_time c / 1000) (draw_uuid s (ct_draw c)).

(** The random source does not repeat a UUID within its first [n] draws. *)
Definition uuids_distinct (n : nat) (s : state) : Prop :=
  ∀ i j, (i < n)%nat → (j < n)%nat → draw_uuid s i = draw_uuid s j → i = j.

(** Within [W] seconds before [now], in the milliseconds the code works with. *)
Definition recent (W now t : Z) : bool := now / 1000 - W * 1000 <? t / 1000.

(** The key holds every recent request of the history. *)
Record window_inv (k : string) (W : Z) (s : state) (h : list counted) : Prop := {
  wi_draws : Forall (λ c, ct_draw c < st_drawn s)%nat h;
  wi_nodup : NoDup (map ct_draw h);
  wi_past : Forall (λ c, 0 ≤ ct_time c ≤ st_clock s) h;
  wi_zset : ∃ z d, zset_at (st_clock s) k (st_redis s) = inr (z, d) ∧
    Forall (λ c,
      (recent W (st_clock s) (ct_time c) = true → z !! ct_member s c = Some (ct_time c / 1000)) ∧
      match d with Some D => ct_time c + (W + 5) * us_per_s ≤ D | None => True end) h;
}.

Lemma draw_uuid_hex_inj n s i j :
  uuids_distinct n s → (i < n)%nat → (j < n)%nat → uuid_hex (draw_uuid s i) = uuid_hex (draw_uuid s j) → i = j.
Proof.
  intros Hd Hi Hj E. apply Hd; [done..|].
  assert (∀ i, uuid_wf (draw_uuid s i)) as Hw by (intros; apply Z.mod_pos_bound; lia).
  assert (Some (draw_uuid s i) = Some (draw_uuid s j)) as [= ->]; [|done].
  by rewrite <- (uuid_hex_parse _ (Hw i)), <- (uuid_hex_parse _ (Hw j)), E.
Qed.

Lemma member_name_inj n s t t' i j :
  uuids_distinct n s → (i < n)%nat → (j < n)%nat →
  member_name t (draw_uuid s i) = member_name t' (draw_uuid s j) → i = j.
Proof.
  intros Hd Hi Hj E. apply (f_equal (rpartition ":")) in E.
  assert (∀ t u, member_name t u = str_of_Z t +:+ (":"%char ::: uuid_hex u)) as Hm by done.
  rewrite !Hm in E. unfold uuid_hex at 1 2 in E.
  rewrite !rpartition_app in E by (apply hexn_sep; repeat constructor).
  apply (draw_uuid_hex_inj n s); [done..|exact (f_equal snd E)].
Qed.

Lemma recent_later W now now' t : now ≤ now' → recent W now' t = true → recent W now t = true.
Proof.
  unfold recent. intros Hle H. apply Z.ltb_lt in H. apply Z.ltb_lt.
  pose proof (Z.div_le_mono now now' 1000 ltac:(lia) Hle). lia.
Qed.

(** The recent requests of the history are among the members the prune keeps. *)
Lemma recent_counted n k W s h z d :
  uuids_distinct n s → (st_drawn s ≤ n)%nat → window_inv k W s h →
  zset_at (st_clock s) k (st_redis s) = inr (z, d) →
  Z.of_nat (length (List.filter (λ c, recent W (st_clock s) (ct_time c)) h))
    ≤ Z.of_nat (size (kept (st_clock s / 1000 - W * 1000) z)).
Proof.
  intros Hd Hle [Hdr Hnd Hp (z' & d' & Hz & Hin)] Hz'. rewrite Hz' in Hz. simplify_eq.
  set (r := List.filter _ h).
  apply Nat2Z.inj_le. rewrite <- (length_map (ct_member s)). apply size_members.
  - assert (NoDup (map ct_draw r)) as Hr by (by apply NoDup_map_filter).
    assert (Forall (λ c, ct_draw c < n)%nat r) as Hrn.
    { apply Forall_forall. intros c Hc. subst r. apply list_elem_of_In in Hc.
      apply filter_In in Hc as [Hc _]. apply list_elem_of_In in Hc.
      rewrite Forall_forall in Hdr. specialize (Hdr c Hc). cbn in Hdr. lia. }
    clear -Hr Hrn Hd. induction r as [|c r IH]; [constructor|].
    apply Forall_cons in Hrn as [Hcn Hrn].
    apply NoDup_cons in Hr as [Hc Hr]. apply NoDup_cons. split; [|by apply IH].
    intros (c' & E & Hc')%list_elem_of_fmap. apply Hc.
    rewrite Forall_forall in Hrn. specialize (Hrn c' Hc').
    apply (member_name_inj n s _ _ _ _ Hd Hcn Hrn) in E. rewrite E. by apply list_elem_of_fmap_2.
  - intros x (c & -> & Hc)%list_elem_of_fmap. subst r.
    apply list_elem_of_In in Hc. apply filter_In in Hc as [Hc Hr]. apply list_elem_of_In in Hc.
    rewrite Forall_forall in Hin. destruct (Hin c Hc) as [Hin1 _].
    exists (ct_time c / 1000). apply map_lookup_filter_Some. split; [auto|]. cbn.
    unfold recent in Hr. lia.
Qed.

(** ** One request, and the passing of time *)

Lemma window_inv_later k W s h d :
  0 ≤ W → window_inv k W s h → window_inv k W (op_sem (Sleep d) s).2 h.
Proof.
  intros HW [Hdr Hnd Hp (z & dl & Hz & Hin)]. split; cbn.
  - done.
  - done.
  - eapply Forall_impl; [exact Hp|]. intros c. cbn. lia.
  - set (now := st_clock s) in *. set (now' := now + Z.max 0 d).
    assert (now ≤ now') as Hle by lia.
    unfold zset_at, find_key in *.
    destruct (st_redis s !! k) as [[v dv]|] eqn:E.
    + destruct (live now' (REntry v dv)) eqn:El'.
      * assert (live now (REntry v dv) = true) as El
          by (unfold live in *; cbn in *; destruct dv; lia || done).
        rewrite El in Hz. exists z, dl. split; [destruct v; try done|].
        eapply Forall_impl; [exact Hin|]. intros c [H1 H2]. split; [|done].
        intros Hr. apply H1. by eapply recent_later.
      * exists ∅, None. split; [done|].
        destruct (live now (REntry v dv)) eqn:El.
        -- destruct v; simplify_eq. destruct dl as [D|]; [|done].
           eapply Forall_impl; [exact Hin|]. intros c [H1 H2]. split; [|done].
           intros Hr. exfalso. unfold recent, live, us_per_s in *. cbn in *.
           assert (ct_time c + (W + 5) * 1000000 ≤ now') as Hx by lia.
           apply (Z.div_le_mono _ _ 1000 ltac:(lia)) in Hx.
           replace (ct_time c + (W + 5) * 1000000) with
             (ct_time c + ((W + 5) * 1000) * 1000) in Hx by lia.
           rewrite Z.div_add in Hx by lia. lia.
        -- simplify_eq. eapply Forall_impl; [exact Hin|]. intros c [H1 H2]. split; [|done].
           intros Hr. apply (recent_later W now) in Hr; [|done]. apply H1 in Hr.
           by rewrite lookup_empty in Hr.
    + simplify_eq. exists ∅, None. split; [done|].
      eapply Forall_impl; [exact Hin|]. intros c [H1 H2]. split; [|done].
      intros Hr. apply (recent_later W now) in Hr; [|done]. auto.
Qed.

Lemma member_name_draw s t : member_name (t / 1000) (draw_uuid s (st_drawn s)) =
  ct_member s (Counted t (st_drawn s) true).
Proof. done. Qed.

(** One check: it is admitted exactly when fewer than [max] requests of the window
    were counted, and it is counted itself either way. *)
Lemma check_rate_limit_step nd k W max s h :
  0 ≤ W → 0 ≤ st_clock s → uuids_distinct nd s → (st_drawn s < nd)%nat → window_inv k W s h →
  ∃ n s', run (_check_rate_limit k max W) s =
      (inr (n <? max, Z.max 0 (max - n - 1), st_clock s / us_per_s + W), s') ∧
    Z.of_nat (length (List.filter (λ c, recent W (st_clock s) (ct_time c)) h)) ≤ n ∧
    st_clock s' = st_clock s ∧ st_entropy s' = st_entropy s ∧ st_drawn s' = S (st_drawn s) ∧
    window_inv k W s' (Counted (st_clock s) (st_drawn s) (n <? max) :: h).
Proof.
  intros HW Hc Hd Hnd Hi. pose proof (wi_zset _ _ _ _ Hi) as (z & d & Hz & _).
  pose proof (recent_counted nd k W s h z d Hd ltac:(lia) Hi Hz) as Hn.
  set (now_ms := st_clock s / 1000) in *.
  destruct (window_tx_run k (member_name now_ms (draw_uuid s (st_drawn s))) (st_clock s) now_ms W
    (st_redis s) z d Hz HW) as (m' & Ht & Hz').
  set (n := Z.of_nat (size (kept (now_ms - W * 1000) z))) in *.
  eexists n, _. split.
  { unfold _check_rate_limit, time_us, uuid4. cbn.
    fold now_ms. unfold draw_uuid in Ht. rewrite Ht. cbn. done. }
  split; [done|]. split; [done|]. split; [done|]. split; [done|].
  destruct Hi as [Hdr Hnodup Hp (z0 & d0 & Hz0 & Hin)]. rewrite Hz in Hz0. simplify_eq.
  split; cbn.
  - constructor; [cbn; lia|]. eapply Forall_impl; [exact Hdr|]. intros c. cbn. lia.
  - apply NoDup_cons. split; [|done]. intros (c & E & Hcin)%list_elem_of_fmap.
    rewrite Forall_forall in Hdr. specialize (Hdr c Hcin). cbn in *. lia.
  - constructor; [cbn; lia|done].
  - exists (<[member_name now_ms (draw_uuid s (st_drawn s)) := now_ms]> (kept (now_ms - W * 1000) z0)),
      (Some (st_clock s + (W + 5) * us_per_s)). split; [exact Hz'|].
    constructor; cbn.
    + split; [|unfold us_per_s; lia]. intros _. apply lookup_insert_eq.
    + rewrite Forall_forall in Hin, Hp, Hdr |- *. intros c Hcin. split.
      * intros Hr. destruct (Hin c Hcin) as [H1 _]. specialize (H1 Hr).
        assert (ct_member s c ≠ member_name now_ms (draw_uuid s (st_drawn s))) as Hne.
        { intros E. specialize (Hdr c Hcin). cbn in Hdr.
          apply (member_name_inj nd s _ _ _ _ Hd) in E; lia. }
        change (ct_member _ c) with (ct_member s c).
        rewrite lookup_insert_ne by done. apply map_lookup_filter_Some. split; [done|].
        cbn. unfold recent in Hr. fold now_ms in Hr. lia.
      * specialize (Hp c Hcin). cbn in Hp. unfold us_per_s. lia.
Qed.

(** ** A client's requests over time *)

(** Requests on one key, each after a delay; what was decided, and when. *)
Fixpoint requests (key : string) (max window : Z) (ds : list Z) : prog (list (Z * bool)) :=
  match ds with
  | [] => Ret []
  | d :: r =>
      _ ← call (Sleep d);
      t ← time_us;
      res ← _check_rate_limit key max window;
      rest ← requests key max window r;
      Ret ((t, res.1.1) :: rest)
  end.

(** The requests admitted within the window that ends at [now]. *)
Definition admitted (W now : Z) (l : list (Z * bool)) : Z :=
  Z.of_nat (length (List.filter (λ ta, ta.2 && recent W now ta.1) l)).

Fixpoint admissions_ok (W max : Z) (h : list counted) : Prop :=
  match h with
  | [] => True
  | c :: r =>
      (ct_allowed c = true →
        Z.of_nat (length (List.filter (λ x, recent W (ct_time c) (ct_time x)) r)) < max)
      ∧ admissions_ok W max r
  end.

Definition decision (c : counted) : Z * bool := (ct_time c, ct_allowed c).

Lemma admissions_bound W max h T :
  0 ≤ max → admissions_ok W max h → Forall (λ c, ct_time c ≤ T) h →
  admitted W T (map decision h) ≤ max.
Proof.
  intros Hm. induction h as [|c h IH]; intros Hok HT; [done|].
  destruct Hok as [Hc Hok]. apply Forall_cons in HT as [HcT HT].
  specialize (IH Hok HT). unfold admitted in *. simpl.
  destruct (ct_allowed c && recent W T (ct_time c)) eqn:E; [|done].
  apply andb_true_iff in E as [Ea _]. specialize (Hc Ea). simpl.
  rewrite (Nat2Z.inj_succ (length _)).
  assert (length (List.filter (λ ta, ta.2 && recent W T ta.1) (map decision h))
    ≤ length (List.filter (λ x, recent W (ct_time c) (ct_time x)) h))%nat; [|lia].
  clear -HcT. induction h as [|x h IH]; [done|]. simpl.
  destruct (ct_allowed x && recent W T (ct_time x)) eqn:E; simpl.
  - apply andb_true_iff in E as [_ E]. apply (recent_later W _ _ _ HcT) in E.
    rewrite E. simpl. lia.
  - destruct (recent W (ct_time c) (ct_time x)); simpl; lia.
Qed.

Lemma requests_run nd k W max ds s h :
  0 ≤ W → 0 ≤ st_clock s → uuids_distinct nd s → (st_drawn s + length ds ≤ nd)%nat →
  window_inv k W s h → admissions_ok W max h →
  ∃ h' s', run (requests k max W ds) s = (inr (rev (map decision h')), s') ∧
    window_inv k W s' (h' ++ h) ∧ admissions_ok W max (h' ++ h).
Proof.
  intros HW. revert s h; induction ds as [|d ds IH]; intros s h Hc Hd Hn Hi Hok; cbn [length] in Hn.
  { by exists [], s. }
  cbn [requests]. rewrite run_bind, run_call. cbn [exec state_world].
  set (s1 := (op_sem (Sleep d) s).2).
  change (op_sem (Sleep d) s) with (@inr exn unit tt, s1).
  assert (window_inv k W s1 h) as Hi1 by by apply window_inv_later.
  assert (0 ≤ st_clock s1) as Hc1 by (cbn; lia).
  assert (uuids_distinct nd s1) as Hd1 by exact Hd.
  destruct (check_rate_limit_step nd k W max s1 h HW Hc1 Hd1 ltac:(subst s1; cbn; lia) Hi1)
    as (n & s2 & Hr & Hcnt & Hck & Hen & Hdw & Hi2).
  rewrite run_bind. unfold time_us. rewrite run_call. cbn [exec state_world op_sem].
  rewrite run_bind, Hr, run_bind. cbn [fst].
  destruct (IH s2 (Counted (st_clock s1) (st_drawn s1) (n <? max) :: h))
    as (h' & s' & Hr' & Hi' & Hok').
  - by rewrite Hck.
  - unfold uuids_distinct, draw_uuid in *. by rewrite Hen.
  - rewrite Hdw. subst s1. cbn. lia.
  - exact Hi2.
  - split; [|done]. intros Hlt. apply Z.ltb_lt in Hlt. eapply Z.le_lt_trans; [exact Hcnt|exact Hlt].
  - exists (h' ++ [Counted (st_clock s1) (st_drawn s1) (n <? max)]), s'.
    rewrite Hr'. cbn. rewrite map_app, rev_app_distr, <- !app_assoc. done.
Qed.

(** C2. The sliding window holds: whatever the pace of the requests on a fresh key,
    the requests admitted within the [window] seconds before the end of the run
    never exceed [max]. (Every prefix of a run is a run, so this is the bound at
    every instant.) *)
Theorem sliding_window_bound {W} `{World W} (w : W) key max window ds :
  steady w → 0 ≤ max → 0 ≤ window → 0 ≤ st_clock (abs w) →
  uuids_distinct (st_drawn (abs w) + length ds) (abs w) →
  find_key (st_clock (abs w)) key (st_redis (abs w)) = None →
  ∃ res, (run (requests key max window ds) w).1 = inr res ∧
    length res = length ds ∧
    admitted window (st_clock (abs (run (requests key max window ds) w).2)) res ≤ max.
Proof.
  intros Hs Hm HW Hc Hd Hf.
  destruct (run_steady (requests key max window ds) w Hs) as (E1 & E2 & _).
  destruct (requests_run _ key window max ds (abs w) [] HW Hc Hd ltac:(lia)) as (h & s' & Hr & Hi & Hok).
  - split; try constructor. exists ∅, None. split; [|constructor].
    unfold zset_at. by rewrite Hf.
  - done.
  - exists (rev (map decision h)). rewrite E1, E2, Hr. rewrite app_nil_r in *.
    split; [done|]. split.
    + clear -Hr. revert Hr. generalize (rev (map decision h)) as l.
      generalize (abs w) as s. revert s'. induction ds as [|d ds IH]; intros s' s l.
      { by intros [= <-]. }
      cbn [requests]. rewrite run_bind, run_call. cbn [exec state_world op_sem].
      rewrite run_bind. unfold time_us. rewrite run_call. cbn [exec state_world op_sem].
      rewrite run_bind. destruct (run (_check_rate_limit _ _ _) _) as [[e|r] s1]; [done|].
      rewrite run_bind. destruct (run (requests _ _ _ _) s1) as [[e|l'] s2] eqn:E; [done|].
      intros [= <- <-]. simpl. f_equal. by apply (IH s2 s1).
    + cbn. pose proof (admissions_bound window max h (st_clock s') Hm Hok) as Hb.
      assert (admitted window (st_clock s') (rev (map decision h))
        = admitted window (st_clock s') (map decision h)) as ->.
      { unfold admitted. rewrite filter_rev, length_rev. done. }
      apply Hb. eapply Forall_impl; [exact (wi_past _ _ _ _ Hi)|]. cbn. lia.
Qed.

(** * Failing closed *)

Section fail_closed.
Context `{IpAddress} (settings : Settings).

Lemma int_or_plain v d : plain (int_or v d).
Proof. unfold int_or. repeat case_match; auto with zync. Qed.

Lemma int_or_strict v d : strict (int_or v d).
Proof. unfold int_or. repeat case_match; auto with zync. Qed.

Lemma org_limit_strict org : strict (_get_org_rate_limit org).
Proof.
  apply strict_rethrow, strict_bind; [auto with zync|]. intros q.
  case_bool_decide; [auto with zync|].
  repeat (apply strict_bind; [apply int_or_strict|intros ?]). auto with zync.
Qed.

Lemma org_limit_plain org : plain (_get_org_rate_limit org).
Proof.
  apply plain_rethrow; [done|]. apply plain_bind.
  - apply plain_redis. intros now m e. unfold ks_hgetall. repeat case_match; by intros [= <-].
  - intros q. case_bool_decide; [auto with zync|].
    repeat (apply plain_bind; [apply int_or_plain|intros ?]). auto with zync.
Qed.

Lemma limit_key_strict scope : strict (limit_key settings scope).
Proof.
  unfold limit_key. repeat case_match; auto using org_limit_strict with zync.
Qed.

Lemma limit_key_plain scope : plain (limit_key settings scope).
Proof.
  unfold limit_key. repeat case_match; auto using org_limit_plain with zync.
Qed.

Lemma check_strict k M W : strict (_check_rate_limit k M W).
Proof. unfold _check_rate_limit, time_us, uuid4. cbn zeta. auto 10 with zync. Qed.

Lemma zset_at_error now k m e : zset_at now k m = inl e → e = wrong_type.
Proof. unfold zset_at. repeat case_match; congruence. Qed.

Lemma window_tx_error k mem a b c now m e :
  (window_tx k mem a b c now m).1 = inl e → is_exception e = true.
Proof.
  unfold window_tx, ks_bind, ks_zremrangebyscore, ks_zcard, ks_zadd, ks_expire, ks_ret.
  repeat case_match; simplify_eq/=; intros [= <-];
    match goal with H : zset_at _ _ _ = inl _ |- _ => by apply zset_at_error in H as -> end.
Qed.

Lemma check_plain k M W : plain (_check_rate_limit k M W).
Proof.
  unfold _check_rate_limit, time_us, uuid4. cbn zeta.
  apply plain_bind; [by apply plain_answered|intros t1].
  apply plain_bind; [by apply plain_answered|intros t2].
  apply plain_bind; [by apply plain_answered|intros u].
  apply plain_bind; [|auto with zync]. apply plain_redis. apply window_tx_error.
Qed.

Definition counted_check (scope : Scope) : prog (option (Z * (bool * Z * Z))) :=
  mwk ← limit_key settings scope;
  r ← _check_rate_limit mwk.2 mwk.1.1 mwk.1.2;
  Ret (Some (mwk.1.1, r)).

Lemma counted_check_strict scope : strict (counted_check scope).
Proof.
  apply strict_bind; [apply limit_key_strict|intros mwk].
  apply strict_bind; [apply check_strict|auto with zync].
Qed.

Lemma counted_check_plain scope : plain (counted_check scope).
Proof.
  apply plain_bind; [apply limit_key_plain|intros mwk].
  apply plain_bind; [apply check_plain|auto with zync].
Qed.

(** The limiter fails closed: on an enforced path, whatever answers Redis
    loses, the middleware never raises, and if a single answer was lost the
    request gets a 503 and reaches neither the application nor a 429. *)
Theorem rate_limit_fails_closed scope s plan :
  sc_type scope = "http"%string → existsb (String.eqb (sc_path scope)) BYPASS_PATHS = false →
  ∃ r s' plan', run (__call__ settings scope) ((s, plan) : faulty) = (inr r, (s', plan')) ∧
    (r = Respond503 RFC_7807_TYPE_UNAVAILABLE ∨ clean plan plan').
Proof.
  intros Ht Hp. unfold __call__. rewrite Ht, Hp.
  change (("http" =? "http")%string) with true. cbn [negb].
  destruct (sc_redis scope); cbn [negb]; [|by eauto 10].
  set (pg := _ ← redis ks_ping; Ret true).
  assert (strict pg) as Hps by (apply strict_bind; auto with zync).
  assert (plain pg) as Hpp by (apply plain_bind; [by apply plain_redis|auto with zync]).
  rewrite run_bind, (plain_total pg _ Hpp).
  destruct (run pg _) as [[e|b] [s1 pl1]] eqn:E1; [by cbn; eauto 10|].
  assert (b = true) as ->.
  { subst pg. rewrite run_bind in E1. destruct (run (redis ks_ping) _) as [[?|?] ?]; by simplify_eq/=. }
  apply Hps in E1. cbv beta iota. cbn [negb].
  rewrite run_bind. fold (counted_check scope).
  rewrite (plain_total _ _ (counted_check_plain scope)).
  destruct (run (W := faulty) (counted_check scope) (s1, pl1)) as [[e|o] [s2 pl2]] eqn:E2; [by cbn; eauto 10|].
  apply counted_check_strict in E2. pose proof (clean_trans _ _ _ E1 E2) as Hc.
  destruct o as [[mx [[al rem] rs]]|]; [|by cbn; eauto 10].
  cbv beta iota. rewrite run_bind. unfold time_us. rewrite run_call. cbn.
  destruct al; cbn; eauto 10.
Qed.
End fail_closed.

(** * Witnesses *)

(** A toy [ipaddress]: addresses are their text, a network contains its prefix. *)
Definition text_ips : IpAddress :=
  {| ip_addr := string; ip_addr_eqb := String.eqb;
     ip_address := λ s, if str_mem "." s then Some s else None;
     in_ip_network := λ a n, Some (str_prefix (str_split "/" n !!! 0%nat) a) |}.

Definition demo_settings : Settings := mkSettings 10 60 "127.0.0.1, 10.0.".
Definition demo_scope : Scope :=
  mkScope "http" "/v1/projects" (Some "127.0.0.1"%string)
    [("X-Forwarded-For", "9.9.9.9, 10.0.0.1")]%string None true.

Example demo_client : @_get_client_ip text_ips demo_settings demo_scope = "9.9.9.9"%string.
Proof. vm_compute. reflexivity. Qed.

Lemma empty_distinct n : (n < 1000)%nat → uuids_distinct n empty_state.
Proof.
  intros Hn i j Hi Hj. unfold draw_uuid. cbn.
  rewrite !Z.mod_small by lia. lia.
Qed.

Lemma sliding_window_bound_witness :
  ∃ res, (run (requests "rate:api:o" 2 60 [0; 1000000; 2000000; 58000000; 1000000]) empty_state).1
           = inr res ∧ length res = 5%nat ∧
    admitted 60 (st_clock (abs (run (requests "rate:api:o" 2 60
      [0; 1000000; 2000000; 58000000; 1000000]) empty_state).2)) res ≤ 2.
Proof.
  apply (sliding_window_bound empty_state "rate:api:o" 2 60).
  - exact I.
  - discriminate.
  - discriminate.
  - discriminate.
  - apply empty_distinct. cbn. lia.
  - reflexivity.
Defined.

Example requests_demo :
  (run (requests "rate:api:o" 2 60 [0; 1000000; 2000000; 58000000; 1000000]) empty_state).1
  = inr [(0, true); (1000000, true); (3000000, false); (61000000, true); (62000000, false)].
Proof. vm_compute. reflexivity. Qed.

Lemma rate_limit_fails_closed_witness :
  ∃ r s' plan', run (@__call__ text_ips demo_settings demo_scope)
      ((empty_state, [false; true]) : faulty) = (inr r, (s', plan')) ∧
    (r = Respond503 RFC_7807_TYPE_UNAVAILABLE ∨ clean [false; true] plan').
Proof.
  exact (@rate_limit_fails_closed text_ips demo_settings demo_scope empty_state [false; true]
    eq_refl eq_refl).
Defined.
