(* ===== verification/Otp.v ===== *)
(** services/otp_service.py: one-time passcodes kept in Redis as digests, with
    attempt caps, a resend cooldown and an hourly send limit. *)
From S2P Require Import Prelude Errors Data Effects.
Open Scope Z_scope.

(** * Constants and keys *)

Inductive OtpPurpose := signup | password_reset | passwordless_login | mfa.

#[export] Instance otp_purpose_eq_dec : EqDecision OtpPurpose.
Proof. solve_decision. Defined.

Definition purpose_str (p : OtpPurpose) : string :=
  match p with
  | signup => "signup"
  | password_reset => "password_reset"
  | passwordless_login => "passwordless_login"
  | mfa => "mfa"
  end.

Definition _OTP_TTL_SEC : Z := 600.
Definition _ATTEMPT_TTL_SEC : Z := 600.
Definition _COOLDOWN_SEC : Z := 60.
Definition _MAX_SENDS_PER_HOUR : Z := 5.
Definition _MAX_ATTEMPTS : Z := 5.
Definition _OTP_LENGTH : nat := 6.
Definition _REDIS_KEY_PREFIX : string := "otp:v1".

Definition otp_key (email : string) (purpose : OtpPurpose) (suffix : string) : string :=
  _REDIS_KEY_PREFIX +:+ ":" +:+ purpose_str purpose +:+ ":" +:+ str_lower email +:+ ":" +:+ suffix.

Definition _otp_hash_key (email : string) (p : OtpPurpose) : string := otp_key email p "hash".
Definition _attempts_key (email : string) (p : OtpPurpose) : string := otp_key email p "attempts".
Definition _cooldown_key (email : string) (p : OtpPurpose) : string := otp_key email p "cooldown".

(** The hour bucket comes from the clock the caller read. *)
Definition _send_count_key (now : Z) (email : string) : string :=
  "email:send_count:" +:+ str_lower email +:+ ":" +:+ strftime_YmdH now.

(** * The service *)

Section otp_service.
Context `{Hashlib}.

Definition _hash_otp (code : string) : string := sha256_hexdigest code.

Definition _generate_otp : prog string :=
  n ← call (Draw (10 ^ Z.of_nat _OTP_LENGTH)); Ret (decn _OTP_LENGTH n).

(** The loop over the purposes' cooldown keys. *)
Definition check_cooldowns (email_key : string) : prog unit :=
  for_each [signup; password_reset; passwordless_login; mfa] (λ p,
    active ← redis (ks_exists (_cooldown_key email_key p));
    if active : bool then
      Throw (AppExc RateLimitError
        "Please wait before requesting another code. You can request a new code in about a minute.")
    else Ret tt).

Definition _check_rate_limits (email_key : string) : prog unit :=
  _ ← check_cooldowns email_key;
  now ← call Now;
  send_count ← redis (ks_get (_send_count_key now email_key));
  match send_count with
  | None => Ret tt
  | Some v =>
      match py_int v with
      | None => Throw (ValueError "invalid literal for int()")
      | Some n =>
          if _MAX_SENDS_PER_HOUR <=? n then
            Throw (AppExc RateLimitError
              "You have reached the maximum number of OTP requests for this email address.  Please try again later.")
          else Ret tt
      end
  end.

Definition _send_otp_email (email_key : string) (otp : string) : prog unit :=
  call (Emit (EmailSent email_key "Your OpenZync verification code" otp)).

(** The pipeline that stores a new code; the counter's key is computed twice, from
    two readings of the clock. *)
Definition store_otp (email_key : string) (purpose : OtpPurpose) (otp_hash : string)
    (now now' : Z) : KS unit :=
  ks_bind (ks_setex (_otp_hash_key email_key purpose) _OTP_TTL_SEC otp_hash) (λ _,
  ks_bind (ks_setex (_attempts_key email_key purpose) _ATTEMPT_TTL_SEC "0") (λ _,
  ks_bind (ks_setex (_cooldown_key email_key purpose) _COOLDOWN_SEC "1") (λ _,
  ks_bind (ks_incr (_send_count_key now email_key)) (λ _,
  ks_bind (ks_expire (_send_count_key now' email_key) 3600) (λ _,
  ks_ret tt))))).

Definition generate_and_send (email : string) (purpose : OtpPurpose) : prog unit :=
  let email_key := str_lower email in
  _ ← _check_rate_limits email_key;
  otp ← _generate_otp;
  let otp_hash := _hash_otp otp in
  now ← call Now;
  now' ← call Now;
  _ ← redis (store_otp email_key purpose otp_hash now now');
  _send_otp_email email_key otp.

Definition otp_keys (email_key : string) (purpose : OtpPurpose) : list string :=
  [_otp_hash_key email_key purpose; _attempts_key email_key purpose;
   _cooldown_key email_key purpose].

Definition verify (email : string) (purpose : OtpPurpose) (code : string) : prog bool :=
  let email_key := str_lower email in
  stored_hash ← redis (ks_get (_otp_hash_key email_key purpose));
  match stored_hash with
  | None => Ret false
  | Some stored_hash =>
      attempts ← redis (ks_incr (_attempts_key email_key purpose));
      if _MAX_ATTEMPTS <? attempts then
        (_ ← redis (ks_delete (otp_keys email_key purpose));
         Throw (AppExc ValidationError "Too many failed attempts.  Please request a new code."))
      else
        let input_hash := _hash_otp (str_strip code) in
        if (input_hash =? stored_hash)%string then
          (_ ← redis (ks_delete (otp_keys email_key purpose)); Ret true)
        else Ret false
  end.

Definition invalidate (email : string) (purpose : OtpPurpose) : prog unit :=
  let email_key := str_lower email in
  _ ← redis (ks_delete (otp_keys email_key purpose)); Ret tt.

(** [_mask_email]: first and last character of the local part. *)
Definition _mask_email (email : string) : string :=
  let '(local, _, domain) := partition "@" email in
  match local with
  | EmptyString => email
  | c ::: EmptyString => (c ::: EmptyString) +:+ "**@" +:+ domain
  | c ::: r => (c ::: EmptyString) +:+ "**" +:+ str_drop (String.length r - 1) r +:+ "@" +:+ domain
  end.

(** * A pending code *)

(** What Redis holds for a pending code: its digest and the count of the attempts
    made on it, under one deadline. *)
Definition pending (email : string) (p : OtpPurpose) (h : string) (n D : Z) (s : state) : Prop :=
  find_key (st_clock s) (_otp_hash_key (str_lower email) p) (st_redis s)
    = Some (REntry (RStr h) (Some D)) ∧
  find_key (st_clock s) (_attempts_key (str_lower email) p) (st_redis s)
    = Some (REntry (RStr (str_of_Z n)) (Some D)).

(** No code is pending. *)
Definition no_code (email : string) (p : OtpPurpose) (s : state) : Prop :=
  find_key (st_clock s) (_otp_hash_key (str_lower email) p) (st_redis s) = None.

Lemma otp_key_suffix_inj email p x y : otp_key email p x = otp_key email p y → x = y.
Proof. unfold otp_key. intros E. repeat apply str_app_inj_l in E. done. Qed.

Lemma otp_key_purpose_inj email p q x y : otp_key email p x = otp_key email q y → p = q.
Proof. destruct p, q; intros [=]; done. Qed.

Lemma hash_attempts_ne email p : _otp_hash_key email p ≠ _attempts_key email p.
Proof. intros E. by apply otp_key_suffix_inj in E. Qed.

(** The state with the three keys of a code dropped. *)
Definition dropped (email : string) (p : OtpPurpose) (m : keyspace) : keyspace :=
  delete (_cooldown_key email p) (delete (_attempts_key email p) (delete (_otp_hash_key email p) m)).

Lemma delete_otp_keys email p now m :
  ∃ n, ks_delete (otp_keys email p) now m = (inr n, dropped email p m).
Proof. cbn. eauto. Qed.

Lemma dropped_no_code now email p m :
  find_key now (_otp_hash_key email p) (dropped email p m) = None.
Proof.
  unfold dropped. rewrite find_key_delete_ne, find_key_delete_ne.
  - apply find_key_delete.
  - intros E. by apply otp_key_suffix_inj in E.
  - intros E. by apply otp_key_suffix_inj in E.
Qed.

Lemma verify_no_code email p code s : no_code email p s → run (verify email p code) s = (inr false, s).
Proof.
  intros Hn. unfold verify. erewrite run_redis_ok by (by apply ks_get_none).
  by rewrite set_redis_id.
Qed.

(** [verify] against a pending code: the attempt is counted first, the sixth drops
    the code and raises, a match drops the code, a miss keeps it. *)
Lemma verify_pending email p code s h n D :
  pending email p h n D s →
  let k := _attempts_key (str_lower email) p in
  let m := <[k := REntry (RStr (str_of_Z (n + 1))) (Some D)]> (st_redis s) in
  run (verify email p code) s =
    if _MAX_ATTEMPTS <? n + 1 then
      (inl (AppExc ValidationError "Too many failed attempts.  Please request a new code."),
       set_redis (dropped (str_lower email) p m) s)
    else if (_hash_otp (str_strip code) =? h)%string then
      (inr true, set_redis (dropped (str_lower email) p m) s)
    else (inr false, set_redis m s).
Proof.
  intros [Hh Ha]. cbn zeta. unfold verify.
  redis_step (ks_get_str _ _ _ _ _ Hh). rewrite set_redis_id.
  redis_step (ks_incr_str _ _ _ _ _ Ha).
  destruct (_MAX_ATTEMPTS <? n + 1); [|destruct (_hash_otp (str_strip code) =? h)%string; [|done]];
    destruct (delete_otp_keys (str_lower email) p (st_clock s)
      (<[_attempts_key (str_lower email) p := REntry (RStr (str_of_Z (n + 1))) (Some D)]>
        (st_redis s))) as [c Hc]; by redis_step Hc.
Qed.

Lemma pending_bumped email p h n D s :
  pending email p h n D s →
  pending email p h (n + 1) D
    (set_redis (<[_attempts_key (str_lower email) p := REntry (RStr (str_of_Z (n + 1))) (Some D)]>
      (st_redis s)) s).
Proof.
  intros [Hh Ha]. split; cbn.
  - rewrite find_key_insert_ne; [done|]. apply not_eq_sym, hash_attempts_ne.
  - apply find_key_insert. by apply find_key_live in Ha.
Qed.

Lemma pending_later email p h n D s d :
  pending email p h n D s →
  let s' := (op_sem (Sleep d) s).2 in
  pending email p h n D s' ∨ no_code email p s'.
Proof.
  intros [Hh Ha]. cbn zeta. unfold pending, no_code. cbn.
  destruct (decide (st_clock s + Z.max 0 d < D)).
  - left. split; by eapply find_key_later.
  - right. unfold find_key in *. repeat case_match; simplify_eq; try done.
    unfold live in *. cbn in *. lia.
Qed.

Lemma no_code_later email p s d : no_code email p s → no_code email p (op_sem (Sleep d) s).2.
Proof. unfold no_code. cbn. intros H'. eapply find_key_none_later; [done|lia]. Qed.

(** * Guessing *)

(** A guesser: each code is tried after a delay; a refusal counts as a miss. *)
Fixpoint guesses (email : string) (p : OtpPurpose) (l : list (Z * string)) : prog (list bool) :=
  match l with
  | [] => Ret []
  | (d, code) :: r =>
      _ ← call (Sleep d);
      b ← try_except (verify email p code) is_exception (λ _, Ret false);
      bs ← guesses email p r;
      Ret (b :: bs)
  end.

(** A wrong guess for a code with digest [h]. *)
Definition misses (h : string) (dc : Z * string) : Prop := _hash_otp (str_strip dc.2) ≠ h.

Lemma guesses_no_code email p l s :
  no_code email p s → ∃ s', run (guesses email p l) s = (inr (replicate (length l) false), s').
Proof.
  revert s; induction l as [|[d code] l IH]; intros s Hn; [by eexists|].
  cbn [guesses length replicate]. rewrite run_sleep.
  pose proof (no_code_later _ _ _ d Hn) as Hn1. set (s1 := (op_sem (Sleep d) s).2) in *.
  rewrite run_bind. unfold try_except. rewrite run_catch, verify_no_code by done.
  destruct (IH s1 Hn1) as [s' Hr]. rewrite run_bind, Hr. by eexists.
Qed.

Lemma guesses_pending email p l s h n D :
  pending email p h n D s → 0 ≤ n ≤ _MAX_ATTEMPTS →
  Forall (misses h) (take (Z.to_nat (_MAX_ATTEMPTS - n)) l) →
  ∃ s', run (guesses email p l) s = (inr (replicate (length l) false), s').
Proof.
  revert s n; induction l as [|[d code] l IH]; intros s n Hp Hn Hm; [by eexists|].
  cbn [guesses length replicate]. rewrite run_sleep.
  pose proof (pending_later _ _ _ _ _ _ d Hp) as Hd. set (s1 := (op_sem (Sleep d) s).2) in *.
  rewrite run_bind. unfold try_except. rewrite run_catch. destruct Hd as [Hd|Hd].
  - rewrite (verify_pending _ _ _ _ _ _ _ Hd).
    destruct (Z.ltb_spec _MAX_ATTEMPTS (n + 1)).
    + cbn [run is_exception]. rewrite run_bind.
      destruct (guesses_no_code email p l (set_redis (dropped (str_lower email) p
        (<[_attempts_key (str_lower email) p := REntry (RStr (str_of_Z (n + 1))) (Some D)]>
          (st_redis s1))) s1)) as [s' Hr]; [apply dropped_no_code|].
      rewrite Hr. by eexists.
    + assert (∃ k, Z.to_nat (_MAX_ATTEMPTS - n) = S k ∧ k = Z.to_nat (_MAX_ATTEMPTS - (n + 1)))
        as (k & Hk & Hk') by (exists (Z.to_nat (_MAX_ATTEMPTS - (n + 1))); lia).
      rewrite Hk in Hm. apply Forall_cons in Hm as [Hc Hm].
      destruct (String.eqb_spec (_hash_otp (str_strip code)) h) as [E|_]; [by apply Hc in E|].
      rewrite run_bind. rewrite Hk' in Hm.
      destruct (IH _ (n + 1) (pending_bumped _ _ _ _ _ _ Hd) ltac:(lia) Hm) as [s' Hr].
      rewrite Hr. by eexists.
  - rewrite verify_no_code by done. destruct (guesses_no_code email p l s1 Hd) as [s' Hr].
    rewrite run_bind, Hr. by eexists.
Qed.

(** * Sending *)

(** A send is allowed: no cooldown runs for any purpose and the bucket has room. *)
Definition may_send (email : string) (s : state) : Prop :=
  (∀ p, find_key (st_clock s) (_cooldown_key (str_lower email) p) (st_redis s) = None) ∧
  match find_key (st_clock s) (_send_count_key (st_clock s) (str_lower email)) (st_redis s) with
  | None => True
  | Some (REntry (RStr v) _) => ∃ n, v = str_of_Z n ∧ n < _MAX_SENDS_PER_HOUR
  | Some _ => False
  end.

Lemma ks_exists_none now k m : find_key now k m = None → ks_exists k now m = (inr false, m).
Proof. unfold ks_exists. by intros ->. Qed.

Lemma ks_exists_some now k m e : find_key now k m = Some e → ks_exists k now m = (inr true, m).
Proof. unfold ks_exists. by intros ->. Qed.

Lemma check_cooldowns_ok email (s : state) :
  (∀ p, find_key (st_clock s) (_cooldown_key email p) (st_redis s) = None) →
  run (check_cooldowns email) s = (inr tt, s).
Proof.
  intros Hc. unfold check_cooldowns. generalize [signup; password_reset; passwordless_login; mfa].
  intros l. induction l as [|p l IH]; [done|]. cbn [for_each]. rewrite run_bind.
  redis_step (ks_exists_none _ _ _ (Hc p)). rewrite set_redis_id. exact IH.
Qed.

Lemma rate_limits_ok email (s : state) :
  may_send email s → run (_check_rate_limits (str_lower email)) s = (inr tt, s).
Proof.
  intros [Hc Hn]. unfold _check_rate_limits. rewrite run_bind, check_cooldowns_ok, run_now by done.
  destruct (find_key _ _ _) as [[[v| |] d]|] eqn:E in Hn; try done.
  - destruct Hn as (n & -> & Hn). redis_step (ks_get_str _ _ _ _ _ E).
    rewrite set_redis_id, py_int_of_Z. by destruct (Z.leb_spec _MAX_SENDS_PER_HOUR n); [lia|].
  - redis_step (ks_get_none _ _ _ E). by rewrite set_redis_id.
Qed.

Definition stored (email : string) (p : OtpPurpose) (h v : string) (now : Z) (m : keyspace) : keyspace :=
  <[_send_count_key now email := REntry (RStr v) (Some (now + 3600 * us_per_s))]>
  (<[_cooldown_key email p := REntry (RStr "1") (Some (now + 60 * us_per_s))]>
  (<[_attempts_key email p := REntry (RStr "0") (Some (now + 600 * us_per_s))]>
  (<[_otp_hash_key email p := REntry (RStr h) (Some (now + 600 * us_per_s))]> m))).

Lemma send_count_ne now email email' p x : _send_count_key now email ≠ otp_key email' p x.
Proof. unfold _send_count_key, otp_key, _REDIS_KEY_PREFIX. intros [=]. Qed.

Lemma store_otp_run email p h (now : Z) m :
  match find_key now (_send_count_key now email) m with
  | None => True
  | Some (REntry (RStr v) _) => ∃ n, v = str_of_Z n
  | Some _ => False
  end →
  ∃ v, store_otp email p h now now now m = (inr tt, stored email p h v now m).
Proof.
  intros Hn. unfold store_otp, ks_bind, ks_setex, ks_ret, ks_incr.
  cbn -[_send_count_key _otp_hash_key _attempts_key _cooldown_key ks_incrby ks_expire].
  set (k := _send_count_key now email) in *.
  set (m3 := <[_cooldown_key email p:=_]> _).
  assert (find_key now k m3 = find_key now k m) as E.
  { unfold m3, k. rewrite !find_key_insert_ne; [done|..]; apply not_eq_sym, send_count_ne. }
  assert (∃ v d, ks_incrby 1 k now m3 = (inr v, <[k := REntry (RStr (str_of_Z v)) d]> m3)
    ∧ live now (REntry (RStr (str_of_Z v)) d) = true) as (v & d & -> & Hd).
  { unfold ks_incrby. rewrite E.
    destruct (find_key now k m) as [[[v| |] d]|] eqn:Hk; [|done..|by eexists 1, None].
    destruct Hn as [n ->]. rewrite Z_of_str_of_Z. eexists (n + 1), d. split; [done|].
    by apply find_key_live in Hk. }
  exists (str_of_Z v). unfold ks_expire. rewrite find_key_insert by done. cbn.
  by rewrite insert_insert_eq.
Qed.

(** What a sent code leaves behind. *)
Lemma generate_and_send_run email p (s : state) :
  may_send email s →
  let otp := decn _OTP_LENGTH (st_entropy s (st_drawn s) mod 10 ^ 6) in
  ∃ v, run (generate_and_send email p) s =
    (inr tt, mkState (st_clock s)
       (stored (str_lower email) p (_hash_otp otp) v (st_clock s) (st_redis s))
       (st_db s) (st_committed s) (st_tenant s) (st_entropy s) (S (st_drawn s))
       (st_out s ++ [EmailSent (str_lower email) "Your OpenZync verification code" otp]) (st_remote s)).
Proof.
  intros Hs otp. unfold generate_and_send. rewrite run_bind, (rate_limits_ok _ _ Hs).
  unfold _generate_otp. rewrite run_bind.
  set (s1 := mkState (st_clock s) (st_redis s) (st_db s) (st_committed s) (st_tenant s)
    (st_entropy s) (S (st_drawn s)) (st_out s) (st_remote s)).
  rewrite (run_op (Draw _) _ s (st_entropy s (st_drawn s) mod 10 ^ 6) s1) by done.
  cbn [run]. fold otp. rewrite !run_now.
  destruct (store_otp_run (str_lower email) p (_hash_otp otp) (st_clock s) (st_redis s))
    as [v Hv].
  { destruct Hs as [_ Hs]. destruct (find_key _ _ _) as [[[v| |] d]|]; try done.
    destruct Hs as (n & -> & _). by exists n. }
  exists v. redis_step Hv. unfold _send_otp_email. by rewrite run_call.
Qed.

Lemma find_stored_hash email p h v now m :
  find_key now (_otp_hash_key email p) (stored email p h v now m)
  = Some (REntry (RStr h) (Some (now + 600 * us_per_s))).
Proof.
  unfold stored. rewrite 3!find_key_insert_ne; try apply send_count_ne;
    try (intros E; by apply otp_key_suffix_inj in E).
  apply find_key_insert. unfold live, us_per_s. cbn. lia.
Qed.

Lemma find_stored_attempts email p h v now m :
  find_key now (_attempts_key email p) (stored email p h v now m)
  = Some (REntry (RStr (str_of_Z 0)) (Some (now + 600 * us_per_s))).
Proof.
  unfold stored. rewrite 2!find_key_insert_ne; try apply send_count_ne;
    try (intros E; by apply otp_key_suffix_inj in E).
  apply find_key_insert. unfold live, us_per_s. cbn. lia.
Qed.

Lemma find_stored_cooldown email p h v now m :
  find_key now (_cooldown_key email p) (stored email p h v now m)
  = Some (REntry (RStr "1") (Some (now + 60 * us_per_s))).
Proof.
  unfold stored. rewrite find_key_insert_ne by apply send_count_ne.
  apply find_key_insert. unfold live, us_per_s. cbn. lia.
Qed.

Lemma find_stored_other email p q x h v now m :
  p ≠ q →
  find_key now (otp_key email q x) (stored email p h v now m) = find_key now (otp_key email q x) m.
Proof.
  intros Hp. unfold stored.
  rewrite !find_key_insert_ne; try apply send_count_ne; try done;
    intros E; by apply otp_key_purpose_inj in E.
Qed.

(** * Properties *)

(** C3. Guessing is bounded: once the first five guesses at a pending code miss its
    digest, no later guess is ever accepted, however the guesses are paced and
    whatever the later ones are, the right code included. *)
Theorem otp_guess_budget {W} `{World W} (w : W) email p h D l :
  steady w → pending email p h 0 D (abs w) →
  Forall (misses h) (take (Z.to_nat _MAX_ATTEMPTS) l) →
  (run (guesses email p l) w).1 = inr (replicate (length l) false).
Proof.
  intros Hs Hp Hm. rewrite (proj1 (run_steady _ w Hs)).
  destruct (guesses_pending email p l (abs w) h 0 D Hp) as [s' ->]; done.
Qed.

(** The round trip: send a code, wait, then enter it for another purpose, for the
    right one, and a second time. *)
Definition use_code (email email' : string) (p q : OtpPurpose) (d : Z) (typed : string) :
    prog (bool * bool * bool) :=
  _ ← generate_and_send email p;
  _ ← call (Sleep d);
  x ← verify email' q typed;
  y ← verify email' p typed;
  z ← verify email' p typed;
  Ret (x, y, z).

Lemma verify_right email p h n D typed (s : state) :
  pending email p h n D s → n < _MAX_ATTEMPTS → _hash_otp (str_strip typed) = h →
  ∃ s', run (verify email p typed) s = (inr true, s') ∧ no_code email p s'.
Proof.
  intros Hp Hn Ht. rewrite (verify_pending _ _ _ _ _ _ _ Hp), Ht, String.eqb_refl.
  destruct (Z.ltb_spec _MAX_ATTEMPTS (n + 1)); [lia|].
  eexists. split; [done|]. apply dropped_no_code.
Qed.

(** A sent code works exactly once, within its ten minutes, for the purpose it
    was sent for and in any spelling of the address: entered for another purpose
    it is refused, entered for its own it is accepted, entered again it is
    refused. *)
Theorem otp_round_trip {W} `{World W} (w : W) email email' p q d typed :
  steady w → may_send email (abs w) → str_lower email' = str_lower email →
  p ≠ q → no_code email q (abs w) → 0 ≤ d < _OTP_TTL_SEC * us_per_s →
  str_strip typed = decn _OTP_LENGTH (st_entropy (abs w) (st_drawn (abs w)) mod 10 ^ 6) →
  (run (use_code email email' p q d typed) w).1 = inr (false, true, false).
Proof.
  intros Hs Hm He Hpq Hq Hd Ht. rewrite (proj1 (run_steady _ w Hs)). unfold use_code.
  destruct (generate_and_send_run email p (abs w) Hm) as [v Hv]. rewrite run_bind, Hv, run_sleep.
  set (s1 := (op_sem (Sleep d) _).2).
  assert (no_code email' q s1) as Hq1.
  { unfold s1. apply no_code_later. unfold no_code. cbn. rewrite He.
    unfold _otp_hash_key. rewrite find_stored_other by done. exact Hq. }
  rewrite run_bind, (verify_no_code _ _ _ _ Hq1).
  set (otp := decn _OTP_LENGTH _) in *.
  assert (pending email' p (_hash_otp otp) 0 (st_clock (abs w) + 600 * us_per_s) s1) as Hp1.
  { split; cbn; rewrite He; (eapply find_key_later;
      [apply find_stored_hash || apply find_stored_attempts|unfold _OTP_TTL_SEC in *; cbn; lia]). }
  destruct (verify_right email' p _ 0 _ typed s1 Hp1) as (s2 & H2 & Hn2); [done|by rewrite Ht|].
  by rewrite run_bind, H2, run_bind, (verify_no_code _ _ _ _ Hn2).
Qed.

Lemma check_cooldowns_active email p (s : state) e :
  find_key (st_clock s) (_cooldown_key email p) (st_redis s) = Some e →
  run (check_cooldowns email) s = (inl (AppExc RateLimitError
    "Please wait before requesting another code. You can request a new code in about a minute."), s).
Proof.
  intros Hc. unfold check_cooldowns.
  assert (p ∈ [signup; password_reset; passwordless_login; mfa]) as Hin
    by (destruct p; repeat constructor).
  revert Hin. generalize [signup; password_reset; passwordless_login; mfa]. intros l Hin.
  induction l as [|q l IH]; [by apply elem_of_nil in Hin|]. cbn [for_each]. rewrite run_bind.
  destruct (find_key (st_clock s) (_cooldown_key email q) (st_redis s)) as [e'|] eqn:E.
  - redis_step (ks_exists_some _ _ _ _ E). by rewrite set_redis_id.
  - redis_step (ks_exists_none _ _ _ E). rewrite set_redis_id. cbn [run].
    apply IH. apply elem_of_cons in Hin as [->|Hin]; [congruence|done].
Qed.

(** The resend cooldown covers every purpose: within a minute of a sent code,
    asking for a code for any purpose is refused, and nothing is mailed or
    stored. *)
Theorem otp_cooldown {W} `{World W} (w : W) email p q d :
  steady w → may_send email (abs w) → 0 ≤ d < _COOLDOWN_SEC * us_per_s →
  let before := (run (_ ← generate_and_send email p; call (Sleep d)) w).2 in
  let r := run (generate_and_send email q) before in
  r.1 = inl (AppExc RateLimitError
    "Please wait before requesting another code. You can request a new code in about a minute.") ∧
  abs r.2 = abs before ∧ length (st_out (abs r.2)) = S (length (st_out (abs w))).
Proof.
  intros Hs Hm Hd before r. set (sent := _ ← generate_and_send email p; call (Sleep d)) in *.
  destruct (run_steady sent w Hs) as (_ & E2 & Hs2).
  destruct (run_steady (generate_and_send email q) before Hs2) as (F1 & F2 & _).
  fold r in F1, F2. rewrite F1, F2. fold before in E2. rewrite E2. unfold sent.
  destruct (generate_and_send_run email p (abs w) Hm) as [v Hv].
  rewrite run_bind, Hv, run_call. cbn [exec state_world]. set (s1 := (op_sem (Sleep d) _).2).
  assert (find_key (st_clock s1) (_cooldown_key (str_lower email) p) (st_redis s1)
    = Some (REntry (RStr "1") (Some (st_clock (abs w) + 60 * us_per_s)))) as Hc.
  { eapply find_key_later; [apply find_stored_cooldown|]. unfold _COOLDOWN_SEC in *. cbn. lia. }
  unfold generate_and_send, _check_rate_limits.
  rewrite run_bind, run_bind, (check_cooldowns_active _ _ _ _ Hc).
  split; [done|]. split; [done|]. cbn. rewrite length_app. cbn. lia.
Qed.
End otp_service.

(** * Witnesses: a concrete digest and a fresh world *)

Definition clear_hash : Hashlib := {| sha256_hexdigest := λ s, "#" +:+ s |}.

Lemma fresh_may_send : may_send "a@x.io" empty_state.
Proof. split; [by intros []|done]. Qed.

(** A world where the code 000042 is pending. *)
Definition code_pending : state :=
  set_redis
    (<[_otp_hash_key "a@x.io" mfa := REntry (RStr "#000042") (Some 600000000)]>
    (<[_attempts_key "a@x.io" mfa := REntry (RStr "0") (Some 600000000)]> ∅)) empty_state.

Definition guess_list : list (Z * string) :=
  [(1, "000001"); (1, "000002"); (1, "000003"); (1, "000004"); (1, "000005"); (1, "000042");
   (1, "000042")]%string.

Lemma otp_guess_budget_witness :
  (run (guesses (H := clear_hash) "A@x.io" mfa guess_list) code_pending).1
  = inr (replicate 7 false).
Proof.
  apply (otp_guess_budget (H := clear_hash) code_pending "A@x.io" mfa "#000042" 600000000 guess_list).
  - exact I.
  - split; reflexivity.
  - repeat constructor; intros E; discriminate E.
Defined.

Lemma otp_round_trip_witness :
  (run (use_code (H := clear_hash) "a@x.io" "A@X.io" signup mfa 599000000 " 000000") empty_state).1
  = inr (false, true, false).
Proof.
  apply (otp_round_trip (H := clear_hash) empty_state "a@x.io" "A@X.io" signup mfa 599000000 " 000000").
  - exact I.
  - exact fresh_may_send.
  - reflexivity.
  - discriminate.
  - reflexivity.
  - split; [discriminate|reflexivity].
  - reflexivity.
Defined.

Lemma otp_cooldown_witness :
  let before := (run (_ ← generate_and_send (H := clear_hash) "a@x.io" signup; call (Sleep 59000000))
    empty_state).2 in
  let r := run (generate_and_send (H := clear_hash) "a@x.io" mfa) before in
  r.1 = inl (AppExc RateLimitError
    "Please wait before requesting another code. You can request a new code in about a minute.") ∧
  abs r.2 = abs before ∧ length (st_out (abs r.2)) = S (length (st_out (abs empty_state))).
Proof.
  apply (otp_cooldown (H := clear_hash) empty_state "a@x.io" signup mfa 59000000).
  - exact I.
  - exact fresh_may_send.
  - split; [discriminate|reflexivity].
Defined.

(** The send limit counts calendar hours: ten codes go out within ten minutes when
    an hour ends in their midst. *)
Example hour_boundary :
  (run (W := state) (attempts (replicate 10 (60000000, generate_and_send (H := clear_hash) "a@x.io" signup)))
    (op_sem (Sleep 3270000000) empty_state).2).1 = inr (replicate 10 true).
Proof. vm_compute. reflexivity. Qed.
