(* ===== verification/Rbac.v ===== *)
(** core/rbac.py: role, permissions and must-change-password lookups, cached in
    Redis for a minute and denying when the source of truth cannot be read. *)
From stdpp Require Import sorting.
From S2P Require Import Prelude Errors Data Effects Json.
Open Scope Z_scope.

(** * Constants *)

Definition RBAC_ROLE_CACHE_PREFIX : string := "rbac:role:".
Definition RBAC_ROLE_CACHE_TTL : Z := 60.
Definition PWD_FLAG_CACHE_PREFIX : string := "rbac:pwd:flag:".
Definition PWD_FLAG_CACHE_TTL : Z := 60.
Definition RBAC_PERMS_CACHE_PREFIX : string := "rbac:perms:".
Definition RBAC_PERMS_CACHE_TTL : Z := 60.

Definition ALL_PERMISSIONS : gset string :=
  {["project:read"; "project:write"; "project:manage"; "configuration:read";
    "configuration:write"; "members:read"; "members:write"]}.

Definition MEMBER_DEFAULT_PERMISSIONS : list string := ["project:read"; "project:write"]%string.

Definition scoped_key (prefix : string) (org_id user_id : uuid) : string :=
  prefix +:+ uuid_str org_id +:+ ":" +:+ uuid_str user_id.

Definition _role_cache_key : uuid → uuid → string := scoped_key RBAC_ROLE_CACHE_PREFIX.
Definition _perms_cache_key : uuid → uuid → string := scoped_key RBAC_PERMS_CACHE_PREFIX.
Definition _pwd_flag_cache_key : uuid → uuid → string := scoped_key PWD_FLAG_CACHE_PREFIX.

(** * The lookups *)

(** repositories/user_repository.py *)
Definition get_by_uuid (organization_id user_id : uuid) : prog (option User) :=
  rows ← call (Select users (λ u, (u_id u =? user_id) && (u_organization_id u =? organization_id)));
  scalar_one_or_none rows.

(** The body the three lookups share: cache, then row, then cache write; an
    [Exception] on the way to the cache is logged and passed over, one on the way to
    the row denies. [dec] is [None] where decoding the cached text raises. *)
Definition cache_aside {A : Type} (key : string) (ttl : Z) (dec : string → option A)
    (enc : A → string) (of_user : User → A) (deny : A) (org_id user_id : uuid) : prog A :=
  hit ← try_except
    (cached ← redis (ks_get key);
     match cached with
     | None => Ret None
     | Some raw =>
         match dec raw with
         | Some v => Ret (Some v)
         | None => Throw (ValueError "cached value")
         end
     end) is_exception (λ _, Ret None);
  match hit with
  | Some v => Ret v
  | None =>
      user ← try_except (u ← get_by_uuid org_id user_id; Ret (Some u)) is_exception (λ _, Ret None);
      match user with
      | None | Some None => Ret deny
      | Some (Some u) =>
          if negb (u_is_active u) || u_is_deleted u then Ret deny
          else
            _ ← try_except (redis (ks_setex key ttl (enc (of_user u)))) is_exception (λ _, Ret tt);
            Ret (of_user u)
      end
  end.

Definition role_of (u : User) : string := default "member" (u_role u).

Definition get_org_role (org_id user_id : uuid) : prog string :=
  cache_aside (_role_cache_key org_id user_id) RBAC_ROLE_CACHE_TTL Some id role_of "member"
    org_id user_id.

(** [frozenset(v)] of a decoded value: a list's or object's strings, the characters
    of a text; an unhashable element or a value that is no collection raises.
    Elements that are no strings are left out: they equal no permission. *)
Definition hashable (j : json) : bool :=
  match j with JList _ | JObj _ => false | _ => true end.

Definition text_of (j : json) : option string := match j with JStr s => Some s | _ => None end.

Fixpoint chars (s : string) : list string :=
  match s with EmptyString => [] | c ::: r => (c ::: EmptyString) :: chars r end.

Definition frozenset_of (j : json) : option (gset string) :=
  match j with
  | JList l => if forallb hashable l then Some (list_to_set (omap text_of l)) else None
  | JObj l => Some (list_to_set (map fst l))
  | JStr s => Some (list_to_set (chars s))
  | _ => None
  end.

(** [sorted(permissions)]: by code points. *)
Definition str_le (a b : string) : Prop := String.leb a b = true.
#[export] Instance str_le_dec a b : Decision (str_le a b) := decide (String.leb a b = true).
Definition sorted (p : gset string) : list string := merge_sort str_le (elements p).

Definition dec_permissions (raw : string) : option (gset string) := loads raw ≫= frozenset_of.
Definition enc_permissions (p : gset string) : string := dumps (JList (map JStr (sorted p))).
Definition permissions_of (u : User) : gset string := list_to_set (default [] (u_permissions u)).

Definition get_effective_permissions (org_id user_id : uuid) : prog (gset string) :=
  cache_aside (_perms_cache_key org_id user_id) RBAC_PERMS_CACHE_TTL dec_permissions
    enc_permissions permissions_of ∅ org_id user_id.

Definition get_must_change_password (org_id user_id : uuid) : prog bool :=
  cache_aside (_pwd_flag_cache_key org_id user_id) PWD_FLAG_CACHE_TTL
    (λ raw, Some (raw =? "1")%string) (λ b, if b then "1" else "0")%string
    u_must_change_password true org_id user_id.

Definition drop_key (key : string) : prog unit :=
  try_except (_ ← redis (ks_delete [key]); Ret tt) is_exception (λ _, Ret tt).

Definition invalidate_role (org_id user_id : uuid) : prog unit :=
  drop_key (_role_cache_key org_id user_id).
Definition invalidate_permissions (org_id user_id : uuid) : prog unit :=
  drop_key (_perms_cache_key org_id user_id).
Definition invalidate_must_change_password (org_id user_id : uuid) : prog unit :=
  drop_key (_pwd_flag_cache_key org_id user_id).

(** * Lemmas *)

(** The lookups and invalidations leave the database alone. *)
Lemma get_by_uuid_reads o u : reads_only (get_by_uuid o u).
Proof. unfold get_by_uuid. reading. Qed.
#[export] Hint Resolve get_by_uuid_reads : zync.

Lemma cache_aside_reads {A} key ttl dec enc of_user (deny : A) o u :
  reads_only (cache_aside key ttl dec enc of_user deny o u).
Proof. unfold cache_aside. reading. Qed.

Lemma get_org_role_reads o u : reads_only (get_org_role o u).
Proof. apply cache_aside_reads. Qed.
Lemma get_effective_permissions_reads o u : reads_only (get_effective_permissions o u).
Proof. apply cache_aside_reads. Qed.
Lemma invalidate_role_reads o u : reads_only (invalidate_role o u).
Proof. unfold invalidate_role, drop_key. reading. Qed.
Lemma invalidate_permissions_reads o u : reads_only (invalidate_permissions o u).
Proof. unfold invalidate_permissions, drop_key. reading. Qed.
#[export] Hint Resolve get_org_role_reads get_effective_permissions_reads invalidate_role_reads
  invalidate_permissions_reads : zync.

Lemma scoped_key_inj p o u o' u' :
  uuid_wf o → uuid_wf u → uuid_wf o' → uuid_wf u' →
  scoped_key p o u = scoped_key p o' u' → o = o' ∧ u = u'.
Proof.
  intros Ho Hu Ho' Hu' E. unfold scoped_key in E. apply str_app_inj_l in E.
  apply str_app_inj_len in E as [E1 E2]; [|by rewrite !uuid_str_length].
  apply str_app_inj_l in E2. split; by apply uuid_str_inj.
Qed.

(** The row a lookup reads: active and not deleted. *)
Definition active_row (org_id user_id : uuid) (u : User) : Prop :=
  u_id u = user_id ∧ u_organization_id u = org_id ∧ u_is_active u = true ∧ u_is_deleted u = false.

Lemma ks_get_error k now m e : (ks_get k now m).1 = inl e → is_exception e = true.
Proof. unfold ks_get. repeat case_match; cbn; by intros [= <-]. Qed.

Lemma ks_setex_error k ttl v now m e : (ks_setex k ttl v now m).1 = inl e → is_exception e = true.
Proof. unfold ks_setex. destruct (ttl <=? 0); cbn; by intros [= <-]. Qed.

Lemma ks_delete_error ks now m e : (ks_delete ks now m).1 = inl e → is_exception e = true.
Proof.
  revert m; induction ks as [|k ks IH]; intros m; [done|]. cbn.
  specialize (IH (delete k m)). destruct (ks_delete ks now (delete k m)) as [[e'|n] m']; [exact IH|done].
Qed.

(** ** Under faults *)

(** Same tables, same time. *)
Definition same_db (w w' : faulty) : Prop :=
  st_db (abs w') = st_db (abs w) ∧ st_clock (abs w') = st_clock (abs w).

Lemma same_db_refl w : same_db w w.
Proof. done. Qed.

#[local] Hint Resolve same_db_refl : core.

Lemma same_db_trans w1 w2 w3 : same_db w1 w2 → same_db w2 w3 → same_db w1 w3.
Proof. intros [??] [??]. split; congruence. Qed.

(** [p] never raises, every value it may return is allowed by [P], and it leaves
    the tables alone. *)
Definition always {A} (P : A → Prop) (p : prog A) (w : faulty) : Prop :=
  ∃ a w', run p w = (inr a, w') ∧ P a ∧ same_db w w'.

Lemma always_bind {A B} (P : A → Prop) (Q : B → Prop) (p : prog A) (f : A → prog B) w :
  always P p w →
  (∀ a w', P a → same_db w w' → always Q (f a) w') →
  always Q (p ≫= f) w.
Proof.
  intros (a & w' & Hr & Ha & Hd) Hf. destruct (Hf a w' Ha Hd) as (b & w2 & Hr2 & Hb & Hd2).
  exists b, w2. rewrite run_bind, Hr. split_and!; [done|done|by eapply same_db_trans].
Qed.

Lemma always_guarded {A} (P : A → Prop) (p : prog A) a (w : faulty) :
  plain p → (∀ b (w' : faulty), run p w = (inr b, w') → P b) → same_db w (run p w).2 → P a →
  always P (try_except p is_exception (λ _, Ret a)) w.
Proof.
  intros Hp Hb Hd Ha. unfold always. rewrite (plain_total p _ Hp).
  destruct (run p w) as [[e|b] w'] eqn:E; cbn in Hd.
  - exists a, w'. by split_and!.
  - exists b, w'. split_and!; [done|exact (Hb _ _ eq_refl)|done].
Qed.

Lemma faulty_redis {X} (c : KS X) (s : state) pl :
  (∃ pl', run (redis c) ((s, pl) : faulty) =
    ((c (st_clock s) (st_redis s)).1, (set_redis (c (st_clock s) (st_redis s)).2 s, pl'))) ∨
  (∃ pl', run (redis c) ((s, pl) : faulty) = (inl (RedisError "down"), (s, pl'))).
Proof.
  unfold redis. rewrite run_call. cbn. destruct pl as [|[] pl]; cbn; eauto.
Qed.

Lemma faulty_select t p (s : state) pl :
  (∃ pl', run (call (Select t p)) ((s, pl) : faulty) = (inr (List.filter p (st_db s t)), (s, pl'))) ∨
  (∃ pl', run (call (Select t p)) ((s, pl) : faulty) = (inl (DatabaseError "down"), (s, pl'))).
Proof. rewrite run_call. cbn. destruct pl as [|[] pl]; cbn; eauto. Qed.

Lemma plain_select t p : plain (call (Select t p)).
Proof.
  intros [s pl] e w' H. destruct (faulty_select t p s pl) as [[pl' E]|[pl' E]];
    rewrite E in H; by simplify_eq.
Qed.

Lemma plain_scalar {A} (l : list A) : plain (scalar_one_or_none l).
Proof. destruct l as [|x [|]]; [apply plain_ret|apply plain_ret|by apply plain_throw]. Qed.

Lemma plain_get_by_uuid o u : plain (get_by_uuid o u).
Proof. apply plain_bind; [apply plain_select|]. intros. apply plain_scalar. Qed.

Lemma get_by_uuid_row o u (s : state) pl r w' :
  run (get_by_uuid o u) ((s, pl) : faulty) = (inr (Some r), w') →
  r ∈ st_db s users ∧ u_id r = u ∧ u_organization_id r = o.
Proof.
  unfold get_by_uuid. rewrite run_bind.
  destruct (faulty_select users (λ r, (u_id r =? u) && (u_organization_id r =? o)) s pl)
    as [[pl' ->]|[pl' ->]]; [|done].
  destruct (List.filter _ _) as [|x [|]] eqn:E; cbn; try done. intros [= -> _].
  apply filter_single in E as [Hin Hb].
  apply andb_true_iff in Hb as [H1 H2]. split; [done|lia].
Qed.

Lemma db_of_get_by_uuid o u (w : faulty) : same_db w (run (get_by_uuid o u) w).2.
Proof.
  destruct w as [s pl]. unfold get_by_uuid. rewrite run_bind.
  destruct (faulty_select users (λ r, (u_id r =? u) && (u_organization_id r =? o)) s pl)
    as [[pl' ->]|[pl' ->]]; [|done]. by destruct (List.filter _ _) as [|x [|]].
Qed.

Section cache_aside.
Context {A : Type} (key : string) (ttl : Z) (dec : string → option A) (enc : A → string).
Context (of_user : User → A) (deny : A) (o u : uuid).

Definition read_cache : prog (option A) :=
  try_except
    (cached ← redis (ks_get key);
     match cached with
     | None => Ret None
     | Some raw =>
         match dec raw with
         | Some v => Ret (Some v)
         | None => Throw (ValueError "cached value")
         end
     end) is_exception (λ _, Ret None).

(** The live cache entry, decoded. *)
Definition cached_value (s : state) (v : A) : Prop :=
  ∃ raw d, find_key (st_clock s) key (st_redis s) = Some (REntry (RStr raw) d) ∧ dec raw = Some v.

Lemma read_cache_always (w : faulty) :
  always (λ hit, ∀ v, hit = Some v → cached_value (abs w) v) read_cache w.
Proof.
  destruct w as [s pl]. unfold read_cache, always, try_except. rewrite run_catch, run_bind.
  destruct (faulty_redis (ks_get key) s pl) as [[pl' ->]|[pl' ->]]; [|by eexists None, _].
  unfold ks_get. destruct (find_key _ _ _) as [[[raw| |] d]|] eqn:E; cbn; try by eexists None, _.
  destruct (dec raw) as [v|] eqn:Ed; cbn; [|by eexists None, _].
  eexists (Some v), _. split; [done|]. split; [|done]. intros v' [= <-]. by exists raw, d.
Qed.

(** Whatever fails, the lookup answers: with a denial, a live cache entry or an
    active row of this organization. *)
Lemma cache_aside_always (w : faulty) :
  always (λ v, v = deny ∨ cached_value (abs w) v ∨
            ∃ r, r ∈ st_db (abs w) users ∧ active_row o u r ∧ v = of_user r)
    (cache_aside key ttl dec enc of_user deny o u) w.
Proof.
  unfold cache_aside. eapply always_bind; [apply read_cache_always|].
  intros [v|] w1 Hhit Hd1; [exists v, w1; split_and!; [done|auto|apply same_db_refl]|].
  eapply (always_bind (λ ur, ∀ r, ur = Some (Some r) →
    r ∈ st_db (abs w) users ∧ u_id r = u ∧ u_organization_id r = o)).
  { apply always_guarded.
    - apply plain_bind; [apply plain_get_by_uuid|]. intros. apply plain_ret.
    - intros b w2. rewrite run_bind.
      destruct (run (get_by_uuid o u) w1) as [[e|ur] w3] eqn:E; [done|]. intros [= <- _] r [= ->].
      rewrite <- (proj1 Hd1). destruct w1 as [s pl]. by eapply get_by_uuid_row.
    - rewrite run_bind. pose proof (db_of_get_by_uuid o u w1) as Hd.
      by destruct (run (get_by_uuid o u) w1) as [[e|ur] w3].
    - done. }
  intros [[r|]|] w2 Hr Hd2; [|eexists _, _; by eauto..].
  destruct (Hr r eq_refl) as (Hin & Hid & Ho).
  destruct (negb (u_is_active r) || u_is_deleted r) eqn:Ea; [eexists _, _; by eauto|].
  apply orb_false_elim in Ea as [Ea Edel]. apply negb_false_iff in Ea.
  eapply (always_bind (λ _, True)).
  { apply always_guarded; [apply plain_redis; apply ks_setex_error|done| |done].
    destruct w2 as [s2 pl2]. by destruct (faulty_redis (ks_setex key ttl (enc (of_user r))) s2 pl2)
      as [[? ->]|[? ->]]. }
  intros _ w3 _ Hd3. exists (of_user r), w3. split; [done|]. split; [|apply same_db_refl]. right; right.
  by exists r.
Qed.
End cache_aside.

(** * In a world that answers *)

(** What the users table says: the value of the active row, else the denial. *)
Definition truth {A} (of_user : User → A) (deny : A) (o u : uuid) (rows : list User) : A :=
  match List.filter (λ r, (u_id r =? u) && (u_organization_id r =? o)) rows with
  | [r] => if negb (u_is_active r) || u_is_deleted r then deny else of_user r
  | _ => deny
  end.

(** Only an active row's value is cached. *)
Definition cacheable (o u : uuid) (rows : list User) : bool :=
  match List.filter (λ r, (u_id r =? u) && (u_organization_id r =? o)) rows with
  | [r] => u_is_active r && negb (u_is_deleted r)
  | _ => false
  end.

Section lookups.
Context {A : Type} (key : string) (ttl : Z) (dec : string → option A) (enc : A → string).
Context (of_user : User → A) (deny : A) (o u : uuid).
Hypothesis Httl : 0 < ttl.

Abbreviation lookup_ := (cache_aside key ttl dec enc of_user deny o u).

Lemma lookup_hit (s : state) v : cached_value key dec s v → run lookup_ s = (inr v, s).
Proof.
  intros (raw & d & Hf & Hd). unfold cache_aside, try_except. rewrite run_bind, run_catch.
  redis_step (ks_get_str _ _ _ _ _ Hf). rewrite set_redis_id, Hd. done.
Qed.

Lemma run_get_by_uuid (s : state) :
  (run (get_by_uuid o u) s).2 = s ∧
  (run (get_by_uuid o u) s).1 =
    match List.filter (λ r, (u_id r =? u) && (u_organization_id r =? o)) (st_db s users) with
    | [] => inr None
    | [r] => inr (Some r)
    | _ => inl MultipleResultsFound
    end.
Proof. unfold get_by_uuid. rewrite run_select. by destruct (List.filter _ _) as [|r [|]]. Qed.

Lemma lookup_miss (s : state) :
  find_key (st_clock s) key (st_redis s) = None →
  run lookup_ s =
    (inr (truth of_user deny o u (st_db s users)),
     if cacheable o u (st_db s users) then
       set_redis (<[key := REntry (RStr (enc (truth of_user deny o u (st_db s users))))
         (Some (st_clock s + ttl * us_per_s))]> (st_redis s)) s
     else s).
Proof.
  intros Hf. unfold cache_aside, try_except. rewrite run_bind, run_catch.
  redis_step (ks_get_none _ _ _ Hf). rewrite set_redis_id. cbn [run].
  rewrite run_bind, run_catch, run_bind. destruct (run_get_by_uuid s) as [H2 H1].
  destruct (run (get_by_uuid o u) s) as [r s']. cbn in H1, H2. subst r s'.
  unfold truth, cacheable. destruct (List.filter _ _) as [|r [|]]; [done| |done]. cbn [run].
  destruct (u_is_active r); [|done]. destruct (u_is_deleted r); [done|]. cbn [negb orb andb].
  rewrite run_bind, run_catch. unfold redis. rewrite run_call. cbn. unfold ks_setex.
  destruct (Z.leb_spec ttl 0); [lia|done].
Qed.

(** A cached value survives until its deadline. *)
Lemma cached_later (s : state) v t :
  (∀ r, dec (enc (of_user r)) = Some (of_user r)) →
  v = truth of_user deny o u (st_db s users) → cacheable o u (st_db s users) = true →
  t < st_clock s + ttl * us_per_s →
  find_key t key (<[key := REntry (RStr (enc v)) (Some (st_clock s + ttl * us_per_s))]> (st_redis s))
    = Some (REntry (RStr (enc v)) (Some (st_clock s + ttl * us_per_s))) ∧ dec (enc v) = Some v.
Proof.
  intros Hd -> Hc Ht. split; [apply find_key_insert; by apply Z.ltb_lt|].
  unfold truth, cacheable in *. destruct (List.filter _ _) as [|r [|]]; try done.
  apply andb_true_iff in Hc as [-> ->%negb_true_iff]. apply Hd.
Qed.

(** Read, change the table, wait and read, invalidate and read. *)
Definition observe (get : prog A) (drop : prog unit) (p : User → bool) (f : User → User) (d : Z) :
    prog (A * A * A) :=
  a ← get;
  _ ← call (Update users p f);
  _ ← call (Sleep d);
  b ← get;
  _ ← drop;
  c ← get;
  Ret (a, b, c).

Definition expected (rows rows' : list User) (d : Z) : A * A * A :=
  (truth of_user deny o u rows,
   if cacheable o u rows && (d <? ttl * us_per_s) then truth of_user deny o u rows
   else truth of_user deny o u rows',
   truth of_user deny o u rows').

Lemma run_drop (s : state) : run (drop_key key) s = (inr tt, set_redis (delete key (st_redis s)) s).
Proof. done. Qed.

Lemma observe_run (s : state) p f d :
  (∀ r, dec (enc (of_user r)) = Some (of_user r)) →
  find_key (st_clock s) key (st_redis s) = None → 0 ≤ d →
  (run (observe lookup_ (drop_key key) p f d) s).1 =
    inr (expected (st_db s users) (map (λ r, if p r then f r else r) (st_db s users)) d).
Proof.
  intros Hdec Hf Hd. unfold observe. rewrite run_bind, (lookup_miss s Hf).
  set (v := truth of_user deny o u (st_db s users)).
  set (s1 := if cacheable o u (st_db s users) then _ else s).
  assert (st_clock s1 = st_clock s ∧ st_db s1 = st_db s) as [Hc1 Hd1]
    by (unfold s1; by destruct (cacheable o u (st_db s users))).
  erewrite run_op by done. rewrite run_sleep, run_bind.
  set (s2 := (op_sem (Sleep d) _).2).
  assert (st_db s2 users = map (λ r, if p r then f r else r) (st_db s users)) as Hd2
    by (cbn; by rewrite Hd1).
  assert (∀ b s3, run lookup_ s2 = (inr b, s3) → st_db s3 users = st_db s2 users →
    (run (_ ← drop_key key; c ← lookup_; Ret (v, b, c)) s3).1
    = inr (v, b, truth of_user deny o u (st_db s2 users))) as Hrest.
  { intros b s3 _ H3. rewrite run_bind, run_drop, run_bind, lookup_miss by apply find_key_delete.
    cbn. by rewrite H3. }
  unfold expected. fold v. rewrite <- Hd2.
  destruct (cacheable o u (st_db s users)) eqn:Hc; cbn [andb].
  - destruct (Z.ltb_spec d (ttl * us_per_s)) as [Hl|Hl].
    + destruct (cached_later s v (st_clock s2) Hdec eq_refl Hc) as [E1 E2]; [cbn; lia|].
      assert (run lookup_ s2 = (inr v, s2)) as Hr by (apply lookup_hit; eexists _, _; split; [exact E1|done]).
      rewrite Hr. by apply (Hrest v s2).
    + assert (find_key (st_clock s2) key (st_redis s2) = None) as E.
      { cbn. unfold find_key. rewrite lookup_insert_eq. unfold live. cbn.
        destruct (Z.ltb_spec (st_clock s + Z.max 0 d) (st_clock s + ttl * us_per_s)); [lia|done]. }
      pose proof (lookup_miss s2 E) as Hr. rewrite Hr. apply (Hrest _ _ Hr).
      by destruct (cacheable o u (st_db s2 users)).
  - assert (find_key (st_clock s2) key (st_redis s2) = None) as E
      by (cbn; eapply find_key_none_later; [exact Hf|lia]).
    pose proof (lookup_miss s2 E) as Hr. rewrite Hr. apply (Hrest _ _ Hr).
    by destruct (cacheable o u (st_db s2 users)).
Qed.
End lookups.

(** ** What a lookup leaves alone *)

Lemma ks_get_same k now m : (ks_get k now m).2 = m.
Proof. unfold ks_get. by repeat case_match. Qed.

Lemma untouched_get_by_uuid k o u : untouched k (get_by_uuid o u).
Proof.
  apply untouched_bind; [apply untouched_select|]. intros l. by destruct l as [|r [|]].
Qed.

Lemma cache_aside_untouched {A} k key ttl dec enc (of_user : User → A) deny o u :
  key ≠ k → untouched k (cache_aside key ttl dec enc of_user deny o u).
Proof.
  intros Hk. unfold cache_aside. apply untouched_bind.
  - apply untouched_try; [|intros; apply untouched_ret]. apply untouched_bind.
    + apply untouched_redis. intros. by rewrite ks_get_same.
    + intros [raw|]; [|apply untouched_ret]. by destruct (dec raw).
  - intros [v|]; [apply untouched_ret|]. apply untouched_bind.
    + apply untouched_try; [|intros; apply untouched_ret].
      apply untouched_bind; [apply untouched_get_by_uuid|intros; apply untouched_ret].
    + intros [[r|]|]; [|apply untouched_ret..].
      destruct (negb (u_is_active r) || u_is_deleted r); [apply untouched_ret|].
      apply untouched_bind; [|intros; apply untouched_ret].
      apply untouched_try; [|intros; apply untouched_ret]. apply untouched_redis. intros now m.
      unfold ks_setex. destruct (ttl <=? 0); [done|]. cbn. by rewrite lookup_insert_ne.
Qed.

Lemma drop_key_untouched k key : key ≠ k → untouched k (drop_key key).
Proof.
  intros Hk. apply untouched_try; [|intros; apply untouched_ret].
  apply untouched_bind; [|intros; apply untouched_ret]. apply untouched_redis. intros now m.
  cbn. by rewrite lookup_delete_ne.
Qed.

(** ** The permission codec *)

Lemma sorted_permissions (p : gset string) : list_to_set (sorted p) = p.
Proof.
  unfold sorted. rewrite <- (list_to_set_elements_L p) at 2.
  apply list_to_set_perm_L, merge_sort_Permutation.
Qed.

Lemma omap_texts (l : list string) : omap text_of (map JStr l) = l.
Proof. induction l as [|s l IH]; [done|]. cbn. by f_equal. Qed.

Lemma permissions_codec p : dec_permissions (enc_permissions p) = Some p.
Proof.
  unfold dec_permissions, enc_permissions. rewrite loads_dumps.
  - cbn [mbind option_bind frozenset_of].
    assert (forallb hashable (map JStr (sorted p)) = true) as ->
      by (apply forallb_forall; intros j (s & <- & _)%in_map_iff; done).
    by rewrite omap_texts, sorted_permissions.
  - cbn [printable]. apply forallb_forall. by intros j (s & <- & _)%in_map_iff.
Qed.

(** * Properties *)

(** C4. Fail closed: whatever Redis and the database do, the three lookups answer,
    and an answer that is no denial was read from this user's live cache entry or
    from an active, undeleted row of this user in this organization. *)
Theorem rbac_fails_closed o u (w : faulty) :
  always (λ r, r = "member"%string ∨ cached_value (_role_cache_key o u) Some (abs w) r ∨
    ∃ row, row ∈ st_db (abs w) users ∧ active_row o u row ∧ r = role_of row) (get_org_role o u) w ∧
  always (λ p, p = ∅ ∨ cached_value (_perms_cache_key o u) dec_permissions (abs w) p ∨
    ∃ row, row ∈ st_db (abs w) users ∧ active_row o u row ∧ p = permissions_of row)
    (get_effective_permissions o u) w ∧
  always (λ b, b = true ∨
    cached_value (_pwd_flag_cache_key o u) (λ raw, Some (raw =? "1")%string) (abs w) b ∨
    ∃ row, row ∈ st_db (abs w) users ∧ active_row o u row ∧ b = u_must_change_password row)
    (get_must_change_password o u) w.
Proof.
  split; [|split].
  - exact (cache_aside_always (_role_cache_key o u) 60 Some id role_of "member"%string o u w).
  - exact (cache_aside_always (_perms_cache_key o u) 60 dec_permissions enc_permissions
      permissions_of ∅ o u w).
  - exact (cache_aside_always (_pwd_flag_cache_key o u) 60 (λ raw, Some (raw =? "1")%string)
      (λ b, if b then "1" else "0")%string u_must_change_password true o u w).
Qed.

(** The life of a cache entry: after a first lookup and any change of the users
    table, the old answer is served only while the entry lives (60 seconds, and only
    if the row was active); afterwards, and at once after an invalidation, the
    answer is the table's. *)
Theorem rbac_cache_lifecycle {W} `{World W} (w : W) o u (p : User → bool) (f : User → User) d :
  steady w → 0 ≤ d →
  find_key (st_clock (abs w)) (_role_cache_key o u) (st_redis (abs w)) = None →
  find_key (st_clock (abs w)) (_perms_cache_key o u) (st_redis (abs w)) = None →
  find_key (st_clock (abs w)) (_pwd_flag_cache_key o u) (st_redis (abs w)) = None →
  let rows : list User := st_db (abs w) users in
  let rows' := map (λ r : User, if p r then f r else r) rows in
  (run (observe (get_org_role o u) (invalidate_role o u) p f d) w).1
    = inr (expected 60 role_of "member"%string o u rows rows' d) ∧
  (run (observe (get_effective_permissions o u) (invalidate_permissions o u) p f d) w).1
    = inr (expected 60 permissions_of ∅ o u rows rows' d) ∧
  (run (observe (get_must_change_password o u) (invalidate_must_change_password o u) p f d) w).1
    = inr (expected 60 u_must_change_password true o u rows rows' d).
Proof.
  intros Hs Hd H1 H2 H3 rows rows'.
  split; [|split]; rewrite (proj1 (run_steady _ w Hs)).
  - exact (observe_run (_role_cache_key o u) 60 Some id role_of "member"%string o u eq_refl
      (abs w) p f d (λ r : User, eq_refl) H1 Hd).
  - exact (observe_run (_perms_cache_key o u) 60 dec_permissions enc_permissions permissions_of ∅
      o u eq_refl (abs w) p f d (λ r : User, permissions_codec (permissions_of r)) H2 Hd).
  - refine (observe_run (_pwd_flag_cache_key o u) 60 (λ raw, Some (raw =? "1")%string)
      (λ b : bool, if b then "1" else "0")%string u_must_change_password true o u eq_refl
      (abs w) p f d _ H3 Hd). intros r. by destruct (u_must_change_password r).
Qed.

Definition rbac_key (k : string) (o u : uuid) : Prop :=
  k = _role_cache_key o u ∨ k = _perms_cache_key o u ∨ k = _pwd_flag_cache_key o u.

Lemma rbac_keys_ne o u o' u' k k' :
  uuid_wf o → uuid_wf u → uuid_wf o' → uuid_wf u' → (o, u) ≠ (o', u') →
  rbac_key k o u → rbac_key k' o' u' → k ≠ k'.
Proof.
  intros Ho Hu Ho' Hu' Hn Hk Hk' <-.
  destruct Hk as [Hk|[Hk|Hk]], Hk' as [E|[E|E]]; rewrite Hk in E;
    unfold _role_cache_key, _perms_cache_key, _pwd_flag_cache_key in E;
    lazymatch type of E with
    | scoped_key ?p _ _ = scoped_key ?p _ _ =>
        destruct (scoped_key_inj p _ _ _ _ Ho Hu Ho' Hu' E) as [-> ->]; done
    | _ => unfold scoped_key in E; discriminate E
    end.
Qed.

(** Tenant isolation: a lookup or an invalidation for one user of one
    organization never changes a cache entry of another user or of the same user
    in another organization, whatever fails. *)
Theorem rbac_isolation o u o' u' k :
  uuid_wf o → uuid_wf u → uuid_wf o' → uuid_wf u' → (o, u) ≠ (o', u') → rbac_key k o' u' →
  untouched k (get_org_role o u) ∧ untouched k (get_effective_permissions o u) ∧
  untouched k (get_must_change_password o u) ∧ untouched k (invalidate_role o u) ∧
  untouched k (invalidate_permissions o u) ∧ untouched k (invalidate_must_change_password o u).
Proof.
  intros Ho Hu Ho' Hu' Hn Hk. pose proof (λ k0, rbac_keys_ne o u o' u' k0 k Ho Hu Ho' Hu' Hn) as Hne.
  unfold get_org_role, get_effective_permissions, get_must_change_password, invalidate_role,
    invalidate_permissions, invalidate_must_change_password.
  repeat split; (apply cache_aside_untouched || apply drop_key_untouched);
    apply Hne; unfold rbac_key; auto.
Qed.

(** * Witnesses *)

Definition user_row (id org : uuid) (role : option string) (perms : list string) : User :=
  mkUser id org "ext" None (Some "a@x.io"%string) role (Some perms) None true false false true false None 0 [].

Definition two_users : state :=
  set_db (set_table users [user_row 7 1 (Some "admin"%string) ["project:read"]%string;
                           user_row 8 1 None []] (st_db empty_state)) empty_state.

Definition demote (r : User) : User := user_row (u_id r) (u_organization_id r) None [].

Lemma rbac_cache_lifecycle_witness :
  let rows : list User := st_db (abs two_users) users in
  let rows' := map (λ r : User, if u_id r =? 7 then demote r else r) rows in
  (run (observe (get_org_role 1 7) (invalidate_role 1 7) (λ r, u_id r =? 7) demote 59999999) two_users).1
    = inr (expected 60 role_of "member"%string 1 7 rows rows' 59999999) ∧
  (run (observe (get_effective_permissions 1 7) (invalidate_permissions 1 7) (λ r, u_id r =? 7) demote
     59999999) two_users).1 = inr (expected 60 permissions_of ∅ 1 7 rows rows' 59999999) ∧
  (run (observe (get_must_change_password 1 7) (invalidate_must_change_password 1 7)
     (λ r, u_id r =? 7) demote 59999999) two_users).1
    = inr (expected 60 u_must_change_password true 1 7 rows rows' 59999999).
Proof.
  apply (rbac_cache_lifecycle two_users 1 7 (λ r, u_id r =? 7) demote 59999999).
  - exact I.
  - discriminate.
  - reflexivity.
  - reflexivity.
  - reflexivity.
Defined.

Lemma rbac_isolation_witness :
  untouched (_perms_cache_key 2 7) (get_org_role 1 7) ∧
  untouched (_perms_cache_key 2 7) (get_effective_permissions 1 7) ∧
  untouched (_perms_cache_key 2 7) (get_must_change_password 1 7) ∧
  untouched (_perms_cache_key 2 7) (invalidate_role 1 7) ∧
  untouched (_perms_cache_key 2 7) (invalidate_permissions 1 7) ∧
  untouched (_perms_cache_key 2 7) (invalidate_must_change_password 1 7).
Proof.
  apply (rbac_isolation 1 7 2 7).
  - split; [discriminate|reflexivity].
  - split; [discriminate|reflexivity].
  - split; [discriminate|reflexivity].
  - split; [discriminate|reflexivity].
  - discriminate.
  - right; left; reflexivity.
Defined.

(** A Redis outage alone does not deny: the role is read from the row. *)
Example redis_down_reads_row :
  (run (get_org_role 1 7) ((two_users, [true; false; true]) : faulty)).1 = inr "admin"%string.
Proof. vm_compute. reflexivity. Qed.
