(* ===== verification/Authz.v ===== *)
(** dependencies/auth.py and dependencies/project_auth.py: what a request may do,
    decided from the state the authentication middleware left on it, the RBAC
    lookups and the project tables. *)
From S2P Require Import Prelude Errors Data Effects Json Rbac.
Open Scope Z_scope.

(** * The request *)

(** [request.state] as AuthMiddleware sets it, the method and path, and whether
    [app.state.redis] is configured. *)
Record Request := mkRequest {
  rq_auth_type : option string;
  rq_org_id : option string;
  rq_user_id : option string;
  rq_api_key_permissions : option (list string);
  rq_api_key_project_id : option string;
  rq_method : string;
  rq_path : string;
  rq_redis : bool;
}.

Definition is_api_key (r : Request) : bool := bool_decide (rq_auth_type r = Some "api_key"%string).
Definition is_jwt (r : Request) : bool := bool_decide (rq_auth_type r = Some "jwt"%string).

Definition MUST_CHANGE_PASSWORD_EXEMPT_PATHS : list (string * string) :=
  [("POST", "/v1/auth/change-password"); ("GET", "/v1/auth/me"); ("POST", "/v1/auth/logout");
   ("POST", "/v1/auth/refresh")]%string.

Definition exempt (r : Request) : bool :=
  bool_decide ((rq_method r, rq_path r) ∈ MUST_CHANGE_PASSWORD_EXEMPT_PATHS).

(** core/config.py *)
Definition PLATFORM_ORG_ID : uuid := 170.

(** [UUID(s)]. *)
Definition UUID (s : string) : prog uuid :=
  match uuid_parse s with
  | Some u => Ret u
  | None => Throw (ValueError "badly formed hexadecimal UUID string")
  end.

Definition http {A} (status : Z) (title : string) : prog A := Throw (HTTPException status title).

(** * dependencies/auth.py *)

Definition get_org_id (r : Request) : option string := rq_org_id r.

Definition require_org_id (r : Request) : prog string :=
  match get_org_id r with
  | None => http 401 "Authentication Required"
  | Some o => Ret o
  end.

(** [role in ("admin", "superadmin")]. *)
Definition wildcard_role (role : string) : bool :=
  bool_decide (role ∈ ["admin"; "superadmin"]%string).

Definition _check_permission (r : Request) (org_id required : string) : prog unit :=
  if is_api_key r then
    match rq_api_key_permissions r with
    | None => Throw (TypeError "argument of type 'NoneType' is not iterable")
    | Some perms =>
        if bool_decide (required ∈ perms) then Ret tt
        else http 403 "Insufficient Permissions"
    end
  else
    match rq_user_id r with
    | None => http 401 "Invalid Session"
    | Some user_id =>
        if negb (rq_redis r) then http 503 "Service Unavailable"
        else
          o ← UUID org_id; u ← UUID user_id;
          role ← get_org_role o u;
          if wildcard_role role then Ret tt
          else
            permissions ← get_effective_permissions o u;
            if bool_decide (required ∈ permissions) then Ret tt
            else http 403 "Insufficient Permissions"
    end.

Definition require_permission (required : string) (r : Request) : prog string :=
  org_id ← require_org_id r;
  _ ← _check_permission r org_id required;
  Ret org_id.

Definition require_permission_or_self (required : string) (user_id : uuid) (r : Request) :
    prog string :=
  org_id ← require_org_id r;
  if is_jwt r && bool_decide (rq_user_id r = Some (uuid_str user_id)) then Ret org_id
  else
    _ ← _check_permission r org_id required;
    Ret org_id.

(** [None] is the wildcard of an administrator. *)
Definition get_actor_permissions (r : Request) : prog (option (gset string)) :=
  if is_api_key r then
    Ret (Some (list_to_set (default [] (rq_api_key_permissions r))))
  else
    match rq_user_id r, rq_org_id r with
    | Some user_id, Some org_id =>
        if negb (rq_redis r) then http 503 "Service Unavailable"
        else
          o ← UUID org_id; u ← UUID user_id;
          role ← get_org_role o u;
          if wildcard_role role then Ret None
          else
            permissions ← get_effective_permissions o u;
            Ret (Some permissions)
    | _, _ => http 401 "Invalid Session"
    end.

Definition get_dashboard_user (r : Request) : prog string :=
  org_id ← require_org_id r;
  if negb (is_jwt r) then http 401 "Dashboard Authentication Required"
  else
    match rq_user_id r with
    | None => http 401 "Invalid Session"
    | Some user_id =>
        if exempt r then Ret user_id
        else if negb (rq_redis r) then http 503 "Service Unavailable"
        else
          o ← UUID org_id; u ← UUID user_id;
          must_change ← get_must_change_password o u;
          if must_change : bool then http 403 "Password Change Required" else Ret user_id
    end.

Definition get_current_user_id (r : Request) : prog uuid :=
  _ ← require_org_id r;
  match rq_user_id r with
  | None => http 401 "Authentication Required"
  | Some user_id => UUID user_id
  end.

Definition _ensure_superadmin (r : Request) (org_id user_id : string) : prog unit :=
  if negb (org_id =? uuid_str PLATFORM_ORG_ID)%string then http 403 "Insufficient Permissions"
  else if negb (rq_redis r) then http 503 "Service Unavailable"
  else
    u ← UUID user_id;
    role ← get_org_role PLATFORM_ORG_ID u;
    if (role =? "superadmin")%string then Ret tt else http 403 "Insufficient Permissions".

Definition require_superadmin (r : Request) : prog string :=
  org_id ← require_org_id r;
  user_id ← get_dashboard_user r;
  _ ← _ensure_superadmin r org_id user_id;
  Ret org_id.

(** * dependencies/project_auth.py *)

(** repositories/project_repository.py. The organization arrives as a text, which
    the driver parses as a UUID. *)
Definition get_by_id (organization_id : string) (project_id : uuid) : prog (option Project) :=
  match uuid_parse organization_id with
  | None => Throw (DatabaseError "invalid UUID")
  | Some o =>
      rows ← call (Select projects (λ p,
        (p_id p =? project_id) && (p_organization_id p =? o) && negb (p_is_archived p)));
      scalar_one_or_none rows
  end.

Definition get_member (project_id user_id : uuid) : prog (option ProjectMember) :=
  rows ← call (Select project_members (λ m, (pm_project_id m =? project_id) && (pm_user_id m =? user_id)));
  scalar_one_or_none rows.

Definition require_project_membership (project_id : uuid) (r : Request) : prog unit :=
  match rq_org_id r with
  | None => http 401 "Organization context is required"
  | Some org_id =>
      if is_api_key r then
        match rq_api_key_project_id r with
        | None => http 403 "API key is not scoped to any project. Create a project-scoped API key."
        | Some key_project =>
            k ← UUID key_project;
            if negb (k =? project_id) then http 403 "This API key is scoped to a different project"
            else
              project ← get_by_id org_id project_id;
              match project with
              | None => http 404 "Project not found"
              | Some _ => Ret tt
              end
        end
      else
        match rq_user_id r with
        | None => http 401 "Authentication required"
        | Some user_id =>
            project ← get_by_id org_id project_id;
            match project with
            | None => http 404 "Project not found"
            | Some _ =>
                u ← UUID user_id;
                member ← get_member project_id u;
                match member with
                | None => http 403 "Not a member of this project"
                | Some _ => Ret tt
                end
            end
        end
  end.

(** * What a decision rests on *)

(** A value an RBAC lookup may grant: a live cache entry or an active row. *)
Definition granted {A} (key : string) (dec : string → option A) (of_user : User → A)
    (o u : uuid) (s : state) (v : A) : Prop :=
  cached_value key dec s v ∨ ∃ row, row ∈ st_db s users ∧ active_row o u row ∧ v = of_user row.

Definition role_granted (o u : uuid) (s : state) (role : string) : Prop :=
  granted (_role_cache_key o u) Some role_of o u s role.

(** The permissions are read after the role, when Redis may have moved on. *)
Definition permission_granted (o u : uuid) (s : state) (perm : string) : Prop :=
  ∃ p, perm ∈ p ∧ granted (_perms_cache_key o u) dec_permissions permissions_of o u s p.

(** The checks leave the database alone. *)
Lemma UUID_reads s : reads_only (UUID s).
Proof. unfold UUID. reading. Qed.
#[export] Hint Resolve UUID_reads : zync.

Lemma require_permission_reads p r : reads_only (require_permission p r).
Proof. unfold require_permission, require_org_id, _check_permission, http. reading. Qed.
Lemma get_actor_permissions_reads r : reads_only (get_actor_permissions r).
Proof. unfold get_actor_permissions, http. reading. Qed.

Section decisions.
Implicit Types (w : faulty) (r : Request).

(** ** Running up to a normal return *)

Lemma UUID_ok s w u w' : run (UUID s) w = (inr u, w') → uuid_parse s = Some u ∧ w' = w.
Proof. unfold UUID. destruct (uuid_parse s); [|done]. cbn. by intros [= -> ->]. Qed.

Lemma require_org_id_ok r w o w' :
  run (require_org_id r) w = (inr o, w') → rq_org_id r = Some o ∧ w' = w.
Proof. unfold require_org_id, get_org_id. destruct (rq_org_id r); [|done]. cbn. by intros [= -> ->]. Qed.

(** The lookups of one user, and what they leave of the world. *)
Lemma get_org_role_ok o u w role w' :
  run (get_org_role o u) w = (inr role, w') →
  (role = "member"%string ∨ role_granted o u (abs w) role) ∧ same_db w w'.
Proof.
  intros Hr. unfold role_granted.
  destruct (cache_aside_always (_role_cache_key o u) RBAC_ROLE_CACHE_TTL Some id role_of
    "member"%string o u w) as (v & w1 & E & Hv & Hd).
  unfold get_org_role in Hr. rewrite Hr in E. simplify_eq. split; [exact Hv|exact Hd].
Qed.

Lemma get_effective_permissions_ok o u w p w' perm :
  run (get_effective_permissions o u) w = (inr p, w') → perm ∈ p →
  permission_granted o u (abs w) perm.
Proof.
  intros Hr Hn. exists p. split; [done|].
  destruct (cache_aside_always (_perms_cache_key o u) RBAC_PERMS_CACHE_TTL dec_permissions
    enc_permissions permissions_of ∅ o u w) as (v & w1 & E & Hv & _).
  unfold get_effective_permissions in Hr. rewrite Hr in E. simplify_eq.
  destruct Hv as [->|?]; [by apply not_elem_of_empty in Hn|done].
Qed.

Lemma get_must_change_password_ok o u w w' :
  run (get_must_change_password o u) w = (inr false, w') →
  granted (_pwd_flag_cache_key o u) (λ raw, Some (raw =? "1")%string) u_must_change_password o u
    (abs w) false ∧ same_db w w'.
Proof.
  intros Hr.
  destruct (cache_aside_always (_pwd_flag_cache_key o u) PWD_FLAG_CACHE_TTL
    (λ raw, Some (raw =? "1")%string) (λ b : bool, if b then "1" else "0")%string
    u_must_change_password true o u w) as (v & w1 & E & Hv & Hd).
  unfold get_must_change_password in Hr. rewrite Hr in E. simplify_eq.
  destruct Hv as [?|?]; [done|]. split; [exact H|exact Hd].
Qed.

Lemma wildcard_not_member role : wildcard_role role = true → role ≠ "member"%string.
Proof.
  unfold wildcard_role. intros H%bool_decide_eq_true ->.
  repeat (apply elem_of_cons in H as [H|H]; [discriminate H|]). by apply elem_of_nil in H.
Qed.

(** The permissions granted after the role lookup were granted before it. *)
Lemma permission_granted_before o u w w' role perm :
  run (get_org_role o u) w = (inr role, w') →
  permission_granted o u (abs w') perm → permission_granted o u (abs w) perm.
Proof.
  intros Hr (p & Hp & Hg). exists p. split; [done|].
  destruct (proj2 (get_org_role_ok _ _ _ _ _ Hr)) as [Hd Hc].
  assert (st_redis (abs w') !! _perms_cache_key o u = st_redis (abs w) !! _perms_cache_key o u) as Hk.
  { change w' with (@inr exn string role, w').2. rewrite <- Hr. unfold get_org_role.
    rewrite (cache_aside_untouched (_perms_cache_key o u)); [done|].
    unfold _role_cache_key, _perms_cache_key, scoped_key. intros E. discriminate E. }
  destruct Hg as [(raw & d & Hf & Hdec)|(row & Hin & Ha & Hv)].
  - left. exists raw, d. split; [|done]. unfold find_key in *. by rewrite <- Hk, <- Hc.
  - right. exists row. by rewrite <- Hd.
Qed.
End decisions.

(** A principal whose key carries the permission, or whose user, in the request's
    organization, is an administrator or holds it. *)
Definition holds (r : Request) (org_id perm : string) (s : state) : Prop :=
  (is_api_key r = true ∧ ∃ perms, rq_api_key_permissions r = Some perms ∧ perm ∈ perms) ∨
  (is_api_key r = false ∧ ∃ user_id o u, rq_user_id r = Some user_id ∧
     uuid_parse org_id = Some o ∧ uuid_parse user_id = Some u ∧
     ((∃ role, wildcard_role role = true ∧ role_granted o u s role) ∨ permission_granted o u s perm)).

Lemma check_permission_ok r org_id perm (w w' : faulty) :
  run (_check_permission r org_id perm) w = (inr tt, w') → holds r org_id perm (abs w).
Proof.
  unfold _check_permission, holds. destruct (is_api_key r).
  - destruct (rq_api_key_permissions r) as [perms|]; [|done].
    destruct (bool_decide (perm ∈ perms)) eqn:E; [|done]. intros _. left. split; [done|].
    exists perms. split; [done|]. by apply bool_decide_eq_true in E.
  - destruct (rq_user_id r) as [user_id|]; [|done]. destruct (rq_redis r); [|done]. cbn [negb].
    intros (o & w1 & [Ho ->]%UUID_ok & (u & w2 & [Hu ->]%UUID_ok &
      (role & w3 & Hr & H)%run_bind_ok)%run_bind_ok)%run_bind_ok.
    right. split; [done|]. exists user_id, o, u. split_and!; try done.
    destruct (wildcard_role role) eqn:Hw.
    + left. exists role. split; [done|]. destruct (get_org_role_ok _ _ _ _ _ Hr) as [[->|?] _]; done.
    + right. apply run_bind_ok in H as (p & w4 & Hp & H).
      destruct (bool_decide (perm ∈ p)) eqn:E; [|done]. apply bool_decide_eq_true in E.
      eapply permission_granted_before; [exact Hr|]. by eapply get_effective_permissions_ok.
Qed.

(** * Properties *)

(** C5. No permission without a grant: whatever Redis and the database do, a
    permission check lets a request through only when its API key carries the
    permission, or its user is an administrator of the request's organization or
    holds the permission there, from a live cache entry or an active row; and it
    answers with the organization of the request. *)
Theorem require_permission_sound r perm (w w' : faulty) org_id :
  run (require_permission perm r) w = (inr org_id, w') →
  rq_org_id r = Some org_id ∧ holds r org_id perm (abs w).
Proof.
  intros (o & w1 & [Ho ->]%require_org_id_ok & ([] & w2 & Hc & [= -> _])%run_bind_ok)%run_bind_ok.
  split; [done|]. by eapply check_permission_ok.
Qed.

(** Acting on oneself needs a dashboard session: past the self check, the
    caller is the target user's own JWT session or holds the permission, so an API
    key never passes on its creator's identity alone. *)
Theorem self_bypass_is_jwt_only r perm user_id (w w' : faulty) org_id :
  run (require_permission_or_self perm user_id r) w = (inr org_id, w') →
  rq_org_id r = Some org_id ∧
  ((rq_auth_type r = Some "jwt"%string ∧ rq_user_id r = Some (uuid_str user_id)) ∨
   holds r org_id perm (abs w)).
Proof.
  intros (o & w1 & [Ho ->]%require_org_id_ok & H)%run_bind_ok. unfold is_jwt in H.
  destruct (bool_decide (rq_auth_type r = _)) eqn:Ea; [apply bool_decide_eq_true in Ea|].
  - destruct (bool_decide (rq_user_id r = _)) eqn:Eu; cbn [andb] in H.
    + apply bool_decide_eq_true in Eu. injection H as -> _. auto.
    + apply run_bind_ok in H as ([] & w2 & Hc & [= -> _]).
      split; [done|]. right. by eapply check_permission_ok.
  - cbn [andb] in H. apply run_bind_ok in H as ([] & w2 & Hc & [= -> _]).
    split; [done|]. right. by eapply check_permission_ok.
Qed.

Lemma dashboard_user_ok r (w w' : faulty) user_id :
  run (get_dashboard_user r) w = (inr user_id, w') →
  rq_auth_type r = Some "jwt"%string ∧ rq_user_id r = Some user_id ∧ same_db w w' ∧
  (exempt r = true ∨
   ∃ org_id o u, rq_org_id r = Some org_id ∧ uuid_parse org_id = Some o ∧
     uuid_parse user_id = Some u ∧
     granted (_pwd_flag_cache_key o u) (λ raw, Some (raw =? "1")%string) u_must_change_password
       o u (abs w) false).
Proof.
  intros (org_id & w1 & [Ho ->]%require_org_id_ok & H)%run_bind_ok. unfold is_jwt in H.
  destruct (bool_decide (rq_auth_type r = _)) eqn:Ea; [apply bool_decide_eq_true in Ea|done].
  destruct (rq_user_id r) as [uid|]; [|done]. cbn [negb] in H.
  destruct (exempt r).
  - injection H as -> ->. split_and!; auto using same_db_refl.
  - destruct (rq_redis r); [|done]. cbn [negb] in H.
    apply run_bind_ok in H as (o & w1 & [Hpo ->]%UUID_ok & (u & w2 & [Hpu ->]%UUID_ok &
      (b & w3 & Hb & H)%run_bind_ok)%run_bind_ok).
    destruct b; [done|]. injection H as -> ->.
    destruct (get_must_change_password_ok _ _ _ _ Hb) as [Hg Hd].
    split_and!; [done|done|done|]. right. exists org_id, o, u. by split_and!.
Qed.

(** The platform gate: only a JWT session of the platform organization passes,
    whose user has replaced a seeded password (or asks for an exempt path) and
    whose role, from a live cache entry or an active row, is superadmin; the role
    claim of the token plays no part. *)
Theorem require_superadmin_sound r (w w' : faulty) org_id :
  run (require_superadmin r) w = (inr org_id, w') →
  org_id = uuid_str PLATFORM_ORG_ID ∧ rq_org_id r = Some org_id ∧
  rq_auth_type r = Some "jwt"%string ∧
  ∃ user_id u w1, rq_user_id r = Some user_id ∧ uuid_parse user_id = Some u ∧ same_db w w1 ∧
    role_granted PLATFORM_ORG_ID u (abs w1) "superadmin" ∧
    (exempt r = true ∨
     granted (_pwd_flag_cache_key PLATFORM_ORG_ID u) (λ raw, Some (raw =? "1")%string)
       u_must_change_password PLATFORM_ORG_ID u (abs w) false).
Proof.
  intros (o & w1 & [Ho ->]%require_org_id_ok & (uid & w2 & Hu & ([] & w3 & He & [= -> _])%run_bind_ok)
    %run_bind_ok)%run_bind_ok.
  destruct (dashboard_user_ok _ _ _ _ Hu) as (Ha & Hid & Hd & Hg).
  unfold _ensure_superadmin in He.
  destruct (String.eqb_spec org_id (uuid_str PLATFORM_ORG_ID)) as [->|]; [|done]. cbn [negb] in He.
  destruct (rq_redis r); [|done]. cbn [negb] in He.
  apply run_bind_ok in He as (u & w4 & [Hpu ->]%UUID_ok & (role & w5 & Hr & He)%run_bind_ok).
  destruct (String.eqb_spec role "superadmin") as [->|]; [|done].
  destruct (get_org_role_ok _ _ _ _ _ Hr) as [[?|Hrole] _]; [done|].
  split_and!; try done. exists uid, u, w2. split_and!; try done.
  destruct Hg as [?|(oid & o & u' & Ho' & Hpo & Hpu' & Hg)]; [by left|right].
  rewrite Ho in Ho'. injection Ho' as <-. rewrite uuid_parse_str in Hpo by done.
  rewrite Hpu in Hpu'. by simplify_eq.
Qed.

(** ** Project membership *)

(** An unarchived project of the request's organization, and a key scoped to it or
    a membership row of its user. *)
Definition project_access (r : Request) (project_id : uuid) (s : state) : Prop :=
  ∃ org_id o p, rq_org_id r = Some org_id ∧ uuid_parse org_id = Some o ∧
    p ∈ st_db s projects ∧ p_id p = project_id ∧ p_organization_id p = o ∧ p_is_archived p = false ∧
    if is_api_key r then
      ∃ k, rq_api_key_project_id r = Some k ∧ uuid_parse k = Some project_id
    else
      ∃ user_id u m, rq_user_id r = Some user_id ∧ uuid_parse user_id = Some u ∧
        m ∈ st_db s project_members ∧ pm_project_id m = project_id ∧ pm_user_id m = u.

(** The primary key of projects and the unique pair of project_members. *)
Definition unique_rows (s : state) : Prop :=
  NoDup (map p_id (st_db s projects)) ∧
  NoDup (map (λ m, (pm_project_id m, pm_user_id m)) (st_db s project_members)).

Lemma project_row_ok org_id pid (w w' : faulty) p :
  run (get_by_id org_id pid) w = (inr (Some p), w') →
  ∃ o, uuid_parse org_id = Some o ∧ p ∈ st_db (abs w) projects ∧ p_id p = pid ∧
    p_organization_id p = o ∧ p_is_archived p = false ∧ same_db w w'.
Proof.
  unfold get_by_id. destruct (uuid_parse org_id) as [o|]; [|done]. destruct w as [s pl].
  rewrite run_bind.
  destruct (faulty_select projects (λ p, (p_id p =? pid) && (p_organization_id p =? o) &&
    negb (p_is_archived p)) s pl) as [[pl' ->]|[pl' ->]]; [|done].
  destruct (List.filter _ _) as [|q [|]] eqn:E; cbn; try done. intros [= -> <-].
  apply filter_single in E as [Hin Hp]. exists o. split_and!; try done;
    destruct (Z.eqb_spec (p_id p) pid), (Z.eqb_spec (p_organization_id p) o),
      (p_is_archived p); done.
Qed.

Lemma member_row_ok pid u (w w' : faulty) m :
  run (get_member pid u) w = (inr (Some m), w') →
  m ∈ st_db (abs w) project_members ∧ pm_project_id m = pid ∧ pm_user_id m = u.
Proof.
  unfold get_member. destruct w as [s pl]. rewrite run_bind.
  destruct (faulty_select project_members (λ m, (pm_project_id m =? pid) && (pm_user_id m =? u)) s pl)
    as [[pl' ->]|[pl' ->]]; [|done].
  destruct (List.filter _ _) as [|q [|]] eqn:E; cbn; try done. intros [= -> _].
  apply filter_single in E as [Hin Hp]. split; [done|]. lia.
Qed.

Lemma project_membership_ok r pid (w w' : faulty) :
  run (require_project_membership pid r) w = (inr tt, w') → project_access r pid (abs w).
Proof.
  unfold require_project_membership, project_access. destruct (rq_org_id r) as [org_id|]; [|done].
  destruct (is_api_key r).
  - destruct (rq_api_key_project_id r) as [k|]; [|done].
    intros (kp & w1 & [Hk ->]%UUID_ok & H)%run_bind_ok.
    destruct (Z.eqb_spec kp pid) as [->|]; [|done]. cbn [negb] in H.
    apply run_bind_ok in H as ([p|] & w2 & Hp & H); [|done].
    destruct (project_row_ok _ _ _ _ _ Hp) as (o & Ho & Hin & Hid & Horg & Harch & _).
    exists org_id, o, p. split_and!; eauto.
  - destruct (rq_user_id r) as [user_id|]; [|done].
    intros ([p|] & w2 & Hp & H)%run_bind_ok; [|done].
    destruct (project_row_ok _ _ _ _ _ Hp) as (o & Ho & Hin & Hid & Horg & Harch & Hd & _).
    apply run_bind_ok in H as (u & w3 & [Hu ->]%UUID_ok & ([m|] & w4 & Hm & H)%run_bind_ok); [|done].
    destruct (member_row_ok _ _ _ _ _ Hm) as (Hmin & Hmp & Hmu).
    exists org_id, o, p. split_and!; try done. exists user_id, u, m. rewrite <- Hd. by split_and!.
Qed.

Lemma project_found org_id o pid (s : state) p :
  uuid_parse org_id = Some o → NoDup (map p_id (st_db s projects)) →
  p ∈ st_db s projects → p_id p = pid → p_organization_id p = o → p_is_archived p = false →
  run (get_by_id org_id pid) s = (inr (Some p), s).
Proof.
  intros Ho Hd Hin Hid Horg Ha. unfold get_by_id. rewrite Ho, run_select.
  rewrite (filter_unique p_id _ _ p Hd Hin); [done| |].
  - by rewrite Hid, Horg, Ha, !Z.eqb_refl.
  - intros q Hq. rewrite Hid. destruct (Z.eqb_spec (p_id q) pid); [done|discriminate Hq].
Qed.

Lemma project_membership_complete r pid (s : state) :
  unique_rows s → project_access r pid s → run (require_project_membership pid r) s = (inr tt, s).
Proof.
  intros [Hp Hm] (org_id & o & p & Ho & Hpo & Hin & Hid & Horg & Ha & H).
  unfold require_project_membership. rewrite Ho. destruct (is_api_key r).
  - destruct H as (k & -> & Hk). unfold UUID. rewrite run_bind, Hk. cbn [run].
    rewrite Z.eqb_refl. cbn [negb]. rewrite run_bind.
    by rewrite (project_found org_id o pid s p Hpo Hp Hin Hid Horg Ha).
  - destruct H as (user_id & u & m & -> & Hu & Hmin & Hmp & Hmu).
    rewrite run_bind, (project_found org_id o pid s p Hpo Hp Hin Hid Horg Ha), run_bind.
    unfold UUID. rewrite Hu. cbn [run]. unfold get_member. rewrite run_bind, run_select.
    rewrite (filter_unique (λ m, (pm_project_id m, pm_user_id m)) _ _ m Hm Hmin); [done| |].
    + rewrite Hmp, Hmu, !Z.eqb_refl. done.
    + intros q Hq. f_equal; lia.
Qed.

(** C6. Project access: whatever fails, the check lets a request through only when
    the project is an unarchived one of its organization and its key is scoped to
    that project or its user is a member; and where the services answer, it lets
    through every such request. *)
Theorem project_membership_exact r pid :
  (∀ w w' : faulty, run (require_project_membership pid r) w = (inr tt, w') →
     project_access r pid (abs w)) ∧
  (∀ s : state, unique_rows s →
     ((run (require_project_membership pid r) s).1 = inr tt ↔ project_access r pid s)).
Proof.
  split; [intros w w'; apply project_membership_ok|]. intros s Hu. split.
  - intros Hr. assert (steady ((s, []) : faulty)) as Hs by done.
    destruct (run_steady (require_project_membership pid r) _ Hs) as (E & _ & _).
    change (abs ((s, []) : faulty)) with s in E. rewrite Hr in E.
    destruct (run (W := faulty) _ _) as [res w'] eqn:Ew. cbn in E. subst res.
    by apply project_membership_ok in Ew.
  - intros Ha. by rewrite project_membership_complete.
Qed.

(** * Witnesses *)

Definition org1 : string := uuid_str 1.
Definition jwt_request (org user : uuid) (method path : string) : Request :=
  mkRequest (Some "jwt"%string) (Some (uuid_str org)) (Some (uuid_str user)) (Some []) None method path true.

(** An administrator of organization 1, a superadmin of the platform, a member. *)
Definition staff : state :=
  set_db (set_table users
    [user_row 7 1 (Some "admin"%string) []; user_row 9 PLATFORM_ORG_ID (Some "superadmin"%string) [];
     user_row 8 1 None ["project:read"]%string] (st_db empty_state)) empty_state.

(** The world after a run. *)
Definition final {A} (p : prog A) (w : faulty) : faulty := (run p w).2.

Lemma require_permission_sound_witness :
  rq_org_id (jwt_request 1 8 "GET" "/v1/projects") = Some org1 ∧
  holds (jwt_request 1 8 "GET" "/v1/projects") org1 "project:read" (abs ((staff, []) : faulty)).
Proof.
  apply (require_permission_sound (jwt_request 1 8 "GET" "/v1/projects") "project:read" (staff, [])
    (final (require_permission "project:read" (jwt_request 1 8 "GET" "/v1/projects")) (staff, []))).
  reflexivity.
Defined.

Lemma self_bypass_is_jwt_only_witness :
  rq_org_id (jwt_request 1 8 "GET" "/v1/users") = Some org1 ∧
  ((rq_auth_type (jwt_request 1 8 "GET" "/v1/users") = Some "jwt"%string ∧
    rq_user_id (jwt_request 1 8 "GET" "/v1/users") = Some (uuid_str 8)) ∨
   holds (jwt_request 1 8 "GET" "/v1/users") org1 "members:read" (abs ((staff, []) : faulty))).
Proof.
  apply (self_bypass_is_jwt_only (jwt_request 1 8 "GET" "/v1/users") "members:read" 8 (staff, [])
    (final (require_permission_or_self "members:read" 8 (jwt_request 1 8 "GET" "/v1/users")) (staff, []))).
  reflexivity.
Defined.

Definition platform_request : Request := jwt_request PLATFORM_ORG_ID 9 "GET" "/admin/orgs".

Lemma require_superadmin_sound_witness :
  uuid_str PLATFORM_ORG_ID = uuid_str PLATFORM_ORG_ID ∧
  rq_org_id platform_request = Some (uuid_str PLATFORM_ORG_ID) ∧
  rq_auth_type platform_request = Some "jwt"%string ∧
  ∃ user_id u w1, rq_user_id platform_request = Some user_id ∧ uuid_parse user_id = Some u ∧
    same_db (staff, []) w1 ∧ role_granted PLATFORM_ORG_ID u (abs w1) "superadmin" ∧
    (exempt platform_request = true ∨
     granted (_pwd_flag_cache_key PLATFORM_ORG_ID u) (λ raw, Some (raw =? "1")%string)
       u_must_change_password PLATFORM_ORG_ID u (abs ((staff, []) : faulty)) false).
Proof.
  apply (require_superadmin_sound platform_request (staff, [])
    (final (require_superadmin platform_request) (staff, []))).
  reflexivity.
Defined.
