(* ===== verification/Users.v ===== *)
(** repositories/user_repository.py, services/user_service.py and the endpoints of
    routers/users.py: the accounts of an organization, who may change them, and the
    rules that keep an organization administrable. *)
From S2P Require Import Prelude Errors Data Effects Concurrent Rbac Authz.
Open Scope Z_scope.

(** * repositories/user_repository.py *)

Definition in_org (organization_id : uuid) (u : User) : bool := u_organization_id u =? organization_id.
Definition is_user (organization_id user_id : uuid) (u : User) : bool := (u_id u =? user_id) && in_org organization_id u.

(** [db.refresh]. *)
Definition refresh (user_id : uuid) : prog User :=
  l ← call (Select users (λ u, u_id u =? user_id));
  match l with u :: _ => Ret u | [] => Throw (DatabaseError "Could not refresh instance") end.

(** A row with the defaults of its columns, added and flushed. *)
Definition create (organization_id : uuid) (external_id : string) (name email : option string)
    (metadata : option (list (string * json))) (role : string) (password_hash invite_token_hash : option string)
    (permissions : option (list string)) : prog User :=
  id ← uuid4;
  now ← call Now;
  _ ← call (Insert users (no_arbiter users)
              [mkUser id organization_id external_id name email (Some role) (Some (default [] permissions))
                 password_hash true false false false false invite_token_hash now (default [] metadata)]);
  refresh id.

Definition get_by_external_id (organization_id : uuid) (external_id : string) : prog (option User) :=
  l ← call (Select users (λ u, in_org organization_id u && (u_external_id u =? external_id)%string));
  scalar_one_or_none l.

Definition create_or_get_by_external_id (organization_id : uuid) (external_id : string) (name email : option string)
    (metadata : option (list (string * json))) : prog User :=
  try_except
    (create organization_id external_id name email metadata "member" None None (Some MEMBER_DEFAULT_PERMISSIONS))
    is_integrity
    (λ _,
      _ ← call Rollback;
      user ← get_by_external_id organization_id external_id;
      match user with
      | None =>
          Throw (AppExc NotFoundError ("Failed to get-or-create user '" +:+ external_id +:+ "' in organization "
                                       +:+ uuid_str organization_id))
      | Some u => Ret u
      end).

(** [limit(1)] of the rows in the order of their creation. *)
Definition oldest (l : list User) : option User :=
  head (Prelude.sort_by (λ a b, u_created_at a <=? u_created_at b) l).

Definition is_pending_admin (organization_id : uuid) (u : User) : bool :=
  in_org organization_id u && bool_decide (u_role u = Some "admin"%string)
  && bool_decide (u_password_hash u = None) && bool_decide (u_invite_token_hash u = None)
  && negb (u_is_deleted u).

Definition find_pending_admin_by_org (organization_id : uuid) : prog (option User) :=
  l ← call (Select users (is_pending_admin organization_id)); Ret (oldest l).

Definition live (u : User) : bool := u_is_active u && negb (u_is_deleted u).

Definition find_user_by_invite_token (token_hash : string) : prog (option User) :=
  l ← call (Select users (λ u, bool_decide (u_invite_token_hash u = Some token_hash) && live u));
  scalar_one_or_none l.

(** The attributes of [mint] and of [claim]. *)
Definition with_invite (token_hash : string) (created_at : Z) (u : User) : User :=
  mkUser (u_id u) (u_organization_id u) (u_external_id u) (u_name u) (u_email u) (u_role u)
    (u_permissions u) (u_password_hash u) (u_is_active u) (u_must_change_password u)
    (u_is_deleted u) (u_is_email_verified u) (u_mfa_enabled u) (Some token_hash) created_at (u_metadata u).
Definition claimed_by (password_hash : string) (u : User) : User :=
  mkUser (u_id u) (u_organization_id u) (u_external_id u) (u_name u) (u_email u) (u_role u)
    (u_permissions u) (Some password_hash) (u_is_active u) (u_must_change_password u)
    (u_is_deleted u) true (u_mfa_enabled u) None (u_created_at u) (u_metadata u).
Definition with_deleted (u : User) : User :=
  mkUser (u_id u) (u_organization_id u) (u_external_id u) (u_name u) (u_email u) (u_role u)
    (u_permissions u) (u_password_hash u) (u_is_active u) (u_must_change_password u)
    true (u_is_email_verified u) (u_mfa_enabled u) (u_invite_token_hash u) (u_created_at u) (u_metadata u).

(** [db.flush] of a loaded row. *)
Definition flush_row (user_id : uuid) (f : User → User) : prog unit :=
  n ← call (UpdateUnique users (λ u, u_id u =? user_id) f);
  if n =? 1 then Ret tt else Throw (DatabaseError "UPDATE statement on table 'users' matched another number of rows").

Definition user_missing {A} (organization_id user_id : uuid) : prog A :=
  Throw (AppExc NotFoundError ("User " +:+ uuid_str user_id +:+ " not found in organization " +:+ uuid_str organization_id)).

Definition set_invite_token (organization_id user_id : uuid) (token_hash : string) : prog User :=
  user ← get_by_uuid organization_id user_id;
  match user with
  | None => user_missing organization_id user_id
  | Some u =>
      now ← call Now;
      _ ← flush_row (u_id u) (with_invite token_hash now);
      refresh (u_id u)
  end.

(** The condition of the claim. *)
Definition claimable (token_hash : string) (cutoff : Z) (u : User) : bool :=
  bool_decide (u_invite_token_hash u = Some token_hash) && live u && (cutoff <=? u_created_at u).

Definition claim_invite (token_hash password_hash : string) (cutoff : Z) : prog (option User) :=
  rows ← call (UpdateReturning users (claimable token_hash cutoff) (claimed_by password_hash));
  Ret (head rows).

Definition is_pending_invite (organization_id user_id : uuid) (u : User) : bool :=
  is_user organization_id user_id u && negb (bool_decide (u_invite_token_hash u = None)) && negb (u_is_deleted u).

Definition hard_delete_pending_user (organization_id user_id : uuid) : prog Z :=
  call (Delete users (is_pending_invite organization_id user_id)).

(** The fields a request sets; [None] inside clears the field. *)
Record UserUpdate := mkUserUpdate {
  uu_name : option (option string);
  uu_email : option (option string);
  uu_metadata : option (option (list (string * json)));
  uu_role : option (option string);
  uu_permissions : option (option (list string));
}.

(** The merge of [metadata]: one level deep. *)
Definition merge_one (existing : list (string * json)) (kv : string * json) : list (string * json) :=
  match kv.2 with
  | JNull => obj_del kv.1 existing
  | JObj v =>
      match obj_get kv.1 existing with
      | Some (JObj old) => obj_set kv.1 (JObj (obj_update v old)) existing
      | _ => obj_set kv.1 (JObj v) existing
      end
  | v => obj_set kv.1 v existing
  end.
Definition merge_metadata (existing new_meta : list (string * json)) : list (string * json) :=
  fold_left merge_one new_meta existing.

(** An attribute is written when it is given and differs from the loaded one. *)
Definition changed {A} `{EqDecision A} (loaded : A) (field : option A) : option A :=
  match field with Some v => if decide (v = loaded) then None else Some v | None => None end.

Definition assigned (loaded : User) (f : UserUpdate) (u : User) : User :=
  mkUser (u_id u) (u_organization_id u) (u_external_id u)
    (default (u_name u) (changed (u_name loaded) (uu_name f)))
    (default (u_email u) (changed (u_email loaded) (uu_email f)))
    (default (u_role u) (changed (u_role loaded) (uu_role f)))
    (default (u_permissions u) (changed (u_permissions loaded) (uu_permissions f)))
    (u_password_hash u) (u_is_active u) (u_must_change_password u) (u_is_deleted u) (u_is_email_verified u)
    (u_mfa_enabled u) (u_invite_token_hash u) (u_created_at u)
    (default (u_metadata u)
       (changed (u_metadata loaded) (option_map (λ m, merge_metadata (u_metadata loaded) (default [] m)) (uu_metadata f)))).

(** Whether there is anything to write. *)
Definition unmodified (loaded : User) (f : UserUpdate) : bool :=
  bool_decide (changed (u_name loaded) (uu_name f) = None)
  && bool_decide (changed (u_email loaded) (uu_email f) = None)
  && bool_decide (changed (u_role loaded) (uu_role f) = None)
  && bool_decide (changed (u_permissions loaded) (uu_permissions f) = None)
  && bool_decide (changed (u_metadata loaded)
       (option_map (λ m, merge_metadata (u_metadata loaded) (default [] m)) (uu_metadata f)) = None).

(** NOT NULL of [role] and [permissions]. *)
Definition nullified (loaded : User) (f : UserUpdate) : bool :=
  bool_decide (changed (u_role loaded) (uu_role f) = Some None)
  || bool_decide (changed (u_permissions loaded) (uu_permissions f) = Some None).

Definition update (organization_id user_id : uuid) (update_fields : UserUpdate) : prog (option User) :=
  user ← get_by_uuid organization_id user_id;
  match user with
  | None => Ret None
  | Some u =>
      _ ← if unmodified u update_fields then Ret tt
          else if nullified u update_fields then Throw IntegrityError
          else flush_row (u_id u) (assigned u update_fields);
      u' ← refresh (u_id u);
      Ret (Some u')
  end.

Definition soft_delete (organization_id user_id : uuid) : prog (option User) :=
  user ← get_by_uuid organization_id user_id;
  match user with
  | None => Ret None
  | Some u =>
      _ ← if u_is_deleted u then Ret tt else flush_row (u_id u) with_deleted;
      u' ← refresh (u_id u);
      Ret (Some u')
  end.

Definition hard_delete (organization_id user_id : uuid) : prog bool :=
  user ← get_by_uuid organization_id user_id;
  match user with
  | None => Ret false
  | Some u =>
      _ ← call (Delete users (λ x, u_id x =? u_id u)); Ret true
  end.

Definition is_active_admin (organization_id : uuid) (u : User) : bool :=
  in_org organization_id u && bool_decide (u_role u = Some "admin"%string) && live u.

Definition count_active (organization_id : uuid) : prog Z :=
  l ← call (Select users (λ u, in_org organization_id u && negb (u_is_deleted u))); Ret (Z.of_nat (length l)).
Definition count_active_admins (organization_id : uuid) : prog Z :=
  l ← call (Select users (is_active_admin organization_id)); Ret (Z.of_nat (length l)).
Definition exists_by_external_id (organization_id : uuid) (external_id : string) : prog bool :=
  l ← call (Select users (λ u, in_org organization_id u && (u_external_id u =? external_id)%string));
  Ret (negb (bool_decide (l = []))).

(** * services/user_service.py *)

(** The answer, without the times of the row. *)
Record UserResponse := mkUserResponse {
  ur_id : uuid;
  ur_organization_id : uuid;
  ur_external_id : string;
  ur_name : option string;
  ur_email : option string;
  ur_metadata : list (string * json);
  ur_role : option string;
  ur_permissions : list string;
  ur_is_active : bool;
  ur_is_deleted : bool;
  ur_is_pending_invite : bool;
}.

Definition _user_to_dict (u : User) : UserResponse :=
  mkUserResponse (u_id u) (u_organization_id u) (u_external_id u) (u_name u) (u_email u) (u_metadata u) (u_role u)
    (default [] (u_permissions u)) (u_is_active u) (u_is_deleted u) (negb (bool_decide (u_invite_token_hash u = None))).

Definition invalid {A} (msg : string) : prog A := Throw (AppExc ValidationError msg).

Section service.
(** The webhook emitter, when the service has one, and whether it has Redis. *)
Context (webhook : option (uuid → string → list (string * json) → prog unit)) (has_redis : bool).

Definition _invalidate_role_cache (org_id user_id : uuid) : prog unit :=
  if negb has_redis then Ret tt else invalidate_role org_id user_id.
Definition _invalidate_permissions_cache (org_id user_id : uuid) : prog unit :=
  if negb has_redis then Ret tt else invalidate_permissions org_id user_id.

Definition _permissions_for_role (role : option string) : list string :=
  if bool_decide (role ∈ [Some "admin"; Some "superadmin"]%string) then [] else MEMBER_DEFAULT_PERMISSIONS.

Definition announce (organization_id : uuid) (external_id : string) (u : User) : prog unit :=
  match webhook with
  | Some emit =>
      emit organization_id "user.created"
        [("user_id"%string, JStr (uuid_str (u_id u))); ("external_id"%string, JStr external_id)]
  | None => Ret tt
  end.

Definition create_user (organization_id : uuid) (external_id : string) (name email : option string)
    (metadata : option (list (string * json))) (role : string) : prog UserResponse :=
  exists_ ← exists_by_external_id organization_id external_id;
  if exists_ : bool then
    Throw (AppExc ConflictError ("User with external_id '" +:+ external_id +:+ "' already exists in organization "
                                 +:+ uuid_str organization_id))
  else
    user ← create organization_id external_id name email metadata role None None
             (Some (_permissions_for_role (Some role)));
    _ ← announce organization_id external_id user;
    Ret (_user_to_dict user).

Definition get_or_create_user (organization_id : uuid) (external_id : string) (name email : option string)
    (metadata : option (list (string * json))) : prog UserResponse :=
  user ← get_by_external_id organization_id external_id;
  match user with
  | Some u => Ret (_user_to_dict u)
  | None =>
      r ← try_except
            (u ← create organization_id external_id name email metadata "member" None None
                   (Some (_permissions_for_role None));
             Ret (u, true))
            is_integrity
            (λ _,
              _ ← call Rollback;
              user ← get_by_external_id organization_id external_id;
              match user with
              | None => Throw (AppExc NotFoundError ("Failed to get-or-create user '" +:+ external_id +:+ "'"))
              | Some u => Ret (u, false)
              end);
      _ ← if r.2 : bool then announce organization_id external_id r.1 else Ret tt;
      Ret (_user_to_dict r.1)
  end.

(** The guards of a change of role. *)
Definition guard_role (organization_id user_id : uuid) (new_role : option string) (actor_user_id : uuid) : prog unit :=
  target ← get_by_uuid organization_id user_id;
  match target with
  | None => user_missing organization_id user_id
  | Some t =>
      if user_id =? actor_user_id then invalid "You cannot change your own role."
      else if bool_decide (u_role t = Some "superadmin"%string) && negb (bool_decide (new_role = Some "superadmin"%string))
      then invalid "Superadmin role cannot be changed via this endpoint."
      else if bool_decide (u_role t = Some "admin"%string) && negb (bool_decide (new_role = Some "admin"%string)) then
        admin_count ← count_active_admins organization_id;
        if admin_count <=? 1 then invalid "Cannot demote the last admin in the organization." else Ret tt
      else Ret tt
  end.

(** The cap of a grant: what is requested, as far as the actor has it. *)
Definition cap_permissions (requested : option (list string)) (actor_permissions : option (gset string)) :
    option (list string) :=
  match actor_permissions with
  | None => requested
  | Some own => Some (sorted (list_to_set (default [] requested) ∩ own))
  end.

Definition with_permissions (f : UserUpdate) (p : option (list string)) : UserUpdate :=
  mkUserUpdate (uu_name f) (uu_email f) (uu_metadata f) (uu_role f) (Some p).

Definition update_user (organization_id user_id : uuid) (update_fields : UserUpdate) (actor_user_id : uuid)
    (actor_permissions : option (gset string)) : prog UserResponse :=
  _ ← match uu_role update_fields with
      | Some new_role => guard_role organization_id user_id new_role actor_user_id
      | None => Ret tt
      end;
  update_fields ← match uu_permissions update_fields with
                  | Some requested =>
                      if user_id =? actor_user_id then invalid "You cannot change your own permissions."
                      else Ret (with_permissions update_fields (cap_permissions requested actor_permissions))
                  | None => Ret update_fields
                  end;
  user ← update organization_id user_id update_fields;
  match user with
  | None => user_missing organization_id user_id
  | Some u =>
      _ ← match uu_role update_fields with Some _ => _invalidate_role_cache organization_id user_id | None => Ret tt end;
      _ ← match uu_role update_fields, uu_permissions update_fields with
          | None, None => Ret tt
          | _, _ => _invalidate_permissions_cache organization_id user_id
          end;
      Ret (_user_to_dict u)
  end.

Definition update_member_role (organization_id user_id : uuid) (role : string) : prog User :=
  user ← update organization_id user_id (mkUserUpdate None None None (Some (Some role)) None);
  match user with
  | None => user_missing organization_id user_id
  | Some u =>
      _ ← _invalidate_role_cache organization_id user_id;
      _ ← _invalidate_permissions_cache organization_id user_id;
      Ret u
  end.

Definition delete_user (organization_id user_id actor_user_id : uuid) : prog unit :=
  if user_id =? actor_user_id then invalid "You cannot delete your own account."
  else
    user ← get_by_uuid organization_id user_id;
    match user with
    | None => user_missing organization_id user_id
    | Some u =>
        if bool_decide (u_role u = Some "superadmin"%string) then
          invalid "Superadmin accounts cannot be deleted via this endpoint. Use the superadmin console."
        else
          _ ← if bool_decide (u_role u = Some "admin"%string) then
                admin_count ← count_active_admins organization_id;
                if admin_count <=? 1 then invalid "Cannot delete the last admin in the organization." else Ret tt
              else Ret tt;
          deleted ← soft_delete organization_id user_id;
          match deleted with
          | None => user_missing organization_id user_id
          | Some _ =>
              _ ← _invalidate_role_cache organization_id user_id;
              _invalidate_permissions_cache organization_id user_id
          end
    end.
End service.

(** * routers/users.py

    Its service has no webhook emitter. *)

Inductive user_request :=
| CreateUser (external_id : string) (name email : option string) (metadata : list (string * json)) (role : string)
| UpdateUser (user_id : uuid) (fields : UserUpdate)
| DeleteUser (user_id : uuid).

(** [UUID(request.state.user_id)]. *)
Definition actor_id (r : Request) : prog uuid :=
  match rq_user_id r with Some u => UUID u | None => Throw (TypeError "one of the hex arguments must be given") end.

Definition nothing_set (f : UserUpdate) : bool :=
  match f with mkUserUpdate None None None None None => true | _ => false end.

Definition handle (r : Request) (q : user_request) : prog unit :=
  match q with
  | CreateUser external_id name email metadata role =>
      org_id ← require_permission "members:write" r;
      o ← UUID org_id;
      _ ← create_user None o external_id name email (Some metadata) role;
      Ret tt
  | UpdateUser user_id fields =>
      org_id ← require_permission "members:write" r;
      actor_permissions ← get_actor_permissions r;
      if nothing_set fields then
        invalid "At least one field (name, email, metadata, role, permissions) must be provided for update"
      else
        o ← UUID org_id;
        a ← actor_id r;
        _ ← update_user (rq_redis r) o user_id fields a actor_permissions;
        Ret tt
  | DeleteUser user_id =>
      org_id ← require_permission "members:write" r;
      o ← UUID org_id;
      a ← actor_id r;
      delete_user (rq_redis r) o user_id a
  end.

Definition serve_users (l : list (Z * (Request * user_request))) : prog (list bool) :=
  attempts (map (λ q, (q.1, Effects.request (handle q.2.1 q.2.2))) l).

(** * What the operations do to the table *)

Definition rows (d : database) : list User := d users.
Definition changes (user_id : uuid) (f : User → User) (l : list User) : list User :=
  map (λ u, if u_id u =? user_id then f u else u) l.

(** One row was written. *)
Definition wrote (user_id : uuid) (f : User → User) (d d' : database) : Prop :=
  (∃ u, List.filter (λ u, u_id u =? user_id) (rows d) = [u]) ∧ d' = set_table users (changes user_id f (rows d)) d.

Lemma acts_flush id f : acts (flush_row id f) (λ d _ d', wrote id f d d').
Proof.
  unfold flush_row. eapply acts_weaken.
  - apply acts_seq; [by apply acts_call|]. instantiate (1 := λ n d _ d', n = 1 ∧ d' = d).
    intros n. cbn. destruct (n =? 1) eqn:E; [apply acts_ret|by apply acts_throw]. split; [lia|done].
  - intros d [] d' (n & d1 & (Hn & _ & ->) & -> & ->). split; [|done]. cbn [row] in Hn.
    unfold rows. destruct (List.filter _ _) as [|u [|]] eqn:E; cbn in Hn; [lia| |lia]. by exists u.
Qed.

Lemma acts_refresh_user id :
  acts (refresh id) (λ d u d', d' = d ∧ ∃ l, List.filter (λ u, u_id u =? id) (rows d) = u :: l).
Proof.
  unfold refresh. eapply acts_weaken.
  - apply acts_seq; [by apply acts_call|]. instantiate (1 := λ l d u d', d' = d ∧ ∃ l', l = u :: l').
    intros [|u l]; [by apply acts_throw|]. apply acts_ret. eauto.
  - intros d u d' (l & d1 & [-> ->] & -> & l' & Hl). split; [done|]. by exists l'.
Qed.

Lemma acts_get_by_uuid org id :
  acts (get_by_uuid org id) (λ d o d', List.filter (is_user org id) (rows d) = option_list o ∧ d' = d).
Proof. exact (acts_one users (is_user org id)). Qed.

(** A change of a row that is loaded. *)
Definition modified (org id : uuid) (changed : User → option (User → User)) (d : database) (o : option User)
    (d' : database) : Prop :=
  match o with
  | None => List.filter (is_user org id) (rows d) = [] ∧ d' = d
  | Some v => ∃ u, List.filter (is_user org id) (rows d) = [u] ∧
      (match changed u with None => d' = d | Some f => wrote id f d d' end) ∧
      ∃ l, List.filter (λ x, u_id x =? id) (rows d') = v :: l
  end.

Lemma is_user_spec org id u : is_user org id u = true ↔ u_id u = id ∧ u_organization_id u = org.
Proof. unfold is_user, in_org. rewrite andb_true_iff, !Z.eqb_eq. done. Qed.

Lemma acts_modify org id (act : User → prog unit) (changed : User → option (User → User)) :
  (∀ u, acts (act u) (λ d _ d', match changed u with None => d' = d | Some f => wrote (u_id u) f d d' end)) →
  acts (user ← get_by_uuid org id;
        match user with
        | None => Ret None
        | Some u => _ ← act u; u' ← refresh (u_id u); Ret (Some u')
        end)
    (modified org id changed).
Proof.
  intros Ha. eapply acts_bind; [apply acts_get_by_uuid| |].
  - intros o. instantiate (1 := λ o d v d', match o with
      | None => v = None ∧ d' = d
      | Some u => ∃ v', v = Some v' ∧
          (match changed u with None => d' = d | Some f => wrote (u_id u) f d d' end) ∧
          ∃ l, List.filter (λ x, u_id x =? u_id u) (rows d') = v' :: l
      end).
    destruct o as [u|]; [|by apply acts_ret]. eapply acts_weaken.
    + apply acts_seq; [apply Ha|intros n]. apply acts_seq; [apply acts_refresh_user|intros u'].
      by apply (acts_ret (Some u') (λ d o d', o = Some u' ∧ d' = d)).
    + intros d o d' (n & d1 & H1 & u' & d2 & [-> Hl] & -> & ->). by exists u'.
  - cbn beta. intros d o d1 v d2 [Hf ->]. destruct o as [u|]; [|by intros [-> ->]].
    intros (v' & -> & Hw & Hl). cbn in Hf. pose proof (filter_single _ _ _ Hf) as [_ [Ei _]%is_user_spec].
    exists u. rewrite Ei in *. done.
Qed.

Definition update_step (f : UserUpdate) (u : User) : option (User → User) :=
  if unmodified u f then None else Some (assigned u f).

Lemma acts_update org id f : acts (update org id f) (modified org id (update_step f)).
Proof.
  apply acts_modify. intros u. unfold update_step. destruct (unmodified u f); [by apply acts_ret|].
  destruct (nullified u f); [by apply acts_throw|apply acts_flush].
Qed.

Lemma acts_soft_delete org id :
  acts (soft_delete org id) (modified org id (λ u, if u_is_deleted u then None else Some with_deleted)).
Proof. apply acts_modify. intros u. destruct (u_is_deleted u); [by apply acts_ret|apply acts_flush]. Qed.

Lemma modified_row org id c d v d' :
  modified org id c d (Some v) d' →
  ∃ u, u ∈ rows d ∧ u_id u = id ∧ u_organization_id u = org ∧ List.filter (is_user org id) (rows d) = [u] ∧
    ((c u = None ∧ d' = d) ∨ ∃ g, c u = Some g ∧ wrote id g d d').
Proof.
  intros (u & Hf & Hc & _). exists u. pose proof (filter_single _ _ _ Hf) as [Hin [? ?]%is_user_spec].
  split_and!; [done..|]. destruct (c u) as [g|]; [right; by exists g|by left].
Qed.

(** ** The guards *)

Definition active_admins (org : uuid) (d : database) : list User := List.filter (is_active_admin org) (rows d).

(** What a change of role to [new_role] has passed. *)
Definition role_guarded (org id actor : uuid) (new_role : option string) (d : database) : Prop :=
  id ≠ actor ∧ ∃ t, List.filter (is_user org id) (rows d) = [t] ∧
    (u_role t = Some "superadmin"%string → new_role = Some "superadmin"%string) ∧
    (u_role t = Some "admin"%string → new_role ≠ Some "admin"%string → (2 ≤ length (active_admins org d))%nat).

Lemma acts_count_admins org :
  acts (count_active_admins org) (λ d n d', n = Z.of_nat (length (active_admins org d)) ∧ d' = d).
Proof.
  unfold count_active_admins. eapply acts_weaken.
  - apply acts_seq; [by apply acts_call|intros l]. by apply (acts_ret _ (λ d n d', n = Z.of_nat (length l) ∧ d' = d)).
  - intros d n d' (l & d1 & [-> ->] & -> & ->). done.
Qed.

(** A guard that counts the administrators. *)
Lemma acts_other_admin org msg :
  acts (n ← count_active_admins org; if n <=? 1 then invalid msg else Ret tt)
    (λ d _ d', (2 ≤ length (active_admins org d))%nat ∧ d' = d).
Proof.
  eapply acts_weaken.
  - apply acts_seq; [apply acts_count_admins|intros n]. instantiate (1 := λ n d _ d', 1 < n ∧ d' = d).
    cbn. destruct (n <=? 1) eqn:E; [by apply acts_throw|]. apply acts_ret. intros d. split; [lia|done].
  - intros d [] d' (n & d1 & [-> ->] & Hn & ->). split; [lia|done].
Qed.

Lemma acts_guard_role org id new_role actor :
  acts (guard_role org id new_role actor) (λ d _ d', role_guarded org id actor new_role d ∧ d' = d).
Proof.
  unfold guard_role. eapply acts_bind; [apply acts_get_by_uuid| |].
  - intros o. instantiate (1 := λ o d _ d', d' = d ∧ id ≠ actor ∧ ∃ t, o = Some t ∧
      (u_role t = Some "superadmin"%string → new_role = Some "superadmin"%string) ∧
      (u_role t = Some "admin"%string → new_role ≠ Some "admin"%string → (2 ≤ length (active_admins org d))%nat)).
    destruct o as [t|]; [|by apply acts_throw]. destruct (Z.eqb_spec id actor); [by apply acts_throw|].
    case_bool_decide as E1; [case_bool_decide as E2; [|by apply acts_throw]|]; cbn [andb negb].
    + rewrite bool_decide_false by congruence. cbn [andb]. apply acts_ret. intros d.
      split_and!; [done..|]. exists t. split_and!; [done..|]. intros ?. congruence.
    + case_bool_decide as E2; [case_bool_decide as E3|]; cbn [andb negb].
      * apply acts_ret. intros d. split_and!; [done..|]. by exists t.
      * eapply acts_weaken; [apply acts_other_admin|]. intros d ? d' [H ->]. split_and!; [done..|]. by exists t.
      * apply acts_ret. intros d. split_and!; [done..|]. by exists t.
  - cbn. intros d o d1 [] d2 [Hf ->] (-> & Ha & t & -> & H1 & H2). split; [|done]. split; [done|]. by exists t.
Qed.

(** The fields once the grant is capped. *)
Definition capped_fields (f : UserUpdate) (own : option (gset string)) : UserUpdate :=
  match uu_permissions f with Some p => with_permissions f (cap_permissions p own) | None => f end.

Definition guarded (org id actor : uuid) (f : UserUpdate) (d : database) : Prop :=
  (∀ nr, uu_role f = Some nr → role_guarded org id actor nr d) ∧ (∀ p, uu_permissions f = Some p → id ≠ actor).

Section service_rows.
Context (has_redis : bool).

Lemma invalidate_role_cache_reads o u : reads_only (_invalidate_role_cache has_redis o u).
Proof. unfold _invalidate_role_cache. reading. Qed.
Lemma invalidate_permissions_cache_reads o u : reads_only (_invalidate_permissions_cache has_redis o u).
Proof. unfold _invalidate_permissions_cache. reading. Qed.
#[local] Hint Resolve invalidate_role_cache_reads invalidate_permissions_cache_reads : zync.

Lemma acts_update_user org id f actor own :
  acts (update_user has_redis org id f actor own)
    (λ d r d', guarded org id actor f d ∧
       ∃ v, modified org id (update_step (capped_fields f own)) d (Some v) d' ∧ r = _user_to_dict v).
Proof.
  unfold update_user. eapply acts_weaken.
  - apply acts_seq; [|intros n].
    { instantiate (1 := λ d _ d', (∀ nr, uu_role f = Some nr → role_guarded org id actor nr d) ∧ d' = d).
      destruct (uu_role f) as [nr|]; [|by apply acts_ret].
      eapply acts_weaken; [apply acts_guard_role|]. intros d [] d' [H ->]. split; [|done]. by intros ? [= <-]. }
    apply acts_seq; [|intros g].
    { instantiate (1 := λ d g d', (∀ p, uu_permissions f = Some p → id ≠ actor) ∧ g = capped_fields f own ∧ d' = d).
      unfold capped_fields. destruct (uu_permissions f) as [p|]; [|by apply acts_ret].
      destruct (Z.eqb_spec id actor); [by apply acts_throw|]. by apply acts_ret. }
    apply acts_seq; [apply acts_update|intros o].
    instantiate (1 := λ o d r d', d' = d ∧ ∃ v, o = Some v ∧ r = _user_to_dict v).
    destruct o as [u|]; [|by apply acts_throw]. apply reads_then; [reading|intros _n].
    apply reads_then; [reading|intros _n']. apply acts_ret. eauto.
  - intros d r d' (_n & d1 & [Hr ->] & g & d2 & (Hp & -> & ->) & o & d3 & Hm & -> & v & -> & ->).
    split; [done|]. by exists v.
Qed.

Lemma acts_delete_user org id actor :
  acts (delete_user has_redis org id actor)
    (λ d _ d', id ≠ actor ∧ ∃ v t,
      modified org id (λ u, if u_is_deleted u then None else Some with_deleted) d (Some v) d' ∧
      List.filter (is_user org id) (rows d) = [t] ∧ u_role t ≠ Some "superadmin"%string ∧
      (u_role t = Some "admin"%string → (2 ≤ length (active_admins org d))%nat)).
Proof.
  unfold delete_user. destruct (Z.eqb_spec id actor); [by apply acts_throw|].
  eapply acts_weaken.
  - apply acts_seq; [apply acts_get_by_uuid|intros o].
    instantiate (1 := λ o d _ d', ∃ v t, modified org id (λ u, if u_is_deleted u then None else Some with_deleted) d (Some v) d' ∧
      o = Some t ∧ u_role t ≠ Some "superadmin"%string ∧
      (u_role t = Some "admin"%string → (2 ≤ length (active_admins org d))%nat)).
    destruct o as [t|]; [|by apply acts_throw]. case_bool_decide as E; [by apply acts_throw|].
    eapply acts_weaken.
    + apply acts_seq; [|intros _n].
      { instantiate (1 := λ d _ d', (u_role t = Some "admin"%string → (2 ≤ length (active_admins org d))%nat) ∧ d' = d).
        case_bool_decide; [|by apply acts_ret]. eapply acts_weaken; [apply acts_other_admin|]. by intros d [] d' [? ->]. }
      apply acts_seq; [apply acts_soft_delete|intros o]. instantiate (1 := λ o d _ d', d' = d ∧ is_Some o).
      destruct o as [u|]; [|by apply acts_throw]. eapply acts_weaken; [apply reads_acts|by intros ? ? ? ->]. reading.
    + intros d r d' (_n & d1 & [Hc ->] & o & d2 & Hm & -> & v & ->). by exists v, t.
  - cbn. intros d r d' (o & d1 & [Hf ->] & v & t & Hm & -> & H1 & H2). split; [done|]. by exists v, t.
Qed.
End service_rows.

(** ** An organization keeps an administrator *)

Definition has_admin (org : uuid) (d : database) : Prop := ∃ u, u ∈ rows d ∧ is_active_admin org u = true.
(** What a request that is served does. *)
Definition keeps_admins (d d' : database) : Prop := ∀ o, has_admin o d → has_admin o d'.

Lemma rows_set l d : rows (set_table users l d) = l.
Proof. apply (set_table_eq users). Qed.

Lemma is_active_admin_spec o u :
  is_active_admin o u = true ↔
  u_organization_id u = o ∧ u_role u = Some "admin"%string ∧ u_is_active u = true ∧ u_is_deleted u = false.
Proof.
  unfold is_active_admin, in_org, live. rewrite !andb_true_iff, Z.eqb_eq, bool_decide_eq_true, negb_true_iff. tauto.
Qed.

(** A row that is not written stays. *)
Lemma wrote_other id g d d' x : wrote id g d d' → x ∈ rows d → u_id x ≠ id → x ∈ rows d'.
Proof.
  intros [_ ->] Hx Hi. rewrite rows_set. apply list_elem_of_fmap. exists x. split; [|done].
  by rewrite (proj2 (Z.eqb_neq _ _) Hi).
Qed.
Lemma wrote_same id g d d' x : wrote id g d d' → x ∈ rows d → u_id x = id → g x ∈ rows d'.
Proof.
  intros [_ ->] Hx Hi. rewrite rows_set. apply list_elem_of_fmap. exists x. split; [|done].
  by rewrite (proj2 (Z.eqb_eq _ _) Hi).
Qed.

(** Of two administrators one has another id than the row written. *)
Lemma wrote_two id g d d' o : wrote id g d d' → (2 ≤ length (active_admins o d))%nat → has_admin o d'.
Proof.
  intros Hw Hl. assert (∃ x, x ∈ active_admins o d ∧ u_id x ≠ id) as (x & Hx & Hi).
  { destruct (decide (Forall (λ x, u_id x = id) (active_admins o d))) as [F|F].
    - exfalso. destruct Hw as [[u Hu] _]. unfold active_admins in *.
      assert (E : List.filter (is_active_admin o) (List.filter (λ u, u_id u =? id) (rows d)) = List.filter (is_active_admin o) (rows d)).
      { revert F. generalize (rows d). intros l. induction l as [|y l IH]; intros F; [done|]. cbn in *.
        destruct (is_active_admin o y) eqn:Ey.
        - apply Forall_cons in F as [Fy F]. rewrite (proj2 (Z.eqb_eq _ _) Fy). cbn. by rewrite Ey, IH.
        - destruct (u_id y =? id); cbn; rewrite ?Ey; by apply IH. }
      rewrite <- E, Hu in Hl. cbn in Hl. destruct (is_active_admin o u); cbn in Hl; lia.
    - apply not_Forall_Exists in F; [|intros ?; apply _]. apply Exists_exists in F as (x & Hx & Hi). by exists x. }
  apply filter_elem in Hx as [Hx Ha]. exists x. split; [by eapply wrote_other|done].
Qed.

(** A write that leaves the row an administrator, or leaves another. *)
Lemma wrote_keeps id g d d' :
  wrote id g d d' →
  (∀ u o, u ∈ rows d → u_id u = id → is_active_admin o u = true →
     is_active_admin o (g u) = true ∨ (2 ≤ length (active_admins o d))%nat) →
  keeps_admins d d'.
Proof.
  intros Hw Hk o (u & Hu & Ha). destruct (decide (u_id u = id)) as [Hi|Hi].
  - destruct (Hk u o Hu Hi Ha) as [Hg|Hl]; [|by eapply wrote_two].
    exists (g u). split; [by eapply wrote_same|done].
  - exists u. split; [by eapply wrote_other|done].
Qed.

(** The row a statement found is the one with its id. *)
Lemma wrote_unique id g d d' u x : wrote id g d d' → u ∈ rows d → x ∈ rows d → u_id u = id → u_id x = id → u = x.
Proof.
  intros [[y Hy] _] Hu Hx Eu Ex.
  assert (u ∈ [y] ∧ x ∈ [y]) as [->%list_elem_of_singleton ->%list_elem_of_singleton]; [|done].
  rewrite <- Hy, !filter_elem, Eu, Ex, Z.eqb_refl. done.
Qed.

Lemma assigned_role u f : u_role (assigned u f u) = default (u_role u) (uu_role f).
Proof. cbn. unfold changed. destruct (uu_role f) as [r|]; [|done]. by destruct (decide (r = u_role u)) as [->|]. Qed.

Lemma capped_fields_role f own : uu_role (capped_fields f own) = uu_role f.
Proof. unfold capped_fields. by destruct (uu_permissions f). Qed.

Lemma update_keeps_admins org id actor f own d v d' :
  guarded org id actor f d → modified org id (update_step (capped_fields f own)) d (Some v) d' → keeps_admins d d'.
Proof.
  intros [Hr _] (u & Hu & Hid & Ho & Hf & [[_ ->]|(g & Hg & Hw)])%modified_row; [by intros o|].
  unfold update_step in Hg. destruct (unmodified _ _); [done|]. injection Hg as <-.
  eapply wrote_keeps; [done|]. intros x o Hx Hix Ha. assert (x = u) as -> by by eapply wrote_unique.
  destruct (uu_role f) as [nr|] eqn:Er.
  - destruct (Hr nr eq_refl) as (_ & t & Ht & _ & Hd). rewrite Hf in Ht. injection Ht as <-.
    pose proof Ha as (Hao & Har & Haa & Had)%is_active_admin_spec.
    destruct (decide (nr = Some "admin"%string)) as [->|Hn].
    + left. apply is_active_admin_spec. rewrite assigned_role, capped_fields_role, Er. done.
    + right. rewrite <- Hao, Ho. by apply Hd.
  - left. apply is_active_admin_spec. apply is_active_admin_spec in Ha as (? & ? & ? & ?).
    rewrite assigned_role, capped_fields_role, Er. done.
Qed.

Lemma delete_keeps_admins org id d v d' t :
  modified org id (λ u, if u_is_deleted u then None else Some with_deleted) d (Some v) d' →
  List.filter (is_user org id) (rows d) = [t] →
  (u_role t = Some "admin"%string → (2 ≤ length (active_admins org d))%nat) → keeps_admins d d'.
Proof.
  intros (u & Hu & Hid & Ho & Hf & [[_ ->]|(g & Hg & Hw)])%modified_row Ht Hd; [by intros o|].
  rewrite Hf in Ht. injection Ht as <-. eapply wrote_keeps; [done|]. intros x o Hx Hix Ha.
  assert (x = u) as -> by by eapply wrote_unique. right. apply is_active_admin_spec in Ha as (Hao & Har & _).
  rewrite <- Hao, Ho. auto.
Qed.

(** The row just added, read again. *)
Lemma filter_inserted {A} (p : A → bool) (l : list A) (r : A) :
  (∀ x, x ∈ l → p x = false) → p r = true → List.filter p (l ++ [r]) = [r].
Proof. intros Hl Hr. rewrite List.filter_app, (filter_none p l Hl). cbn. by rewrite Hr. Qed.

Lemma acts_create org ext name email md role ph it perms :
  acts (create org ext name email md role ph it perms)
    (λ d u d', d' = set_table users (rows d ++ [u]) d ∧ ∃ id now, u = mkUser id org ext name email (Some role)
       (Some (default [] perms)) ph true false false false false it now (default [] md)).
Proof.
  unfold create. eapply acts_weaken.
  - apply acts_seq; [apply acts_uuid4|intros id]. apply acts_seq; [by apply acts_call|intros now].
    apply acts_seq; [apply acts_insert|intros ins]. apply acts_refresh_user.
  - intros d v d' (id & d1 & -> & now & d2 & Hd2 & ins & d3 & [-> Hc] & -> & l & Hl). cbn in Hd2. subst d2.
    rewrite rows_set, filter_inserted in Hl; [|intros x Hx|by cbn; rewrite Z.eqb_refl].
    + injection Hl as <- _. split; [done|]. by exists id, now.
    + specialize (Hc x Hx). cbn in Hc. rewrite Z.eqb_sym. by apply orb_false_iff in Hc as [[Hc _]%orb_false_iff _].
Qed.

Lemma append_keeps_admins u d : keeps_admins d (set_table users (rows d ++ [u]) d).
Proof. intros o (x & Hx & Ha). exists x. rewrite rows_set, elem_of_app. auto. Qed.

Lemma actor_id_reads r : reads_only (actor_id r).
Proof. unfold actor_id. reading. Qed.

Lemma acts_create_user org ext name email md role :
  acts (create_user None org ext name email md role) (λ d _ d', ∃ u, d' = set_table users (rows d ++ [u]) d).
Proof.
  unfold create_user. apply reads_then; [unfold exists_by_external_id; reading|]. intros [|]; [by apply acts_throw|].
  eapply acts_bind; [apply acts_create| |].
  - intros u. cbn [announce]. by apply (acts_ret _ (λ d _ d', d' = d)).
  - intros d u d1 v d2 [-> _] ->. by eexists.
Qed.

Lemma handle_keeps_admins r q : acts (handle r q) (λ d _ d', keeps_admins d d').
Proof.
  destruct q as [ext name email md role|id f|id]; cbn [handle];
    (apply reads_then; [apply require_permission_reads|]; intros org).
  - apply reads_then; [apply UUID_reads|]. intros o. apply acts_drop. eapply acts_weaken; [apply acts_create_user|].
    intros d v d' (u & ->). apply append_keeps_admins.
  - apply reads_then; [apply get_actor_permissions_reads|]. intros own. destruct (nothing_set f); [by apply acts_throw|].
    apply reads_then; [apply UUID_reads|]. intros o. apply reads_then; [apply actor_id_reads|]. intros a. apply acts_drop.
    eapply acts_weaken; [apply acts_update_user|]. intros d v d' (Hg & u & Hm & _). by eapply update_keeps_admins.
  - apply reads_then; [apply UUID_reads|]. intros o. apply reads_then; [apply actor_id_reads|]. intros a.
    eapply acts_weaken; [apply acts_delete_user|]. intros d v d' (_ & u & t & Hm & Hf & _ & Hd).
    by eapply delete_keeps_admins.
Qed.

(** C28. Whatever requests the endpoints of /v1/users serve one after the other, an
    organization that has an active administrator still has one: the last one can be
    neither demoted nor deleted. *)
Theorem admins_survive (l : list (Z * (Request * user_request))) (org : uuid) (s : state) :
  st_db s = st_committed s →
  (∃ u, u ∈ st_db s users ∧ is_active_admin org u = true) →
  let s' := (run (serve_users l) s).2 in
  st_db s' = st_committed s' ∧ ∃ u, u ∈ st_db s' users ∧ is_active_admin org u = true.
Proof.
  intros Hs Ha. apply (requests_keep (has_admin org)); [|done|done].
  intros d p ([d' [r q]] & [= -> ->] & _)%list_elem_of_fmap. eexists. split; [done|].
  eapply acts_weaken; [apply handle_keeps_admins|]. intros d0 v d1 Hk. apply Hk.
Qed.

(** Nothing to write: the row is what it would become. *)
Lemma unmodified_assigned f u : unmodified u f = true → assigned u f u = u.
Proof.
  unfold unmodified, assigned. rewrite !andb_true_iff, !bool_decide_eq_true. intros [[[[-> ->] ->] ->] ->]. by destruct u.
Qed.

Lemma changes_ext id f g l : (∀ u, u ∈ l → u_id u = id → f u = g u) → changes id f l = changes id g l.
Proof.
  intros E. apply map_ext_in. intros u Hu%list_elem_of_In. destruct (Z.eqb_spec (u_id u) id); [by apply E|done].
Qed.

(** The row a request that assigns makes of [t]. *)
Lemma written_row id f t d d' v :
  NoDup (map u_id (rows d)) → t ∈ rows d → u_id t = id →
  (update_step f t = None ∧ d' = d ∨ ∃ g, update_step f t = Some g ∧ wrote id g d d') →
  (∃ l, List.filter (λ x, u_id x =? id) (rows d') = v :: l) →
  v = assigned t f t ∧ d' = set_table users (changes id (λ _, v) (rows d)) d.
Proof.
  intros Hd Ht Hi Hc [l Hl].
  assert (Hsame : ∀ u, u ∈ rows d → u_id u = id → u = t).
  { intros u Hu Hui. apply (NoDup_map_inj u_id (rows d)); [done..|congruence]. }
  assert (v ∈ rows d' ∧ u_id v = id) as [Hv Hvi].
  { assert (v ∈ List.filter (λ x, u_id x =? id) (rows d')) as [? ?%Z.eqb_eq]%filter_elem by (rewrite Hl; left). done. }
  assert (Hw : d' = set_table users (changes id (assigned t f) (rows d)) d).
  { unfold update_step in Hc. destruct (unmodified t f) eqn:Eu.
    - destruct Hc as [[_ ->]|(g & [=] & _)]. rewrite (changes_ext _ _ (λ u, u)).
      + unfold changes. rewrite (map_ext _ (λ u, u)), map_id; [symmetry; apply (set_table_id users)|]. intros u. by destruct (_ =? _).
      + intros u Hu Hui. rewrite (Hsame u) by done. by apply unmodified_assigned.
    - destruct Hc as [[[=] _]|(g & [= <-] & [_ ->])]. done. }
  assert (Hva : v = assigned t f t).
  { rewrite Hw, rows_set in Hv. apply list_elem_of_fmap in Hv as (u & -> & Hu).
    destruct (Z.eqb_spec (u_id u) id) as [E|E]; [by rewrite (Hsame u)|done]. }
  split; [done|]. rewrite Hw at 1. f_equal. apply changes_ext. intros u Hu Hui. by rewrite (Hsame u), Hva.
Qed.

Lemma elem_of_sorted p (x : gset string) : p ∈ sorted x ↔ p ∈ x.
Proof. unfold sorted. by rewrite merge_sort_Permutation, elem_of_elements. Qed.

(** What a change may do to a row. *)
Definition within_bounds (id actor : uuid) (own : option (gset string)) (t t' : User) : Prop :=
  (u_id t', u_organization_id t', u_external_id t', u_password_hash t', u_is_active t', u_is_deleted t',
   u_is_email_verified t', u_mfa_enabled t', u_invite_token_hash t')
  = (u_id t, u_organization_id t, u_external_id t, u_password_hash t, u_is_active t, u_is_deleted t,
     u_is_email_verified t, u_mfa_enabled t, u_invite_token_hash t) ∧
  (u_role t' ≠ u_role t → id ≠ actor ∧ u_role t ≠ Some "superadmin"%string) ∧
  (u_permissions t' ≠ u_permissions t → id ≠ actor ∧
     ∀ granted p, own = Some granted → p ∈ default [] (u_permissions t') → p ∈ granted).

Lemma assigned_bounds org id actor f own d t :
  guarded org id actor f d → List.filter (is_user org id) (rows d) = [t] →
  (∀ nr, uu_role f = Some nr → nr ≠ Some "superadmin"%string) →
  within_bounds id actor own t (assigned t (capped_fields f own) t).
Proof.
  intros [Hr Hp] Hf Hn. split; [done|]. rewrite assigned_role, capped_fields_role. split.
  - destruct (uu_role f) as [nr|] eqn:Er; [|done]. intros _. destruct (Hr nr eq_refl) as (Ha & t' & Ht & Hs & _).
    rewrite Hf in Ht. injection Ht as <-. split; [done|]. intros E. by apply (Hn nr), Hs.
  - cbn. unfold capped_fields. destruct (uu_permissions f) as [r|] eqn:Er.
    + intros _. split; [by eapply Hp|]. intros granted p ->. cbn. unfold changed.
      case_decide as E; [rewrite <- E|]; cbn; rewrite elem_of_sorted, elem_of_intersection; tauto.
    + rewrite Er. done.
Qed.

(** C29. A change of a user that succeeds rewrites that user's row alone, and answers with
    it. The role changes only when it is another's and no superadmin's; permissions change
    only when they are another's, and the new ones are among the actor's own, unless the
    actor is an administrator. Credentials, membership and the state of the account stay. *)
Theorem grants_capped (has_redis : bool) (org id actor : uuid) (f : UserUpdate) (own : option (gset string))
    (resp : UserResponse) (s s' : state) :
  NoDup (map u_id (st_db s users)) →
  (∀ nr, uu_role f = Some nr → nr ≠ Some "superadmin"%string) →
  run (update_user has_redis org id f actor own) s = (inr resp, s') →
  ∃ t t', t ∈ st_db s users ∧ u_id t = id ∧ u_organization_id t = org ∧ resp = _user_to_dict t' ∧
    st_db s' = set_table users (map (λ u, if u_id u =? id then t' else u) (st_db s users)) (st_db s) ∧
    within_bounds id actor own t t'.
Proof.
  intros Hd Hn Hr. pose proof (acts_update_user has_redis org id f actor own s) as Ha. rewrite Hr in Ha.
  destruct Ha as [(Hg & v & Hm & ->) _]. pose proof Hm as (_ & _ & _ & Hl).
  apply modified_row in Hm as (t & Ht & Hi & Ho & Hf & Hc).
  destruct (written_row _ _ _ _ _ _ Hd Ht Hi Hc Hl) as [Hv Hw].
  exists t, v. split_and!; [done..|]. rewrite Hv. by eapply assigned_bounds.
Qed.

(** * Runs *)

Definition member_row (id : uuid) (role : string) (perms : list string) (pwd invite : option string) : User :=
  mkUser id 1 ("u" +:+ str_of_Z id) None (Some (str_of_Z id +:+ "@x.io")) (Some role) (Some perms) pwd true false
    false true false invite 0 [("plan"%string, JObj [("tier"%string, JStr "free"); ("seats"%string, JInt 3)])].

(** Two administrators, a member who may change members, and a member. *)
Definition staff_row : User := member_row 9 "member" ["members:write"; "project:read"] (Some "h9"%string) None.
Definition team_rows : list User :=
  [member_row 7 "admin" [] (Some "h7"%string) None; member_row 8 "admin" [] (Some "h8"%string) None; staff_row;
   member_row 10 "member" ["project:read"] (Some "h10"%string) None].
Definition with_users (l : list User) : state :=
  let d := set_table users l (st_db empty_state) in
  mkState 0 ∅ d d None (λ n, Z.of_nat n + 100) 0 [] ∅.
Definition team : state := with_users team_rows.

Definition by_staff : Request := jwt_request 1 9 "PATCH" "/v1/users".
Definition set_role (role : option string) : UserUpdate := mkUserUpdate None None None (Some role) None.
Definition admins_of (s : state) : list uuid := map u_id (List.filter (is_active_admin 1) (st_db s users)).

(** One administrator is demoted; the other can then be neither demoted nor deleted. *)
Example last_admin_stays :
  let r := run (serve_users [(0, (by_staff, UpdateUser 7 (set_role (Some "member"%string))));
                             (0, (by_staff, UpdateUser 8 (set_role (Some "member"%string))));
                             (0, (by_staff, DeleteUser 8))]) team in
  r.1 = inr [true; false; false] ∧ admins_of r.2 = [8].
Proof. by vm_compute. Qed.

(** The cap holds for permissions; a role is granted whatever the actor's own is. *)
Example role_is_not_capped :
  let r := run (serve_users [(0, (by_staff, UpdateUser 10 (mkUserUpdate None None None None
                                     (Some (Some ["configuration:write"; "project:read"]%string)))))]) team in
  map u_permissions (List.filter (λ u, u_id u =? 10) (st_db r.2 users)) = [Some ["project:read"%string]] ∧
  admins_of (run (serve_users [(0, (by_staff, UpdateUser 10 (set_role (Some "admin"%string))))]) team).2 = [7; 8; 10].
Proof. by vm_compute. Qed.

(** An API key that carries the permission changes users as well. *)
Example api_key_changes_roles :
  let key := mkRequest (Some "api_key"%string) (Some (uuid_str 1)) (Some (uuid_str 9)) (Some ["members:write"%string])
               None "PATCH" "/v1/users" true in
  admins_of (run (serve_users [(0, (key, UpdateUser 10 (set_role (Some "admin"%string))))]) team).2 = [7; 8; 10].
Proof. by vm_compute. Qed.

(** An administrator who has not accepted the invitation counts; once the invitation is
    withdrawn nobody is left. *)
Example pending_admin_counts :
  let s := with_users [member_row 7 "admin" [] (Some "h7"%string) None; staff_row; member_row 8 "admin" [] None (Some "h"%string)] in
  let r := run (serve_users [(0, (by_staff, UpdateUser 7 (set_role (Some "member"%string))))]) s in
  r.1 = inr [true] ∧ admins_of r.2 = [8] ∧ admins_of (run (hard_delete_pending_user 1 8) r.2).2 = [].
Proof. by vm_compute. Qed.

(** A deleted account keeps its external id from being used again. *)
Example external_id_is_not_reused :
  let r := run (serve_users [(0, (by_staff, DeleteUser 10))]) team in
  r.1 = inr [true] ∧
  (run (handle by_staff (CreateUser "u10" None None [] "member")) r.2).1
    = inl (AppExc ConflictError ("User with external_id 'u10' already exists in organization " +:+ uuid_str 1)).
Proof. by vm_compute. Qed.

(** Another account's address: the conflict is answered as a missing user. *)
Example email_conflict_not_found :
  (run (get_or_create_user None 1 "new" None (Some "7@x.io"%string) None) team).1
    = inl (AppExc NotFoundError "Failed to get-or-create user 'new'").
Proof. by vm_compute. Qed.

(** A role set to null. *)
Example null_role :
  (run (handle by_staff (UpdateUser 10 (set_role None))) team).1 = inl IntegrityError.
Proof. by vm_compute. Qed.

(** A nested object is merged one level deep, and a null inside it is stored. *)
Example nested_null_is_stored :
  merge_metadata (u_metadata staff_row) [("plan"%string, JObj [("tier"%string, JNull)])]
  = [("plan"%string, JObj [("tier"%string, JNull); ("seats"%string, JInt 3)])].
Proof. by vm_compute. Qed.

(** Two demotions that count before either writes leave the organization without an
    administrator. *)
Definition demotion (id : uuid) : prog unit :=
  Effects.request (handle by_staff (UpdateUser id (set_role (Some "member"%string)))).
Example demotions_race :
  let turns := concat (repeat [0; 1]%nat 40) in
  admins_of (run (interleave turns [demotion 7; demotion 8]) team).2 = [].
Proof. by vm_compute. Qed.

Lemma admins_survive_witness :
  let s' := (run (serve_users [(0, (by_staff, UpdateUser 7 (set_role (Some "member"%string))));
                               (0, (by_staff, DeleteUser 8))]) team).2 in
  st_db s' = st_committed s' ∧ ∃ u, u ∈ st_db s' users ∧ is_active_admin 1 u = true.
Proof.
  apply (admins_survive _ 1 team); [done|].
  exists (member_row 7 "admin" [] (Some "h7"%string) None). split; [left|by vm_compute].
Defined.

Definition grant : UserUpdate := mkUserUpdate None None None None (Some (Some ["configuration:write"; "project:read"]%string)).
Definition staff_permissions : gset string := {["members:write"; "project:read"]}%string.
Lemma grants_capped_witness :
  let r := run (update_user true 1 10 grant 9 (Some staff_permissions)) team in
  ∃ resp t t', r.1 = inr resp ∧ t ∈ st_db team users ∧ u_id t = 10 ∧ u_organization_id t = 1 ∧ resp = _user_to_dict t' ∧
    st_db r.2 = set_table users (map (λ u, if u_id u =? 10 then t' else u) (st_db team users)) (st_db team) ∧
    within_bounds 10 9 (Some staff_permissions) t t'.
Proof.
  cbn zeta. set (r := run _ team). destruct r as [[e|resp] s'] eqn:E.
  { exfalso. assert (is_ok r.1 = true) as Hok by by vm_compute. by rewrite E in Hok. }
  exists resp. destruct (grants_capped true 1 10 9 grant (Some staff_permissions) resp team s')
    as (t & t' & Ht); [by apply (bool_decide_unpack _); vm_compute|done|exact E|].
  exists t, t'. by split.
Defined.
