(* ===== verification/Tokens.v ===== *)
(** services/auth/token.py over repositories/auth_repository.py: issuing token
    pairs, rotating refresh tokens and revoking a replayed token's family. *)
From S2P Require Import Prelude Errors Data Effects.
Open Scope Z_scope.

(** * Libraries and settings *)

(** The claims of an access token. *)
Record Claims := mkClaims {
  c_sub : string;
  c_org_id : string;
  c_role : string;
  c_mcp : bool;
  c_type : string;
  c_exp : Z;
  c_iat : Z;
}.

(** [jwt.encode] of PyJWT; nothing is assumed of it. *)
Class Jwt := { jwt_encode : Claims → string → string }.

Class Settings := {
  SECRET_KEY : string;
  JWT_ACCESS_TOKEN_TTL_MINUTES : Z;
  JWT_REFRESH_TOKEN_TTL_DAYS : Z;
}.

Definition minutes_us : Z := 60 * us_per_s.
Definition days_us : Z := 86400 * us_per_s.

Section tokens.
Context `{Hashlib} `{Jwt} `{Settings}.

Definition _access_token_ttl : Z := JWT_ACCESS_TOKEN_TTL_MINUTES * minutes_us.
Definition _refresh_token_ttl : Z := JWT_REFRESH_TOKEN_TTL_DAYS * days_us.
Definition _REFRESH_FAMILY_WALK_LIMIT : nat := 30.

Record TokenResponse := mkTokenResponse {
  access_token : string;
  refresh_token : string;
  expires_in : Z;
}.

(** utils/crypto.py *)
Definition create_jwt_token (data : Z → Z → Claims) (secret : string) (expires_delta : Z) :
    prog string :=
  now ← call Now;
  Ret (jwt_encode (data (now + expires_delta) now) secret).

(** * repositories/auth_repository.py: users and refresh tokens *)

Definition find_user_by_email (email : string) : prog (option User) :=
  rows ← call (Select users (λ u, bool_decide (u_email u = Some email) && negb (u_is_deleted u)));
  scalar_one_or_none rows.

Definition get_user_by_id (user_id : uuid) : prog (option User) :=
  rows ← call (Select users (λ u, (u_id u =? user_id) && negb (u_is_deleted u)));
  scalar_one_or_none rows.

Definition create_refresh_token (user_id organization_id : uuid) (token_hash : string)
    (expires_at : Z) : prog RefreshToken :=
  id ← uuid4;
  let rt := mkRefreshToken id (uuid_str user_id) organization_id token_hash expires_at false None in
  _ ← call (Insert refresh_tokens (no_arbiter refresh_tokens) [rt]);
  Ret rt.

Definition current (token_hash : string) (now : Z) (r : RefreshToken) : bool :=
  (rt_token_hash r =? token_hash)%string && negb (rt_is_revoked r) && (now <? rt_expires_at r).

Definition find_refresh_token (token_hash : string) : prog (option RefreshToken) :=
  now ← call Now;
  rows ← call (Select refresh_tokens (current token_hash now));
  scalar_one_or_none rows.

Definition get_refresh_token_by_hash (token_hash : string) : prog (option RefreshToken) :=
  rows ← call (Select refresh_tokens (λ r, rt_token_hash r =? token_hash)%string);
  scalar_one_or_none rows.

Definition get_refresh_token_by_id (token_id : uuid) : prog (option RefreshToken) :=
  rows ← call (Select refresh_tokens (λ r, rt_id r =? token_id));
  scalar_one_or_none rows.

Definition revoke_refresh_token_if_current (token_hash : string) : prog bool :=
  now ← call Now;
  rowcount ← call (Update refresh_tokens (current token_hash now) revoke);
  Ret (rowcount =? 1).

Definition set_refresh_token_rotated_by (token_id rotated_by : uuid) : prog unit :=
  _ ← call (Update refresh_tokens (λ r, rt_id r =? token_id) (with_rotated_by rotated_by));
  Ret tt.

Definition revoke_refresh_token_ids (token_ids : list uuid) : prog Z :=
  match token_ids with
  | [] => Ret 0
  | _ => call (Update refresh_tokens
           (λ r, bool_decide (rt_id r ∈ token_ids) && negb (rt_is_revoked r)) revoke)
  end.

(** The successor is parsed from a text. *)
Definition revoke_refresh_token (token_id : uuid) (rotated_by : option string) : prog unit :=
  rt ← get_refresh_token_by_id token_id;
  match rt with
  | None => Ret tt
  | Some _ =>
      match rotated_by with
      | None => _ ← call (Update refresh_tokens (λ r, rt_id r =? token_id) revoke); Ret tt
      | Some s =>
          match uuid_parse s with
          | None => Throw (ValueError "badly formed hexadecimal UUID string")
          | Some n =>
              _ ← call (Update refresh_tokens (λ r, rt_id r =? token_id)
                (λ r, with_rotated_by n (revoke r)));
              Ret tt
          end
      end
  end.

Definition revoke_all_refresh_tokens (user_id : uuid) : prog unit :=
  _ ← call (Update refresh_tokens
    (λ r, (rt_user_id r =? uuid_str user_id)%string && negb (rt_is_revoked r)) revoke);
  Ret tt.

(** repositories/organization_repository.py *)
Definition set_tenant_context (org_id : uuid) : prog unit := call (SetTenant (Some org_id)).

(** * services/auth/token.py *)

Definition _hash_refresh_token (raw : string) : string := sha256_hexdigest raw.

Definition issue_tokens (user_id organization_id : uuid) (role : string) : prog TokenResponse :=
  _ ← set_tenant_context organization_id;
  user ← get_user_by_id user_id;
  let must_change_password := match user with Some u => u_must_change_password u | None => false end in
  now ← call Now;
  access ← create_jwt_token
    (mkClaims (uuid_str user_id) (uuid_str organization_id) role must_change_password "access")
    SECRET_KEY _access_token_ttl;
  raw_refresh ← token_hex_32;
  _ ← create_refresh_token user_id organization_id (_hash_refresh_token raw_refresh)
        (now + _refresh_token_ttl);
  Ret (mkTokenResponse access raw_refresh (_access_token_ttl / us_per_s)).

(** The walk of [_revoke_family]: the ids seen so far, newest last, and the node. *)
Fixpoint family_walk (hops : nat) (family_ids : list uuid) (node : RefreshToken) : prog (list uuid) :=
  match hops with
  | O => Ret family_ids
  | S k =>
      match rt_rotated_by node with
      | None => Ret family_ids
      | Some n =>
          if bool_decide (n ∈ family_ids) then Ret family_ids
          else
            successor ← get_refresh_token_by_id n;
            match successor with
            | None => Ret (family_ids ++ [n])
            | Some node' => family_walk k (family_ids ++ [n]) node'
            end
      end
  end.

Definition _revoke_family (token_hash : string) : prog unit :=
  presented ← get_refresh_token_by_hash token_hash;
  match presented with
  | None => Ret tt
  | Some p =>
      family_ids ← family_walk _REFRESH_FAMILY_WALK_LIMIT [rt_id p] p;
      _ ← revoke_refresh_token_ids family_ids;
      call Commit
  end.

Definition refresh_rejected {A} : prog A :=
  Throw (AppExc AuthenticationError "Refresh token is invalid or has expired.").

Definition refresh (raw_token : string) : prog TokenResponse :=
  let token_hash := _hash_refresh_token raw_token in
  claimed ← revoke_refresh_token_if_current token_hash;
  if negb (claimed : bool) then
    _ ← _revoke_family token_hash;
    refresh_rejected
  else
    stored ← get_refresh_token_by_hash token_hash;
    match stored with
    | None => refresh_rejected
    | Some stored =>
        _ ← set_tenant_context (rt_organization_id stored);
        match uuid_parse (rt_user_id stored) with
        | None => Throw (ValueError "badly formed hexadecimal UUID string")
        | Some user_id =>
            user ← get_user_by_id user_id;
            match user with
            | None => Throw (AppExc AuthenticationError "User no longer exists.")
            | Some u =>
                if negb (u_is_active u) || u_is_deleted u then
                  Throw (AppExc AuthenticationError "This account has been deactivated.")
                else
                  new_tokens ← issue_tokens user_id (rt_organization_id stored)
                    (default "member"%string (u_role u));
                  new_stored ← get_refresh_token_by_hash
                    (_hash_refresh_token (refresh_token new_tokens));
                  _ ← match new_stored with
                      | None => Ret tt
                      | Some n => set_refresh_token_rotated_by (rt_id stored) (rt_id n)
                      end;
                  Ret new_tokens
            end
        end
    end.

(** * One winner per refresh token *)

Definition tokens_of (s : state) : list RefreshToken := st_db s refresh_tokens.

(** The unique index on the digest. *)
Definition unique_hashes (s : state) : Prop := NoDup (map rt_token_hash (tokens_of s)).

(** The token with digest [h] is there and revoked. *)
Definition spent (h : string) (s : state) : Prop :=
  unique_hashes s ∧ ∃ r, r ∈ tokens_of s ∧ rt_token_hash r = h ∧ rt_is_revoked r = true.

Lemma existsb_no_arbiter t r l : existsb (no_arbiter t r) l = false.
Proof. by induction l. Qed.

Lemma insert_token_tokens rt (s : state) :
  let s' := (op_sem (Insert refresh_tokens (no_arbiter refresh_tokens) [rt]) s).2 in
  tokens_of s' = tokens_of s ∨
  (existsb (row_conflict refresh_tokens rt) (tokens_of s) = false ∧ tokens_of s' = tokens_of s ++ [rt]).
Proof.
  unfold tokens_of, op_sem. cbn [insert_rows insert_check negb orb]. rewrite existsb_no_arbiter.
  destruct (existsb (row_conflict refresh_tokens rt) (st_db s refresh_tokens)).
  - by left.
  - right. by cbn.
Qed.

(** An update that keeps digests and never clears the revocation. *)
Definition monotone (f : RefreshToken → RefreshToken) : Prop :=
  ∀ r, rt_token_hash (f r) = rt_token_hash r ∧ (rt_is_revoked r = true → rt_is_revoked (f r) = true).

Lemma update_tokens (p : RefreshToken → bool) (f : RefreshToken → RefreshToken) (s : state) :
  tokens_of (op_sem (Update refresh_tokens p f) s).2 = map (λ r, if p r then f r else r) (tokens_of s).
Proof. done. Qed.

Lemma monotone_revoke : monotone revoke.
Proof. done. Qed.

Lemma monotone_rotated n : monotone (with_rotated_by n).
Proof. done. Qed.

Lemma update_hashes (p : RefreshToken → bool) (f : RefreshToken → RefreshToken) l :
  monotone f → map rt_token_hash (map (λ r, if p r then f r else r) l) = map rt_token_hash l.
Proof.
  intros Hf. rewrite map_map. apply map_ext. intros r. destruct (p r); [apply Hf|done].
Qed.

(** What the calls of a refresh preserve. *)
Definition steady_tokens (I : state → Prop) : Prop :=
  (∀ s s', tokens_of s' = tokens_of s → I s → I s') ∧
  (∀ (p : RefreshToken → bool) f s, monotone f → I s → I (op_sem (Update refresh_tokens p f) s).2) ∧
  (∀ rt s, I s → I (op_sem (Insert refresh_tokens (no_arbiter refresh_tokens) [rt]) s).2).

Lemma unique_steady : steady_tokens unique_hashes.
Proof.
  unfold unique_hashes. split_and!.
  - by intros s s' ->.
  - intros p f s Hf Hu. by rewrite update_tokens, update_hashes.
  - intros rt s Hu. destruct (insert_token_tokens rt s) as [->|[Hc ->]]; [done|].
    rewrite map_app. apply NoDup_app. split; [done|]. split; [|apply NoDup_singleton].
    intros h Hin Hh. apply list_elem_of_singleton in Hh as ->.
    apply list_elem_of_fmap in Hin as (r & Hr & Hin).
    assert (existsb (row_conflict refresh_tokens rt) (tokens_of s) = true) as Hx; [|congruence].
    apply existsb_exists. exists r. split; [by apply list_elem_of_In|].
    cbn. rewrite Hr. by rewrite String.eqb_refl, orb_true_r.
Qed.

Lemma spent_steady h : steady_tokens (spent h).
Proof.
  unfold spent. destruct unique_steady as (U1 & U2 & U3). split_and!.
  - intros s s' E [Hu Hr]. split; [by eapply U1|]. by rewrite E.
  - intros p f s Hf [Hu (r & Hin & Hh & Hr)]. split; [by apply U2|].
    exists (if p r then f r else r). rewrite update_tokens. split_and!.
    + apply list_elem_of_fmap. by exists r.
    + destruct (p r); [|done]. by rewrite (proj1 (Hf r)).
    + destruct (p r); [|done]. by apply Hf.
  - intros rt s [Hu (r & Hin & Hh & Hr)]. split; [by apply U3|]. exists r. split_and!; try done.
    destruct (insert_token_tokens rt s) as [->|[_ ->]]; [done|].
    apply elem_of_app. by left.
Qed.

(** ** The programs of a refresh keep these invariants *)

Lemma keeps_same_tokens {X} I (o : op X) :
  steady_tokens I → (∀ s, tokens_of (op_sem o s).2 = tokens_of s) → keeps I (call o).
Proof. intros (HI & _) Ho. apply keeps_call. intros s. by apply HI. Qed.

Ltac keeps_tac HI :=
  repeat first
    [ done
    | apply keeps_scalar
    | apply keeps_bind; [|intros]
    | apply (keeps_same_tokens _ _ HI); done
    | apply keeps_call; intros; apply HI; done
    | progress intros
    | case_match ].

Lemma keeps_issue I u o role : steady_tokens I → keeps I (issue_tokens u o role).
Proof.
  intros HI. unfold issue_tokens, set_tenant_context, get_user_by_id, create_jwt_token,
    token_hex_32, create_refresh_token, uuid4. keeps_tac HI.
Qed.

Lemma keeps_walk I k ids node : steady_tokens I → keeps I (family_walk k ids node).
Proof.
  intros HI. revert ids node; induction k as [|k IH]; intros ids node; [done|]. cbn [family_walk].
  destruct (rt_rotated_by node) as [n|]; [|done]. case_match; [done|].
  apply keeps_bind; [unfold get_refresh_token_by_id; keeps_tac HI|]. by intros [|].
Qed.

Lemma keeps_revoke_family I h : steady_tokens I → keeps I (_revoke_family h).
Proof.
  intros HI. unfold _revoke_family, get_refresh_token_by_hash, revoke_refresh_token_ids.
  repeat first [apply keeps_walk; done | progress keeps_tac HI].
Qed.

(** What follows the claim. *)
Definition after_claim (raw_token : string) (claimed : bool) : prog TokenResponse :=
  if negb claimed then
    _ ← _revoke_family (_hash_refresh_token raw_token);
    refresh_rejected
  else
    stored ← get_refresh_token_by_hash (_hash_refresh_token raw_token);
    match stored with
    | None => refresh_rejected
    | Some stored =>
        _ ← set_tenant_context (rt_organization_id stored);
        match uuid_parse (rt_user_id stored) with
        | None => Throw (ValueError "badly formed hexadecimal UUID string")
        | Some user_id =>
            user ← get_user_by_id user_id;
            match user with
            | None => Throw (AppExc AuthenticationError "User no longer exists.")
            | Some u =>
                if negb (u_is_active u) || u_is_deleted u then
                  Throw (AppExc AuthenticationError "This account has been deactivated.")
                else
                  new_tokens ← issue_tokens user_id (rt_organization_id stored)
                    (default "member"%string (u_role u));
                  new_stored ← get_refresh_token_by_hash
                    (_hash_refresh_token (refresh_token new_tokens));
                  _ ← match new_stored with
                      | None => Ret tt
                      | Some n => set_refresh_token_rotated_by (rt_id stored) (rt_id n)
                      end;
                  Ret new_tokens
            end
        end
    end.

(** A refresh whose conditional UPDATE is next, with the time it read. *)
Definition claiming (raw_token : string) (t : Z) : prog TokenResponse :=
  (rowcount ← call (Update refresh_tokens (current (_hash_refresh_token raw_token) t) revoke);
   Ret (rowcount =? 1)) ≫= after_claim raw_token.

Lemma refresh_eq raw :
  refresh raw = revoke_refresh_token_if_current (_hash_refresh_token raw) ≫= after_claim raw.
Proof. done. Qed.

Lemma keeps_after_claim I raw b : steady_tokens I → keeps I (after_claim raw b).
Proof.
  intros HI. unfold after_claim. destruct b; cbn [negb].
  - unfold get_refresh_token_by_hash, set_tenant_context, get_user_by_id,
      set_refresh_token_rotated_by.
    repeat first [apply keeps_issue; done | progress keeps_tac HI].
  - apply keeps_bind; [by apply keeps_revoke_family|done].
Qed.

Lemma never_ret_rejected raw : never_ret (after_claim raw false).
Proof. apply never_ret_bind. done. Qed.

Lemma spent_no_current h t (s : state) :
  spent h s → List.filter (current h t) (tokens_of s) = [].
Proof.
  intros [Hu (r & Hin & Hh & Hr)]. destruct (List.filter _ _) as [|x l] eqn:E; [done|exfalso].
  assert (x ∈ List.filter (current h t) (tokens_of s)) as Hx by (rewrite E; left).
  apply list_elem_of_In, filter_In in Hx as [Hxin Hc]. apply list_elem_of_In in Hxin.
  unfold current in Hc. apply andb_true_iff in Hc as [[Hxh%String.eqb_eq Hxr]%andb_true_iff _].
  assert (x = r) as -> by (eapply (NoDup_map_inj rt_token_hash); eauto; congruence).
  by rewrite Hr in Hxr.
Qed.

Lemma claim_spends h t (s : state) :
  unique_hashes s → Z.of_nat (length (List.filter (current h t) (tokens_of s))) = 1 →
  spent h (op_sem (Update refresh_tokens (current h t) revoke) s).2.
Proof.
  intros Hu Hn. split; [by apply unique_steady|].
  destruct (List.filter _ _) as [|x l] eqn:E; [discriminate Hn|].
  assert (x ∈ List.filter (current h t) (tokens_of s)) as Hx by (rewrite E; left).
  apply list_elem_of_In, filter_In in Hx as [Hxin Hc]. exists (revoke x).
  rewrite update_tokens. split_and!; [|by apply andb_true_iff in Hc as [[Hc%String.eqb_eq _]%andb_true_iff _]|done].
  apply list_elem_of_fmap. exists x. rewrite Hc. split; [done|]. by apply list_elem_of_In.
Qed.

(** ** Interleaved requests *)

(** A request that has not won: it waits for its claim, or it cannot return. *)
Definition pending_or_lost (raw : string) (p : prog TokenResponse) : Prop :=
  p = refresh raw ∨ (∃ t, p = claiming raw t) ∨
  (never_ret p ∧ ∀ I, steady_tokens I → keeps I p).

Definition all_but (ps : list (prog TokenResponse)) (won : option nat) (raw : string) : Prop :=
  ∀ i p, ps !! i = Some p → won ≠ Some i → pending_or_lost raw p.

(** At most one request has won, and then the token is spent. *)
Definition race_inv (raw : string) (ps : list (prog TokenResponse)) (s : state) : Prop :=
  unique_hashes s ∧
  (all_but ps None raw ∨
   ∃ i, all_but ps (Some i) raw ∧ spent (_hash_refresh_token raw) s ∧
     ∀ p I, ps !! i = Some p → steady_tokens I → keeps I p).

Lemma all_but_insert ps won raw i p' :
  all_but ps won raw → (won ≠ Some i → pending_or_lost raw p') → all_but (<[i := p']> ps) won raw.
Proof.
  intros Ha Hp j q Hj Hw. apply list_lookup_insert_Some in Hj as [(-> & -> & _)|[_ Hj]]; [auto|].
  by eapply Ha.
Qed.

(** One step of a request that has not won: it stays so, or it wins. *)
Lemma pending_step raw p p' (s s' : state) :
  unique_hashes s → pending_or_lost raw p → resume p s = Some (p', s') →
  unique_hashes s' ∧
  (pending_or_lost raw p' ∧ (spent (_hash_refresh_token raw) s → spent (_hash_refresh_token raw) s') ∨
   ¬ spent (_hash_refresh_token raw) s ∧ spent (_hash_refresh_token raw) s' ∧
   ∀ I, steady_tokens I → keeps I p').
Proof.
  intros Hu Hp Hr. destruct Hp as [->|[[t ->]|[Hn Hk]]].
  - injection Hr as <- <-. split; [done|]. left. split; [|done]. right; left. by exists (st_clock s).
  - set (n := Z.of_nat (length (List.filter (current (_hash_refresh_token raw) t) (tokens_of s)))).
    assert (p' = after_claim raw (n =? 1) ∧
      s' = (op_sem (Update refresh_tokens (current (_hash_refresh_token raw) t) revoke) s).2)
      as [-> ->] by (split; by injection Hr as <- <-).
    split; [by apply unique_steady|]. destruct (Z.eqb_spec n 1) as [Hn|Hn].
    + right. split_and!; [|by apply claim_spends|intros; by apply keeps_after_claim].
      intros Hs. unfold n in Hn. by rewrite (spent_no_current _ _ _ Hs) in Hn.
    + left. split; [|by apply spent_steady]. right; right.
      split; [apply never_ret_rejected|intros; by apply keeps_after_claim].
  - destruct (keeps_resume _ _ _ _ _ (Hk _ unique_steady) Hu Hr) as [_ Hu']. split; [done|]. left.
    split.
    + right; right. split; [by eapply never_ret_resume|]. intros I HI.
      destruct p as [a|e|X o k]; [done|done|]. injection Hr as <- <-. apply (Hk I HI).
    + intros Hs. by destruct (keeps_resume _ _ _ _ _ (Hk _ (spent_steady _)) Hs Hr).
Qed.

Lemma race_step raw ps s ps' s' :
  race_inv raw ps s → pstep (ps, s) (ps', s') → race_inv raw ps' s'.
Proof.
  intros [Hu Hi] [(i & p & p' & Hp & Hr & ->)|(-> & d & _ & ->)]%pstep_inv.
  2:{ split; [exact Hu|exact Hi]. }
  destruct Hi as [Ha|(w & Ha & Hs & Hw)].
  - destruct (pending_step raw p p' s s' Hu) as (Hu' & [[Hp' _]|(_ & Hs' & Hk)]); [by eapply Ha|done| |].
    + split; [done|]. left. by apply all_but_insert.
    + split; [done|]. right. exists i. split_and!; [|done|].
      * intros j q Hj Hne. apply list_lookup_insert_Some in Hj as [(-> & _)|[_ Hj]]; [done|].
        by eapply Ha.
      * intros q I Hq. apply list_lookup_insert_Some in Hq as [(_ & -> & _)|[? _]]; [apply Hk|done].
  - destruct (decide (i = w)) as [->|Hne].
    + destruct (keeps_resume _ _ _ _ _ (Hw p _ Hp unique_steady) Hu Hr) as [_ Hu'].
      destruct (keeps_resume _ _ _ _ _ (Hw p _ Hp (spent_steady (_hash_refresh_token raw))) Hs Hr)
        as [_ Hs'].
      split; [done|]. right. exists w. split_and!; [by apply all_but_insert|done|].
      intros q I Hq HI. apply list_lookup_insert_Some in Hq as [(_ & -> & _)|[? _]]; [|done].
      specialize (Hw p I Hp HI). destruct p as [a|e|X o k]; [done|done|].
      injection Hr as <- <-. apply Hw.
    + destruct (pending_step raw p p' s s' Hu) as (Hu' & [[Hp' Hs']|(Hns & _)]);
        [eapply Ha; [done|congruence]|done| |by destruct Hns].
      split; [done|]. right. exists w. split_and!; [by apply all_but_insert|auto|].
      intros q I Hq. rewrite list_lookup_insert_ne in Hq by done. by apply Hw.
Qed.

Lemma race_steps raw n s ps' s' :
  unique_hashes s → psteps (replicate n (refresh raw), s) (ps', s') → race_inv raw ps' s'.
Proof.
  intros Hu Hs. remember (replicate n (refresh raw), s) as c eqn:E.
  assert (race_inv raw c.1 c.2) as Hi.
  { subst c. split; [done|]. left. intros i p Hp _. apply lookup_replicate in Hp as [-> _]. by left. }
  clear E. change ps' with (ps', s').1. change s' with (ps', s').2 at 2.
  induction Hs as [c|[ps1 s1] [ps2 s2] c Hst _ IH]; [done|]. apply IH. by eapply race_step.
Qed.

(** * Rotation families *)

(** [l] is the chain of successors of [r] in the table, down to the leaf. *)
Fixpoint successors (rows : list RefreshToken) (r : RefreshToken) (l : list RefreshToken) : Prop :=
  match l with
  | [] => rt_rotated_by r = None
  | x :: t => rt_rotated_by r = Some (rt_id x) ∧ x ∈ rows ∧ successors rows x t
  end.

Definition unique_tokens (s : state) : Prop :=
  unique_hashes s ∧ NoDup (map rt_id (tokens_of s)).

Lemma run_scalar_single {A B} (x : A) (f : option A → prog B) (s : state) :
  run (scalar_one_or_none [x] ≫= f) s = run (f (Some x)) s.
Proof. done. Qed.

Lemma get_by_id_run x (s : state) :
  NoDup (map rt_id (tokens_of s)) → x ∈ tokens_of s →
  run (get_refresh_token_by_id (rt_id x)) s = (inr (Some x), s).
Proof.
  intros Hd Hin. unfold get_refresh_token_by_id. rewrite run_select.
  rewrite (filter_unique rt_id _ _ x Hd Hin); [done|apply Z.eqb_refl|].
  intros y Hy. by apply Z.eqb_eq.
Qed.

Lemma get_by_hash_run x (s : state) :
  unique_hashes s → x ∈ tokens_of s →
  run (get_refresh_token_by_hash (rt_token_hash x)) s = (inr (Some x), s).
Proof.
  intros Hd Hin. unfold get_refresh_token_by_hash. rewrite run_select.
  rewrite (filter_unique rt_token_hash _ _ x Hd Hin); [done|apply String.eqb_refl|].
  intros y Hy. by apply String.eqb_eq.
Qed.

(** The walk collects the first [k] successors. *)
Lemma family_walk_run k ids r l (s : state) :
  unique_tokens s → successors (tokens_of s) r l → NoDup (ids ++ map rt_id l) →
  run (family_walk k ids r) s = (inr (ids ++ map rt_id (take k l)), s).
Proof.
  intros [Hh Hu]. revert ids r l; induction k as [|k IH]; intros ids r l Hl Hd.
  { by rewrite take_0, app_nil_r. }
  cbn [family_walk]. destruct l as [|x l]; cbn in Hl.
  { rewrite Hl. cbn. by rewrite app_nil_r. }
  destruct Hl as (-> & Hin & Hl). cbn [map] in Hd.
  assert (rt_id x ∉ ids) as Hx.
  { apply NoDup_app in Hd as (_ & Hd & _). intros Hi. apply (Hd _ Hi). left. }
  rewrite bool_decide_false by done. rewrite run_bind, (get_by_id_run x s Hu Hin).
  rewrite (IH (ids ++ [rt_id x]) x l Hl) by (by rewrite <- app_assoc).
  by rewrite <- app_assoc.
Qed.

(** The table after the revocation of some ids. *)
Definition revoked_ids (ids : list uuid) (rows : list RefreshToken) : list RefreshToken :=
  map (λ r, if bool_decide (rt_id r ∈ ids) then revoke r else r) rows.

Lemma revoke_ids_rows ids rows :
  map (λ r, if bool_decide (rt_id r ∈ ids) && negb (rt_is_revoked r) then revoke r else r) rows
  = revoked_ids ids rows.
Proof.
  apply map_ext. intros r. destruct (bool_decide (rt_id r ∈ ids)); [|done].
  destruct r as [? ? ? ? ? [] ?]; done.
Qed.

Lemma not_current_claim h (s : state) r :
  unique_hashes s → r ∈ tokens_of s → rt_token_hash r = h →
  rt_is_revoked r = true ∨ rt_expires_at r ≤ st_clock s →
  run (revoke_refresh_token_if_current h) s = (inr false, s).
Proof.
  intros Hu Hin Hh Hr. unfold revoke_refresh_token_if_current. rewrite run_now.
  assert (∀ x, x ∈ tokens_of s → current h (st_clock s) x = false) as Hf.
  { intros x Hx. unfold current. destruct (String.eqb_spec (rt_token_hash x) h) as [E|]; [|done].
    assert (x = r) as -> by (eapply (NoDup_map_inj rt_token_hash); eauto; congruence).
    destruct Hr as [->|Hr]; [done|]. destruct (Z.ltb_spec (st_clock s) (rt_expires_at r)); [lia|].
    by rewrite andb_false_r. }
  by rewrite run_update_none.
Qed.

(** The family of a rejected token is revoked, and that is committed. *)
Lemma revoke_family_run p0 l (s : state) :
  unique_tokens s → p0 ∈ tokens_of s → successors (tokens_of s) p0 l →
  NoDup (map rt_id (p0 :: l)) →
  ∃ s', run (_revoke_family (rt_token_hash p0)) s = (inr tt, s') ∧ st_db s' = st_committed s' ∧
    st_db s' refresh_tokens
    = revoked_ids (map rt_id (p0 :: take _REFRESH_FAMILY_WALK_LIMIT l)) (tokens_of s).
Proof.
  intros Hu Hin Hl Hd. unfold _revoke_family.
  rewrite run_bind, (get_by_hash_run p0 s (proj1 Hu) Hin).
  rewrite run_bind, (family_walk_run _ [rt_id p0] p0 l s Hu Hl Hd). cbn [app].
  unfold revoke_refresh_token_ids. erewrite run_op by done. rewrite run_call.
  eexists. split; [reflexivity|]. split; [done|]. cbn -[_REFRESH_FAMILY_WALK_LIMIT take].
  exact (revoke_ids_rows (rt_id p0 :: map rt_id (take _REFRESH_FAMILY_WALK_LIMIT l)) (tokens_of s)).
Qed.

(** A replay as the request sees it: rejected, with the revocation committed. *)
Lemma replay_run raw p0 l (s : state) :
  unique_tokens s → p0 ∈ tokens_of s → rt_token_hash p0 = _hash_refresh_token raw →
  rt_is_revoked p0 = true ∨ rt_expires_at p0 ≤ st_clock s →
  successors (tokens_of s) p0 l → NoDup (map rt_id (p0 :: l)) →
  ∃ s', run (request (refresh raw)) s
      = (inl (AppExc AuthenticationError "Refresh token is invalid or has expired."), s') ∧
    st_committed s' refresh_tokens
    = revoked_ids (map rt_id (p0 :: take _REFRESH_FAMILY_WALK_LIMIT l)) (tokens_of s).
Proof.
  intros Hu Hin Hh Hr Hl Hd.
  destruct (revoke_family_run p0 l s Hu Hin Hl Hd) as (s' & Hf & Hc & Hrows).
  assert (run (refresh raw) s
    = (inl (AppExc AuthenticationError "Refresh token is invalid or has expired."), s')) as Hrun.
  { rewrite refresh_eq, run_bind, (not_current_claim _ s p0 (proj1 Hu) Hin Hh Hr).
    unfold after_claim. cbn [negb]. by rewrite run_bind, <- Hh, Hf. }
  unfold request, try_except. rewrite run_catch, run_bind, Hrun. cbn [is_exception].
  erewrite run_op by done. eexists. split; [reflexivity|]. cbn. by rewrite <- Hc.
Qed.

(** * Rotation *)

(** One row changed, found by its primary key. *)
Definition change_row (id : uuid) (f : RefreshToken → RefreshToken) (rows : list RefreshToken) :
    list RefreshToken := map (λ r, if rt_id r =? id then f r else r) rows.

Lemma change_row_in id f rows r :
  r ∈ rows → rt_id r = id → f r ∈ change_row id f rows.
Proof.
  intros Hin <-. apply list_elem_of_fmap. exists r. by rewrite Z.eqb_refl.
Qed.

Lemma change_row_keys {K} (key : RefreshToken → K) id f rows :
  (∀ r, key (f r) = key r) → map key (change_row id f rows) = map key rows.
Proof.
  intros Hf. unfold change_row. rewrite map_map. apply map_ext. intros r. by case_match.
Qed.

Lemma current_is_row h t p0 (s : state) :
  unique_tokens s → p0 ∈ tokens_of s → current h t p0 = true →
  List.filter (current h t) (tokens_of s) = [p0] ∧
  map (λ r, if current h t r then revoke r else r) (tokens_of s)
    = change_row (rt_id p0) revoke (tokens_of s).
Proof.
  intros [Hh Hi] Hin Hc.
  assert (∀ r, current h t r = true → rt_token_hash r = rt_token_hash p0) as Hk.
  { unfold current in *. intros r Hr.
    apply andb_true_iff in Hc as [[Hc%String.eqb_eq _]%andb_true_iff _].
    apply andb_true_iff in Hr as [[Hr%String.eqb_eq _]%andb_true_iff _]. congruence. }
  split; [by apply (filter_unique rt_token_hash)|].
  apply map_ext_in. intros r Hr%list_elem_of_In.
  destruct (Z.eqb_spec (rt_id r) (rt_id p0)) as [E|Hne].
  - assert (r = p0) as -> by (eapply (NoDup_map_inj rt_id); eauto). by rewrite Hc.
  - destruct (current h t r) eqn:E; [|done].
    assert (r = p0) as -> by (eapply (NoDup_map_inj rt_token_hash); eauto). done.
Qed.

(** What a rotation writes: the new row and the token pair. *)
Definition successor_row (s : state) (uid org : uuid) : RefreshToken :=
  mkRefreshToken (st_entropy s (S (st_drawn s)) mod 2 ^ 128) (uuid_str uid) org
    (_hash_refresh_token (hexn 64 (st_entropy s (st_drawn s) mod 16 ^ 64)))
    (st_clock s + _refresh_token_ttl) false None.

Definition issued (s : state) (uid org : uuid) (role : string) (mcp : bool) : TokenResponse :=
  mkTokenResponse
    (jwt_encode (mkClaims (uuid_str uid) (uuid_str org) role mcp "access"
      (st_clock s + _access_token_ttl) (st_clock s)) SECRET_KEY)
    (hexn 64 (st_entropy s (st_drawn s) mod 16 ^ 64)) (_access_token_ttl / us_per_s).

Lemma get_user_run u (s : state) :
  NoDup (map u_id (st_db s users)) → u ∈ st_db s users → u_is_deleted u = false →
  run (get_user_by_id (u_id u)) s = (inr (Some u), s).
Proof.
  intros Hd Hin Hdel. unfold get_user_by_id. rewrite run_select.
  rewrite (filter_unique u_id _ _ u Hd Hin); [done|by rewrite Hdel, Z.eqb_refl|].
  intros y Hy. apply andb_true_iff in Hy as [Hy _]. by apply Z.eqb_eq.
Qed.

(** Issuing a pair: one fresh row is added. *)
Lemma issue_tokens_run u org role (s : state) :
  NoDup (map u_id (st_db s users)) → u ∈ st_db s users → u_is_deleted u = false →
  existsb (row_conflict refresh_tokens (successor_row s (u_id u) org)) (tokens_of s) = false →
  ∃ s', run (issue_tokens (u_id u) org role) s
      = (inr (issued s (u_id u) org role (u_must_change_password u)), s') ∧
    tokens_of s' = tokens_of s ++ [successor_row s (u_id u) org] ∧ st_clock s' = st_clock s ∧
    st_redis s' = st_redis s ∧ st_db s' users = st_db s users.
Proof.
  intros Hd Hin Hdel Hf. unfold issue_tokens, set_tenant_context. erewrite run_op by done.
  rewrite run_bind, get_user_run by done. rewrite run_now. unfold create_jwt_token.
  rewrite run_bind, run_now. cbn [run]. unfold token_hex_32. rewrite run_bind.
  erewrite run_op by done. cbn [run]. unfold create_refresh_token, uuid4. rewrite run_bind.
  erewrite run_op by done.
  unfold tokens_of in Hf. erewrite run_op; [|cbn [op_sem insert_rows insert_check negb orb];
    cbn [st_db st_clock st_entropy st_drawn]; unfold successor_row in Hf; rewrite existsb_no_arbiter, Hf; reflexivity].
  eexists. split; [reflexivity|]. by split_and!.
Qed.

(** The final table of a rotation. *)
Definition rotated (p0 new : RefreshToken) (rows : list RefreshToken) : list RefreshToken :=
  change_row (rt_id p0) (λ r, with_rotated_by (rt_id new) (revoke r)) rows ++ [new].

Lemma fresh_unique new rows :
  NoDup (map rt_token_hash rows) → existsb (row_conflict refresh_tokens new) rows = false →
  NoDup (map rt_token_hash (rows ++ [new])) ∧ rt_id new ∉ map rt_id rows.
Proof.
  intros Hd Hf.
  assert (∀ r, r ∈ rows → rt_id r ≠ rt_id new ∧ rt_token_hash r ≠ rt_token_hash new) as Hn.
  { intros r Hr%list_elem_of_In. destruct (row_conflict refresh_tokens new r) eqn:E.
    - exfalso. assert (existsb (row_conflict refresh_tokens new) rows = true) as Hx; [|congruence].
      apply existsb_exists. by exists r.
    - apply orb_false_elim in E as [E1%Z.eqb_neq E2%String.eqb_neq]. split; congruence. }
  split.
  - rewrite map_app. apply NoDup_app. split; [done|]. split; [|apply NoDup_singleton].
    intros h Hin Hh. apply list_elem_of_singleton in Hh as ->.
    apply list_elem_of_fmap in Hin as (r & Hr & Hin). by apply (proj2 (Hn r Hin)).
  - intros Hin. apply list_elem_of_fmap in Hin as (r & Hr & Hin). by apply (proj1 (Hn r Hin)).
Qed.

Lemma conflict_change_row new id rows :
  existsb (row_conflict refresh_tokens new) (change_row id revoke rows)
  = existsb (row_conflict refresh_tokens new) rows.
Proof.
  induction rows as [|r rows IH]; [done|]. cbn [change_row map existsb]. fold (change_row id revoke rows).
  rewrite IH. by destruct (rt_id r =? id).
Qed.

Lemma change_twice id n new rows :
  rt_id new ∉ map rt_id rows → id ≠ rt_id new →
  change_row id (with_rotated_by n) (change_row id revoke rows ++ [new])
  = change_row id (λ r, with_rotated_by n (revoke r)) rows ++ [new].
Proof.
  intros Hn Hid. unfold change_row. rewrite map_app, map_map. cbn [map].
  destruct (Z.eqb_spec (rt_id new) id); [congruence|]. f_equal. apply map_ext. intros r.
  destruct (rt_id r =? id) eqn:E; cbn; by rewrite E.
Qed.

Lemma rotation_run raw p0 u (s : state) :
  let new := successor_row s (u_id u) (rt_organization_id p0) in
  unique_tokens s → p0 ∈ tokens_of s → rt_token_hash p0 = _hash_refresh_token raw →
  rt_is_revoked p0 = false → st_clock s < rt_expires_at p0 →
  uuid_parse (rt_user_id p0) = Some (u_id u) →
  NoDup (map u_id (st_db s users)) → u ∈ st_db s users →
  u_is_active u = true → u_is_deleted u = false →
  existsb (row_conflict refresh_tokens new) (tokens_of s) = false →
  ∃ s', run (request (refresh raw)) s
      = (inr (issued s (u_id u) (rt_organization_id p0) (default "member"%string (u_role u))
                (u_must_change_password u)), s') ∧
    st_committed s' refresh_tokens = rotated p0 new (tokens_of s).
Proof.
  intros new Hu Hin Hh Hr Hexp Hp Hdu Hinu Hact Hdel Hf.
  set (h := _hash_refresh_token raw) in *.
  assert (current h (st_clock s) p0 = true) as Hc.
  { unfold current. rewrite Hh, String.eqb_refl, Hr. by apply Z.ltb_lt. }
  destruct (current_is_row h (st_clock s) p0 s Hu Hin Hc) as [Hfil Hmap].
  destruct Hu as [Hhash Hid].
  set (s1 := set_db (set_table refresh_tokens (change_row (rt_id p0) revoke (tokens_of s)) (st_db s)) s).
  assert (run (revoke_refresh_token_if_current h) s = (inr true, s1)) as Hclaim.
  { unfold revoke_refresh_token_if_current. rewrite run_now.
    rewrite (run_op _ _ s 1 s1); [done|]. unfold op_sem, s1. f_equal.
    - f_equal. exact (f_equal (λ l, Z.of_nat (length l)) Hfil).
    - f_equal. f_equal. exact Hmap. }
  assert (unique_hashes s1) as Hu1.
  { unfold unique_hashes. change (tokens_of s1) with (change_row (rt_id p0) revoke (tokens_of s)).
    by rewrite change_row_keys. }
  assert (revoke p0 ∈ tokens_of s1) as Hin1 by by apply change_row_in.
  set (s2 := (op_sem (SetTenant (Some (rt_organization_id p0))) s1).2).
  destruct (issue_tokens_run u (rt_organization_id p0) (default "member"%string (u_role u)) s2)
    as (s3 & Hi & Ht3 & _); [done|done|done| |].
  { change (tokens_of s2) with (change_row (rt_id p0) revoke (tokens_of s)).
    rewrite conflict_change_row. exact Hf. }
  change (successor_row s2 (u_id u) (rt_organization_id p0)) with new in Ht3.
  change (tokens_of s2) with (change_row (rt_id p0) revoke (tokens_of s)) in Ht3.
  rewrite <- (conflict_change_row new (rt_id p0)) in Hf.
  destruct (fresh_unique new (change_row (rt_id p0) revoke (tokens_of s)) Hu1 Hf) as [Hu3 Hn].
  rewrite change_row_keys in Hn by done.
  assert (unique_hashes s3) as Hu3' by (unfold unique_hashes; by rewrite Ht3).
  assert (new ∈ tokens_of s3) as Hin3 by (rewrite Ht3; apply elem_of_app; right; left).
  unfold request, try_except. rewrite run_catch, run_bind, refresh_eq. fold h.
  rewrite run_bind, Hclaim.
  unfold after_claim. cbn [negb]. fold h. rewrite <- Hh.
  change (rt_token_hash p0) with (rt_token_hash (revoke p0)) at 1.
  rewrite run_bind, (get_by_hash_run _ s1 Hu1 Hin1). unfold set_tenant_context at 1.
  rewrite (run_op _ _ s1 tt s2) by done. cbn [rt_user_id rt_organization_id revoke]. rewrite Hp.
  rewrite run_bind, (get_user_run u s2) by done. rewrite Hact, Hdel. cbn [negb orb].
  rewrite run_bind, Hi, run_bind.
  match goal with |- context [get_refresh_token_by_hash ?x] => change x with (rt_token_hash new) end.
  rewrite (get_by_hash_run new s3 Hu3' Hin3). unfold set_refresh_token_rotated_by.
  rewrite run_bind. erewrite run_op by done. cbn [run]. erewrite run_op by done.
  eexists. split; [reflexivity|]. cbn -[with_rotated_by]. fold (tokens_of s3). rewrite Ht3.
  apply change_twice; [done|]. intros E. apply Hn. rewrite <- E. by apply list_elem_of_fmap_2.
Qed.

(** * Properties *)

(** C7. One winner: of any number of concurrent requests that present the same
    refresh token, interleaved at every await in any order, at most one ever
    returns a token pair. *)
Theorem refresh_one_winner raw n s ps' s' i j ti tj :
  unique_hashes s → psteps (replicate n (refresh raw), s) (ps', s') →
  ps' !! i = Some (Ret ti) → ps' !! j = Some (Ret tj) → i = j.
Proof.
  intros Hu Hs Hi Hj. destruct (race_steps _ _ _ _ _ Hu Hs) as [_ Hr].
  assert (∀ t, ¬ pending_or_lost raw (Ret t)) as Hn by (by intros t [?|[[? ?]|[? _]]]).
  destruct Hr as [Ha|(w & Ha & _)]; [by destruct (Hn _ (Ha _ _ Hi ltac:(done)))|].
  destruct (decide (w = i)) as [<-|Hne]; [|destruct (Hn _ (Ha _ _ Hi ltac:(congruence)))].
  destruct (decide (w = j)) as [->|Hne]; [done|destruct (Hn _ (Ha _ _ Hj ltac:(congruence)))].
Qed.

(** Rotation: a live token of an active user is exchanged for a new pair, and
    what is committed is the old row, revoked and chained to its successor, and the
    successor with the digest of the new token; the access token carries the user's
    role and must-change flag as the database has them. *)
Theorem refresh_rotates {W} `{World W} (w : W) raw p0 u :
  let s := abs w in
  let new := successor_row s (u_id u) (rt_organization_id p0) in
  steady w → unique_tokens s → p0 ∈ tokens_of s → rt_token_hash p0 = _hash_refresh_token raw →
  rt_is_revoked p0 = false → st_clock s < rt_expires_at p0 →
  uuid_parse (rt_user_id p0) = Some (u_id u) →
  NoDup (map u_id (st_db s users)) → u ∈ st_db s users →
  u_is_active u = true → u_is_deleted u = false →
  existsb (row_conflict refresh_tokens new) (tokens_of s) = false →
  let r := run (request (refresh raw)) w in
  r.1 = inr (issued s (u_id u) (rt_organization_id p0) (default "member"%string (u_role u))
               (u_must_change_password u)) ∧
  st_committed (abs r.2) refresh_tokens = rotated p0 new (tokens_of s).
Proof.
  intros s new Hs Hu Hin Hh Hr Hexp Hp Hdu Hinu Hact Hdel Hf r.
  destruct (run_steady (request (refresh raw)) w Hs) as (E1 & E2 & _).
  destruct (rotation_run raw p0 u s Hu Hin Hh Hr Hexp Hp Hdu Hinu Hact Hdel Hf) as (s' & Hrun & Hc).
  fold r in E1, E2. rewrite E1, E2. fold s. by rewrite Hrun.
Qed.

(** C8. A replayed token takes its family down: presenting a revoked or expired
    token is rejected, and although the request's transaction is rolled back, the
    table is committed with that token and its first thirty successors revoked and
    every other row as it was. *)
Theorem replay_revokes_family {W} `{World W} (w : W) raw p0 l :
  let s := abs w in
  steady w → unique_tokens s → p0 ∈ tokens_of s → rt_token_hash p0 = _hash_refresh_token raw →
  rt_is_revoked p0 = true ∨ rt_expires_at p0 ≤ st_clock s →
  successors (tokens_of s) p0 l → NoDup (map rt_id (p0 :: l)) →
  let r := run (request (refresh raw)) w in
  r.1 = inl (AppExc AuthenticationError "Refresh token is invalid or has expired.") ∧
  st_committed (abs r.2) refresh_tokens = revoked_ids (map rt_id (p0 :: take 30 l)) (tokens_of s).
Proof.
  intros s Hs Hu Hin Hh Hr Hl Hd r.
  destruct (run_steady (request (refresh raw)) w Hs) as (E1 & E2 & _).
  destruct (replay_run raw p0 l s Hu Hin Hh Hr Hl Hd) as (s' & Hrun & Hc).
  fold r in E1, E2. rewrite E1, E2. fold s. by rewrite Hrun.
Qed.

(** The walk stops after thirty hops: when a token more than thirty rotations
    old is replayed, the live end of its family stays live in the committed
    table. *)
Theorem old_replay_spares_live_leaf (s : state) raw p0 l leaf :
  unique_tokens s → p0 ∈ tokens_of s → rt_token_hash p0 = _hash_refresh_token raw →
  rt_is_revoked p0 = true → successors (tokens_of s) p0 l → NoDup (map rt_id (p0 :: l)) →
  leaf ∈ drop 30 l → leaf ∈ tokens_of s → rt_is_revoked leaf = false →
  let r := run (request (refresh raw)) s in
  r.1 = inl (AppExc AuthenticationError "Refresh token is invalid or has expired.") ∧
  leaf ∈ st_committed (abs r.2) refresh_tokens.
Proof.
  intros Hu Hin Hh Hr Hl Hd Hleaf Hinl Hlive r. unfold r.
  destruct (replay_run raw p0 l s Hu Hin Hh (or_introl Hr) Hl Hd) as (s' & -> & Hc).
  split; [done|]. cbn [snd abs state_world id]. rewrite Hc.
  apply list_elem_of_fmap. exists leaf. split; [|done].
  rewrite bool_decide_false; [done|]. intros Hx. change 30%nat with _REFRESH_FAMILY_WALK_LIMIT in Hleaf.
  rewrite <- (take_drop _REFRESH_FAMILY_WALK_LIMIT l) in Hd.
  change (p0 :: take ?n l ++ drop ?m l) with ((p0 :: take n l) ++ drop m l) in Hd.
  rewrite map_app in Hd. apply NoDup_app in Hd as (_ & Hd & _). apply (Hd _ Hx).
  by apply list_elem_of_fmap_2.
Qed.
End tokens.

(** * Witnesses *)

Definition plain_jwt : Jwt := {| jwt_encode := λ c k, c_sub c +:+ "." +:+ c_role c +:+ "." +:+ k |}.
Definition default_settings : Settings := {|
  SECRET_KEY := "secret"; JWT_ACCESS_TOKEN_TTL_MINUTES := 30; JWT_REFRESH_TOKEN_TTL_DAYS := 7 |}.
Definition hash_mark : Hashlib := {| sha256_hexdigest := λ s, "#" +:+ s |}.

(** A chain of [n] rotations, the newest token live: token [i] has the raw text [i]. *)
Definition chain_token (n i : nat) : RefreshToken :=
  mkRefreshToken (Z.of_nat i + 1000) (uuid_str 7) 1 ("#" +:+ decn 4 (Z.of_nat i)) 1000000000
    (bool_decide (i ≠ n)) (if decide (i = n) then None else Some (Z.of_nat i + 1001)).

Definition chain_state (n : nat) : state :=
  set_db (set_table refresh_tokens (map (chain_token n) (seq 0 (S n)))
    (set_table users [mkUser 7 1 "ext" None None (Some "admin"%string) None None true false false true
                        false None 0 []] (st_db empty_state))) empty_state.

(** Evaluate the distinctness of a concrete list. *)
Ltac by_nodup :=
  unfold unique_hashes;
  match goal with |- NoDup ?l => apply (bool_decide_eq_true_1 (NoDup l)); vm_compute; reflexivity end.

Lemma chain_hashes : unique_hashes (chain_state 32).
Proof. by_nodup. Qed.

Lemma chain_unique : unique_tokens (chain_state 32).
Proof. split; [apply chain_hashes|]. by_nodup. Qed.

Lemma chain_one : unique_tokens (chain_state 0).
Proof. split; by_nodup. Qed.

Lemma refresh_one_winner_witness :
  let two := replicate 2 (refresh (H := hash_mark) (H0 := plain_jwt) (H1 := default_settings) "0000") in
  ∃ ps' s' t, psteps (two, chain_state 0) (ps', s') ∧ ps' !! 0%nat = Some (Ret t) ∧
    ∀ j tj, ps' !! j = Some (Ret tj) → 0%nat = j.
Proof.
  pose proof (run_psteps 0 (refresh (H := hash_mark) (H0 := plain_jwt) (H1 := default_settings) "0000")
    (replicate 2 (refresh (H := hash_mark) (H0 := plain_jwt) (H1 := default_settings) "0000"))
    (chain_state 0) eq_refl) as Hs.
  eexists _, _, _. split; [exact Hs|]. split; [vm_compute; reflexivity|]. intros j tj Hj.
  refine (refresh_one_winner (H := hash_mark) (H0 := plain_jwt) (H1 := default_settings) "0000" 2
    (chain_state 0) _ _ 0 j _ tj (proj1 chain_one) Hs _ Hj). vm_compute. reflexivity.
Defined.

Definition chain_user : User :=
  mkUser 7 1 "ext" None None (Some "admin"%string) None None true false false true false None 0 [].

Lemma refresh_rotates_witness :
  let r := run (request (refresh (H := hash_mark) (H0 := plain_jwt) (H1 := default_settings) "0000"))
    (chain_state 0) in
  let s := abs (chain_state 0) in
  r.1 = inr (issued (H0 := plain_jwt) (H1 := default_settings) s (u_id chain_user) 1
               (default "member"%string (u_role chain_user)) false) ∧
  st_committed (abs r.2) refresh_tokens
  = rotated (chain_token 0 0)
      (successor_row (H := hash_mark) (H1 := default_settings) s (u_id chain_user) 1) (tokens_of s).
Proof.
  apply (refresh_rotates (H := hash_mark) (H0 := plain_jwt) (H1 := default_settings) (chain_state 0)
    "0000" (chain_token 0 0) chain_user).
  - exact I.
  - apply chain_one.
  - left.
  - reflexivity.
  - reflexivity.
  - reflexivity.
  - vm_compute. reflexivity.
  - apply NoDup_singleton.
  - left.
  - reflexivity.
  - reflexivity.
  - vm_compute. reflexivity.
Defined.

Definition chain_tail : list RefreshToken := map (chain_token 32) (seq 1 32).

Lemma chain_linked : successors (tokens_of (chain_state 32)) (chain_token 32 0) chain_tail.
Proof.
  assert (∀ i, (i ≤ 32)%nat → chain_token 32 i ∈ tokens_of (chain_state 32)) as Hin.
  { intros i Hi. apply list_elem_of_fmap. exists i. split; [done|]. apply elem_of_seq. lia. }
  unfold chain_tail.
  repeat (cbn [seq map successors]; split; [reflexivity|split; [apply Hin; lia|]]). reflexivity.
Qed.

Lemma chain_ids : NoDup (map rt_id (chain_token 32 0 :: chain_tail)).
Proof. by_nodup. Qed.

Lemma replay_revokes_family_witness :
  let r := run (request (refresh (H := hash_mark) (H0 := plain_jwt) (H1 := default_settings) "0000"))
    (chain_state 32) in
  r.1 = inl (AppExc AuthenticationError "Refresh token is invalid or has expired.") ∧
  st_committed (abs r.2) refresh_tokens
  = revoked_ids (map rt_id (chain_token 32 0 :: take 30 chain_tail)) (tokens_of (abs (chain_state 32))).
Proof.
  apply (replay_revokes_family (H := hash_mark) (H0 := plain_jwt) (H1 := default_settings)
    (chain_state 32) "0000" (chain_token 32 0) chain_tail).
  - exact I.
  - apply chain_unique.
  - left.
  - reflexivity.
  - left. reflexivity.
  - apply chain_linked.
  - apply chain_ids.
Defined.

Lemma old_replay_spares_live_leaf_witness :
  let r := run (request (refresh (H := hash_mark) (H0 := plain_jwt) (H1 := default_settings) "0000"))
    (chain_state 32) in
  r.1 = inl (AppExc AuthenticationError "Refresh token is invalid or has expired.") ∧
  chain_token 32 32 ∈ st_committed (abs r.2) refresh_tokens.
Proof.
  apply (old_replay_spares_live_leaf (H := hash_mark) (H0 := plain_jwt) (H1 := default_settings)
    (chain_state 32) "0000" (chain_token 32 0) chain_tail (chain_token 32 32)).
  - apply chain_unique.
  - left.
  - reflexivity.
  - reflexivity.
  - apply chain_linked.
  - apply chain_ids.
  - right. left.
  - apply list_elem_of_fmap. exists 32%nat. split; [reflexivity|]. apply elem_of_seq. lia.
  - reflexivity.
Defined.

(** The surviving token still buys a new pair after the replay. *)
Example surviving_leaf_refreshes :
  let s := (run (request (refresh (H := hash_mark) (H0 := plain_jwt) (H1 := default_settings) "0000"))
    (chain_state 32)).2 in
  is_ok (run (request (refresh (H := hash_mark) (H0 := plain_jwt) (H1 := default_settings) "0032")) s).1
  = true.
Proof. vm_compute. reflexivity. Qed.
