(* ===== verification/Session.v ===== *)
(** services/auth/session.py, password.py and passwordless.py: password, e-mail
    code and MFA logins, changing and resetting a password. *)
From S2P Require Import Prelude Errors Data Effects Json Throttle Otp Rbac Tokens.
Open Scope Z_scope.

(** bcrypt: hashing with a salt, and checking, which raises [ValueError] (here
    [None]) on a malformed hash. *)
Class Bcrypt := {
  hashpw : string → Z → string;
  checkpw : string → string → option bool;
}.

Section session.
Context `{Hashlib} `{Jwt} `{Settings} `{Bcrypt}.

(** * utils/password.py *)

Definition hash_password (password : string) : prog string :=
  match password with
  | EmptyString => Throw (ValueError "Password must not be empty")
  | _ => salt ← call (Draw (2 ^ 128)); Ret (hashpw password salt)
  end.

Definition verify_password (password hashed : string) : bool :=
  default false (checkpw password hashed).

(** * repositories/auth_repository.py: changes of a user row *)

(** Assign to the row [get_user_by_id] loaded; [NotFoundError] without one. *)
Definition assign_user (user_id : uuid) (f : User → User) : prog User :=
  user ← get_user_by_id user_id;
  match user with
  | None => Throw (AppExc NotFoundError "Dashboard user not found.")
  | Some u => _ ← call (Update users (λ r, u_id r =? u_id u) f); Ret (f u)
  end.

Definition mark_email_verified (user_id : uuid) : prog User :=
  assign_user user_id (with_email_verified true).
Definition reset_email_verification (user_id : uuid) : prog User :=
  assign_user user_id (with_email_verified false).
Definition set_mfa_enabled (user_id : uuid) (enabled : bool) : prog User :=
  assign_user user_id (with_mfa_enabled enabled).
Definition update_dashboard_user (user_id : uuid) (name email password_hash : option string)
    (must_change_password : option bool) : prog User :=
  assign_user user_id (with_profile name email password_hash must_change_password).

(** * services/auth/session.py *)

Definition auth_error {A} (msg : string) : prog A := Throw (AppExc AuthenticationError msg).

Definition _MFA_SESSION_TTL_SEC : Z := 600.

Record LoginResponse := mkLoginResponse {
  l_tokens : option TokenResponse;
  l_requires_mfa : bool;
  l_mfa_session_token : option string;
}.

Definition mfa_session_key (token : string) : string := "mfa:session:" +:+ token.

Definition session_data (u : User) (role email : string) : json :=
  JObj [("user_id", JStr (uuid_str (u_id u))); ("org_id", JStr (uuid_str (u_organization_id u)));
        ("role", JStr role); ("email", JStr email)]%string.

Definition login (email password : string) : prog LoginResponse :=
  user ← find_user_by_email email;
  match user with
  | None => auth_error "Invalid email or password."
  | Some u =>
      match u_password_hash u with
      | None => auth_error "This user does not have password authentication enabled."
      | Some h =>
          if negb (verify_password password h) then auth_error "Invalid email or password."
          else if negb (u_is_active u) || u_is_deleted u then
            auth_error "This account has been deactivated."
          else if negb (u_is_email_verified u) then
            auth_error "Email not verified. Please check your inbox for the verification code, or request a new one."
          else
            let role := default "member"%string (u_role u) in
            if u_mfa_enabled u then
              session_token ← token_hex_32;
              _ ← generate_and_send email mfa;
              _ ← redis (ks_setex (mfa_session_key session_token) _MFA_SESSION_TTL_SEC
                    (dumps (session_data u role email)));
              Ret (mkLoginResponse None true (Some session_token))
            else
              tokens ← issue_tokens (u_id u) (u_organization_id u) role;
              Ret (mkLoginResponse (Some tokens) false None)
      end
  end.

(** [session_data[key]] of a decoded session. *)
Definition obj_item (key : string) (l : list (string * json)) : prog json :=
  match obj_get key l with Some v => Ret v | None => Throw (KeyError key) end.

(** [uuid.UUID(v)] of a decoded value. *)
Definition json_uuid (v : json) : prog uuid :=
  match v with
  | JStr s =>
      match uuid_parse s with
      | Some u => Ret u
      | None => Throw (ValueError "badly formed hexadecimal UUID string")
      end
  | _ => Throw (TypeError "UUID of a value that is no text")
  end.

Definition session_expired {A} : prog A :=
  auth_error "MFA session has expired or is invalid. Please log in again.".

(** The session is gone once it decodes, whatever happens next. A decoded value that
    is no object, or an e-mail or role that is no text, raises further on. *)
Definition mfa_verify (otp mfa_session_token : string) : prog TokenResponse :=
  let redis_key := mfa_session_key mfa_session_token in
  session_raw ← redis (ks_get redis_key);
  match session_raw with
  | None => session_expired
  | Some raw =>
      match loads raw with
      | None => Throw (ValueError "JSONDecodeError")
      | Some v =>
          _ ← redis (ks_delete [redis_key]);
          match v with
          | JObj l =>
              let session_email := default JNull (obj_get "email" l) in
              if negb (truthy session_email) then session_expired
              else match session_email with
              | JStr session_email =>
                  verified ← verify session_email mfa otp;
                  if negb (verified : bool) then
                    auth_error "Invalid or expired MFA code. Please request a new code during login."
                  else
                    user ← obj_item "user_id" l; user_id ← json_uuid user;
                    org ← obj_item "org_id" l; org_id ← json_uuid org;
                    role ← obj_item "role" l;
                    match role with
                    | JStr role => issue_tokens user_id org_id role
                    | _ => Throw (TypeError "role of a session that is no text")
                    end
              | _ => Throw (TypeError "email of a session that is no text")
              end
          | _ => Throw (TypeError "session that is no object")
          end
      end
  end.

(** Load the user and check the current password. *)
Definition reauthenticated (user_id : uuid) (password : string) : prog User :=
  user ← get_user_by_id user_id;
  match user with
  | None => Throw (AppExc NotFoundError "Dashboard user not found.")
  | Some u =>
      if match u_password_hash u with None => true | Some h => negb (verify_password password h) end
      then auth_error "Current password is incorrect."
      else Ret u
  end.

Definition enable_mfa (user_id : uuid) (password : string) : prog string :=
  u ← reauthenticated user_id password;
  _ ← set_mfa_enabled user_id true;
  _ ← generate_and_send (default "" (u_email u)) mfa;
  Ret "MFA has been enabled. Future logins will require a verification code sent to your email."%string.

Definition disable_mfa (user_id : uuid) (password otp : string) : prog string :=
  u ← reauthenticated user_id password;
  verified ← verify (default "" (u_email u)) mfa otp;
  if negb (verified : bool) then auth_error "Invalid MFA code. Please request a new code."
  else
    _ ← set_mfa_enabled user_id false;
    _ ← invalidate (default "" (u_email u)) mfa;
    Ret "MFA has been disabled."%string.

(** * services/auth/password.py *)

Definition weak {A} (msg : string) : prog A := Throw (AppExc ValidationError msg).

Definition _validate_password (password : string) : prog unit :=
  if str_len password <? 8 then weak "Password must be at least 8 characters long."
  else if negb (str_exists is_upper password) then
    weak "Password must contain at least one uppercase letter."
  else if negb (str_exists is_lower password) then
    weak "Password must contain at least one lowercase letter."
  else if negb (str_exists is_digit_char password) then
    weak "Password must contain at least one digit."
  else Ret tt.

Definition change_password (user_id : uuid) (old_password new_password : string) :
    prog TokenResponse :=
  user ← get_user_by_id user_id;
  match user with
  | None => Throw (AppExc NotFoundError "Dashboard user not found.")
  | Some u =>
      match u_password_hash u with
      | None => weak "This account does not have a password set."
      | Some h =>
          if negb (verify_password old_password h) then auth_error "Current password is incorrect."
          else
            _ ← _validate_password new_password;
            new_hash ← hash_password new_password;
            _ ← update_dashboard_user user_id None None (Some new_hash) (Some false);
            _ ← revoke_all_refresh_tokens user_id;
            _ ← invalidate_must_change_password (u_organization_id u) user_id;
            issue_tokens user_id (u_organization_id u) (default "member"%string (u_role u))
      end
  end.

Definition forgot_password (email : string) : prog string :=
  let answer := "If an account exists with this email, a password reset code has been sent."%string in
  user ← find_user_by_email email;
  match user with
  | Some u =>
      match u_password_hash u with
      | Some _ => _ ← generate_and_send email password_reset; Ret answer
      | None => Ret answer
      end
  | None => Ret answer
  end.

Definition bad_reset_code {A} : prog A :=
  auth_error "Invalid or expired reset code. Please request a new code.".

Definition reset_password (email otp new_password : string) : prog string :=
  user ← find_user_by_email email;
  match user with
  | None => bad_reset_code
  | Some u =>
      if negb (u_is_active u) || u_is_deleted u then bad_reset_code
      else
        _ ← set_tenant_context (u_organization_id u);
        verified ← verify email password_reset otp;
        if negb (verified : bool) then bad_reset_code
        else
          _ ← _validate_password new_password;
          new_hash ← hash_password new_password;
          _ ← update_dashboard_user (u_id u) None None (Some new_hash) None;
          _ ← revoke_all_refresh_tokens (u_id u);
          _ ← invalidate email password_reset;
          Ret "Your password has been reset successfully. Please log in with your new password."%string
  end.

(** * services/auth/passwordless.py *)

Definition generate_login_otp (email : string) : prog string :=
  let answer := "If an account exists with this email, a login code has been sent."%string in
  user ← find_user_by_email email;
  match user with
  | None => Ret answer
  | Some u =>
      if negb (u_is_active u) || u_is_deleted u then Ret answer
      else _ ← generate_and_send email passwordless_login; Ret answer
  end.

Definition bad_login_code {A} : prog A :=
  auth_error "Invalid or expired login code. Please request a new code.".

Definition passwordless_login_ (email otp : string) : prog TokenResponse :=
  user ← find_user_by_email email;
  match user with
  | None => bad_login_code
  | Some u =>
      if negb (u_is_active u) || u_is_deleted u then bad_login_code
      else
        _ ← set_tenant_context (u_organization_id u);
        verified ← verify email passwordless_login otp;
        if negb (verified : bool) then bad_login_code
        else
          _ ← if u_is_email_verified u then Ret tt
              else (_ ← mark_email_verified (u_id u); Ret tt);
          _ ← invalidate email passwordless_login;
          issue_tokens (u_id u) (u_organization_id u) (default "member"%string (u_role u))
  end.

(** * routers/auth.py: the throttled routes *)

Definition login_route (throttle : AuthThrottle) (email password ip : string) : prog LoginResponse :=
  _ ← check_login_attempt throttle email ip;
  result ← login email password;
  _ ← if l_requires_mfa result then Ret tt else record_login_success email ip;
  Ret result.

Definition mfa_verify_route (email otp mfa_session_token ip : string) : prog TokenResponse :=
  _ ← check_mfa_verify email ip;
  result ← mfa_verify otp mfa_session_token;
  _ ← record_login_success email ip;
  Ret result.

Definition reset_password_route (email otp new_password ip : string) : prog string :=
  _ ← check_reset_attempt email ip;
  result ← reset_password email otp new_password;
  _ ← record_reset_success email ip;
  Ret result.

(** * Properties *)

Lemma find_user_by_email_ok email (w : faulty) u w' :
  run (find_user_by_email email) w = (inr (Some u), w') →
  u ∈ st_db (abs w) users ∧ u_email u = Some email ∧ u_is_deleted u = false ∧ abs w' = abs w.
Proof.
  intros (l & w1 & [-> Hw]%run_select_ok & [Hl ->]%scalar_ok)%run_bind_ok.
  apply filter_single in Hl as [Hin Hp]. apply andb_true_iff in Hp as [Hp Hd].
  apply bool_decide_eq_true in Hp. apply negb_true_iff in Hd. by split_and!.
Qed.

(** The account a password login may open. *)
Definition may_log_in (u : User) (email password : string) (s : state) : Prop :=
  u ∈ st_db s users ∧ u_email u = Some email ∧ u_is_deleted u = false ∧ u_is_active u = true ∧
  u_is_email_verified u = true ∧
  ∃ h, u_password_hash u = Some h ∧ verify_password password h = true.

(** C9. Whatever fails, a login answers only for an active, verified account whose
    password checks; it hands out tokens exactly when the account has MFA off, and
    with MFA on it hands out a session token and no tokens. *)
Theorem login_sound email password (w w' : faulty) resp :
  run (login email password) w = (inr resp, w') →
  ∃ u, may_log_in u email password (abs w) ∧ l_requires_mfa resp = u_mfa_enabled u ∧
    (l_tokens resp = None ↔ u_mfa_enabled u = true) ∧
    (l_mfa_session_token resp = None ↔ u_mfa_enabled u = false).
Proof.
  intros ([u|] & w1 & Hu & Hr)%run_bind_ok; [|done].
  apply find_user_by_email_ok in Hu as (Hin & He & Hd & Hw).
  destruct (u_password_hash u) as [h|] eqn:Eh; [|done].
  destruct (verify_password password h) eqn:Ev; [|done]. cbn [negb] in Hr.
  destruct (u_is_active u) eqn:Ea; [|done]. rewrite Hd in Hr. cbn [negb orb] in Hr.
  destruct (u_is_email_verified u) eqn:Eem; [|done]. cbn [negb] in Hr.
  exists u. split; [unfold may_log_in; split_and!; eauto|].
  destruct (u_mfa_enabled u).
  - apply run_bind_ok in Hr as (tok & w2 & _ & (x & w3 & _ & (y & w4 & _ & [= <- _])%run_bind_ok)%run_bind_ok).
    by split_and!.
  - apply run_bind_ok in Hr as (tok & w2 & _ & [= <- _]). by split_and!.
Qed.

(** ** The MFA session *)

Lemma mfa_verify_spent otp tok (s : state) raw d v :
  find_key (st_clock s) (mfa_session_key tok) (st_redis s) = Some (REntry (RStr raw) d) →
  loads raw = Some v →
  run (mfa_verify otp tok) s =
  run (match v with
       | JObj l =>
           let session_email := default JNull (obj_get "email" l) in
           if negb (truthy session_email) then session_expired
           else match session_email with
           | JStr session_email =>
               verified ← verify session_email mfa otp;
               if negb (verified : bool) then
                 auth_error "Invalid or expired MFA code. Please request a new code during login."
               else
                 user ← obj_item "user_id" l; user_id ← json_uuid user;
                 org ← obj_item "org_id" l; org_id ← json_uuid org;
                 role ← obj_item "role" l;
                 match role with
                 | JStr role => issue_tokens user_id org_id role
                 | _ => Throw (TypeError "role of a session that is no text")
                 end
           | _ => Throw (TypeError "email of a session that is no text")
           end
       | _ => Throw (TypeError "session that is no object")
       end) (set_redis (delete (mfa_session_key tok) (st_redis s)) s).
Proof.
  intros Hf Hl. unfold mfa_verify. redis_step (ks_get_str _ _ _ _ _ Hf). rewrite set_redis_id, Hl.
  by rewrite run_bind.
Qed.

(** The one undeleted account with an address. *)
Definition only_account (email : string) (u : User) (s : state) : Prop :=
  List.filter (λ u, bool_decide (u_email u = Some email) && negb (u_is_deleted u)) (st_db s users)
  = [u].

Lemma find_account_run email u (s : state) :
  only_account email u s → run (find_user_by_email email) s = (inr (Some u), s).
Proof.
  intros Ho. unfold find_user_by_email. rewrite run_select. unfold only_account in Ho.
  change (row users) with User in *. by rewrite Ho.
Qed.

(** The [k]-th and next draws give a refresh token no row has. *)
Definition fresh_token (k : nat) (s : state) : Prop :=
  ∀ r, r ∈ tokens_of s →
    rt_id r ≠ st_entropy s (S (k + st_drawn s)) mod 2 ^ 128 ∧
    rt_token_hash r ≠ _hash_refresh_token (hexn 64 (st_entropy s (k + st_drawn s) mod 16 ^ 64)).

Lemma fresh_no_conflict k (s s' : state) uid org :
  fresh_token k s → tokens_of s' = tokens_of s → st_entropy s' = st_entropy s →
  st_drawn s' = (k + st_drawn s)%nat →
  existsb (row_conflict refresh_tokens (successor_row s' uid org)) (tokens_of s') = false.
Proof.
  intros Hf Ht He Hd. rewrite Ht.
  destruct (existsb _ _) eqn:E; [|done]. apply existsb_exists in E as (r & Hin & Hc).
  apply list_elem_of_In in Hin. destruct (Hf r Hin) as [Hn1 Hn2].
  unfold successor_row in Hc. rewrite He, Hd in Hc. cbn [row_conflict rt_id rt_token_hash] in Hc.
  apply orb_true_iff in Hc as [Hc%Z.eqb_eq|Hc%String.eqb_eq]; [by rewrite Hc in Hn1|by rewrite Hc in Hn2].
Qed.

Lemma mfa_key_ne tok email p x : mfa_session_key tok ≠ otp_key email p x.
Proof. unfold mfa_session_key, otp_key, _REDIS_KEY_PREFIX. intros E. discriminate E. Qed.

Lemma session_decodes u role email : loads (dumps (session_data u role email)) = Some (session_data u role email).
Proof. apply loads_dumps. reflexivity. Qed.

(** The state a login with MFA leaves. *)
Definition mfa_login_state (u : User) (email v : string) (s : state) : state :=
  let otp := decn _OTP_LENGTH (st_entropy s (S (st_drawn s)) mod 10 ^ 6) in
  mkState (st_clock s)
    (<[mfa_session_key (hexn 64 (st_entropy s (st_drawn s) mod 16 ^ 64)) :=
        REntry (RStr (dumps (session_data u (default "member"%string (u_role u)) email)))
          (Some (st_clock s + 600 * us_per_s))]>
      (stored (str_lower email) mfa (_hash_otp otp) v (st_clock s) (st_redis s)))
    (st_db s) (st_committed s) (st_tenant s) (st_entropy s) (S (S (st_drawn s)))
    (st_out s ++ [EmailSent (str_lower email) "Your OpenZync verification code" otp]) (st_remote s).

Lemma mfa_login_run u email password h (s : state) :
  only_account email u s → u_password_hash u = Some h → verify_password password h = true →
  u_is_active u = true → u_is_deleted u = false → u_is_email_verified u = true →
  u_mfa_enabled u = true → may_send email s →
  ∃ v, run (login email password) s =
    (inr (mkLoginResponse None true (Some (hexn 64 (st_entropy s (st_drawn s) mod 16 ^ 64)))),
     mfa_login_state u email v s).
Proof.
  intros Ho Hh Hv Ha Hd He Hm Hs. unfold login.
  rewrite run_bind, (find_account_run _ _ _ Ho), Hh, Hv, Ha, Hd, He, Hm. cbn [negb orb].
  unfold token_hex_32. rewrite run_bind.
  set (s1 := mkState (st_clock s) (st_redis s) (st_db s) (st_committed s) (st_tenant s)
    (st_entropy s) (S (st_drawn s)) (st_out s) (st_remote s)).
  rewrite (run_op (Draw _) _ s (st_entropy s (st_drawn s) mod 16 ^ 64) s1) by done. cbn [run].
  destruct (generate_and_send_run email mfa s1 Hs) as [v Hg]. exists v.
  rewrite run_bind, Hg. by erewrite run_redis_ok by done.
Qed.

(** A login with MFA, and its session used twice. *)
Definition mfa_login (email password typed : string) (d : Z) : prog (TokenResponse * bool) :=
  r ← login email password;
  match l_mfa_session_token r with
  | None => auth_error "no MFA"
  | Some tok =>
      _ ← call (Sleep d);
      t ← mfa_verify typed tok;
      again ← passes (_ ← mfa_verify typed tok; Ret tt);
      Ret (t, again)
  end.

(** A session that decodes and whose code matches buys the pair of its user. *)
Lemma mfa_verify_run u email typed tok n D d (s : state) :
  let s1 := set_redis (delete (mfa_session_key tok) (st_redis s)) s in
  uuid_wf (u_id u) → uuid_wf (u_organization_id u) → email ≠ EmptyString →
  find_key (st_clock s) (mfa_session_key tok) (st_redis s) =
    Some (REntry (RStr (dumps (session_data u (default "member"%string (u_role u)) email))) d) →
  pending email mfa (_hash_otp (str_strip typed)) n D s → n < _MAX_ATTEMPTS →
  NoDup (map u_id (st_db s users)) → u ∈ st_db s users → u_is_deleted u = false →
  fresh_token 0 s →
  ∃ s', run (mfa_verify typed tok) s
      = (inr (issued s (u_id u) (u_organization_id u) (default "member"%string (u_role u))
                (u_must_change_password u)), s') ∧
    find_key (st_clock s') (mfa_session_key tok) (st_redis s') = None.
Proof.
  intros s1 Hwu Hwo He Hf Hp Hn Hdu Hin Hdel Hfresh.
  rewrite (mfa_verify_spent _ _ _ _ _ _ Hf (session_decodes _ _ _)). fold s1.
  cbn [session_data]. set (role := default "member"%string (u_role u)).
  destruct email as [|c email]; [done|].
  cbn [obj_get String.eqb Ascii.eqb Bool.eqb from_option id truthy negb].
  assert (pending (c ::: email) mfa (_hash_otp (str_strip typed)) n D s1) as Hp1.
  { destruct Hp as [P1 P2]. split; unfold s1; cbn;
      rewrite find_key_delete_ne; try done; apply mfa_key_ne. }
  rewrite run_bind, (verify_pending _ _ _ _ _ _ _ Hp1), String.eqb_refl.
  destruct (Z.ltb_spec _MAX_ATTEMPTS (n + 1)); [lia|]. cbn [negb].
  set (s2 := set_redis _ s1). unfold obj_item.
  cbn [obj_get String.eqb Ascii.eqb Bool.eqb]. rewrite run_ret_bind. cbn [json_uuid].
  rewrite uuid_parse_str by done. rewrite !run_ret_bind. cbn [json_uuid].
  rewrite uuid_parse_str by done. rewrite !run_ret_bind.
  destruct (issue_tokens_run u (u_organization_id u) role s2) as (s3 & Hi & _ & Hc & Hk & _); [done..| |].
  { eapply (fresh_no_conflict 0 s); done. }
  exists s3. rewrite Hi. split; [done|]. rewrite Hc, Hk. unfold s2. cbn [set_redis st_clock st_redis].
  unfold dropped. rewrite !find_key_delete_ne; try (apply not_eq_sym, mfa_key_ne).
  rewrite find_key_insert_ne by (apply not_eq_sym, mfa_key_ne). apply find_key_delete.
Qed.

(** C10. The MFA login: a session token from a password login with MFA, together
    with the mailed code, buys the token pair of that very account, within ten
    minutes and only once. *)
Theorem mfa_login_round_trip {W} `{World W} (w : W) u email password h typed d :
  let s := abs w in
  let later := mkState (st_clock s + d) (st_redis s) (st_db s) (st_committed s) (st_tenant s)
    (st_entropy s) (S (S (st_drawn s))) (st_out s) (st_remote s) in
  steady w → uuid_wf (u_id u) → uuid_wf (u_organization_id u) → email ≠ EmptyString →
  only_account email u s → NoDup (map u_id (st_db s users)) →
  u_password_hash u = Some h → verify_password password h = true → u_is_active u = true →
  u_is_deleted u = false → u_is_email_verified u = true → u_mfa_enabled u = true →
  may_send email s → fresh_token 2 s → 0 ≤ d < 600 * us_per_s →
  str_strip typed = decn _OTP_LENGTH (st_entropy s (S (st_drawn s)) mod 10 ^ 6) →
  (run (mfa_login email password typed d) w).1
  = inr (issued later (u_id u) (u_organization_id u) (default "member"%string (u_role u))
           (u_must_change_password u), false).
Proof.
  intros s later Hst Hwu Hwo He Ho Hdu Hh Hv Ha Hdel Hem Hm Hs Hfresh Hd Ht.
  rewrite (proj1 (run_steady _ w Hst)). fold s. unfold mfa_login.
  destruct (mfa_login_run u email password h s Ho Hh Hv Ha Hdel Hem Hm Hs) as [v Hl].
  rewrite run_bind, Hl. cbn [l_mfa_session_token]. rewrite run_sleep.
  set (tok := hexn 64 _). set (s1 := (op_sem (Sleep d) _).2).
  assert (u ∈ st_db s users) as Hin by (apply (filter_single _ _ _ Ho)).
  destruct (mfa_verify_run u email typed tok 0 (st_clock s + 600 * us_per_s)
    (Some (st_clock s + 600 * us_per_s)) s1) as (s2 & Hr & Hgone); try done.
  - unfold s1, mfa_login_state. cbn. eapply (find_key_later (st_clock s)); [|unfold us_per_s in *; cbn; lia].
    apply find_key_insert. unfold live, us_per_s. cbn. lia.
  - unfold s1, mfa_login_state, pending. cbn. rewrite Ht.
    rewrite !find_key_insert_ne by apply mfa_key_ne.
    split; (eapply find_key_later; [apply find_stored_hash || apply find_stored_attempts|unfold us_per_s in *; cbn; lia]).
  - rewrite run_bind, Hr, run_bind. unfold passes, try_except.
    assert (run (mfa_verify typed tok) s2
      = (inl (AppExc AuthenticationError "MFA session has expired or is invalid. Please log in again."),
         s2)) as Hagain.
    { unfold mfa_verify. redis_step (ks_get_none _ _ _ Hgone). by rewrite set_redis_id. }
    rewrite run_catch, run_bind, run_bind, Hagain. cbn [is_exception run fst].
    f_equal. f_equal. unfold issued, s1, later, mfa_login_state. cbn. by rewrite Z.max_r by lia.
Qed.

(** ** Changing the password *)

Definition new_password_row (new_hash : string) (u : User) : User :=
  with_profile None None (Some new_hash) (Some false) u.

(** The refresh tokens after a user's sessions are ended. *)
Definition sessions_ended (uid : uuid) (rows : list RefreshToken) : list RefreshToken :=
  map (λ r, if (rt_user_id r =? uuid_str uid)%string then revoke r else r) rows.

Lemma sessions_ended_rows uid rows :
  map (λ r, if (rt_user_id r =? uuid_str uid)%string && negb (rt_is_revoked r) then revoke r else r) rows
  = sessions_ended uid rows.
Proof.
  apply map_ext. intros r. destruct (rt_user_id r =? uuid_str uid)%string; [|done].
  destruct r as [? ? ? ? ? [] ?]; done.
Qed.

Lemma sessions_ended_conflict new uid rows :
  existsb (row_conflict refresh_tokens new) (sessions_ended uid rows)
  = existsb (row_conflict refresh_tokens new) rows.
Proof.
  induction rows as [|r rows IH]; [done|]. cbn [sessions_ended map existsb]. fold (sessions_ended uid rows).
  rewrite IH. by destruct (rt_user_id r =? uuid_str uid)%string.
Qed.

Lemma update_user_run u f (s : state) :
  NoDup (map u_id (st_db s users)) → u ∈ st_db s users → u_is_deleted u = false →
  run (assign_user (u_id u) f) s =
    (inr (f u), set_db (set_table users (map (λ r, if u_id r =? u_id u then f r else r) (st_db s users))
                  (st_db s)) s).
Proof.
  intros Hd Hin Hdel. unfold assign_user. rewrite run_bind, get_user_run by done.
  by erewrite run_op by done.
Qed.

Lemma hash_password_run pw (s : state) :
  pw ≠ EmptyString →
  run (hash_password pw) s =
    (inr (hashpw pw (st_entropy s (st_drawn s) mod 2 ^ 128)), (op_sem (Draw (2 ^ 128)) s).2).
Proof. intros Hp. destruct pw; [done|]. unfold hash_password. by erewrite run_op by done. Qed.

Lemma validated_nonempty pw : _validate_password pw = Ret tt → pw ≠ EmptyString.
Proof. by intros Hv ->. Qed.

Lemma renamed_ids f uid (rows : list User) :
  (∀ r, u_id (f r) = u_id r) →
  map u_id (map (λ r, if u_id r =? uid then f r else r) rows) = map u_id rows.
Proof. intros Hf. rewrite map_map. apply map_ext. intros r. by case_match. Qed.

Lemma change_password_run u h old new (s : state) :
  let new_hash := hashpw new (st_entropy s (st_drawn s) mod 2 ^ 128) in
  let s1 := (op_sem (Draw (2 ^ 128)) s).2 in
  NoDup (map u_id (st_db s users)) → u ∈ st_db s users → u_is_deleted u = false →
  u_password_hash u = Some h → verify_password old h = true → _validate_password new = Ret tt →
  fresh_token 1 s →
  ∃ s', run (request (change_password (u_id u) old new)) s
      = (inr (issued s1 (u_id u) (u_organization_id u) (default "member"%string (u_role u)) false), s') ∧
    st_committed s' refresh_tokens
      = sessions_ended (u_id u) (tokens_of s) ++ [successor_row s1 (u_id u) (u_organization_id u)] ∧
    st_committed s' users = map (λ r, if u_id r =? u_id u then new_password_row new_hash r else r)
      (st_db s users).
Proof.
  intros new_hash s1 Hd Hin Hdel Hh Hv Hval Hf.
  unfold request, try_except. rewrite run_catch, run_bind. unfold change_password.
  rewrite run_bind, (get_user_run u s Hd Hin Hdel), Hh, Hv. cbn [negb]. rewrite Hval, run_ret_bind.
  rewrite run_bind, hash_password_run by (by apply validated_nonempty). fold s1 new_hash.
  rewrite run_bind. unfold update_dashboard_user.
  rewrite (update_user_run u _ s1 Hd Hin Hdel). fold (new_password_row new_hash).
  set (s2 := set_db _ s1). unfold revoke_all_refresh_tokens. rewrite run_bind. erewrite run_op by done.
  cbn [run]. set (s3 := set_db _ s2). rewrite run_bind. unfold invalidate_must_change_password.
  rewrite run_drop. set (s4 := set_redis _ s3).
  assert (tokens_of s4 = sessions_ended (u_id u) (tokens_of s)) as Ht4
    by apply sessions_ended_rows.
  destruct (issue_tokens_run (new_password_row new_hash u) (u_organization_id u)
    (default "member"%string (u_role u)) s4) as (s5 & Hi & Ht5 & _ & _ & Hu5).
  - change (st_db s4 users) with (map (λ r, if u_id r =? u_id u then new_password_row new_hash r else r)
      (st_db s users)). by rewrite renamed_ids.
  - apply list_elem_of_fmap. exists u. by rewrite Z.eqb_refl.
  - done.
  - rewrite Ht4, sessions_ended_conflict. by apply (fresh_no_conflict 1 s s1).
  - change (u_id (new_password_row new_hash u)) with (u_id u) in Hi, Ht5. rewrite Hi.
    cbn [run]. erewrite run_op by done. eexists. split; [reflexivity|].
    cbn [st_committed run snd]. rewrite <- Ht4. split; [exact Ht5|exact Hu5].
Qed.

(** Changing the password ends every session: with the right old password and
    a strong enough new one, what is committed is the user's new hash with the
    must-change flag cleared, every earlier refresh token of the user revoked, and
    one new token; the access token no longer carries the flag. *)
Theorem change_password_ends_sessions {W} `{World W} (w : W) u h old new :
  let s := abs w in
  let new_hash := hashpw new (st_entropy s (st_drawn s) mod 2 ^ 128) in
  let s1 := (op_sem (Draw (2 ^ 128)) s).2 in
  steady w → NoDup (map u_id (st_db s users)) → u ∈ st_db s users → u_is_deleted u = false →
  u_password_hash u = Some h → verify_password old h = true → _validate_password new = Ret tt →
  fresh_token 1 s →
  let r := run (request (change_password (u_id u) old new)) w in
  r.1 = inr (issued s1 (u_id u) (u_organization_id u) (default "member"%string (u_role u)) false) ∧
  st_committed (abs r.2) refresh_tokens
    = sessions_ended (u_id u) (tokens_of s) ++ [successor_row s1 (u_id u) (u_organization_id u)] ∧
  st_committed (abs r.2) users
    = map (λ r, if u_id r =? u_id u then new_password_row new_hash r else r) (st_db s users).
Proof.
  intros s new_hash s1 Hs Hd Hin Hdel Hh Hv Hval Hf r.
  destruct (run_steady (request (change_password (u_id u) old new)) w Hs) as (E1 & E2 & _).
  destruct (change_password_run u h old new s Hd Hin Hdel Hh Hv Hval Hf) as (s' & Hrun & Hc1 & Hc2).
  fold r in E1, E2. rewrite E1, E2. fold s. by rewrite Hrun.
Qed.
End session.

(** * Witnesses *)

(** A bcrypt that keeps the password in the hash. *)
Definition clear_bcrypt : Bcrypt := {|
  hashpw := λ p _, "$" +:+ p;
  checkpw := λ p h, Some (("$" +:+ p) =? h)%string;
|}.

Definition account (mfa_on : bool) : User :=
  mkUser 7 1 "ext" None (Some "a@x.io"%string) (Some "admin"%string) None (Some "$Secret123"%string)
    true true false true mfa_on None 0 [].

Definition one_account (mfa_on : bool) : state :=
  set_db (set_table users [account mfa_on]
    (set_table refresh_tokens [chain_token 0 0] (st_db empty_state))) empty_state.

Lemma login_sound_witness :
  ∃ u, may_log_in (H2 := clear_bcrypt) u "a@x.io" "Secret123" (abs ((one_account true, []) : faulty)) ∧
    true = u_mfa_enabled u ∧ (@None TokenResponse = None ↔ u_mfa_enabled u = true) ∧
    (Some (hexn 64 0) = None ↔ u_mfa_enabled u = false).
Proof.
  apply (login_sound (H := clear_hash) (H0 := plain_jwt) (H1 := default_settings) (H2 := clear_bcrypt)
    "a@x.io" "Secret123" (one_account true, [])
    (run (login (H := clear_hash) (H0 := plain_jwt) (H1 := default_settings) (H2 := clear_bcrypt)
      "a@x.io" "Secret123") ((one_account true, []) : faulty)).2
    (mkLoginResponse None true (Some (hexn 64 0)))).
  vm_compute. reflexivity.
Defined.

Lemma one_account_fresh k : (k < 4)%nat → fresh_token (H := clear_hash) k (one_account true) ∧
  fresh_token (H := clear_hash) k (one_account false).
Proof.
  intros Hk. split; intros r Hr; apply list_elem_of_singleton in Hr as ->;
    do 4 (destruct k as [|k]; [split; vm_compute; discriminate|]); lia.
Qed.

Lemma mfa_login_round_trip_witness :
  let s := abs (one_account true) in
  let later := mkState (st_clock s + 599000000) (st_redis s) (st_db s) (st_committed s) (st_tenant s)
    (st_entropy s) (S (S (st_drawn s))) (st_out s) (st_remote s) in
  (run (mfa_login (H := clear_hash) (H0 := plain_jwt) (H1 := default_settings) (H2 := clear_bcrypt)
     "a@x.io" "Secret123" " 000001" 599000000) (one_account true)).1
  = inr (issued (H0 := plain_jwt) (H1 := default_settings) later 7 1
           (default "member"%string (u_role (account true))) true, false).
Proof.
  apply (mfa_login_round_trip (H := clear_hash) (H0 := plain_jwt) (H1 := default_settings)
    (H2 := clear_bcrypt) (one_account true) (account true) "a@x.io" "Secret123" "$Secret123" " 000001"
    599000000).
  - exact I.
  - split; [discriminate|reflexivity].
  - split; [discriminate|reflexivity].
  - discriminate.
  - reflexivity.
  - apply NoDup_singleton.
  - reflexivity.
  - reflexivity.
  - reflexivity.
  - reflexivity.
  - reflexivity.
  - reflexivity.
  - split; [intros []; reflexivity|exact I].
  - apply one_account_fresh. lia.
  - split; [discriminate|reflexivity].
  - reflexivity.
Defined.

Lemma change_password_ends_sessions_witness :
  let s := abs (one_account false) in
  let s1 := (op_sem (Draw (2 ^ 128)) s).2 in
  let r := run (request (change_password (H := clear_hash) (H0 := plain_jwt) (H1 := default_settings)
    (H2 := clear_bcrypt) 7 "Secret123" "Better456")) (one_account false) in
  r.1 = inr (issued (H0 := plain_jwt) (H1 := default_settings) s1 7 1
    (default "member"%string (u_role (account false))) false) ∧
  st_committed (abs r.2) refresh_tokens
    = sessions_ended 7 (tokens_of s) ++ [successor_row (H := clear_hash) (H1 := default_settings) s1 7 1] ∧
  st_committed (abs r.2) users
    = map (λ r, if u_id r =? 7 then new_password_row "$Better456" r else r) (st_db s users).
Proof.
  apply (change_password_ends_sessions (H := clear_hash) (H0 := plain_jwt) (H1 := default_settings)
    (H2 := clear_bcrypt) (one_account false) (account false) "$Secret123" "Secret123" "Better456").
  - exact I.
  - apply NoDup_singleton.
  - left.
  - reflexivity.
  - reflexivity.
  - reflexivity.
  - reflexivity.
  - apply one_account_fresh. lia.
Defined.
