(* ===== verification/Idempotency.v ===== *)
(** services/idempotency_service.py, services/memory/dedup_claim.py and
    repositories/ingest_dedup_repository.py: idempotency keys, the content claim of
    a batch with its database backstop, and the enrichment bits of an episode. *)
From S2P Require Import Prelude Errors Data Effects Json.
Open Scope Z_scope.

(** orjson: printing (also with sorted keys) and parsing, [None] where it raises
    [JSONDecodeError]. *)
Class Orjson := {
  orjson_dumps : json → string;
  orjson_dumps_sorted : json → string;
  orjson_loads : string → option json;
}.

Class Deployment := { ENVIRONMENT : string }.

Section idempotency.
Context `{Hashlib} `{Orjson} `{Deployment}.

(** * Constants *)

Inductive IdempotencyStatus := NEW | REPLAY | CONFLICT.

Record IdempotencyResult := mkIdempotencyResult {
  ir_status : IdempotencyStatus;
  ir_response_data : option json;
}.

Record ContentHashClaim := mkContentHashClaim { won : bool; winner : option string }.

Definition _idem_prefix : string := "OpenZync:" +:+ ENVIRONMENT +:+ ":idempotency:".
Definition _content_prefix : string := "OpenZync:" +:+ ENVIRONMENT +:+ ":contenthash:".

(** No setting overrides the 48 hours. *)
Definition _idem_ttl : Z := 172800.
Definition _content_ttl : Z := _idem_ttl.
Definition _max_key_length : Z := 255.

(** * Idempotency keys *)

(** A JSON null is Python's [None]. *)
Definition not_none (v : json) : option json := match v with JNull => None | _ => Some v end.

Definition idem_key (org_id key : string) : string := _idem_prefix +:+ org_id +:+ ":" +:+ key.

Definition check_idempotency_key (key body_hash org_id : string) : prog IdempotencyResult :=
  if _max_key_length <? str_len key then
    Throw (ValueError "Idempotency-Key must not exceed 255 characters")
  else
    cached ← redis (ks_get (idem_key org_id key));
    match cached with
    | None => Ret (mkIdempotencyResult NEW None)
    | Some cached =>
        match orjson_loads cached with
        | None => Ret (mkIdempotencyResult NEW None)
        | Some (JObj entry) =>
            match dict_get "request_body_hash" entry with
            | JNull => Ret (mkIdempotencyResult REPLAY (not_none (dict_get "response_body" entry)))
            | JStr h =>
                if (h =? body_hash)%string then
                  Ret (mkIdempotencyResult REPLAY (not_none (dict_get "response_body" entry)))
                else Ret (mkIdempotencyResult CONFLICT None)
            | _ => Ret (mkIdempotencyResult CONFLICT None)
            end
        | Some _ => Throw (TypeError "entry has no attribute 'get'")
        end
    end.

Definition entry_of (body_hash : string) (response_data : json) (now : Z) : json :=
  JObj [("response_body", response_data); ("request_body_hash", JStr body_hash);
        ("created_at", JStr (isoformat_utc now))]%string.

Definition store_idempotency_key (key body_hash : string) (response_data : json) (org_id : string) :
    prog unit :=
  now ← call Now;
  redis (ks_setex (idem_key org_id key) _idem_ttl
    (orjson_dumps (entry_of body_hash response_data now))).

(** * Content claims *)

(** A message is a dict; metadata and blobs count only when present. *)
Definition message := list (string * json).

Definition has_key (key : string) (m : message) : bool := bool_decide (key ∈ map fst m).

Definition canonical_message (m : message) : json :=
  JObj ([("role"%string, dict_get "role" m); ("content"%string, dict_get "content" m)]
        ++ (if has_key "metadata" m then [("metadata"%string, dict_get "metadata" m)] else [])
        ++ (if has_key "blobs" m then [("blobs"%string, dict_get "blobs" m)] else [])).

Definition compute_content_hash (org_id user_id session_id : string) (messages : list message) : string :=
  sha256_hexdigest (orjson_dumps_sorted
    (JObj [("org_id", JStr org_id); ("user_id", JStr user_id); ("session_id", JStr session_id);
           ("messages", JList (map canonical_message messages))]%string)).

(** The four arguments every content operation takes. *)
Record Batch := mkBatch {
  b_org_id : string;
  b_user_id : string;
  b_session_id : string;
  b_messages : list message;
}.

Definition batch_hash (b : Batch) : string :=
  compute_content_hash (b_org_id b) (b_user_id b) (b_session_id b) (b_messages b).

Definition content_key (b : Batch) : string := _content_prefix +:+ batch_hash b.

Definition check_content_hash (b : Batch) : prog (option string) := redis (ks_get (content_key b)).

Definition store_content_hash (b : Batch) (payload : option string) : prog string :=
  let value := default (batch_hash b) payload in
  _ ← redis (ks_set_nx_ex (content_key b) value _content_ttl);
  Ret (batch_hash b).

(** [_CLAIM_CONTENT_HASH_LUA], one step of Redis. *)
Definition claim_script (key payload : string) (ttl : Z) : KS (Z * option string) :=
  ks_bind (ks_get key) (λ existing,
    match existing with
    | Some e => ks_ret (0, Some e)
    | None =>
        ks_bind (ks_set_nx_ex key payload ttl) (λ ok,
          if ok : bool then ks_ret (1, Some payload)
          else ks_bind (ks_get key) (λ e, ks_ret (0, e)))
    end).

Definition claim_content_hash (b : Batch) (payload : string) : prog ContentHashClaim :=
  raw ← redis (claim_script (content_key b) payload _content_ttl);
  Ret (mkContentHashClaim (raw.1 =? 1) raw.2).

Definition release_content_hash (b : Batch) : prog unit :=
  try_except (_ ← redis (ks_delete [content_key b]); Ret tt) is_exception (λ _, Ret tt).

(** * repositories/ingest_dedup_repository.py *)

Definition _DEDUP_TTL : Z := 172800 * us_per_s.

Definition same_triple (project_id session_id : uuid) (content_hash : string) (r : IngestDedup) : bool :=
  (dd_project_id r =? project_id) && (dd_session_id r =? session_id)
  && (dd_content_hash r =? content_hash)%string.

Definition insert_or_none (project_id session_id : uuid) (content_hash : string) (job_id : uuid) :
    prog bool :=
  now ← call Now;
  _ ← call (Delete ingest_dedup (λ r, same_triple project_id session_id content_hash r
        && (dd_created_at r <? now - _DEDUP_TTL)));
  inserted ← call (Insert ingest_dedup uq_ingest_dedup
        [mkIngestDedup job_id project_id session_id content_hash now]);
  match inserted with
  | [] => Ret false
  | [_] => Ret true
  | _ => Throw MultipleResultsFound
  end.

Definition get_job_id (project_id session_id : uuid) (content_hash : string) : prog (option uuid) :=
  now ← call Now;
  rows ← call (Select ingest_dedup (λ r, same_triple project_id session_id content_hash r
        && (now - _DEDUP_TTL <? dd_created_at r)));
  scalar_one_or_none (map dd_job_id rows).

(** * services/memory/dedup_claim.py *)

Definition _encode_claim_payload (job_id : uuid) (episode_count : Z) : string :=
  uuid_str job_id +:+ ":" +:+ str_of_Z episode_count.

Definition _decode_claim_payload (payload : string) (fallback_count : Z) : string * Z :=
  let '(job_id, sep, count_str) := partition ":" payload in
  if negb sep then (payload, fallback_count)
  else match py_int count_str with
       | Some n => (job_id, n)
       | None => (job_id, fallback_count)
       end.

Record IngestMemoryResponse := mkIngestMemoryResponse {
  im_job_id : option string;
  im_episode_count : Z;
  im_message : string;
}.

Definition already_ingested : string := "Content already ingested; returning existing job_id".

Definition _loser_response (b : Batch) (prior_job_id : option uuid) : prog IngestMemoryResponse :=
  _ ← release_content_hash b;
  Ret (mkIngestMemoryResponse (option_map uuid_str prior_job_id)
         (Z.of_nat (length (b_messages b))) already_ingested).

(** The batch of [(org_id, created_by, session_id, msgs)]; the two UUIDs of the
    database row are passed along. *)
Definition _claim_batch (b : Batch) (session_id project_id : uuid) :
    prog (uuid * option IngestMemoryResponse) :=
  let n := Z.of_nat (length (b_messages b)) in
  _ ← try_except (check_content_hash b) is_exception (λ _, Ret None);
  job_id ← uuid4;
  claim ← claim_content_hash b (_encode_claim_payload job_id n);
  if negb (won claim) then
    match winner claim with
    | None => Throw (TypeError "payload has no attribute 'partition'")
    | Some w =>
        let '(winner_job_id, winner_count) := _decode_claim_payload w n in
        Ret (job_id, Some (mkIngestMemoryResponse (Some winner_job_id) winner_count already_ingested))
    end
  else
    claimed ← try_except
      (c ← insert_or_none project_id session_id (batch_hash b) job_id; Ret (Some c))
      is_integrity (λ _, Ret None);
    match claimed with
    | None =>
        _ ← call Rollback;
        prior ← get_job_id project_id session_id (batch_hash b);
        r ← _loser_response b prior;
        Ret (job_id, Some r)
    | Some false =>
        prior ← get_job_id project_id session_id (batch_hash b);
        r ← _loser_response b prior;
        Ret (job_id, Some r)
    | Some true => Ret (job_id, None)
    end.

(** [_check_idempotency_key]: the replayed response, or [None] to proceed. *)
Definition _check_idempotency_key (idempotency_key body_hash org_id : string) : prog (option json) :=
  result ← check_idempotency_key idempotency_key body_hash org_id;
  match ir_status result, ir_response_data result with
  | REPLAY, Some r => Ret (Some r)
  | CONFLICT, _ =>
      Throw (AppExc ConflictError "Idempotency-Key already used with a different request body")
  | _, _ => Ret None
  end.

(** * Enrichment bits *)

Definition ENRICHMENT_ENTITIES : Z := Z.shiftl 1 0.
Definition ENRICHMENT_EMBEDDING : Z := Z.shiftl 1 1.
Definition ENRICHMENT_FACTS : Z := Z.shiftl 1 2.
Definition ENRICHMENT_ENTITY_LINKS : Z := Z.shiftl 1 3.
Definition ENRICHMENT_CLASSIFICATION : Z := Z.shiftl 1 4.
Definition ENRICHMENT_STRUCTURED_EXTRACTION : Z := Z.shiftl 1 5.
Definition ENRICHMENT_OBSERVATIONS : Z := Z.shiftl 1 6.
Definition ENRICHMENT_BLOB_TEXT : Z := Z.shiftl 1 7.
Definition LLM_INVALIDATION_BIT : Z := Z.shiftl 1 8.

Definition ENRICHMENT_ALL : Z :=
  Z.lor ENRICHMENT_ENTITIES (Z.lor ENRICHMENT_EMBEDDING (Z.lor ENRICHMENT_FACTS
    (Z.lor ENRICHMENT_ENTITY_LINKS (Z.lor ENRICHMENT_CLASSIFICATION
      ENRICHMENT_STRUCTURED_EXTRACTION)))).

(** repositories/episode_repository.py. The row lock of [FOR UPDATE] lasts to the end
    of the transaction, which is why the read and the write below are one step for
    other workers. *)
Definition live_episode (id : uuid) (e : Episode) : bool := (ep_id e =? id) && negb (ep_is_deleted e).

Definition get_by_id_for_update (episode_id : uuid) : prog (option Episode) :=
  rows ← call (Select episodes (live_episode episode_id));
  scalar_one_or_none rows.

Definition update_enrichment_status (episode_id : uuid) (bitmask : Z) : prog unit :=
  _ ← call (Update episodes (live_episode episode_id) (with_status (λ _, bitmask)));
  Ret tt.

Definition apply_enrichment_bits (episode_id : uuid) (bitmask : Z) : prog unit :=
  _ ← call (Update episodes (live_episode episode_id) (with_status (λ st, Z.lor st bitmask)));
  Ret tt.

Definition check_and_mark_worker (episode_id : string) (task_bit : Z) : prog bool :=
  match uuid_parse episode_id with
  | None => Throw (ValueError "badly formed hexadecimal UUID string")
  | Some id =>
      episode ← get_by_id_for_update id;
      match episode with
      | None => Throw (ValueError ("Episode " +:+ episode_id +:+ " not found"))
      | Some e =>
          if negb (Z.land (ep_enrichment_status e) task_bit =? 0) then Ret false
          else _ ← apply_enrichment_bits id task_bit; Ret true
      end
  end.

(** [hash_request_body]. *)
Definition hash_request_body (body : json) : string := sha256_hexdigest (orjson_dumps_sorted body).

(** * Idempotency keys: lemmas *)

Lemma idem_key_inj o o' k k' :
  uuid_wf o → uuid_wf o' → idem_key (uuid_str o) k = idem_key (uuid_str o') k' → o = o' ∧ k = k'.
Proof.
  intros Ho Ho' E. unfold idem_key in E. apply str_app_inj_l in E.
  apply str_app_inj_len in E as [E1 E2]; [|by rewrite !uuid_str_length].
  apply str_app_inj_l in E2. split; [by apply uuid_str_inj|done].
Qed.

Lemma check_absent key h org (s : state) :
  str_len key ≤ _max_key_length →
  find_key (st_clock s) (idem_key org key) (st_redis s) = None →
  run (check_idempotency_key key h org) s = (inr (mkIdempotencyResult NEW None), s).
Proof.
  intros Hk Hf. unfold check_idempotency_key. destruct (Z.ltb_spec _max_key_length (str_len key)); [lia|].
  redis_step (ks_get_none _ _ _ Hf). by rewrite set_redis_id.
Qed.

Lemma check_stored key h h0 v now org d (s : state) :
  str_len key ≤ _max_key_length →
  orjson_loads (orjson_dumps (entry_of h0 v now)) = Some (entry_of h0 v now) →
  find_key (st_clock s) (idem_key org key) (st_redis s)
    = Some (REntry (RStr (orjson_dumps (entry_of h0 v now))) d) →
  run (check_idempotency_key key h org) s =
    (inr (if (h0 =? h)%string then mkIdempotencyResult REPLAY (not_none v)
          else mkIdempotencyResult CONFLICT None), s).
Proof.
  intros Hk Hl Hf. unfold check_idempotency_key.
  destruct (Z.ltb_spec _max_key_length (str_len key)); [lia|].
  redis_step (ks_get_str _ _ _ _ _ Hf). rewrite set_redis_id, Hl. cbn [entry_of dict_get].
  cbn [String.eqb Ascii.eqb Bool.eqb]. by destruct (h0 =? h)%string.
Qed.

(** The life of a key: unknown, stored, then asked for with the same body, with
    another body, and by another organization. *)
Definition key_history (o o' : uuid) (key h h' : string) (v : json) (d : Z) :
    prog (IdempotencyResult * IdempotencyResult * IdempotencyResult * IdempotencyResult) :=
  a ← check_idempotency_key key h (uuid_str o);
  _ ← store_idempotency_key key h v (uuid_str o);
  _ ← call (Sleep d);
  b ← check_idempotency_key key h (uuid_str o);
  c ← check_idempotency_key key h' (uuid_str o);
  e ← check_idempotency_key key h (uuid_str o');
  Ret (a, b, c, e).

(** An idempotency key replays its stored response to the same body, refuses
    another body, means nothing to another organization, and is forgotten after 48
    hours. *)
Theorem idempotency_key_life {W} `{World W} (w : W) o o' key h h' v d :
  let s := abs w in
  let fresh := mkIdempotencyResult NEW None in
  steady w → uuid_wf o → uuid_wf o' → o ≠ o' → h ≠ h' → str_len key ≤ _max_key_length → 0 ≤ d →
  orjson_loads (orjson_dumps (entry_of h v (st_clock s))) = Some (entry_of h v (st_clock s)) →
  find_key (st_clock s) (idem_key (uuid_str o) key) (st_redis s) = None →
  find_key (st_clock s) (idem_key (uuid_str o') key) (st_redis s) = None →
  (run (key_history o o' key h h' v d) w).1 =
    inr (if d <? _idem_ttl * us_per_s
         then (fresh, mkIdempotencyResult REPLAY (not_none v), mkIdempotencyResult CONFLICT None, fresh)
         else (fresh, fresh, fresh, fresh)).
Proof.
  intros s fresh Hs Ho Ho' Hoo Hh Hk Hd Hl Hf Hf'. rewrite (proj1 (run_steady _ w Hs)). fold s.
  unfold key_history. rewrite run_bind, check_absent by done. rewrite run_bind.
  unfold store_idempotency_key. rewrite run_now. unfold redis. rewrite run_call.
  cbn [exec state_world op_sem]. unfold ks_setex. cbn [Z.leb Z.compare _idem_ttl fst snd].
  rewrite run_sleep. set (s1 := (op_sem (Sleep d) _).2).
  assert (idem_key (uuid_str o) key ≠ idem_key (uuid_str o') key) as Hne
    by (intros E; by apply idem_key_inj in E as [? _]).
  assert (find_key (st_clock s1) (idem_key (uuid_str o') key) (st_redis s1) = None) as Hf1.
  { cbn. rewrite find_key_insert_ne by done. eapply find_key_none_later; [exact Hf'|lia]. }
  destruct (Z.ltb_spec d (_idem_ttl * us_per_s)) as [Hlt|Hge].
  - assert (find_key (st_clock s1) (idem_key (uuid_str o) key) (st_redis s1)
      = Some (REntry (RStr (orjson_dumps (entry_of h v (st_clock s))))
          (Some (st_clock s + _idem_ttl * us_per_s)))) as Hf2.
    { cbn. apply find_key_insert. unfold live. cbn. unfold _idem_ttl, us_per_s in *. lia. }
    rewrite run_bind, (check_stored _ _ _ _ _ _ _ _ Hk Hl Hf2), String.eqb_refl.
    rewrite run_bind, (check_stored _ _ _ _ _ _ _ _ Hk Hl Hf2).
    destruct (String.eqb_spec h h'); [done|].
    by rewrite run_bind, (check_absent _ _ _ _ Hk Hf1).
  - assert (find_key (st_clock s1) (idem_key (uuid_str o) key) (st_redis s1) = None) as Hf2.
    { cbn. unfold find_key. rewrite lookup_insert_eq. unfold live. cbn.
      destruct (Z.ltb_spec (st_clock s + Z.max 0 d) (st_clock s + _idem_ttl * us_per_s));
        [unfold _idem_ttl, us_per_s in *; lia|done]. }
    by rewrite run_bind, (check_absent _ _ _ _ Hk Hf2), run_bind, (check_absent _ _ _ _ Hk Hf2),
      run_bind, (check_absent _ _ _ _ Hk Hf1).
Qed.

(** * The Redis claim under interleaving *)

Lemma claim_script_absent key p ttl now m :
  0 < ttl → find_key now key m = None →
  claim_script key p ttl now m
  = (inr (1, Some p), <[key := REntry (RStr p) (Some (now + ttl * us_per_s))]> m).
Proof.
  intros Ht Hf. unfold claim_script, ks_bind, ks_ret. rewrite ks_get_none by done.
  unfold ks_set_nx_ex. rewrite Hf. by destruct (Z.leb_spec ttl 0); [lia|].
Qed.

Lemma claim_script_taken key p p0 d ttl now m :
  find_key now key m = Some (REntry (RStr p0) d) →
  claim_script key p ttl now m = (inr (0, Some p0), m).
Proof. intros Hf. unfold claim_script, ks_bind. by rewrite (ks_get_str _ _ _ _ _ Hf). Qed.

(** Nobody has claimed yet; or request [i0] has, and every other request waits or has
    been told so. *)
Definition claim_inv (b : Batch) (payloads : list string) (t0 : Z) (ps : list (prog ContentHashClaim))
    (s : state) : Prop :=
  t0 ≤ st_clock s ∧ length ps = length payloads ∧
  ((find_key (st_clock s) (content_key b) (st_redis s) = None ∧
    ps = map (claim_content_hash b) payloads) ∨
   ∃ i0 p0 D, payloads !! i0 = Some p0 ∧ t0 + _content_ttl * us_per_s ≤ D ∧
     find_key (st_clock s) (content_key b) (st_redis s) = Some (REntry (RStr p0) (Some D)) ∧
     ∀ i p, ps !! i = Some p →
       (i ≠ i0 ∧ ∃ q, p = claim_content_hash b q) ∨
       p = Ret (mkContentHashClaim (bool_decide (i = i0)) (Some p0))).

Lemma pstep_clock {A} (c c' : list (prog A) * state) : pstep c c' → st_clock c.2 ≤ st_clock c'.2.
Proof.
  destruct c as [ps s], c' as [ps' s']. intros [(i & p & p' & _ & Hr & _)|(_ & d & Hd & ->)]%pstep_inv.
  - destruct p as [a|e|X o k]; [done|done|]. injection Hr as _ <-.
    destruct o; cbn; repeat (case_match; cbn); simplify_eq/=; lia.
  - cbn. lia.
Qed.

Lemma psteps_clock {A} (c c' : list (prog A) * state) : psteps c c' → st_clock c.2 ≤ st_clock c'.2.
Proof. induction 1 as [|c1 c2 c3 Hs _ IH]; [done|]. apply pstep_clock in Hs. lia. Qed.

(** One step of a request that has not claimed. *)
Lemma claim_resume b q p' (s s' : state) :
  resume (claim_content_hash b q) s = Some (p', s') →
  let r := claim_script (content_key b) q _content_ttl (st_clock s) (st_redis s) in
  p' = match r.1 with
       | inl e => Throw e
       | inr raw => Ret (mkContentHashClaim (raw.1 =? 1) raw.2)
       end ∧ s' = set_redis r.2 s.
Proof.
  intros [= <- <-]. split; [|done].
  by destruct ((claim_script (content_key b) q _content_ttl (st_clock s) (st_redis s)).1).
Qed.

Lemma claim_first b payloads t0 i q p' (s s' : state) :
  t0 ≤ st_clock s → payloads !! i = Some q →
  find_key (st_clock s) (content_key b) (st_redis s) = None →
  resume (claim_content_hash b q) s = Some (p', s') →
  claim_inv b payloads t0 (<[i := p']> (map (claim_content_hash b) payloads)) s'.
Proof.
  intros Ht Hq Hf [-> ->]%claim_resume. rewrite claim_script_absent by done.
  split; [done|]. split; [by rewrite length_insert, length_map|]. right.
  exists i, q, (st_clock s + _content_ttl * us_per_s). split_and!; [done|lia| |].
  - cbn. apply find_key_insert. unfold live, _content_ttl, _idem_ttl, us_per_s. cbn. lia.
  - intros j p Hj. apply list_lookup_insert_Some in Hj as [(<- & <- & _)|[Hne Hj]].
    + right. cbn. by rewrite bool_decide_true.
    + left. split; [done|]. apply list_lookup_fmap_Some in Hj as (q' & -> & _). by exists q'.
Qed.

Lemma claim_step b payloads t0 ps s ps' s' :
  claim_inv b payloads t0 ps s → pstep (ps, s) (ps', s') →
  st_clock s' < t0 + _content_ttl * us_per_s → claim_inv b payloads t0 ps' s'.
Proof.
  intros (Ht & Hlen & Hi) Hstep Hbound.
  apply pstep_inv in Hstep as [(i & p & p' & Hp & Hr & ->)|(-> & d & Hd & ->)].
  - destruct Hi as [[Hf ->]|(i0 & p0 & D & Hi0 & HD & Hf & Hps)].
    + apply list_lookup_fmap_Some in Hp as (q & -> & Hq). by eapply claim_first.
    + destruct (Hps _ _ Hp) as [[Hne [q ->]]| ->]; [|discriminate Hr].
      apply claim_resume in Hr as [-> ->]. rewrite (claim_script_taken _ _ _ _ _ _ _ Hf).
      split; [done|]. split; [by rewrite length_insert|]. right. exists i0, p0, D.
      split_and!; [done|done|done|]. intros j p Hj.
      apply list_lookup_insert_Some in Hj as [(<- & <- & _)|[_ Hj]]; [|by apply Hps].
      right. cbn. by rewrite bool_decide_false.
  - split; [cbn; lia|]. split; [done|]. destruct Hi as [[Hf ->]|(i0 & p0 & D & Hi0 & HD & Hf & Hps)].
    + left. split; [|done]. cbn. eapply find_key_none_later; [exact Hf|lia].
    + right. exists i0, p0, D. split_and!; [done|done| |done]. cbn in *.
      eapply find_key_later; [exact Hf|]. cbn. lia.
Qed.

Lemma claim_steps b payloads t0 c c' :
  psteps c c' → claim_inv b payloads t0 c.1 c.2 → st_clock c'.2 < t0 + _content_ttl * us_per_s →
  claim_inv b payloads t0 c'.1 c'.2.
Proof.
  induction 1 as [|[ps1 s1] [ps2 s2] c3 Hs Hr IH]; [done|]. intros Hi Hb. apply IH; [|done].
  eapply claim_step; [exact Hi|exact Hs|]. apply psteps_clock in Hr. cbn in *. lia.
Qed.

(** C11. One winner per content: of any number of concurrent claims of one batch,
    interleaved in any order over less than 48 hours, exactly the request that
    claimed first is told it won, and every answer names that request's payload. *)
Theorem content_claim_one_winner b p ps s ps' s' :
  find_key (st_clock s) (content_key b) (st_redis s) = None →
  psteps (map (claim_content_hash b) (p :: ps), s) (ps', s') →
  st_clock s' < st_clock s + _content_ttl * us_per_s →
  ∃ i0 p0, (p :: ps) !! i0 = Some p0 ∧
    ∀ i c, ps' !! i = Some (Ret c) → won c = bool_decide (i = i0) ∧ winner c = Some p0.
Proof.
  intros Hf Hs Hb.
  destruct (claim_steps b (p :: ps) (st_clock s) _ _ Hs) as (_ & _ & Hi); [|done|].
  { split; [done|]. split; [by cbn [fst]; rewrite length_map|]. by left. }
  destruct Hi as [[_ E]|(i0 & p0 & D & Hi0 & _ & _ & Hps)].
  - exists 0%nat, p. split; [done|]. intros i c Hi. cbn [fst] in E. rewrite E in Hi.
    apply list_lookup_fmap_Some in Hi as (q & Hq & _). discriminate Hq.
  - exists i0, p0. split; [done|]. intros i c Hi.
    destruct (Hps _ _ Hi) as [[_ [q Hq]]|Hq]; [discriminate Hq|]. injection Hq as ->. done.
Qed.

(** * The database backstop *)

Lemma claim_payload_round_trip j n k :
  _decode_claim_payload (_encode_claim_payload j n) k = (uuid_str j, n).
Proof.
  unfold _decode_claim_payload, _encode_claim_payload.
  rewrite (str_app_cons ":"%char), str_app_nil_l, (partition_app ":"%char) by (apply uuid_str_sep; repeat constructor).
  cbn [negb]. by rewrite py_int_of_Z.
Qed.

(** No row of the batch, and nobody has the id about to be drawn. *)
Definition unknown (sid pid : uuid) (b : Batch) (j : uuid) (s : state) : Prop :=
  ∀ r, r ∈ st_db s ingest_dedup → same_triple pid sid (batch_hash b) r = false ∧ dd_job_id r ≠ j.

(** The row of the batch, stored less than 48 hours ago. *)
Definition recorded (sid pid : uuid) (b : Batch) (j : uuid) (t : Z) (s : state) : Prop :=
  st_clock s < t + _DEDUP_TTL ∧
  ∃ l, st_db s ingest_dedup = l ++ [mkIngestDedup j pid sid (batch_hash b) t] ∧
    ∀ r, r ∈ l → same_triple pid sid (batch_hash b) r = false.

Lemma insert_unknown sid pid b j (s : state) :
  unknown sid pid b j s →
  run (insert_or_none pid sid (batch_hash b) j) s =
    (inr true, set_db (set_table ingest_dedup
       (st_db s ingest_dedup ++ [mkIngestDedup j pid sid (batch_hash b) (st_clock s)]) (st_db s)) s).
Proof.
  intros Hu. unfold insert_or_none. rewrite run_now.
  assert (∀ r, r ∈ st_db s ingest_dedup →
    uq_ingest_dedup (mkIngestDedup j pid sid (batch_hash b) (st_clock s)) r = false) as Hq.
  { intros r Hr. destruct (Hu r Hr) as [Ht _]. unfold uq_ingest_dedup, same_triple in *. cbn in *.
    by rewrite (Z.eqb_sym pid), (Z.eqb_sym sid), String.eqb_sym. }
  rewrite run_delete_none by (intros r Hr; by destruct (Hu r Hr) as [-> _]).
  rewrite run_insert_one; [done|done|exact Hq|].
  intros r Hr. cbn [row_conflict]. rewrite (Hq r Hr). destruct (Hu r Hr) as [_ Hj]. cbn.
  destruct (Z.eqb_spec j (dd_job_id r)); [by subst|done].
Qed.

Lemma insert_recorded sid pid b j j' t (s : state) :
  recorded sid pid b j t s → run (insert_or_none pid sid (batch_hash b) j') s = (inr false, s).
Proof.
  intros (Ht & l & E & Hl). unfold insert_or_none. rewrite run_now.
  rewrite run_delete_none.
  2: { intros r Hr. rewrite E in Hr. apply elem_of_app in Hr as [Hr| ->%list_elem_of_singleton].
       - by rewrite (Hl r Hr).
       - apply andb_false_iff. right. cbn. lia. }
  rewrite (run_insert_skipped ingest_dedup _ _ (mkIngestDedup j pid sid (batch_hash b) t)); [done|done| |].
  - rewrite E. apply elem_of_app. right. left.
  - unfold uq_ingest_dedup. cbn. by rewrite !Z.eqb_refl, String.eqb_refl.
Qed.

Lemma get_recorded sid pid b j t (s : state) :
  recorded sid pid b j t s → run (get_job_id pid sid (batch_hash b)) s = (inr (Some j), s).
Proof.
  intros (Ht & l & E & Hl). unfold get_job_id. rewrite run_now, (run_select ingest_dedup), E, List.filter_app.
  rewrite filter_none by (intros r Hr; by rewrite (Hl r Hr)). cbn [List.filter].
  unfold same_triple at 1. cbn. rewrite !Z.eqb_refl, String.eqb_refl. cbn.
  destruct (Z.ltb_spec (st_clock s - _DEDUP_TTL) t); [done|lia].
Qed.

(** The state a won batch leaves. *)
Definition claimed (sid pid : uuid) (b : Batch) (j : uuid) (s : state) : state :=
  mkState (st_clock s)
    (<[content_key b := REntry (RStr (_encode_claim_payload j (Z.of_nat (length (b_messages b)))))
                          (Some (st_clock s + _content_ttl * us_per_s))]> (st_redis s))
    (set_table ingest_dedup
       (st_db s ingest_dedup ++ [mkIngestDedup j pid sid (batch_hash b) (st_clock s)]) (st_db s))
    (st_committed s) (st_tenant s) (st_entropy s) (S (st_drawn s)) (st_out s)
    (st_remote s).

(** Without a value of another type at the key, peeking changes nothing. *)
Lemma run_peek {A} b (g : prog A) (s : state) :
  (∀ v d, find_key (st_clock s) (content_key b) (st_redis s) = Some (REntry v d) → ∃ p, v = RStr p) →
  run (try_except (check_content_hash b) is_exception (λ _, Ret None) ≫= λ _, g) s = run g s.
Proof.
  intros Hv. unfold try_except. rewrite run_bind, run_catch. unfold check_content_hash, redis.
  rewrite run_call. cbn.
  destruct (find_key (st_clock s) (content_key b) (st_redis s)) as [[v d]|] eqn:E.
  - destruct (Hv v d eq_refl) as [p ->]. rewrite (ks_get_str _ _ _ _ _ E). cbn.
    by rewrite set_redis_id.
  - rewrite (ks_get_none _ _ _ E). cbn. by rewrite set_redis_id.
Qed.

(** A batch nobody has sent: this request wins both claims. *)
Lemma claim_fresh sid pid b (s : state) :
  find_key (st_clock s) (content_key b) (st_redis s) = None →
  unknown sid pid b (next_uuid s) s →
  run (_claim_batch b sid pid) s = (inr (next_uuid s, None), claimed sid pid b (next_uuid s) s).
Proof.
  intros Hf Hu. unfold _claim_batch. rewrite run_peek by (intros v d E; by rewrite Hf in E).
  rewrite run_uuid4. unfold claim_content_hash. rewrite run_bind.
  redis_step (claim_script_absent (content_key b)
    (_encode_claim_payload (next_uuid s) (Z.of_nat (length (b_messages b)))) _content_ttl
    (st_clock s) (st_redis s) eq_refl Hf).
  cbn [fst snd run Z.eqb Pos.eqb won winner negb]. unfold try_except.
  rewrite run_bind, run_catch, run_bind, insert_unknown; [done|exact Hu].
Qed.

(** The key still holds the winner's payload. *)
Lemma claim_replayed sid pid b j n d (s : state) :
  find_key (st_clock s) (content_key b) (st_redis s) = Some (REntry (RStr (_encode_claim_payload j n)) d) →
  run (_claim_batch b sid pid) s
  = (inr (next_uuid s, Some (mkIngestMemoryResponse (Some (uuid_str j)) n already_ingested)),
     (op_sem (Draw (2 ^ 128)) s).2).
Proof.
  intros Hf. unfold _claim_batch.
  rewrite run_peek by (intros v d' E; rewrite Hf in E; injection E as <- _; by eexists).
  rewrite run_uuid4. unfold claim_content_hash. rewrite run_bind.
  redis_step (claim_script_taken (content_key b)
    (_encode_claim_payload (next_uuid s) (Z.of_nat (length (b_messages b)))) _ _ _content_ttl
    (st_clock s) (st_redis s) Hf).
  cbn [fst snd run Z.eqb Pos.eqb won winner negb]. by rewrite claim_payload_round_trip.
Qed.

Lemma run_release b (s : state) :
  run (release_content_hash b) s = (inr tt, set_redis (delete (content_key b) (st_redis s)) s).
Proof. done. Qed.

(** The key is lost but the row is there: the row answers, and the key is given back. *)
Lemma claim_backstop sid pid b j t (s : state) :
  find_key (st_clock s) (content_key b) (st_redis s) = None → recorded sid pid b j t s →
  ∃ s', run (_claim_batch b sid pid) s
  = (inr (next_uuid s, Some (mkIngestMemoryResponse (Some (uuid_str j))
       (Z.of_nat (length (b_messages b))) already_ingested)), s') ∧
    find_key (st_clock s') (content_key b) (st_redis s') = None ∧ recorded sid pid b j t s'.
Proof.
  intros Hf Hr. unfold _claim_batch. rewrite run_peek by (intros v d E; by rewrite Hf in E).
  rewrite run_uuid4. unfold claim_content_hash. rewrite run_bind.
  redis_step (claim_script_absent (content_key b)
    (_encode_claim_payload (next_uuid s) (Z.of_nat (length (b_messages b)))) _content_ttl
    (st_clock s) (st_redis s) eq_refl Hf).
  cbn [fst snd run Z.eqb Pos.eqb won winner negb]. unfold try_except.
  rewrite run_bind, run_catch, run_bind.
  rewrite (insert_recorded sid pid b j _ t) by exact Hr. cbn [run].
  rewrite run_bind, (get_recorded sid pid b j t) by exact Hr. rewrite run_bind.
  unfold _loser_response. rewrite run_bind, run_release. eexists. split; [reflexivity|].
  split; [apply find_key_delete|exact Hr].
Qed.

(** The same batch sent twice, [d] apart; in between Redis may lose the key. *)
Definition sent_twice (sid pid : uuid) (b : Batch) (d : Z) (evicted : bool) :
    prog ((uuid * option IngestMemoryResponse) * (uuid * option IngestMemoryResponse)) :=
  x ← _claim_batch b sid pid;
  _ ← call (Sleep d);
  _ ← (if evicted then redis (ks_delete [content_key b]) else Ret 0);
  y ← _claim_batch b sid pid;
  Ret (x, y).

(** A batch is ingested once: sent again within 48 hours, it is answered with the
    first request's job id and episode count, from Redis or, when Redis has lost the
    key, from the database row. *)
Theorem batch_claimed_once {W} `{World W} (w : W) sid pid b d evicted :
  let s := abs w in
  let j := next_uuid s in
  steady w → 0 ≤ d < _DEDUP_TTL →
  find_key (st_clock s) (content_key b) (st_redis s) = None →
  unknown sid pid b j s →
  ∃ j', (run (sent_twice sid pid b d evicted) w).1 =
    inr ((j, None),
         (j', Some (mkIngestMemoryResponse (Some (uuid_str j))
                      (Z.of_nat (length (b_messages b))) already_ingested))).
Proof.
  intros s j Hs Hd Hf Hu. rewrite (proj1 (run_steady _ w Hs)). fold s. unfold sent_twice.
  rewrite run_bind, claim_fresh by done. fold j. rewrite run_sleep.
  set (s1 := (op_sem (Sleep d) (claimed sid pid b j s)).2).
  assert (recorded sid pid b j (st_clock s) s1) as Hr.
  { split; [cbn; lia|]. exists (st_db s ingest_dedup).
    split; [reflexivity|]. intros r Hr. by apply Hu. }
  destruct evicted.
  - unfold redis. erewrite run_op by reflexivity. cbn [snd ks_delete fst].
    destruct (claim_backstop sid pid b j (st_clock s) (set_redis (delete (content_key b) (st_redis s1)) s1))
      as (s2 & E & _); [apply find_key_delete|exact Hr|].
    rewrite run_bind. eexists. by rewrite E.
  - rewrite run_ret_bind. exists (next_uuid s1). rewrite run_bind.
    erewrite claim_replayed; [reflexivity|]. cbn. apply find_key_insert.
    unfold live, _content_ttl, _DEDUP_TTL, _idem_ttl, us_per_s in *. cbn. lia.
Qed.

(** * Enrichment bits: lemmas *)

Lemma land_bit st k : 0 ≤ k → (Z.land st (Z.shiftl 1 k) =? 0) = negb (Z.testbit st k).
Proof.
  intros Hk. rewrite Z.shiftl_1_l. destruct (Z.testbit st k) eqn:E; cbn.
  - apply Z.eqb_neq. intros H0'. assert (Z.testbit (Z.land st (2 ^ k)) k = false) as Hb by
      (rewrite H0'; apply Z.bits_0). rewrite Z.land_spec, E, Z.pow2_bits_true in Hb by done. done.
  - apply Z.eqb_eq, Z.bits_inj'. intros n Hn. rewrite Z.land_spec, Z.pow2_bits_eqb, Z.bits_0 by done.
    destruct (Z.eqb_spec k n) as [<-|]; [by rewrite E|by rewrite andb_false_r].
Qed.

Lemma lor_bit st k : 0 ≤ k → Z.testbit st k = true → Z.lor st (Z.shiftl 1 k) = st.
Proof.
  intros Hk E. apply Z.bits_inj'. intros n Hn.
  rewrite Z.lor_spec, Z.shiftl_1_l, Z.pow2_bits_eqb by done.
  destruct (Z.eqb_spec k n) as [<-|]; [by rewrite E|by rewrite orb_false_r].
Qed.

Lemma testbit_lor_bit st k n :
  0 ≤ k → Z.testbit (Z.lor st (Z.shiftl 1 k)) n = Z.testbit st n || (k =? n).
Proof. intros Hk. by rewrite Z.lor_spec, Z.shiftl_1_l, Z.pow2_bits_eqb. Qed.

(** The rows after the bits [m] have been set on one episode. *)
Definition marked (id : uuid) (m : Z) (l : list Episode) : list Episode :=
  map (λ e, if live_episode id e then with_status (λ st, Z.lor st m) e else e) l.

(** Ids are unique and the live episode [id] has status [st]. *)
Definition stored (id : uuid) (st : Z) (l : list Episode) : Prop :=
  NoDup (map ep_id l) ∧ ∃ e, e ∈ l ∧ live_episode id e = true ∧ ep_enrichment_status e = st.

Lemma marked_marked id m n l : marked id n (marked id m l) = marked id (Z.lor m n) l.
Proof.
  unfold marked. rewrite map_map. apply map_ext. intros e.
  destruct (live_episode id e) eqn:E; [|by rewrite E].
  change (live_episode id (with_status (λ st, Z.lor st m) e)) with (live_episode id e). rewrite E.
  unfold with_status. cbn. by rewrite Z.lor_assoc.
Qed.

Lemma stored_marked id st m l : stored id st l → stored id (Z.lor st m) (marked id m l).
Proof.
  intros (Hd & e & He & Hl & <-). split.
  - assert (map ep_id (marked id m l) = map ep_id l) as ->; [|done].
    unfold marked. rewrite map_map. apply map_ext. intros x. by destruct (live_episode id x).
  - exists (with_status (λ st, Z.lor st m) e). split; [|done].
    apply list_elem_of_fmap. exists e. by rewrite Hl.
Qed.

Lemma stored_unique id st l e :
  stored id st l → e ∈ l → live_episode id e = true → ep_enrichment_status e = st.
Proof.
  intros (Hd & e' & He' & Hl' & <-) He Hl. f_equal. eapply (NoDup_map_inj ep_id); [done..|].
  unfold live_episode in *. apply andb_true_iff in Hl as [?%Z.eqb_eq _], Hl' as [?%Z.eqb_eq _].
  congruence.
Qed.

Lemma marked_done id st k l :
  stored id st l → 0 ≤ k → Z.testbit st k = true → marked id (Z.shiftl 1 k) l = l.
Proof.
  intros Hs Hk Hb. unfold marked. rewrite <- (map_id l) at 2. apply map_ext_in.
  intros e He%list_elem_of_In. destruct (live_episode id e) eqn:E; [|done].
  pose proof (stored_unique _ _ _ _ Hs He E) as Hst. unfold with_status. rewrite Hst, lor_bit by done.
  rewrite <- Hst. by destruct e.
Qed.

Lemma mark_step id st k (s : state) :
  uuid_wf id → 0 ≤ k → stored id st (st_db s episodes) →
  run (check_and_mark_worker (uuid_str id) (Z.shiftl 1 k)) s =
    (inr (negb (Z.testbit st k)),
     set_db (set_table episodes (marked id (Z.shiftl 1 k) (st_db s episodes)) (st_db s)) s).
Proof.
  intros Hid Hk Hs. pose proof Hs as (Hd & e & He & Hl & Hst).
  unfold check_and_mark_worker. rewrite uuid_parse_str by done.
  unfold get_by_id_for_update. rewrite run_bind, (run_select episodes).
  rewrite (filter_unique (A := row episodes) ep_id _ _ e Hd He Hl).
  2: { intros y Hy. unfold live_episode in *.
       apply andb_true_iff in Hl as [?%Z.eqb_eq _], Hy as [?%Z.eqb_eq _]. congruence. }
  cbn [scalar_one_or_none run]. rewrite Hst, land_bit, negb_involutive by done.
  destruct (Z.testbit st k) eqn:E.
  - rewrite marked_done with (st := st) by done. rewrite set_table_id. by destruct s.
  - reflexivity.
Qed.

(** Workers ask for their tasks one after the other; the row lock puts concurrent
    ones in such an order. *)
Fixpoint workers (id : uuid) (ks : list Z) : prog (list bool) :=
  match ks with
  | [] => Ret []
  | k :: r =>
      b ← check_and_mark_worker (uuid_str id) (Z.shiftl 1 k);
      bs ← workers id r;
      Ret (b :: bs)
  end.

Definition all_bits (ks : list Z) : Z := foldr (λ k m, Z.lor (Z.shiftl 1 k) m) 0 ks.

(** The first worker of each task that was not done. *)
Fixpoint firsts (st : Z) (ks : list Z) : list bool :=
  match ks with
  | [] => []
  | k :: r => negb (Z.testbit st k) :: firsts (Z.lor st (Z.shiftl 1 k)) r
  end.

Lemma firsts_lookup st ks i k :
  Forall (λ k, 0 ≤ k) ks → ks !! i = Some k →
  firsts st ks !! i = Some (negb (Z.testbit st k) && bool_decide (k ∉ take i ks)).
Proof.
  revert st i; induction ks as [|k0 ks IH]; intros st i Hk Hi; [done|].
  apply Forall_cons in Hk as [Hk0 Hk]. destruct i as [|i].
  - injection Hi as ->. cbn. rewrite bool_decide_true by apply not_elem_of_nil. by rewrite andb_true_r.
  - cbn in *. rewrite (IH _ _ Hk Hi), testbit_lor_bit, negb_orb, <- andb_assoc by done.
    do 2 f_equal. destruct (Z.eqb_spec k0 k) as [->|Hne]; cbn.
    + symmetry. apply bool_decide_false. intros Hn. apply Hn. left.
    + apply bool_decide_ext. rewrite elem_of_cons. intuition congruence.
Qed.

Lemma run_workers id st ks (s : state) :
  uuid_wf id → Forall (λ k, 0 ≤ k) ks → stored id st (st_db s episodes) →
  run (workers id ks) s =
    (inr (firsts st ks), set_db (set_table episodes (marked id (all_bits ks) (st_db s episodes)) (st_db s)) s).
Proof.
  intros Hid. revert st s; induction ks as [|k ks IH]; intros st s Hk Hs.
  - cbn. assert (marked id 0 (st_db s episodes) = st_db s episodes) as ->.
    { unfold marked. rewrite <- (map_id (st_db s episodes)) at 2. apply map_ext. intros e.
      destruct (live_episode id e); [|done]. unfold with_status. rewrite Z.lor_0_r. by destruct e. }
    rewrite set_table_id. by destruct s.
  - apply Forall_cons in Hk as [Hk0 Hk]. cbn [workers]. rewrite run_bind, (mark_step id st) by done.
    rewrite run_bind. erewrite (IH (Z.lor st (Z.shiftl 1 k))); [|done|by apply stored_marked].
    cbn [run firsts all_bits foldr]. f_equal. unfold set_db. cbn.
    by rewrite set_table_twice, <- marked_marked.
Qed.

(** Each enrichment task of an episode is handed out once: of any sequence of
    workers, the one told to proceed with a task is the first to ask for it, and only
    when it was not done before; afterwards exactly the tasks asked for are added to
    the episode's status and no other row has changed. *)
Theorem worker_task_once {W} `{World W} (w : W) id st ks :
  let s := abs w in
  steady w → uuid_wf id → Forall (λ k, 0 ≤ k) ks → stored id st (st_db s episodes) →
  ∃ answers, (run (workers id ks) w).1 = inr answers ∧
    (∀ i k, ks !! i = Some k →
       answers !! i = Some (negb (Z.testbit st k) && bool_decide (k ∉ take i ks))) ∧
    st_db (abs (run (workers id ks) w).2) episodes = marked id (all_bits ks) (st_db s episodes) ∧
    stored id (Z.lor st (all_bits ks)) (st_db (abs (run (workers id ks) w).2) episodes).
Proof.
  intros s Hs Hid Hk Hst. destruct (run_steady (workers id ks) w Hs) as (E1 & E2 & _).
  rewrite E1, E2. fold s. rewrite (run_workers id st) by done. exists (firsts st ks).
  cbn [fst snd st_db set_db]. rewrite set_table_eq. split_and!; [done| |done|by apply stored_marked].
  intros i k. by apply firsts_lookup.
Qed.
End idempotency.

(** * Concrete inputs *)

Definition json_codec : Orjson := {|
  orjson_dumps := dumps; orjson_dumps_sorted := dumps; orjson_loads := loads |}.
Definition production : Deployment := {| ENVIRONMENT := "production" |}.
Definition visible_hash : Hashlib := {| sha256_hexdigest := λ s, s |}.

Lemma idempotency_key_life_witness :
  (run (key_history (H0 := json_codec) (H1 := production) 1 2 "order-1" "aa" "bb"
     (JObj [("job_id"%string, JStr "7")]) 172799999999) empty_state).1 =
  inr (mkIdempotencyResult NEW None,
       mkIdempotencyResult REPLAY (Some (JObj [("job_id"%string, JStr "7")])),
       mkIdempotencyResult CONFLICT None, mkIdempotencyResult NEW None).
Proof.
  apply (idempotency_key_life (H0 := json_codec) (H1 := production) empty_state 1 2 "order-1" "aa" "bb"
    (JObj [("job_id"%string, JStr "7")]) 172799999999).
  - exact I.
  - split; [discriminate|reflexivity].
  - split; [discriminate|reflexivity].
  - discriminate.
  - discriminate.
  - discriminate.
  - discriminate.
  - vm_compute. reflexivity.
  - reflexivity.
  - reflexivity.
Defined.

Definition one_message : Batch := mkBatch "o" "u" "s" [[("role", JStr "user"); ("content", JStr "hi")]]%string.

Lemma content_claim_one_winner_witness :
  let claim := claim_content_hash (H := visible_hash) (H0 := json_codec) (H1 := production) one_message in
  let s := (run (claim "b:1") empty_state).2 in
  ∃ i0 p0, ["a:1"; "b:1"]%string !! i0 = Some p0 ∧
    ∀ i c, [Ret (mkContentHashClaim false (Some "b:1")); Ret (mkContentHashClaim true (Some "b:1"))]%string
             !! i = Some (Ret c) →
      won c = bool_decide (i = i0) ∧ winner c = Some p0.
Proof.
  intros claim s.
  apply (content_claim_one_winner (H := visible_hash) (H0 := json_codec) (H1 := production) one_message
    "a:1" ["b:1"%string] empty_state _ (run (claim "a:1") s).2).
  - reflexivity.
  - etrans; [apply (run_psteps 1 (claim "b:1")); reflexivity|].
    etrans; [apply (run_psteps 0 (claim "a:1")); reflexivity|]. vm_compute. apply rtc_refl.
  - reflexivity.
Defined.

Lemma batch_claimed_once_witness :
  let j := next_uuid (abs empty_state) in
  ∃ j', (run (sent_twice (H := visible_hash) (H0 := json_codec) (H1 := production) 3 4 one_message
            172799999999 true) empty_state).1 =
    inr ((j, None), (j', Some (mkIngestMemoryResponse (Some (uuid_str j))
      (Z.of_nat (length (b_messages one_message))) already_ingested))).
Proof.
  apply (batch_claimed_once (H := visible_hash) (H0 := json_codec) (H1 := production) empty_state
    3 4 one_message 172799999999 true).
  - exact I.
  - split; [discriminate|reflexivity].
  - reflexivity.
  - intros r Hr. by apply elem_of_nil in Hr.
Defined.

Definition episode_state : state :=
  set_db (set_table episodes [mkEpisode 5 1 2 3 0 2 false 9 "user" "" (JObj []) 0; mkEpisode 6 1 2 3 1 0 false 9 "user" "" (JObj []) 0] (st_db empty_state))
    empty_state.

Lemma worker_task_once_witness :
  let ks := [0; 1; 0; 8] in
  ∃ answers, (run (workers 5 ks) episode_state).1 = inr answers ∧
    (∀ i k, ks !! i = Some k →
       answers !! i = Some (negb (Z.testbit 2 k) && bool_decide (k ∉ take i ks))) ∧
    st_db (abs (run (workers 5 ks) episode_state).2) episodes
      = marked 5 (all_bits ks) (st_db (abs episode_state) episodes) ∧
    stored 5 (Z.lor 2 (all_bits ks)) (st_db (abs (run (workers 5 ks) episode_state).2) episodes).
Proof.
  intros ks. apply (worker_task_once episode_state 5 2 ks).
  - exact I.
  - split; [discriminate|reflexivity].
  - repeat constructor; discriminate.
  - split; [apply (bool_decide_unpack _); vm_compute; exact I|].
    exists (mkEpisode 5 1 2 3 0 2 false 9 "user" "" (JObj []) 0). split; [left|split; reflexivity].
Defined.
