(* ===== verification/Facts.v ===== *)
(** services/facts/, services/graph_edge_sync_service.py and the supersession
    primitives of repositories/fact_repository.py: what makes two assertions the
    same triple, the batch ingestion that closes what it replaces, retraction, and
    the edges of the graph that expire with a fact. *)
From S2P Require Import Prelude Errors Data Effects.
Open Scope Z_scope.

(** PostgreSQL's [lower]. *)
Class Postgres := { sql_lower : string → string }.

(** * services/facts/conflict_matching.py *)

(** The characters [_ENTITY_NAME_RE] leaves of a lowered text. *)
Definition identity_char (c : ascii) : bool := between 97 122 c || between 48 57 c || is_space c.

Definition normalize_identity_term (term : option string) : string :=
  match term with
  | None => EmptyString
  | Some t => str_strip (str_filter identity_char (str_lower t))
  end.

Definition NameIdentity : Type := string * string * string.

(** One side of a scan key: a resolved entity or raw text. *)
Inductive key_term := TId (u : uuid) | TStr (s : string).
Definition MatchKey : Type := key_term * string * key_term.

(** The values the dict of one incoming fact may hold. *)
Inductive entity_ref := EUuid (u : uuid) | EText (s : string).
Inductive validity_bound := BNone | BDatetime (t : Z) | BText (s : string) | BOther.

Record FactInput := mkFactInput {
  in_subject : option string;
  in_predicate : option string;
  in_object : option string;
  in_content : option string;
  in_confidence : option Q;
  in_subject_type : option string;
  in_object_type : option string;
  in_subject_entity_id : option entity_ref;
  in_object_entity_id : option entity_ref;
  in_valid_from : validity_bound;
  in_valid_to : validity_bound;
}.

Record FactRow := mkFactRow {
  r_subject : string;
  r_predicate : string;
  r_object : string;
  r_content : string;
  r_confidence : Q;
  r_subject_type : string;
  r_object_type : string;
  r_subject_entity_id : option uuid;
  r_object_entity_id : option uuid;
  r_source_episode_id : option uuid;
  r_valid_from : option Z;
  r_valid_to : option Z;
}.

Record Triple := mkTriple { t_subject : string; t_predicate : string; t_object : string }.

Record Entry := mkEntry {
  e_name_identity : NameIdentity;
  e_match_keys : list MatchKey;
  e_triple : Triple;
  e_row : FactRow;
}.

(** Python's [x or y] on a text that may be missing. *)
Definition or_text (x : option string) (y : string) : string :=
  match x with Some (c ::: r) => c ::: r | _ => y end.

Definition ends_with_Z (s : string) : bool :=
  match rpartition "Z" s with (_, true, EmptyString) => true | _ => false end.

Section conflict_matching.
Context `{Postgres} `{Datetime}.

Definition _parse_validity_bound (value : validity_bound) (default : option Z) : exn + option Z :=
  match value with
  | BNone => inr default
  | BDatetime t => inr (Some t)
  | BText s =>
      let text := str_strip s in
      let '(head, _, _) := rpartition "Z" text in
      let text := if ends_with_Z text then head +:+ "+00:00" else text in
      match fromisoformat text with
      | inl e => inl e
      | inr t => inr (Some t)
      end
  | BOther => inl (AppExc ValidationError
      "Invalid validity bound - expected an ISO-8601 datetime string or a datetime.")
  end.

(** An empty id text counts as none. *)
Definition resolve_ref (r : option entity_ref) : exn + option uuid :=
  match r with
  | None => inr None
  | Some (EUuid u) => inr (Some u)
  | Some (EText EmptyString) => inr None
  | Some (EText s) =>
      match uuid_parse s with
      | Some u => inr (Some u)
      | None => inl (ValueError "badly formed hexadecimal UUID string")
      end
  end.

Definition _lock_key_for_identity (org_id project_id : uuid) (i : NameIdentity) : string :=
  let '(subject, predicate, obj) := i in
  "sup:" +:+ uuid_str org_id +:+ ":" +:+ uuid_str project_id +:+ ":" +:+ subject +:+ ":"
  +:+ predicate +:+ ":" +:+ obj.

Definition _prepare_entry (fact : FactInput) (source_episode_id : option uuid) (now : Z) : exn + Entry :=
  let subject := str_strip (or_text (in_subject fact) EmptyString) in
  let predicate := str_strip (or_text (in_predicate fact) EmptyString) in
  let obj := str_strip (or_text (in_object fact) EmptyString) in
  match resolve_ref (in_subject_entity_id fact) with
  | inl e => inl e
  | inr subject_entity_id =>
  match resolve_ref (in_object_entity_id fact) with
  | inl e => inl e
  | inr object_entity_id =>
  match _parse_validity_bound (in_valid_from fact) (Some now) with
  | inl e => inl e
  | inr valid_from =>
  match _parse_validity_bound (in_valid_to fact) None with
  | inl e => inl e
  | inr valid_to =>
    inr (mkEntry
      (normalize_identity_term (Some subject), normalize_identity_term (Some predicate),
       normalize_identity_term (Some obj))
      (match subject_entity_id, object_entity_id with
       | Some s, Some o => [(TId s, predicate, TId o); (TStr subject, predicate, TStr obj)]
       | _, _ => [(TStr subject, predicate, TStr obj)]
       end)
      (mkTriple subject predicate obj)
      (mkFactRow subject predicate obj
         (or_text (in_content fact) (subject +:+ " " +:+ predicate +:+ " " +:+ obj))
         (default 1%Q (in_confidence fact)) (default "literal"%string (in_subject_type fact))
         (default "literal"%string (in_object_type fact)) subject_entity_id object_entity_id
         source_episode_id valid_from valid_to))
  end end end end.

(** [_identity_of_fact], form-sensitive. *)
Inductive IdentityKey :=
| EntityForm (s : uuid) (p : option string) (o : uuid)
| NameForm (i : NameIdentity).

Definition _name_identity_of_fact (f : Fact) : NameIdentity :=
  (normalize_identity_term (f_subject f), normalize_identity_term (f_predicate f),
   normalize_identity_term (f_object f)).

Definition _identity_of_fact (f : Fact) : IdentityKey :=
  match f_subject_entity_id f, f_object_entity_id f with
  | Some s, Some o => EntityForm s (f_predicate f) o
  | _, _ => NameForm (_name_identity_of_fact f)
  end.

Definition name_match (row : FactRow) (f : Fact) : bool :=
  (normalize_identity_term (Some (r_subject row)) =? normalize_identity_term (f_subject f))%string
  && (normalize_identity_term (Some (r_predicate row)) =? normalize_identity_term (f_predicate f))%string
  && (normalize_identity_term (Some (r_object row)) =? normalize_identity_term (f_object f))%string.

Definition _candidate_conflicts (entry : Entry) (candidate : Fact) : bool :=
  let row := e_row entry in
  match r_subject_entity_id row, r_object_entity_id row with
  | Some s, Some o =>
      match _identity_of_fact candidate with
      | EntityForm s' p' o' => (s =? s') && sql_eq (Some (r_predicate row)) p' && (o =? o')
      | NameForm _ => name_match row candidate
      end
  | _, _ => name_match row candidate
  end.

(** * repositories/fact_repository.py *)

Definition _effective_at_clause (t : Z) (f : Fact) : bool :=
  match f_invalid_at f with None => true | Some x => t <? x end
  && match f_valid_from f with None => true | Some x => x <=? t end
  && match f_valid_to f with None => true | Some x => t <? x end.

Definition term_matches (k : key_term) (id : option uuid) (text : option string) : bool :=
  match k with
  | TId u => sql_eq id (Some u)
  | TStr s => sql_eq (option_map sql_lower text) (Some (str_lower s))
  end.

Definition key_condition (f : Fact) (k : MatchKey) : bool :=
  let '(s, p, o) := k in
  term_matches s (f_subject_entity_id f) (f_subject f)
  && sql_eq (f_predicate f) (Some p)
  && term_matches o (f_object_entity_id f) (f_object f).

Definition in_scope (org_id project_id : uuid) (f : Fact) : bool :=
  (f_organization_id f =? org_id) && (f_project_id f =? project_id).

(** The rows the scans return. *)
Definition active_match (org_id project_id : uuid) (keys : list MatchKey) (now : Z) (f : Fact) : bool :=
  in_scope org_id project_id f && _effective_at_clause now f && existsb (key_condition f) keys.

Definition retracted_match (org_id project_id : uuid) (keys : list MatchKey) (f : Fact) : bool :=
  in_scope org_id project_id f && negb (bool_decide (f_invalid_at f = None))
  && existsb (key_condition f) keys.

Definition find_conflicting_active_for_update (org_id project_id : uuid) (keys : list MatchKey) (now : Z) :
    prog (list Fact) :=
  match keys with
  | [] => Ret []
  | _ => call (Select facts (active_match org_id project_id keys now))
  end.

Definition find_retracted_by_match_keys (org_id project_id : uuid) (keys : list MatchKey) :
    prog (list Fact) :=
  match keys with
  | [] => Ret []
  | _ => call (Select facts (retracted_match org_id project_id keys))
  end.

(** [SELECT pg_advisory_xact_lock(hashtext(:key))] for each key. *)
Definition lock_conflict_identities (lock_keys : list string) : prog unit :=
  for_each lock_keys (λ key, call (Emit (Effect "pg_advisory_xact_lock" [key]))).

Definition set_valid_to (fact_id : uuid) (now : Z) : prog unit :=
  _ ← call (Update facts (λ f, f_id f =? fact_id) (with_valid_to now)); Ret tt.

Definition set_invalid_at (fact_id : uuid) (now : Z) : prog unit :=
  _ ← call (Update facts (λ f, f_id f =? fact_id) (with_invalid_at now)); Ret tt.

Definition set_superseded_by (fact_id : uuid) (successor_id : option uuid) : prog unit :=
  now ← call Now;
  _ ← call (Update facts (λ f, f_id f =? fact_id) (with_superseded_by successor_id now)); Ret tt.

Definition record_invalidation_event (org_id project_id old_fact_id : uuid) (new_fact_id : option uuid)
    (kind : string) (reason : option string) (at_time : Z) (source_episode_id : option uuid) : prog unit :=
  id ← uuid4;
  _ ← call (Insert fact_invalidation_events (no_arbiter fact_invalidation_events)
        [mkFactInvalidationEvent id org_id project_id old_fact_id new_fact_id kind reason at_time
           source_episode_id]);
  Ret tt.

Definition fact_by_id (fact_id : uuid) (organization_id : option uuid) : prog (option Fact) :=
  rows ← call (Select facts (λ f, (f_id f =? fact_id)
    && match organization_id with None => true | Some o => f_organization_id f =? o end));
  scalar_one_or_none rows.

(** A range that is empty from the start; a missing start means [now]. *)
Definition born_dead (now : Z) (r : FactRow) : bool :=
  match r_valid_to r with
  | None => false
  | Some t => t <=? default now (r_valid_from r)
  end.

Definition new_fact (id org_id project_id user_id : uuid) (episode : option uuid) (r : FactRow) : Fact :=
  mkFact id org_id project_id user_id (r_content r) (Some (r_subject r)) (Some (r_predicate r))
    (Some (r_object r)) (r_subject_type r) (r_object_type r) (r_confidence r) episode
    (r_subject_entity_id r) (r_object_entity_id r) (r_valid_from r) (r_valid_to r) None None None.

(** The rows of one INSERT; each id is drawn by the column default. *)
Fixpoint new_facts (mk : uuid → FactRow → Fact) (rows : list FactRow) : prog (list Fact) :=
  match rows with
  | [] => Ret []
  | r :: rest => id ← uuid4; l ← new_facts mk rest; Ret (mk id r :: l)
  end.

Inductive OnConflict := conflict_error | conflict_skip.

Definition batch_create (org_id project_id user_id : uuid) (rows : list FactRow) (on_conflict : OnConflict) :
    prog (list Fact) :=
  match rows with
  | [] => Ret []
  | _ =>
      now ← call Now;
      if existsb (born_dead now) rows then
        Throw (AppExc ValidationError "Fact has a born-dead validity range")
      else
        new ← new_facts (λ id r, new_fact id org_id project_id user_id (r_source_episode_id r) r) rows;
        call (Insert facts match on_conflict with
                           | conflict_error => no_arbiter facts
                           | conflict_skip => uq_facts_temporal_excl
                           end new)
  end.

Definition batch_create_or_skip (org_id project_id user_id : uuid) (source_episode_id : option uuid)
    (rows : list FactRow) : prog (list Fact) :=
  now ← call Now;
  if existsb (born_dead now) rows then
    Throw (AppExc ValidationError "Fact has a born-dead validity range")
  else
    new ← new_facts (λ id r, new_fact id org_id project_id user_id source_episode_id r) rows;
    call (Insert facts uq_facts_temporal_excl new).
End conflict_matching.

(** * services/graph_edge_sync_service.py *)

Record EdgeKey := mkEdgeKey { source_id : uuid; target_id : uuid; relationship_type : string }.

#[export] Instance EdgeKey_eq_dec : EqDecision EdgeKey.
Proof. solve_decision. Defined.

Record SupersessionEvent := mkSupersessionEvent {
  old_fact_id : uuid;
  new_fact_id : option uuid;
  triple : option Triple;
  old_edge_key : option EdgeKey;
  successor_reasserts : bool;
}.

Record EdgeExpiryCommand := mkEdgeExpiryCommand {
  x_org_id : uuid;
  x_project_id : uuid;
  x_source_id : uuid;
  x_target_id : uuid;
  x_relationship_type : string;
  x_at_time : Z;
  x_fact_id : uuid;
}.

Definition edge_key_for_fact (f : Fact) : option EdgeKey :=
  match f_subject_entity_id f, f_object_entity_id f, f_predicate f with
  | Some s, Some o, Some p =>
      if (str_strip p =? EmptyString)%string then None else Some (mkEdgeKey s o p)
  | _, _, _ => None
  end.

Definition make_supersession_event (old_fact : Fact) (new_fact : option Fact) (triple : option Triple) :
    SupersessionEvent :=
  let old_edge_key := edge_key_for_fact old_fact in
  let new_edge_key := match new_fact with Some f => edge_key_for_fact f | None => None end in
  mkSupersessionEvent (f_id old_fact) (option_map f_id new_fact) triple old_edge_key
    (bool_decide (old_edge_key ≠ None) && bool_decide (new_edge_key = old_edge_key)).

Fixpoint compute_expiry_commands (events : list SupersessionEvent) (org_id project_id : uuid) (at_time : Z) :
    list EdgeExpiryCommand :=
  match events with
  | [] => []
  | event :: rest =>
      let commands := compute_expiry_commands rest org_id project_id at_time in
      match old_edge_key event with
      | None => commands
      | Some k =>
          if bool_decide (new_fact_id event ≠ None) && successor_reasserts event then commands
          else mkEdgeExpiryCommand org_id project_id (source_id k) (target_id k) (relationship_type k)
                 at_time (old_fact_id event) :: commands
      end
  end.

(** * Post-commit effects

    What the service queues for the real commit; [after_rollback] empties the queue. *)
Inductive effect :=
| IncSuperseded (n : Z)
| IncRetracted (n : Z)
| IncInvalidated (n : Z)
| InvalidateProjectContext (org_id project_id : uuid)
| PurgeProjectContext (org_id project_id : uuid)
| WebhookEffect (event_type : string) (org_id project_id old_id : uuid) (new_id : option uuid)
    (triple : option Triple) (reason : option string)
| GraphSyncEffect (org_id project_id : uuid) (events : list SupersessionEvent) (at_time : Z).

(** Which collaborators the service was built with. *)
Record Collaborators := mkCollaborators {
  _webhook_service : bool;
  _cache_service : bool;
  _graph_sync : bool;
}.

Definition when {A} (b : bool) (l : list A) : list A := if b then l else [].

Definition _on_after_commit (pending : list effect) : list effect * list effect := (pending, []).
Definition _on_after_rollback (pending : list effect) : list effect := [].

(** * services/facts/persistence.py *)

Inductive InsertMode := mode_batch_create | mode_batch_create_or_skip.

Record _BatchCtx := mkBatchCtx {
  cx_org_id : uuid;
  cx_project_id : uuid;
  cx_user_id : uuid;
  cx_source_episode_id : option uuid;
  cx_insert_mode : InsertMode;
  cx_now : Z;
}.

Record _BatchState := mkBatchState {
  created : list Fact;
  closed_ids : list uuid;
  in_batch : gmap NameIdentity (list Fact);
  superseded_count : Z;
  skipped_count : Z;
  events : list SupersessionEvent;
  source_episode_by_old_fact : gmap uuid (option uuid);
}.

Definition new_batch_state : _BatchState := mkBatchState [] [] ∅ 0 0 [] ∅.

Definition bucket (k : NameIdentity) (m : gmap NameIdentity (list Fact)) : list Fact := default [] (m !! k).

(** [defaultdict(list)] filled in order. *)
Definition by_identity (l : list Fact) : gmap NameIdentity (list Fact) :=
  foldl (λ m f, <[_name_identity_of_fact f := bucket (_name_identity_of_fact f) m ++ [f]]> m) ∅ l.

Definition skip_one (st : _BatchState) : _BatchState :=
  mkBatchState (created st) (closed_ids st) (in_batch st) (superseded_count st) (skipped_count st + 1)
    (events st) (source_episode_by_old_fact st).

Definition close_one (id : uuid) (st : _BatchState) : _BatchState :=
  mkBatchState (created st) (id :: closed_ids st) (in_batch st) (superseded_count st + 1)
    (skipped_count st) (events st) (source_episode_by_old_fact st).

Definition add_created (l : list Fact) (st : _BatchState) : _BatchState :=
  mkBatchState (created st ++ l) (closed_ids st) (in_batch st) (superseded_count st) (skipped_count st)
    (events st) (source_episode_by_old_fact st).

(** One old fact replaced by [new]. *)
Definition add_event (old new : Fact) (e : Entry) (st : _BatchState) : _BatchState :=
  mkBatchState (created st) (closed_ids st) (in_batch st) (superseded_count st) (skipped_count st)
    (events st ++ [make_supersession_event old (Some new) (Some (e_triple e))])
    (<[f_id old := r_source_episode_id (e_row e)]> (source_episode_by_old_fact st)).

Definition set_in_batch (k : NameIdentity) (l : list Fact) (st : _BatchState) : _BatchState :=
  mkBatchState (created st) (closed_ids st) (<[k := l]> (in_batch st)) (superseded_count st)
    (skipped_count st) (events st) (source_episode_by_old_fact st).

Definition _matching_conflicts (e : Entry) (scope : list Fact) (closed : list uuid) : list Fact :=
  List.filter (λ c, negb (existsb (Z.eqb (f_id c)) closed) && _candidate_conflicts e c) scope.

Definition same_content (e : Entry) (c : Fact) : bool := (f_content c =? r_content (e_row e))%string.

Definition _insert_rows (org_id project_id user_id : uuid) (source_episode_id : option uuid)
    (rows : list FactRow) (insert_mode : InsertMode) : prog (list Fact) :=
  match insert_mode with
  | mode_batch_create_or_skip => batch_create_or_skip org_id project_id user_id source_episode_id rows
  | mode_batch_create => batch_create org_id project_id user_id rows conflict_error
  end.

Section persistence.
Context `{Postgres}.

Definition _scan_tombstones (org_id project_id : uuid) (entries : list Entry) :
    prog (gmap NameIdentity (list Fact)) :=
  let tombstone_keys := flat_map e_match_keys entries in
  match tombstone_keys with
  | [] => Ret ∅
  | _ =>
      tombstones ← find_retracted_by_match_keys org_id project_id tombstone_keys;
      Ret (by_identity tombstones)
  end.

(** The body of the first loop of [_supersede_batch_safe]. *)
Definition batch_step (candidates tombstones : gmap NameIdentity (list Fact)) (ctx : _BatchCtx)
    (acc : _BatchState * list (Entry * list Fact)) (entry : Entry) :
    prog (_BatchState * list (Entry * list Fact)) :=
  let '(state, kept) := acc in
  let conflicts := _matching_conflicts entry (bucket (e_name_identity entry) candidates)
                     (closed_ids state) in
  if existsb (same_content entry) conflicts then Ret (skip_one state, kept)
  else if existsb (_candidate_conflicts entry) (bucket (e_name_identity entry) tombstones) then
    Ret (skip_one state, kept)
  else
    state ← for_fold conflicts state (λ st c,
      _ ← set_valid_to (f_id c) (cx_now ctx); Ret (close_one (f_id c) st));
    Ret (state, kept ++ [(entry, conflicts)]).

(** The pairing loop at its end. *)
Definition pair_kept (kept : list (Entry * list Fact)) (state : _BatchState) : _BatchState :=
  let created_by_identity := by_identity (created state) in
  foldl (λ st '(entry, old_facts),
    match bucket (e_name_identity entry) created_by_identity with
    | [] => st
    | new :: _ => foldl (λ st old, add_event old new entry st) st old_facts
    end) state kept.

Definition _supersede_batch_safe (batch_entries : list Entry)
    (candidates tombstones : gmap NameIdentity (list Fact)) (ctx : _BatchCtx) (state : _BatchState) :
    prog _BatchState :=
  r ← for_fold batch_entries (state, []) (batch_step candidates tombstones ctx);
  let '(state, kept) := r in
  let batch_rows := map (λ k, e_row k.1) kept in
  state ← match batch_rows with
          | [] => Ret state
          | _ =>
              l ← _insert_rows (cx_org_id ctx) (cx_project_id ctx) (cx_user_id ctx)
                    (cx_source_episode_id ctx) batch_rows (cx_insert_mode ctx);
              Ret (add_created l state)
          end;
  Ret (pair_kept kept state).

(** [list.remove(c)]: the first occurrence. *)
Fixpoint remove_fact (c : Fact) (l : list Fact) : list Fact :=
  match l with
  | [] => []
  | x :: r => if f_id x =? f_id c then r else x :: remove_fact c r
  end.

(** One closed fact of the sequential path. *)
Definition sequential_close (k : NameIdentity) (ctx : _BatchCtx) (st : _BatchState) (c : Fact) :
    prog _BatchState :=
  _ ← set_valid_to (f_id c) (cx_now ctx);
  if existsb (λ x, f_id x =? f_id c) (bucket k (in_batch st)) then
    Ret (mkBatchState (created st) (closed_ids st)
           (<[k := remove_fact c (bucket k (in_batch st))]> (in_batch st)) (superseded_count st + 1)
           (skipped_count st) (events st) (source_episode_by_old_fact st))
  else Ret (close_one (f_id c) st).

Definition sequential_step (candidates tombstones : gmap NameIdentity (list Fact)) (ctx : _BatchCtx)
    (state : _BatchState) (entry : Entry) : prog _BatchState :=
  let name_identity := e_name_identity entry in
  let conflicts := _matching_conflicts entry
    (bucket name_identity candidates ++ bucket name_identity (in_batch state)) (closed_ids state) in
  if existsb (same_content entry) conflicts then Ret (skip_one state)
  else if existsb (_candidate_conflicts entry) (bucket name_identity tombstones) then Ret (skip_one state)
  else
    state ← for_fold conflicts state (sequential_close name_identity ctx);
    inserted ← _insert_rows (cx_org_id ctx) (cx_project_id ctx) (cx_user_id ctx)
                 (cx_source_episode_id ctx) [e_row entry] (cx_insert_mode ctx);
    match inserted with
    | [] => Ret state
    | new :: _ =>
        let state := set_in_batch name_identity (bucket name_identity (in_batch state) ++ inserted) state in
        let state := add_created inserted state in
        Ret (foldl (λ st old, add_event old new entry st) state conflicts)
    end.

Definition _supersede_sequential (sequential_entries : list Entry)
    (candidates tombstones : gmap NameIdentity (list Fact)) (ctx : _BatchCtx) (state : _BatchState) :
    prog _BatchState :=
  for_fold sequential_entries state (sequential_step candidates tombstones ctx).

Definition _record_lineage (org_id project_id : uuid) (now : Z) (state : _BatchState) : prog unit :=
  for_each (events state) (λ transition,
    match new_fact_id transition with
    | None => Ret tt
    | Some new =>
        _ ← set_superseded_by (old_fact_id transition) (Some new);
        record_invalidation_event org_id project_id (old_fact_id transition) (Some new) "superseded" None
          now (default None (source_episode_by_old_fact state !! old_fact_id transition))
    end).
End persistence.

(** * services/facts/supersession_ingest.py *)

Record FactIngestionResult := mkFactIngestionResult {
  res_created : list Fact;
  inserted_count : Z;
  res_superseded_count : Z;
  res_skipped_count : Z;
}.

(** [mapM] of a function that may raise. *)
Fixpoint try_map {A B} (f : A → exn + B) (l : list A) : exn + list B :=
  match l with
  | [] => inr []
  | x :: r =>
      match f x with
      | inl e => inl e
      | inr y => match try_map f r with inl e => inl e | inr ys => inr (y :: ys) end
      end
  end.

(** The first entry of each (identity, content). *)
Definition dedup_key (e : Entry) : NameIdentity * string := (e_name_identity e, r_content (e_row e)).

Fixpoint dedup (seen : list (NameIdentity * string)) (l : list Entry) : list Entry :=
  match l with
  | [] => []
  | e :: r =>
      if bool_decide (dedup_key e ∈ seen) then dedup seen r else e :: dedup (dedup_key e :: seen) r
  end.

(** [sorted({...})] of texts: increasing by code point, without repetition. *)
Fixpoint insert_text (x : string) (l : list string) : list string :=
  match l with
  | [] => [x]
  | y :: r =>
      match String.compare x y with
      | Lt => x :: l
      | Eq => l
      | Gt => y :: insert_text x r
      end
  end.

Definition sorted_set (l : list string) : list string := foldr insert_text [] l.

Definition count_identity (i : NameIdentity) (l : list Entry) : nat :=
  length (List.filter (λ e, bool_decide (e_name_identity e = i)) l).

Section ingest.
Context `{Postgres} `{Datetime}.

Definition superseded_effects (svc : Collaborators) (org_id project_id : uuid) (now : Z) (st : _BatchState) :
    list effect :=
  (if superseded_count st =? 0 then []
   else [IncSuperseded (superseded_count st)]
        ++ when (_cache_service svc) [InvalidateProjectContext org_id project_id])
  ++ when (_webhook_service svc)
       (flat_map (λ e, match new_fact_id e with
                       | None => []
                       | Some new => [WebhookEffect "fact.superseded" org_id project_id (old_fact_id e)
                                        (Some new) (triple e) None]
                       end) (events st))
  ++ (if negb (bool_decide (events st = [])) && _graph_sync svc
      then [GraphSyncEffect org_id project_id (events st) now] else []).

Definition ingest_with_supersession (svc : Collaborators) (pending : list effect)
    (org_id project_id user_id : uuid) (facts : list FactInput) (source_episode_id : option uuid)
    (insert_mode : InsertMode) (now : option Z) : prog (FactIngestionResult * list effect) :=
  now ← match now with Some t => Ret t | None => call Now end;
  match facts with
  | [] => Ret (mkFactIngestionResult [] 0 0 0, pending)
  | _ =>
      all_entries ← lift (try_map (λ f, _prepare_entry f source_episode_id now) facts);
      let entries := dedup [] all_entries in
      let skipped := Z.of_nat (length all_entries) - Z.of_nat (length entries) in
      _ ← lock_conflict_identities
            (sorted_set (map (λ e, _lock_key_for_identity org_id project_id (e_name_identity e)) entries));
      candidates ← find_conflicting_active_for_update org_id project_id (flat_map e_match_keys entries) now;
      tombstones ← _scan_tombstones org_id project_id entries;
      let once e := (count_identity (e_name_identity e) entries =? 1)%nat in
      let ctx := mkBatchCtx org_id project_id user_id source_episode_id insert_mode now in
      state ← _supersede_batch_safe (List.filter once entries) (by_identity candidates) tombstones ctx
                new_batch_state;
      state ← _supersede_sequential (List.filter (λ e, negb (once e)) entries) (by_identity candidates)
                tombstones ctx state;
      _ ← _record_lineage org_id project_id now state;
      Ret (mkFactIngestionResult (created state) (Z.of_nat (length (created state)))
             (superseded_count state) (skipped + skipped_count state),
           pending ++ superseded_effects svc org_id project_id now state)
  end.
End ingest.

(** * services/facts/llm_invalidation.py *)

Record Invalidation := mkInvalidation {
  existing_fact_ref : option string;
  successor_fact_ref : option string;
  inv_reason : option string;
}.

Record LLMInvalidationResult := mkLLMInvalidationResult { closed_count : Z; llm_skipped_count : Z }.

Definition text_or_none (x : option string) : option string :=
  match x with Some EmptyString => None | _ => x end.

(** The two checks before the database is touched. *)
Definition known_refs (ref_to_fact : gmap string Fact) (successor_by_ref : gmap string (option Fact))
    (inv : Invalidation) : bool :=
  match existing_fact_ref inv with
  | None => false
  | Some r => bool_decide (is_Some (ref_to_fact !! r))
  end
  && match successor_fact_ref inv with
     | None => true
     | Some r => bool_decide (is_Some (successor_by_ref !! r))
     end.

Definition successor_of (successor_by_ref : gmap string (option Fact)) (inv : Invalidation) : option Fact :=
  match text_or_none (successor_fact_ref inv) with
  | None => None
  | Some r => default None (successor_by_ref !! r)
  end.

(** The fact an invalidation names, once [known_refs] holds. *)
Definition target (ref_to_fact : gmap string Fact) (inv : Invalidation) : option Fact :=
  match existing_fact_ref inv with None => None | Some r => ref_to_fact !! r end.

(** The loop's accumulators: closed, skipped, the transitions with their reasons,
    and the facts this pass has closed (the session mirrors the update into the
    loaded rows, so the guard sees it). *)
Record LLMPass := mkLLMPass {
  lp_closed : Z;
  lp_skipped : Z;
  lp_events : list SupersessionEvent;
  lp_reasons : gmap uuid (option string);
  lp_closed_ids : list uuid;
}.

Definition already_closed (st : LLMPass) (old : Fact) : bool :=
  negb (bool_decide (f_valid_to old = None)) || negb (bool_decide (f_invalid_at old = None))
  || existsb (Z.eqb (f_id old)) (lp_closed_ids st).

Definition invalidate_step (org_id project_id : uuid) (ref_to_fact : gmap string Fact)
    (successor_by_ref : gmap string (option Fact)) (now : Z) (st : LLMPass) (inv : Invalidation) :
    prog LLMPass :=
  match target ref_to_fact inv with
  | None => Throw (KeyError "existing_fact_ref")
  | Some old =>
      if already_closed st old then
        Ret (mkLLMPass (lp_closed st) (lp_skipped st + 1) (lp_events st) (lp_reasons st) (lp_closed_ids st))
      else
        let successor := successor_of successor_by_ref inv in
        _ ← set_valid_to (f_id old) now;
        _ ← set_superseded_by (f_id old) (option_map f_id successor);
        _ ← record_invalidation_event org_id project_id (f_id old) (option_map f_id successor)
              "llm_invalidated" (text_or_none (inv_reason inv)) now None;
        Ret (mkLLMPass (lp_closed st + 1) (lp_skipped st)
               (lp_events st ++ [make_supersession_event old successor
                  (Some (mkTriple (default EmptyString (f_subject old)) (default EmptyString (f_predicate old))
                           (default EmptyString (f_object old))))])
               (<[f_id old := text_or_none (inv_reason inv)]> (lp_reasons st))
               (f_id old :: lp_closed_ids st))
  end.

Definition invalidated_effects (svc : Collaborators) (org_id project_id : uuid) (now : Z) (st : LLMPass) :
    list effect :=
  (if lp_closed st =? 0 then []
   else [IncInvalidated (lp_closed st)] ++ when (_cache_service svc) [PurgeProjectContext org_id project_id])
  ++ when (_webhook_service svc)
       (map (λ e, WebhookEffect "fact.invalidated" org_id project_id (old_fact_id e) (new_fact_id e) (triple e)
                    (default None (lp_reasons st !! old_fact_id e))) (lp_events st))
  ++ (if negb (bool_decide (lp_events st = [])) && _graph_sync svc
      then [GraphSyncEffect org_id project_id (lp_events st) now] else []).

Definition apply_llm_invalidations (svc : Collaborators) (pending : list effect) (org_id project_id : uuid)
    (invalidations : list Invalidation) (ref_to_fact : gmap string Fact)
    (successor_by_ref : gmap string (option Fact)) (now : option Z) :
    prog (LLMInvalidationResult * list effect) :=
  now ← match now with Some t => Ret t | None => call Now end;
  match invalidations with
  | [] => Ret (mkLLMInvalidationResult 0 0, pending)
  | _ =>
      if negb (forallb (known_refs ref_to_fact successor_by_ref) invalidations) then
        Throw (AppExc ValidationError "Unknown fact reference in LLM invalidation")
      else
        let targeted := omap (λ i, option_map f_id (target ref_to_fact i)) invalidations in
        _ ← lock_conflict_identities
              (sorted_set (map (λ id, "inv:" +:+ uuid_str org_id +:+ ":" +:+ uuid_str project_id +:+ ":"
                                      +:+ uuid_str id) targeted));
        st ← for_fold invalidations (mkLLMPass 0 0 [] ∅ [])
               (invalidate_step org_id project_id ref_to_fact successor_by_ref now);
        Ret (mkLLMInvalidationResult (lp_closed st) (lp_skipped st),
             pending ++ invalidated_effects svc org_id project_id now st)
  end.

Definition notify_retraction (svc : Collaborators) (pending : list effect) (org_id project_id : uuid)
    (old_fact : Fact) (at_time : Z) : list effect :=
  pending
  ++ when (_graph_sync svc)
       [GraphSyncEffect org_id project_id [make_supersession_event old_fact None None] at_time]
  ++ when (_webhook_service svc)
       [WebhookEffect "fact.retracted" org_id project_id (f_id old_fact) None
          (Some (mkTriple (default EmptyString (f_subject old_fact)) (default EmptyString (f_predicate old_fact))
                   (default EmptyString (f_object old_fact)))) None]
  ++ when (_cache_service svc) [PurgeProjectContext org_id project_id]
  ++ [IncRetracted 1].

(** * services/fact_service.py: [retract_fact] *)

Definition retract_fact (svc : Collaborators) (pending : list effect) (fact_id organization_id project_id : uuid)
    (reason : option string) (at_time : option Z) : prog (Fact * list effect) :=
  at_time ← match at_time with Some t => Ret t | None => call Now end;
  fact ← fact_by_id fact_id (Some organization_id);
  match fact with
  | None => Throw (AppExc NotFoundError "Fact not found")
  | Some f =>
      if negb (f_project_id f =? project_id) then Throw (AppExc NotFoundError "Fact not found")
      else if negb (bool_decide (f_invalid_at f = None)) || negb (bool_decide (f_valid_to f = None)) then
        Ret (f, pending)
      else
        _ ← lock_conflict_identities
              [_lock_key_for_identity (f_organization_id f) (f_project_id f) (_name_identity_of_fact f)];
        _ ← set_invalid_at (f_id f) at_time;
        refreshed ← fact_by_id (f_id f) None;
        match refreshed with
        | None => Throw (DatabaseError "Could not refresh instance")
        | Some f =>
            _ ← record_invalidation_event (f_organization_id f) (f_project_id f) (f_id f) None "retracted"
                  reason at_time None;
            Ret (f, notify_retraction svc pending (f_organization_id f) (f_project_id f) f at_time)
        end
  end.
