(* ===== verification/Supersession.v ===== *)
(** Theorems on the ingestion of facts (Facts.v): history is only ever shortened,
    what one assertion does to the table, retraction, the order of the identity
    locks, the edges that expire, and the LLM pass. *)
From Stdlib Require Import Sorting.Sorted.
From S2P Require Import Prelude Errors Data Effects Facts.
Open Scope Z_scope.

(** The columns an assertion consists of are the same; only [valid_to], the lineage
    pointer and the update time may differ. *)
Definition same_assertion (a b : Fact) : Prop :=
  b = mkFact (f_id a) (f_organization_id a) (f_project_id a) (f_user_id a) (f_content a) (f_subject a)
        (f_predicate a) (f_object a) (f_subject_type a) (f_object_type a) (f_confidence a)
        (f_source_episode_id a) (f_subject_entity_id a) (f_object_entity_id a) (f_valid_from a)
        (f_valid_to b) (f_invalid_at a) (f_superseded_by_fact_id b) (f_updated_at b).

Lemma same_assertion_refl a : same_assertion a a.
Proof. by destruct a. Qed.

Lemma same_assertion_trans a b c : same_assertion a b → same_assertion b c → same_assertion a c.
Proof. unfold same_assertion. intros Hb Hc. rewrite Hc at 1. by rewrite Hb. Qed.

Lemma same_assertion_valid_to a t : same_assertion a (with_valid_to t a).
Proof. by destruct a. Qed.

Lemma same_assertion_superseded a n t : same_assertion a (with_superseded_by n t a).
Proof. by destruct a. Qed.

Lemma same_assertion_id a b : same_assertion a b → f_id b = f_id a.
Proof. by intros ->. Qed.

#[export] Hint Resolve same_assertion_refl same_assertion_trans same_assertion_valid_to
  same_assertion_superseded : zync.

Lemma bucket_filter k l :
  bucket k (by_identity l) = List.filter (λ c, bool_decide (_name_identity_of_fact c = k)) l.
Proof.
  unfold by_identity. induction l as [|x t IH] using rev_ind; [done|].
  rewrite foldl_app, List.filter_app, <- IH. cbn [foldl List.filter]. set (m := foldl _ _ _).
  unfold bucket at 1. destruct (decide (_name_identity_of_fact x = k)) as [<-|Hne].
  - rewrite lookup_insert_eq, bool_decide_true by done. done.
  - rewrite lookup_insert_ne, bool_decide_false, app_nil_r by done. done.
Qed.

(** * History *)

Section history.
Context `{Postgres} (org project user : uuid) (src : option uuid) (now : Z).
Context (entries : list Entry) (s0 : state).
Context (entries_src : ∀ e, e ∈ entries → r_source_episode_id (e_row e) = src).

(** An active row of the project that some entry contradicts. *)
Definition closeable (r : Fact) : Prop :=
  in_scope org project r = true ∧ _effective_at_clause now r = true ∧
  ∃ e, e ∈ entries ∧ _candidate_conflicts e r = true.

(** No retracted row the scan returns speaks against the entry. *)
Definition admissible (e : Entry) : Prop :=
  ∀ t, t ∈ st_db s0 facts → retracted_match org project (flat_map e_match_keys entries) t = true →
    _name_identity_of_fact t = e_name_identity e → _candidate_conflicts e t = false.

Definition kept (r r' : Fact) : Prop :=
  same_assertion r r' ∧ (r' = r ∨ closeable r) ∧ (f_valid_to r' = f_valid_to r ∨ f_valid_to r' = Some now).

Lemma kept_all l : Forall2 kept l l.
Proof. induction l; constructor; [|done]. split_and!; eauto using same_assertion_refl. Qed.

Definition born (r : Fact) : Prop :=
  ∃ id e, e ∈ entries ∧ admissible e ∧ same_assertion (new_fact id org project user src (e_row e)) r.

(** What a run of the ingestion may have done to the table so far. *)
Definition history (l : list Fact) : Prop :=
  ∃ old new, l = old ++ new ∧ Forall2 kept (st_db s0 facts) old ∧ Forall born new.

Definition only_facts (s : state) : Prop :=
  history (st_db s facts) ∧
  (∀ t, t ≠ facts → t ≠ fact_invalidation_events → st_db s t = st_db s0 t) ∧
  st_redis s = st_redis s0 ∧ st_committed s = st_committed s0.

Definition may_close (id : uuid) : Prop := ∀ r, r ∈ st_db s0 facts → f_id r = id → closeable r.

Lemma kept_update r r' g :
  kept r r' → closeable r → (∀ f, same_assertion f (g f)) →
  (∀ f, f_valid_to (g f) = f_valid_to f ∨ f_valid_to (g f) = Some now) → kept r (g r').
Proof.
  intros (Hs & _ & Hv) Hc Hg Hgv. split; [eauto with zync|]. split; [by right|].
  destruct (Hgv r') as [->| ->]; [done|by right].
Qed.

Lemma history_update id (g : Fact → Fact) l :
  history l → may_close id → (∀ f, same_assertion f (g f)) →
  (∀ f, f_valid_to (g f) = f_valid_to f ∨ f_valid_to (g f) = Some now) →
  history (map (λ f, if f_id f =? id then g f else f) l).
Proof.
  intros (old & new & -> & Ho & Hn) Hid Hg Hv. rewrite map_app.
  eexists _, _. split; [reflexivity|]. split.
  - assert (∀ l0, (∀ r, r ∈ l0 → r ∈ st_db s0 facts) → Forall2 kept l0 old →
      Forall2 kept l0 (map (λ f, if f_id f =? id then g f else f) old)) as Hx.
    { clear Ho. induction old as [|r' old IH]; intros l0 Hin Ho.
      - by apply Forall2_nil_inv_r in Ho as ->.
      - apply Forall2_cons_inv_r in Ho as (r & l1 & Hr & Ho & ->). cbn. constructor.
        + destruct (Z.eqb_spec (f_id r') id) as [E|]; [|done].
          apply kept_update; [done| |done|done]. apply Hid; [apply Hin; left|].
          rewrite <- E. symmetry. apply same_assertion_id, Hr.
        + apply IH; [|done]. intros x Hx'. apply Hin. by right. }
    apply Hx; [done|exact Ho].
  - apply Forall_forall. intros x (y & -> & Hy)%list_elem_of_fmap.
    rewrite Forall_forall in Hn. destruct (Hn y Hy) as (j & e & He & Ha & Hs).
    exists j, e. split; [done|]. split; [done|]. destruct (f_id y =? id); eauto with zync.
Qed.

Lemma history_ids l r : history l → r ∈ st_db s0 facts → f_id r ∈ map f_id l.
Proof.
  intros (old & new & -> & Ho & _) Hr. rewrite map_app. apply elem_of_app. left.
  apply list_elem_of_lookup in Hr as [i Hi].
  destruct (Forall2_lookup_l _ _ _ _ _ Ho Hi) as (r' & Hr' & Hs & _).
  rewrite <- (same_assertion_id _ _ Hs). apply list_elem_of_fmap_2. by eapply list_elem_of_lookup_2.
Qed.

(** ** Each operation of the service stays within it *)

Lemma safe_update_fact id g :
  may_close id → (∀ f, same_assertion f (g f)) →
  (∀ f, f_valid_to (g f) = f_valid_to f ∨ f_valid_to (g f) = Some now) →
  safe only_facts (_ ← call (Update facts (λ f, f_id f =? id) g); Ret tt) (λ _, True).
Proof.
  intros Hid Hg Hv. apply (safe_bind _ _ _ (λ _, True)); [|intros; by apply safe_ret].
  apply safe_call. intros s x s' (Hh & Ht & Hr & Hc). cbn.
  destruct (forallb _ _); [|discriminate]. intros [= _ <-]. split; [|done].
  split_and!; cbn; [by apply history_update| |done|done].
  intros t Ht1 Ht2. rewrite <- (Ht t Ht1 Ht2). by destruct t.
Qed.

Lemma safe_set_valid_to id : may_close id → safe only_facts (set_valid_to id now) (λ _, True).
Proof.
  intros Hid. apply safe_update_fact; [done|eauto with zync|]. intros f. by right.
Qed.

Lemma safe_now : safe only_facts (call Now) (λ _, True).
Proof. apply safe_call. by intros s x s' HI [= <- <-]. Qed.

Lemma safe_uuid4 : safe only_facts uuid4 (λ _, True).
Proof. apply safe_call. by intros s x s' HI [= <- <-]. Qed.

Lemma safe_set_superseded_by id n : may_close id → safe only_facts (set_superseded_by id n) (λ _, True).
Proof.
  intros Hid. apply (safe_bind _ _ _ (λ _, True)); [apply safe_now|]. intros t _.
  apply safe_update_fact; [done|eauto with zync|]. intros f. by left.
Qed.

Lemma safe_record_event a b c d k e f g :
  safe only_facts (record_invalidation_event a b c d k e f g) (λ _, True).
Proof.
  apply (safe_bind _ _ _ (λ _, True)); [apply safe_uuid4|]. intros id _.
  apply (safe_bind _ _ _ (λ _, True)); [|intros; by apply safe_ret].
  apply safe_call. intros s x s' (Hh & Ht & Hr & Hc). cbn [op_sem check_rows row_check].
  destruct (insert_rows _ _ _ _) as [[ins l]|]; [|discriminate]. intros [= _ <-].
  split; [|done]. split_and!; cbn; try done. intros t Ht1 Ht2.
  rewrite <- (Ht t Ht1 Ht2). by destruct t.
Qed.

Lemma safe_new_facts mk rows :
  safe only_facts (new_facts mk rows) (λ l, ∀ f, f ∈ l → ∃ id row, row ∈ rows ∧ f = mk id row).
Proof.
  induction rows as [|r rows IH]; cbn [new_facts]; [apply safe_ret; by intros f ?%elem_of_nil|].
  apply (safe_bind _ _ _ (λ _, True)); [apply safe_uuid4|]. intros id _.
  eapply safe_bind; [exact IH|]. intros l Hl. apply safe_ret. intros f [->|Hf]%elem_of_cons.
  - exists id, r. split; [left|done].
  - destruct (Hl f Hf) as (id' & r' & Hr & ->). exists id', r'. split; [by right|done].
Qed.

Lemma safe_insert arb new :
  (∀ f, f ∈ new → born f) → safe only_facts (call (Insert facts arb new))
    (λ ins, ∀ c, c ∈ ins → may_close (f_id c)).
Proof.
  intros Hn. apply safe_call. intros s ins s' (Hh & Ht & Hr & Hc). cbn.
  destruct (forallb _ _); [|discriminate].
  destruct (insert_rows facts arb new (st_db s facts)) as [[ins' l]|] eqn:E; [|done].
  intros [= <- <-]. apply insert_rows_spec in E as (-> & Hi). split.
  - split_and!; cbn; [|intros t Ht1 Ht2; rewrite <- (Ht t Ht1 Ht2); by destruct t|done|done].
    destruct Hh as (old & nw & -> & Ho & Hb). exists old, (nw ++ ins'). split; [by rewrite <- app_assoc|].
    split; [done|]. apply Forall_app. split; [done|]. apply Forall_forall. intros f Hf. by apply Hn, Hi.
  - intros c Hcin r Hin Hid. exfalso. destruct (Hi c Hcin) as [_ Hx].
    apply (history_ids _ _ Hh) in Hin. rewrite Hid in Hin.
    apply list_elem_of_fmap in Hin as (x & Ex & Hx').
    specialize (Hx x Hx'). cbn in Hx. by rewrite Ex, Z.eqb_refl in Hx.
Qed.

Lemma safe_insert_rows rows mode :
  (∀ row, row ∈ rows → ∃ e, e ∈ entries ∧ admissible e ∧ row = e_row e) →
  safe only_facts (_insert_rows org project user src rows mode)
    (λ ins, ∀ c, c ∈ ins → may_close (f_id c)).
Proof.
  intros Hrows.
  assert (∀ mk arb, (∀ id row, row ∈ rows → mk id row = new_fact id org project user src row) →
    safe only_facts (new ← new_facts mk rows; call (Insert facts arb new))
      (λ ins, ∀ c, c ∈ ins → may_close (f_id c))) as Hi.
  { intros mk arb Hmk. eapply safe_bind; [apply safe_new_facts|]. intros l Hl. apply safe_insert.
    intros f Hf. destruct (Hl f Hf) as (id & row & Hrow & ->). rewrite (Hmk id row Hrow).
    destruct (Hrows row Hrow) as (e & He & Ha & ->). exists id, e. eauto with zync. }
  unfold _insert_rows. destruct mode.
  - unfold batch_create. destruct rows as [|r rows]; [by apply safe_ret; intros c ?%elem_of_nil|].
    eapply safe_bind; [apply safe_now|]. intros t _. destruct (existsb _ _); [apply safe_throw|].
    apply Hi. intros id row Hrow. destruct (Hrows row Hrow) as (e & He & _ & ->).
    by rewrite (entries_src e He).
  - eapply safe_bind; [apply safe_now|]. intros t _. destruct (existsb _ _); [apply safe_throw|].
    by apply Hi.
Qed.

(** ** The accumulators *)

Definition keys : list MatchKey := flat_map e_match_keys entries.

Definition state_ok (st : _BatchState) : Prop :=
  (∀ k c, c ∈ bucket k (in_batch st) → may_close (f_id c)) ∧
  (∀ ev, ev ∈ events st → may_close (old_fact_id ev)).

Definition kept_ok (k : list (Entry * list Fact)) : Prop :=
  ∀ e cs, (e, cs) ∈ k → e ∈ entries ∧ admissible e ∧ ∀ c, c ∈ cs → may_close (f_id c).

Lemma bucket_by_identity k l c :
  c ∈ bucket k (by_identity l) ↔ c ∈ l ∧ _name_identity_of_fact c = k.
Proof. by rewrite bucket_filter, filter_elem, bool_decide_eq_true. Qed.

Lemma state_ok_new : state_ok new_batch_state.
Proof.
  split; [|by intros ev ?%elem_of_nil]. intros k c. cbn. unfold bucket. rewrite lookup_empty.
  by intros ?%elem_of_nil.
Qed.

Lemma state_ok_event old new e st :
  may_close (f_id old) → state_ok st → state_ok (add_event old new e st).
Proof.
  intros Ho [Hb He]. split; [exact Hb|]. cbn. intros ev [Hev| ->%list_elem_of_singleton]%elem_of_app; [auto|done].
Qed.

Lemma state_ok_events olds new e st :
  (∀ c, c ∈ olds → may_close (f_id c)) → state_ok st →
  state_ok (foldl (λ st old, add_event old new e st) st olds).
Proof.
  revert st; induction olds as [|c olds IH]; intros st Hc Hs; [done|]. cbn. apply IH.
  - intros x Hx. apply Hc. by right.
  - apply state_ok_event; [apply Hc; left|done].
Qed.

Lemma state_ok_in_batch k l st :
  (∀ c, c ∈ l → may_close (f_id c)) → state_ok st → state_ok (set_in_batch k l st).
Proof.
  intros Hl [Hb He]. split; [|exact He]. intros k' c. cbn. unfold bucket.
  destruct (decide (k = k')) as [<-|]; [rewrite lookup_insert_eq; apply Hl|].
  rewrite lookup_insert_ne by done. apply Hb.
Qed.

Lemma remove_fact_sub c l x : x ∈ remove_fact c l → x ∈ l.
Proof.
  induction l as [|y l IH]; cbn; [done|]. destruct (f_id y =? f_id c); [by right|].
  intros [->|Hx]%elem_of_cons; [left|right; auto].
Qed.

Lemma state_ok_pair kept st : kept_ok kept → state_ok st → state_ok (pair_kept kept st).
Proof.
  intros Hk. unfold pair_kept. generalize (by_identity (created st)). intros m. revert st.
  induction kept as [|[e olds] kept IH]; intros st Hs; [done|]. cbn. apply IH.
  - intros e' cs Hin. apply Hk. by right.
  - destruct (bucket (e_name_identity e) m); [done|]. apply state_ok_events; [|done].
    apply (Hk e olds). left.
Qed.

(** ** The two paths *)

Context (ids_unique : NoDup (map f_id (st_db s0 facts))).
Context (candidates tombstones : list Fact).
Context (candidates_spec : candidates = List.filter (active_match org project keys now) (st_db s0 facts)).
Context (tombstones_spec : tombstones = List.filter (retracted_match org project keys) (st_db s0 facts)).

Lemma candidate_closeable e c k :
  e ∈ entries → c ∈ bucket k (by_identity candidates) → _candidate_conflicts e c = true →
  may_close (f_id c).
Proof.
  intros He [Hc _]%bucket_by_identity Hx. rewrite candidates_spec in Hc.
  apply filter_elem in Hc as [Hc Hm]. unfold active_match in Hm.
  apply andb_true_iff in Hm as [[Hsc Heff]%andb_true_iff _].
  intros r Hr Hid. assert (r = c) as -> by (by eapply (NoDup_map_inj f_id)).
  split_and!; [done|done|]. by exists e.
Qed.

Lemma conflicts_closeable e st scope closed :
  e ∈ entries → state_ok st →
  (∀ c, c ∈ scope → (∃ k, c ∈ bucket k (by_identity candidates)) ∨ (∃ k, c ∈ bucket k (in_batch st))) →
  ∀ c, c ∈ _matching_conflicts e scope closed → may_close (f_id c).
Proof.
  intros He [Hb _] Hsc c [Hc [_ Hx]%andb_true_iff]%filter_elem.
  destruct (Hsc c Hc) as [[k Hk]|[k Hk]]; [by eapply candidate_closeable|by eapply Hb].
Qed.

Lemma not_tombstoned e :
  e ∈ entries →
  existsb (_candidate_conflicts e) (bucket (e_name_identity e) (by_identity tombstones)) = false →
  admissible e.
Proof.
  intros He Hx t Ht Hm Hi. destruct (_candidate_conflicts e t) eqn:E; [|done].
  assert (existsb (_candidate_conflicts e) (bucket (e_name_identity e) (by_identity tombstones)) = true);
    [|congruence].
  apply existsb_exists. exists t. split; [|done]. apply list_elem_of_In, bucket_by_identity.
  split; [|done]. rewrite tombstones_spec. by apply filter_elem.
Qed.

Definition ctx_of (mode : InsertMode) : _BatchCtx := mkBatchCtx org project user src mode now.

Lemma safe_batch_step mode acc e :
  e ∈ entries → state_ok acc.1 ∧ kept_ok acc.2 →
  safe only_facts (batch_step (by_identity candidates) (by_identity tombstones) (ctx_of mode) acc e)
    (λ acc, state_ok acc.1 ∧ kept_ok acc.2).
Proof.
  destruct acc as [st kept]. intros He [Hs Hk]. cbn [batch_step].
  set (cs := _matching_conflicts e _ _).
  assert (∀ c, c ∈ cs → may_close (f_id c)) as Hc.
  { eapply (conflicts_closeable e st); [done|done|]. intros c Hc. left. by eexists. }
  destruct (existsb (same_content e) cs); [by apply safe_ret|].
  destruct (existsb _ _) eqn:Et; [by apply safe_ret|].
  apply (safe_bind _ _ _ state_ok).
  - apply safe_for_fold; [done|]. intros st1 c Hin Hs1.
    apply (safe_bind _ _ _ (λ _, True)); [apply safe_set_valid_to; by apply Hc|].
    intros _ _. by apply safe_ret.
  - intros st1 Hs1. apply safe_ret. split; [done|]. cbn.
    intros e' cs' [Hin|[= -> ->]%list_elem_of_singleton]%elem_of_app; [by apply Hk|].
    split_and!; [done|by apply not_tombstoned|done].
Qed.

Lemma safe_batch_safe mode l st :
  (∀ e, e ∈ l → e ∈ entries) → state_ok st →
  safe only_facts
    (_supersede_batch_safe l (by_identity candidates) (by_identity tombstones) (ctx_of mode) st) state_ok.
Proof.
  intros Hl Hs. unfold _supersede_batch_safe.
  apply (safe_bind _ _ _ (λ acc, state_ok acc.1 ∧ kept_ok acc.2)).
  - apply safe_for_fold; [split; [done|by intros e cs ?%elem_of_nil]|].
    intros acc e He Ha. by apply safe_batch_step; [apply Hl|].
  - intros [st1 kept] [Hs1 Hk]. cbn [fst snd] in Hs1, Hk.
    apply (safe_bind _ _ _ state_ok).
    + assert (∀ row, row ∈ map (λ k, e_row k.1) kept → ∃ e, e ∈ entries ∧ admissible e ∧ row = e_row e)
        as Hrows.
      { intros row ([e cs] & -> & Hin)%list_elem_of_fmap. destruct (Hk _ _ Hin) as (He & Ha & _).
        by exists e. }
      destruct (map (λ k, e_row k.1) kept) as [|r rows]; [by apply safe_ret|].
      eapply safe_bind; [by apply safe_insert_rows|]. intros ins _. by apply safe_ret.
    + intros st2 Hs2. apply safe_ret. by apply state_ok_pair.
Qed.

Lemma safe_sequential_close k mode st c :
  state_ok st → may_close (f_id c) →
  safe only_facts (sequential_close k (ctx_of mode) st c) state_ok.
Proof.
  intros Hs Hc. apply (safe_bind _ _ _ (λ _, True)); [by apply safe_set_valid_to|]. intros _ _.
  destruct (existsb _ _); [|by apply safe_ret]. apply safe_ret.
  apply (state_ok_in_batch k (remove_fact c (bucket k (in_batch st))) st); [|done].
  intros x Hx%remove_fact_sub. by eapply (proj1 Hs).
Qed.

Lemma safe_sequential_step mode st e :
  e ∈ entries → state_ok st →
  safe only_facts (sequential_step (by_identity candidates) (by_identity tombstones) (ctx_of mode) st e)
    state_ok.
Proof.
  intros He Hs. unfold sequential_step. set (cs := _matching_conflicts e _ _).
  assert (∀ c, c ∈ cs → may_close (f_id c)) as Hc.
  { eapply (conflicts_closeable e st); [done|done|]. intros c [Hc|Hc]%elem_of_app; [left|right]; by eexists. }
  destruct (existsb (same_content e) cs); [by apply safe_ret|].
  destruct (existsb _ _) eqn:Et; [by apply safe_ret|].
  apply (safe_bind _ _ _ state_ok).
  - apply safe_for_fold; [done|]. intros st1 c Hin Hs1. by apply safe_sequential_close; [|apply Hc].
  - intros st1 Hs1. eapply safe_bind.
    + apply safe_insert_rows. intros row ->%list_elem_of_singleton. exists e.
      split; [done|]. split; [by apply not_tombstoned|done].
    + intros [|new ins] Hi; apply safe_ret; [done|]. apply state_ok_events; [exact Hc|].
      apply (state_ok_in_batch _ (bucket (e_name_identity e) (in_batch st1) ++ new :: ins) st1); [|done].
      intros c [Hin|Hin]%elem_of_app; [by eapply (proj1 Hs1)|by apply Hi].
Qed.

Lemma safe_lineage st :
  state_ok st → safe only_facts (_record_lineage org project now st) (λ _, True).
Proof.
  intros [_ He]. apply safe_for_each. intros ev Hev. destruct (new_fact_id ev); [|by apply safe_ret].
  apply (safe_bind _ _ _ (λ _, True)); [by apply safe_set_superseded_by, He|].
  intros _ _. apply safe_record_event.
Qed.
End history.

(** ** The whole ingestion *)

(** Taking locks changes nothing a later step reads. *)
Lemma run_locks ks (s : state) :
  ∃ out, run (lock_conflict_identities ks) s
    = (inr tt, mkState (st_clock s) (st_redis s) (st_db s) (st_committed s) (st_tenant s) (st_entropy s)
                 (st_drawn s) (st_out s ++ out) (st_remote s)) ∧
    out = map (λ k, Effect "pg_advisory_xact_lock" [k]) ks.
Proof.
  revert s; induction ks as [|k ks IH]; intros s.
  - exists []. rewrite app_nil_r. split; [by destruct s|done].
  - destruct (IH (op_sem (Emit (Effect "pg_advisory_xact_lock" [k])) s).2) as (out & E & ->).
    eexists. split; [|reflexivity].
    transitivity (run (lock_conflict_identities ks) (op_sem (Emit (Effect "pg_advisory_xact_lock" [k])) s).2);
      [reflexivity|]. rewrite E. cbn. by rewrite <- app_assoc.
Qed.

Lemma try_map_spec {A B} (f : A → exn + B) l ys y :
  try_map f l = inr ys → y ∈ ys → ∃ x, x ∈ l ∧ f x = inr y.
Proof.
  revert ys; induction l as [|x l IH]; intros ys; cbn; [by intros [= <-] ?%elem_of_nil|].
  destruct (f x) eqn:Ef; [done|]. destruct (try_map f l) eqn:El; [done|]. intros [= <-].
  intros [->|Hy]%elem_of_cons; [exists x; split; [left|done]|].
  destruct (IH _ eq_refl Hy) as (x' & Hx & E). exists x'. split; [by right|done].
Qed.

Lemma dedup_sub seen l e : e ∈ dedup seen l → e ∈ l.
Proof.
  revert seen; induction l as [|x l IH]; intros seen; cbn; [done|].
  case_bool_decide; [right; by eapply IH|]. intros [->|He]%elem_of_cons; [left|right; by eapply IH].
Qed.

Section ingest.
Context `{Postgres} `{Datetime}.

Lemma prepared_source i src now e : _prepare_entry i src now = inr e → r_source_episode_id (e_row e) = src.
Proof. unfold _prepare_entry. repeat case_match; intros; simplify_eq; done. Qed.

Lemma run_scan {A} (org project : uuid) keys now (f : list Fact → prog A) (s : state) :
  run (find_conflicting_active_for_update org project keys now ≫= f) s
  = run (f (List.filter (active_match org project keys now) (st_db s facts))) s.
Proof.
  unfold find_conflicting_active_for_update. destruct keys as [|k keys]; [|apply (run_select facts)].
  rewrite filter_none; [done|]. intros x _. unfold active_match. cbn. by rewrite andb_false_r.
Qed.

Lemma run_tombstones {A} (org project : uuid) (entries : list Entry) (f : gmap NameIdentity (list Fact) → prog A) (s : state) :
  run (_scan_tombstones org project entries ≫= f) s
  = run (f (by_identity (List.filter (retracted_match org project (flat_map e_match_keys entries))
                           (st_db s facts)))) s.
Proof.
  unfold _scan_tombstones, find_retracted_by_match_keys.
  destruct (flat_map e_match_keys entries) as [|k keys].
  - rewrite filter_none; [done|]. intros x _. unfold retracted_match. cbn. by rewrite andb_false_r.
  - rewrite run_bind, run_bind, run_call. done.
Qed.

(** C12. History is append-only: an ingestion that returns has deleted no fact and has
    rewritten no assertion; it has ended ranges at its own instant, only of facts of
    the project that were active and that an entry contradicts; what it added are
    entries that no retracted fact of the same name speaks against. No other table
    but the invalidation log has changed, and nothing is committed. *)
Theorem supersession_keeps_history {W} `{World W} (w : W) svc pending org project user inputs src mode now
    res pending' :
  let s := abs w in
  let r := run (ingest_with_supersession svc pending org project user inputs src mode now) w in
  let t := default (st_clock s) now in
  steady w → NoDup (map f_id (st_db s facts)) → r.1 = inr (res, pending') →
  ∃ entries old new,
    (∀ e, e ∈ entries → ∃ i, i ∈ inputs ∧ _prepare_entry i src t = inr e) ∧
    st_db (abs r.2) facts = old ++ new ∧
    Forall2 (kept org project t entries) (st_db s facts) old ∧
    Forall (born org project user src entries s) new ∧
    (∀ x, x ≠ facts → x ≠ fact_invalidation_events → st_db (abs r.2) x = st_db s x) ∧
    st_redis (abs r.2) = st_redis s ∧ st_committed (abs r.2) = st_committed s.
Proof.
  intros s r t Hw Hu Hr.
  destruct (run_steady (ingest_with_supersession svc pending org project user inputs src mode now) w Hw)
    as (E1 & E2 & _). fold r s in E1, E2. rewrite E1 in Hr. rewrite E2. clear E1 E2 r.
  set (p := ingest_with_supersession _ _ _ _ _ _ _ _ _) in *.
  revert Hr. unfold p, ingest_with_supersession. rewrite run_bind.
  assert (run match now with Some t => Ret t | None => call Now end s = (inr t, s)) as ->
    by (unfold t; by destruct now). clear p.
  destruct inputs as [|i inputs].
  { intros _. exists [], (st_db s facts), []. rewrite app_nil_r.
    split; [by intros e ?%elem_of_nil|]. split; [done|]. split; [apply kept_all|].
    split; [constructor|done]. }
  unfold lift. set (given := i :: inputs).
  destruct (try_map _ _) as [e|all] eqn:Et; [done|]. rewrite run_ret_bind.
  set (entries := dedup [] all). rewrite run_bind.
  destruct (run_locks (sorted_set (map (λ e, _lock_key_for_identity org project (e_name_identity e))
    entries)) s) as (out & -> & _).
  rewrite run_scan, run_tombstones. set (s1 := mkState _ _ _ _ _ _ _ _ _).
  change (st_db s1) with (st_db s).

  assert (∀ e, e ∈ entries → ∃ i, i ∈ given ∧ _prepare_entry i src t = inr e) as Hsrc.
  { intros e He%dedup_sub. by eapply try_map_spec in Et. }
  assert (∀ e, e ∈ entries → r_source_episode_id (e_row e) = src) as Hes.
  { intros e He. destruct (Hsrc e He) as (j & _ & E). by eapply prepared_source. }
  assert (only_facts org project user src t entries s s1) as HI.
  { split; [|done]. exists (st_db s facts), []. rewrite app_nil_r.
    split; [done|]. split; [apply kept_all|constructor]. }
  set (body := _supersede_batch_safe _ _ _ _ _ ≫= _).
  assert (safe (only_facts org project user src t entries s) body (λ _, True)) as Hsafe.
  { eapply safe_bind; [apply safe_batch_safe; try done; [by intros e [He _]%filter_elem|apply state_ok_new]|].
    intros st Hst. eapply safe_bind.
    - apply safe_for_fold; [exact Hst|]. intros acc e [He _]%filter_elem Ha.
      by apply safe_sequential_step.
    - intros st2 Hst2. eapply safe_bind; [by apply safe_lineage|]. intros _ _. by apply safe_ret. }
  destruct (run body s1) as [r s'] eqn:Er. cbn [fst snd]. intros ->.
  destruct (Hsafe _ _ _ HI Er) as [((old & new & Ho & Hk & Hb) & Ht & Hrd & Hc) _].
  exists entries, old, new. by split_and!.
Qed.

(** ** One assertion *)

(** The rows an entry contradicts, among those its scan returns. *)
Definition rivals (org project : uuid) (t : Z) (e : Entry) (l : list Fact) : list Fact :=
  List.filter (λ c, active_match org project (e_match_keys e) t c
    && bool_decide (_name_identity_of_fact c = e_name_identity e) && _candidate_conflicts e c) l.

Definition buried (org project : uuid) (e : Entry) (l : list Fact) : bool :=
  existsb (λ c, retracted_match org project (e_match_keys e) c
    && bool_decide (_name_identity_of_fact c = e_name_identity e) && _candidate_conflicts e c) l.

Definition has_id (ids : list uuid) (f : Fact) : bool := existsb (Z.eqb (f_id f)) ids.

Definition closed_rows (ids : list uuid) (t : Z) (l : list Fact) : list Fact :=
  map (λ f, if has_id ids f then with_valid_to t f else f) l.

Definition linked_rows (ids : list uuid) (new : uuid) (u : Z) (l : list Fact) : list Fact :=
  map (λ f, if has_id ids f then with_superseded_by (Some new) u f else f) l.

Definition set_facts (l : list Fact) (s : state) : state := set_db (set_table facts l (st_db s)) s.

Lemma set_facts_twice l l' s : set_facts l' (set_facts l s) = set_facts l' s.
Proof. unfold set_facts, set_db. cbn. by rewrite set_table_twice. Qed.

Lemma st_db_set_facts l s : st_db (set_facts l s) facts = l.
Proof. done. Qed.

Lemma set_facts_id s : set_facts (st_db s facts) s = s.
Proof. unfold set_facts. rewrite set_table_id. by destruct s. Qed.

Lemma run_set_valid_to id t (s : state) :
  (∀ f, f ∈ st_db s facts → f_id f = id → fact_range_ok (with_valid_to t f) = true) →
  run (set_valid_to id t) s = (inr tt, set_facts (closed_rows [id] t (st_db s facts)) s).
Proof.
  intros Hok. unfold set_valid_to. erewrite run_op; [reflexivity|]. cbn.
  assert (forallb fact_range_ok (map (with_valid_to t) (List.filter (λ f, f_id f =? id) (st_db s facts)))
    = true) as ->.
  { apply forallb_forall. intros x Hx. apply in_map_iff in Hx as (f & <- & [Hf Hi]%filter_In).
    apply Hok; [by apply list_elem_of_In|lia]. }
  do 2 f_equal. unfold set_facts, closed_rows, has_id. f_equal. f_equal. apply map_ext. intros f. cbn.
  by rewrite orb_false_r.
Qed.

Lemma closed_rows_cons id ids t l : closed_rows ids t (closed_rows [id] t l) = closed_rows (id :: ids) t l.
Proof.
  unfold closed_rows. rewrite map_map. apply map_ext. intros f. unfold has_id. cbn. rewrite orb_false_r.
  destruct (f_id f =? id); cbn; [|done]. by destruct (existsb _ _), f.
Qed.

Lemma run_close_loop cs t st (s : state) :
  (∀ f, f ∈ st_db s facts → f_id f ∈ map f_id cs → fact_range_ok (with_valid_to t f) = true) →
  run (for_fold cs st (λ st c, _ ← set_valid_to (f_id c) t; Ret (close_one (f_id c) st))) s
  = (inr (foldl (λ st c, close_one (f_id c) st) st cs),
     set_facts (closed_rows (map f_id cs) t (st_db s facts)) s).
Proof.
  revert st s; induction cs as [|c cs IH]; intros st s Hok.
  - cbn. unfold closed_rows. rewrite map_id, set_facts_id. done.
  - cbn [for_fold]. rewrite run_bind, run_bind, run_set_valid_to.
    2: { intros f Hf Hi. apply Hok; [done|]. rewrite Hi. left. }
    cbn [run]. rewrite IH.
    + cbn [foldl map]. by rewrite st_db_set_facts, set_facts_twice, closed_rows_cons.
    + rewrite st_db_set_facts. intros f Hf Hi. apply list_elem_of_fmap in Hf as (f0 & -> & Hf0).
      assert (f_id (if has_id [f_id c] f0 then with_valid_to t f0 else f0) = f_id f0) as E
        by (by destruct (has_id _ _)). rewrite E in Hi.
      assert (fact_range_ok (with_valid_to t f0) = true) as Hr by (apply Hok; [done|by right]).
      by destruct (has_id _ _), f0.
Qed.

Lemma close_fold cs st :
  foldl (λ st c, close_one (f_id c) st) st cs
  = mkBatchState (created st) (rev (map f_id cs) ++ closed_ids st) (in_batch st)
      (superseded_count st + Z.of_nat (length cs)) (skipped_count st) (events st)
      (source_episode_by_old_fact st).
Proof.
  revert st; induction cs as [|c cs IH]; intros st; cbn [foldl map rev length].
  - rewrite Z.add_0_r. by destruct st.
  - rewrite IH. cbn. rewrite <- app_assoc. f_equal. lia.
Qed.

(** The log rows of a supersession; row ids are drawn one after the other. *)
Fixpoint log_of (draw : nat → uuid) (org project new : uuid) (t : Z) (src : option uuid) (n : nat)
    (cs : list Fact) : list FactInvalidationEvent :=
  match cs with
  | [] => []
  | c :: r => mkFactInvalidationEvent (draw n) org project (f_id c) (Some new) "superseded" None t src
              :: log_of draw org project new t src (S n) r
  end.

Lemma linked_rows_cons id ids new u l :
  linked_rows ids new u (linked_rows [id] new u l) = linked_rows (id :: ids) new u l.
Proof.
  unfold linked_rows. rewrite map_map. apply map_ext. intros f. unfold has_id. cbn. rewrite orb_false_r.
  destruct (f_id f =? id); cbn; [|done]. by destruct (existsb _ _), f.
Qed.

Lemma run_set_superseded_by id new (s : state) :
  (∀ f, f ∈ st_db s facts → f_id f = id → fact_range_ok f = true) →
  run (set_superseded_by id (Some new)) s
  = (inr tt, set_facts (linked_rows [id] new (st_clock s) (st_db s facts)) s).
Proof.
  intros Hok. unfold set_superseded_by. rewrite run_now. erewrite run_op; [reflexivity|]. cbn.
  assert (forallb fact_range_ok (map (with_superseded_by (Some new) (st_clock s))
    (List.filter (λ f, f_id f =? id) (st_db s facts))) = true) as ->.
  { apply forallb_forall. intros x Hx. apply in_map_iff in Hx as (f & <- & [Hf Hi]%filter_In).
    change (fact_range_ok f = true). apply Hok; [by apply list_elem_of_In|lia]. }
  do 2 f_equal. unfold set_facts, linked_rows, has_id. f_equal. f_equal. apply map_ext. intros f. cbn.
  by rewrite orb_false_r.
Qed.

Lemma run_record org project old new kind reason t src (s : state) :
  (∀ x, x ∈ st_db s fact_invalidation_events → ie_id x ≠ next_uuid s) →
  ∃ s', run (record_invalidation_event org project old new kind reason t src) s = (inr tt, s') ∧
    st_db s' = set_table fact_invalidation_events (st_db s fact_invalidation_events
      ++ [mkFactInvalidationEvent (next_uuid s) org project old new kind reason t src]) (st_db s) ∧
    st_clock s' = st_clock s ∧ st_entropy s' = st_entropy s ∧ st_drawn s' = S (st_drawn s).
Proof.
  intros Hx. unfold record_invalidation_event. rewrite run_uuid4.
  rewrite (run_insert_one fact_invalidation_events); [|done|done|].
  - eexists. split; [reflexivity|]. by split_and!.
  - intros x Hin. cbn. apply Z.eqb_neq. specialize (Hx x Hin). congruence.
Qed.

(** The columns of a fact that [fact_range_ok] reads. *)
Lemma range_linked ids new u f :
  fact_range_ok (if has_id ids f then with_superseded_by (Some new) u f else f) = fact_range_ok f.
Proof. by destruct (has_id ids f). Qed.

Lemma id_linked ids new u f :
  f_id (if has_id ids f then with_superseded_by (Some new) u f else f) = f_id f.
Proof. by destruct (has_id ids f). Qed.

Definition transition (nf : Fact) (tr : Triple) (c : Fact) : SupersessionEvent :=
  make_supersession_event c (Some nf) (Some tr).

Lemma run_lineage org project t src nf tr (ep : gmap uuid (option uuid)) cs st (s : state) :
  events st = map (transition nf tr) cs →
  (∀ c, c ∈ cs → default None (source_episode_by_old_fact st !! f_id c) = src) →
  (∀ f, f ∈ st_db s facts → f_id f ∈ map f_id cs → fact_range_ok f = true) →
  NoDup (map ie_id (st_db s fact_invalidation_events
    ++ log_of (drawn_uuid s) org project (f_id nf) t src (st_drawn s) cs)) →
  ∃ s', run (_record_lineage org project t st) s = (inr tt, s') ∧
    st_db s' facts = linked_rows (map f_id cs) (f_id nf) (st_clock s) (st_db s facts) ∧
    st_db s' fact_invalidation_events = st_db s fact_invalidation_events
      ++ log_of (drawn_uuid s) org project (f_id nf) t src (st_drawn s) cs.
Proof.
  intros Hev. unfold _record_lineage. rewrite Hev. clear Hev. intros Hsrc.
  revert s; induction cs as [|c cs IH]; intros s Hok Hd.
  - eexists. split; [reflexivity|]. cbn. rewrite app_nil_r. split; [|done].
    unfold linked_rows. by rewrite map_id.
  - cbn [map for_each transition make_supersession_event new_fact_id option_map old_fact_id].
    rewrite run_bind, run_bind, run_set_superseded_by.
    2: { intros f Hf Hi. apply Hok; [done|]. rewrite Hi. left. }
    set (s1 := set_facts _ s).
    destruct (run_record org project (f_id c) (Some (f_id nf)) "superseded" None t
      (default None (source_episode_by_old_fact st !! f_id c)) s1) as (s2 & -> & Edb & Ec & Ee & En).
    { intros x Hin E. cbn [log_of map] in Hd. rewrite map_app in Hd. cbn [map ie_id] in Hd.
      apply NoDup_app in Hd as (_ & Hn & _). apply (Hn (ie_id x)); [by apply list_elem_of_fmap_2|].
      rewrite E. left. }
    rewrite Hsrc in Edb by left.
    assert (drawn_uuid s2 = drawn_uuid s) as Edr by (unfold drawn_uuid; by rewrite Ee).
    assert (st_db s2 facts = linked_rows [f_id c] (f_id nf) (st_clock s) (st_db s facts)) as Ef2
      by (by rewrite Edb).
    assert (st_db s2 fact_invalidation_events = st_db s fact_invalidation_events
      ++ [mkFactInvalidationEvent (drawn_uuid s (st_drawn s)) org project (f_id c) (Some (f_id nf))
            "superseded" None t src]) as El2 by (by rewrite Edb).
    destruct (IH (λ c' Hc', Hsrc c' (list_elem_of_further _ _ _ Hc')) s2) as (s3 & E3 & Ef & El).
    + rewrite Ef2. intros f Hf Hi. apply list_elem_of_fmap in Hf as (f0 & -> & Hf0).
      rewrite range_linked. rewrite id_linked in Hi. apply Hok; [done|by right].
    + rewrite El2, En, Edr, <- app_assoc. exact Hd.
    + exists s3. split; [exact E3|]. rewrite Ef, El, Ef2, El2, Edr, En, Ec.
      cbn [st_clock s1 set_facts set_db]. rewrite linked_rows_cons, <- app_assoc. done.
Qed.


Lemma dedup_one e : dedup [] [e] = [e].
Proof. cbn. rewrite bool_decide_false; [done|]. apply not_elem_of_nil. Qed.

Lemma count_one e : count_identity (e_name_identity e) [e] = 1%nat.
Proof. unfold count_identity. cbn. by rewrite bool_decide_true. Qed.

(** What follows the scans for a batch of one entry. *)
Definition one_entry (svc : Collaborators) (pending : list effect) (ctx : _BatchCtx) (e : Entry)
    (cands tombs : list Fact) : prog (FactIngestionResult * list effect) :=
  state ← _supersede_batch_safe [e] (by_identity cands) (by_identity tombs) ctx new_batch_state;
  _ ← _record_lineage (cx_org_id ctx) (cx_project_id ctx) (cx_now ctx) state;
  Ret (mkFactIngestionResult (created state) (Z.of_nat (length (created state)))
         (superseded_count state) (skipped_count state),
       pending ++ superseded_effects svc (cx_org_id ctx) (cx_project_id ctx) (cx_now ctx) state).

(** The state once the identity lock is held. *)
Definition locked (org project : uuid) (e : Entry) (s : state) : state :=
  mkState (st_clock s) (st_redis s) (st_db s) (st_committed s) (st_tenant s) (st_entropy s) (st_drawn s)
    (st_out s ++ [Effect "pg_advisory_xact_lock"
                    [_lock_key_for_identity org project (e_name_identity e)]]) (st_remote s).

Lemma run_one svc pending org project user i src mode t e (s : state) :
  _prepare_entry i src t = inr e →
  run (ingest_with_supersession svc pending org project user [i] src mode (Some t)) s
  = run (one_entry svc pending (mkBatchCtx org project user src mode t) e
      (List.filter (active_match org project (e_match_keys e) t) (st_db s facts))
      (List.filter (retracted_match org project (e_match_keys e)) (st_db s facts))) (locked org project e s).
Proof.
  intros Hp. unfold ingest_with_supersession. rewrite run_ret_bind. cbn [try_map]. rewrite Hp.
  cbn [lift]. rewrite run_ret_bind, dedup_one, run_bind.
  destruct (run_locks (sorted_set (map (λ e, _lock_key_for_identity org project (e_name_identity e)) [e])) s)
    as (out & -> & ->).
  rewrite run_scan, run_tombstones. cbn [flat_map]. rewrite app_nil_r. cbn [List.filter].
  rewrite count_one. cbn [Nat.eqb negb]. unfold one_entry. fold (locked org project e s).
  change (st_db (mkState _ _ _ _ _ _ _ _ _)) with (st_db s).
  match goal with |- run _ ?x = _ => change x with (locked org project e s) end.
  rewrite run_bind, run_bind.
  destruct (run (_supersede_batch_safe _ _ _ _ _) _) as [[ex|st] s1]; [done|].
  unfold _supersede_sequential. cbn [for_fold]. rewrite run_ret_bind.
  rewrite run_bind, run_bind. destruct (run (_record_lineage _ _ _ _) _) as [[ex|[]] s2]; [done|].
  cbn [run length]. by rewrite Z.sub_diag.
Qed.

Lemma rivals_spec org project t e l :
  _matching_conflicts e (bucket (e_name_identity e) (by_identity
    (List.filter (active_match org project (e_match_keys e) t) l))) [] = rivals org project t e l.
Proof.
  unfold _matching_conflicts, rivals. rewrite bucket_filter, !filter_filter.
  apply filter_ext. intros x. cbn. by rewrite andb_assoc.
Qed.

Lemma buried_spec org project e l :
  existsb (_candidate_conflicts e) (bucket (e_name_identity e) (by_identity
    (List.filter (retracted_match org project (e_match_keys e)) l))) = buried org project e l.
Proof.
  unfold buried. rewrite bucket_filter, !existsb_filter. induction l as [|x l IH]; [done|]. cbn.
  by rewrite IH, andb_assoc.
Qed.

Lemma one_skipped svc pending org project user src mode t e (s : state) :
  existsb (same_content e) (rivals org project t e (st_db s facts)) || buried org project e (st_db s facts)
    = true →
  run (one_entry svc pending (mkBatchCtx org project user src mode t) e
      (List.filter (active_match org project (e_match_keys e) t) (st_db s facts))
      (List.filter (retracted_match org project (e_match_keys e)) (st_db s facts))) (locked org project e s)
  = (inr (mkFactIngestionResult [] 0 0 1, pending), locked org project e s).
Proof.
  intros Hx. unfold one_entry, _supersede_batch_safe. cbn [for_fold batch_step].
  change (closed_ids new_batch_state) with (@nil uuid). rewrite rivals_spec, buried_spec.
  assert (∀ A (p q : prog A), (if existsb (same_content e) (rivals org project t e (st_db s facts)) then p
    else if buried org project e (st_db s facts) then p else q) = p) as -> by
    (intros; by destruct (existsb _ _), (buried _ _ _ _)).
  cbn. rewrite app_nil_r. destruct svc as [[] [] []]; cbn; by rewrite ?app_nil_r.
Qed.

Lemma rivals_sub org project t e l c :
  c ∈ rivals org project t e l → c ∈ l ∧ _effective_at_clause t c = true.
Proof.
  intros [Hc Hm]%filter_elem. split; [done|]. unfold active_match in Hm.
  by apply andb_true_iff in Hm as [[[[_ ?]%andb_true_iff _]%andb_true_iff _]%andb_true_iff _].
Qed.

Lemma effective_range t f : _effective_at_clause t f = true → fact_range_ok (with_valid_to t f) = true.
Proof.
  unfold _effective_at_clause, fact_range_ok. intros [[_ Hv]%andb_true_iff _]%andb_true_iff.
  cbn. destruct (f_valid_from f); [|by rewrite orb_true_r]. rewrite Hv. by rewrite orb_true_r.
Qed.

(** A closed row keeps a proper range. *)
Lemma rivals_range org project t e l f :
  NoDup (map f_id l) → f ∈ l → f_id f ∈ map f_id (rivals org project t e l) →
  fact_range_ok (with_valid_to t f) = true.
Proof.
  intros Hd Hf (c & E & Hc)%list_elem_of_fmap. apply rivals_sub in Hc as [Hin He].
  apply effective_range. by rewrite (NoDup_map_inj f_id l f c).
Qed.

Lemma has_id_in ids f : has_id ids f = true ↔ f_id f ∈ ids.
Proof.
  unfold has_id. rewrite existsb_exists. split.
  - intros (x & Hx & E%Z.eqb_eq). rewrite E. by apply list_elem_of_In.
  - intros Hx. exists (f_id f). by rewrite Z.eqb_refl, <- list_elem_of_In.
Qed.

Lemma closed_rows_range org project t e l f :
  NoDup (map f_id l) → f ∈ closed_rows (map f_id (rivals org project t e l)) t l →
  f_id f ∈ map f_id (rivals org project t e l) → fact_range_ok f = true.
Proof.
  intros Hd (f0 & -> & Hf0)%list_elem_of_fmap Hi. destruct (has_id _ f0) eqn:Eh.
  - by eapply rivals_range, has_id_in.
  - apply has_id_in in Hi. congruence.
Qed.

Lemma closed_rows_ids ids t l : map f_id (closed_rows ids t l) = map f_id l.
Proof.
  unfold closed_rows. rewrite map_map. apply map_ext. intros f. by destruct (has_id _ _).
Qed.

Lemma born_dead_range now id org project user ep r :
  born_dead now r = false → fact_range_ok (new_fact id org project user ep r) = true.
Proof.
  unfold born_dead, fact_range_ok. cbn. destruct (r_valid_to r) as [x|]; [|by destruct (r_valid_from r)].
  destruct (r_valid_from r) as [y|]; cbn; intros Hb; [|done]. apply Z.leb_gt in Hb.
  apply Z.leb_le. lia.
Qed.

(** The INSERT of one row: stored when nothing overlaps it, else skipped or refused. *)
Lemma insert_one_row org project user src mode row (s : state) :
  let nf := new_fact (next_uuid s) org project user src row in
  r_source_episode_id row = src → born_dead (st_clock s) row = false →
  next_uuid s ∉ map f_id (st_db s facts) →
  (∀ f, f ∈ st_db s facts → uq_facts_temporal_excl nf f = false) →
  run (_insert_rows org project user src [row] mode) s
  = (inr [nf], set_facts (st_db s facts ++ [nf]) (op_sem (Draw (2 ^ 128)) s).2).
Proof.
  intros nf Hsrc Hb Hi Hx.
  assert (∀ arb, (∀ f, f ∈ st_db s facts → arb nf f = false) →
    run (call (Insert facts arb [nf])) (op_sem (Draw (2 ^ 128)) s).2
    = (inr [nf], set_facts (st_db s facts ++ [nf]) (op_sem (Draw (2 ^ 128)) s).2)) as Hins.
  { intros arb Ha. rewrite run_call. cbn [exec state_world op_sem].
    assert (check_rows facts [nf] = true) as -> by
      (change (fact_range_ok nf && true = true); unfold nf; by rewrite (born_dead_range (st_clock s))).
    cbn [insert_rows insert_check negb orb]. change (st_db (op_sem (Draw (2 ^ 128)) s).2 facts) with (st_db s facts).
    rewrite !existsb_none; [done| |done]. intros f Hf. cbn [row_conflict]. rewrite (Hx f Hf), orb_false_r.
    apply Z.eqb_neq. intros E. apply Hi. change (f_id nf) with (next_uuid s) in E. rewrite E.
    by apply list_elem_of_fmap_2. }
  assert (∀ ep (mk : uuid → FactRow → Fact) (f : list Fact → prog (list Fact)),
    mk (next_uuid s) row = new_fact (next_uuid s) org project user ep row →
    run (new ← new_facts mk [row]; f new) s
    = run (f [new_fact (next_uuid s) org project user ep row]) (op_sem (Draw (2 ^ 128)) s).2) as Hnew.
  { intros ep mk f E. rewrite run_bind. cbn [new_facts]. rewrite run_uuid4. cbn. by rewrite E. }
  destruct mode; cbn [_insert_rows batch_create].
  - rewrite run_now. cbn [existsb]. rewrite Hb. cbn [orb]. rewrite (Hnew src) by (by rewrite Hsrc).
    by apply Hins.
  - unfold batch_create_or_skip. rewrite run_now. cbn [existsb]. rewrite Hb. cbn [orb].
    rewrite (Hnew src) by done. by apply Hins.
Qed.

Lemma add_event_fold nf e cs st :
  foldl (λ st old, add_event old nf e st) st cs
  = mkBatchState (created st) (closed_ids st) (in_batch st) (superseded_count st) (skipped_count st)
      (events st ++ map (transition nf (e_triple e)) cs)
      (foldl (λ m old, <[f_id old := r_source_episode_id (e_row e)]> m) (source_episode_by_old_fact st) cs).
Proof.
  revert st; induction cs as [|c cs IH]; intros st; cbn [foldl map].
  - rewrite app_nil_r. by destruct st.
  - rewrite IH. cbn. by rewrite <- app_assoc.
Qed.

Lemma episode_fold (v : option uuid) cs (m : gmap uuid (option uuid)) c :
  c ∈ cs ∨ m !! f_id c = Some v → foldl (λ m old, <[f_id old := v]> m) m cs !! f_id c = Some v.
Proof.
  revert m; induction cs as [|x cs IH]; intros m; cbn.
  - by intros [?%elem_of_nil|].
  - intros H'. apply IH. destruct (decide (f_id x = f_id c)) as [->|Hne].
    + right. by rewrite lookup_insert_eq.
    + rewrite lookup_insert_ne by done. destruct H' as [[->|Hc]%elem_of_cons|]; [done|by left|by right].
Qed.

Lemma prepared_name i src now e id org project user ep :
  _prepare_entry i src now = inr e →
  _name_identity_of_fact (new_fact id org project user ep (e_row e)) = e_name_identity e.
Proof. unfold _prepare_entry. repeat case_match; intros; simplify_eq; done. Qed.

(** What the supersession of [cs] by [nf] amounts to. *)
Definition outcome_of (nf : Fact) (tr : Triple) (cs : list Fact) : _BatchState :=
  mkBatchState [nf] [] ∅ (Z.of_nat (length cs)) 0 (map (transition nf tr) cs) ∅.

(** The first half: ranges closed, row inserted. *)
Lemma batch_one org project user src mode t i e (s : state) :
  let cs := rivals org project t e (st_db s facts) in
  let closed := closed_rows (map f_id cs) t (st_db s facts) in
  let nf := new_fact (next_uuid s) org project user src (e_row e) in
  NoDup (map f_id (st_db s facts)) → _prepare_entry i src t = inr e →
  existsb (same_content e) cs = false → buried org project e (st_db s facts) = false →
  born_dead (st_clock s) (e_row e) = false → next_uuid s ∉ map f_id (st_db s facts) →
  (∀ f, f ∈ closed → uq_facts_temporal_excl nf f = false) →
  ∃ st, run (_supersede_batch_safe [e]
      (by_identity (List.filter (active_match org project (e_match_keys e) t) (st_db s facts)))
      (by_identity (List.filter (retracted_match org project (e_match_keys e)) (st_db s facts)))
      (mkBatchCtx org project user src mode t) new_batch_state) (locked org project e s)
    = (inr st, set_facts (closed ++ [nf]) (op_sem (Draw (2 ^ 128)) (locked org project e s)).2) ∧
    created st = [nf] ∧ superseded_count st = Z.of_nat (length cs) ∧ skipped_count st = 0 ∧
    events st = map (transition nf (e_triple e)) cs ∧
    ∀ c, c ∈ cs → default None (source_episode_by_old_fact st !! f_id c) = src.
Proof.
  intros cs closed nf Hd Hp Hc Hb Hbd Hi Hx. unfold _supersede_batch_safe. cbn [for_fold batch_step].
  change (closed_ids new_batch_state) with (@nil uuid). rewrite rivals_spec, buried_spec. fold cs.
  rewrite Hc, Hb. cbn [cx_now app]. rewrite run_bind, run_bind, run_bind, run_close_loop.
  2: { intros f Hf Hin. by eapply rivals_range. }
  cbn [run]. rewrite close_fold. cbn [map fst].
  change (st_db (locked org project e s) facts) with (st_db s facts). fold closed. set (s1 := set_facts _ _).
  rewrite run_bind, run_bind. cbn [cx_org_id cx_project_id cx_user_id cx_source_episode_id cx_insert_mode].
  rewrite insert_one_row; [|by eapply prepared_source|exact Hbd| |exact Hx].
  2: { change (next_uuid s ∉ map f_id closed). unfold closed. by rewrite closed_rows_ids. }
  change (next_uuid s1) with (next_uuid s). fold nf. cbn [run].
  assert (set_facts (st_db s1 facts ++ [nf]) (op_sem (Draw (2 ^ 128)) s1).2
    = set_facts (closed ++ [nf]) (op_sem (Draw (2 ^ 128)) (locked org project e s)).2) as ->.
  { unfold s1, set_facts, set_db. cbn [op_sem snd st_db st_clock st_redis st_committed st_tenant
      st_entropy st_drawn st_out]. by rewrite set_table_twice. }
  eexists. split; [reflexivity|].
  unfold pair_kept. cbn [foldl add_created created new_batch_state app]. rewrite bucket_filter.
  assert (List.filter (λ c, bool_decide (_name_identity_of_fact c = e_name_identity e)) [nf] = [nf]) as ->.
  { cbn. by rewrite bool_decide_true by (by eapply prepared_name). }
  rewrite add_event_fold. cbn. split_and!; try done. intros c Hcs.
  erewrite episode_fold by (by left). cbn. by eapply prepared_source.
Qed.


(** An assertion the project already holds, or that was retracted, is skipped:
    when an active rival has the same content, or a retracted fact of the same name
    speaks against it, the call reports one skip and changes no table. *)
Lemma known_assertion_skipped {W} `{World W} (w : W) svc pending org project user i src mode t e :
  let s := abs w in
  let r := run (ingest_with_supersession svc pending org project user [i] src mode (Some t)) w in
  steady w → _prepare_entry i src t = inr e →
  existsb (same_content e) (rivals org project t e (st_db s facts)) || buried org project e (st_db s facts)
    = true →
  r.1 = inr (mkFactIngestionResult [] 0 0 1, pending) ∧ st_db (abs r.2) = st_db s ∧
  st_redis (abs r.2) = st_redis s.
Proof.
  intros s r Hw Hp Hx.
  destruct (run_steady (ingest_with_supersession svc pending org project user [i] src mode (Some t)) w Hw)
    as (E1 & E2 & _). subst r. rewrite E1, E2. fold s.
  rewrite (run_one svc pending org project user i src mode t e s Hp), one_skipped by done. done.
Qed.

(** C13. A new assertion takes effect: every active rival's range ends at its instant
    and points to the new fact, the new fact is stored, one log row per rival is
    written, every other row is as before, and the result and the queued effects say
    so. *)
Theorem assertion_supersedes {W} `{World W} (w : W) svc pending org project user i src mode t e :
  let s := abs w in
  let cs := rivals org project t e (st_db s facts) in
  let closed := closed_rows (map f_id cs) t (st_db s facts) in
  let new := next_uuid s in
  let nf := new_fact new org project user src (e_row e) in
  let log := log_of (drawn_uuid s) org project new t src (S (st_drawn s)) cs in
  let r := run (ingest_with_supersession svc pending org project user [i] src mode (Some t)) w in
  steady w → NoDup (map f_id (st_db s facts)) → _prepare_entry i src t = inr e →
  existsb (same_content e) cs = false → buried org project e (st_db s facts) = false →
  born_dead (st_clock s) (e_row e) = false → new ∉ map f_id (st_db s facts) →
  (∀ f, f ∈ closed → uq_facts_temporal_excl nf f = false) →
  NoDup (map ie_id (st_db s fact_invalidation_events ++ log)) →
  r.1 = inr (mkFactIngestionResult [nf] 1 (Z.of_nat (length cs)) 0,
             pending ++ superseded_effects svc org project t (outcome_of nf (e_triple e) cs)) ∧
  st_db (abs r.2) facts = linked_rows (map f_id cs) new (st_clock s) closed ++ [nf] ∧
  st_db (abs r.2) fact_invalidation_events = st_db s fact_invalidation_events ++ log.
Proof.
  intros s cs closed new nf log r Hw Hd Hp Hc Hb Hbd Hi Hx Hlog.
  destruct (run_steady (ingest_with_supersession svc pending org project user [i] src mode (Some t)) w Hw)
    as (E1 & E2 & _). subst r. rewrite E1, E2. fold s.
  rewrite (run_one svc pending org project user i src mode t e s Hp). unfold one_entry.
  destruct (batch_one org project user src mode t i e s Hd Hp Hc Hb Hbd Hi Hx)
    as (st & E & Hcr & Hsu & Hsk & Hev & Hep).
  rewrite run_bind, E. fold closed nf.
  set (s1 := set_facts _ _). rewrite run_bind. cbn [cx_org_id cx_project_id cx_now].
  assert (st_db s1 facts = closed ++ [nf]) as Ef by done.
  assert (∀ c, c ∈ cs → f_id nf ≠ f_id c) as Hne.
  { intros c [Hcin _]%rivals_sub Hid. apply Hi. fold new. change new with (f_id nf). rewrite Hid.
    by apply list_elem_of_fmap_2. }
  destruct (run_lineage org project t src nf (e_triple e) ∅ cs st s1 Hev Hep) as (s2 & El & Hf & Hg).
  - rewrite Ef. intros f [Hf| ->%list_elem_of_singleton]%elem_of_app Hin; [by eapply closed_rows_range|].
    apply list_elem_of_fmap in Hin as (c & Eid & Hcin). by apply Hne in Hcin.
  - exact Hlog.
  - rewrite El. cbn [run fst snd]. rewrite Hcr, Hsu, Hsk, Hf, Hg, Ef. split_and!.
    + unfold superseded_effects. by rewrite Hsu, Hev.
    + unfold linked_rows at 1. rewrite map_app. f_equal. cbn [map].
      assert (has_id (map f_id cs) nf = false) as ->; [|done].
      destruct (has_id (map f_id cs) nf) eqn:Eh; [|done]. apply has_id_in in Eh.
      apply list_elem_of_fmap in Eh as (c & Eid & Hcin). by apply Hne in Hcin.
    + done.
Qed.
End ingest.

(** * Retraction *)

Section retraction.
Context `{Postgres} `{Datetime}.

Lemma run_set_invalid_at id t (s : state) :
  run (set_invalid_at id t) s
  = (inr tt, set_facts (map (λ f, if f_id f =? id then with_invalid_at t f else f) (st_db s facts)) s).
Proof.
  unfold set_invalid_at. erewrite run_op; [reflexivity|]. cbn.
  assert (forallb fact_range_ok (map (with_invalid_at t) (List.filter (λ f, f_id f =? id) (st_db s facts)))
    = true) as ->; [|done].
  apply forallb_forall. intros x Hx. apply in_map_iff in Hx as (f & <- & _). done.
Qed.

Lemma run_fact_by_id {A} id org (f : Fact) (k : option Fact → prog A) (s : state) :
  NoDup (map f_id (st_db s facts)) → f ∈ st_db s facts → f_id f = id →
  match org with None => True | Some o => f_organization_id f = o end →
  run (fact_by_id id org ≫= k) s = run (k (Some f)) s.
Proof.
  intros Hd Hf Hid Ho. unfold fact_by_id. rewrite run_bind, (run_select facts).
  rewrite (filter_unique (A := row facts) f_id _ _ f Hd Hf); [done| |].
  - rewrite Hid, Z.eqb_refl. destruct org; [subst; by rewrite Z.eqb_refl|done].
  - intros y [Hy _]%andb_true_iff. lia.
Qed.

Lemma run_retract svc pending org project f reason at_time (s : state) :
  let g := with_invalid_at at_time f in
  NoDup (map f_id (st_db s facts)) → f ∈ st_db s facts → in_scope org project f = true →
  f_invalid_at f = None → f_valid_to f = None →
  (∀ x, x ∈ st_db s fact_invalidation_events → ie_id x ≠ next_uuid s) →
  ∃ s', run (retract_fact svc pending (f_id f) org project reason (Some at_time)) s
    = (inr (g, notify_retraction svc pending org project g at_time), s') ∧
  st_db s' facts = map (λ x, if f_id x =? f_id f then with_invalid_at at_time x else x) (st_db s facts) ∧
  st_db s' fact_invalidation_events = st_db s fact_invalidation_events
    ++ [mkFactInvalidationEvent (next_uuid s) org project (f_id f) None "retracted" reason at_time None].
Proof.
  intros g Hd Hf [Ho%Z.eqb_eq Hp%Z.eqb_eq]%andb_true_iff Hia Hvt Hlog.
  unfold retract_fact. rewrite run_ret_bind, (run_fact_by_id (f_id f) (Some org) f _ s Hd Hf eq_refl Ho).
  rewrite Hp, Z.eqb_refl, Hia, Hvt. cbn [negb orb].
  rewrite !bool_decide_true by done. cbn [negb orb]. rewrite run_bind.
  destruct (run_locks [_lock_key_for_identity (f_organization_id f) project (_name_identity_of_fact f)] s)
    as (out & -> & _).
  set (s1 := mkState _ _ _ _ _ _ _ _ _). rewrite run_bind, run_set_invalid_at.
  set (stamp := λ x, if f_id x =? f_id f then with_invalid_at at_time x else x).
  set (s2 := set_facts _ s1).
  assert (stamp f = g) as Eg by (unfold stamp; by rewrite Z.eqb_refl).
  rewrite (run_fact_by_id (f_id f) None g _ s2).
  - rewrite run_bind.
    destruct (run_record (f_organization_id g) (f_project_id g) (f_id g) None "retracted" reason at_time None s2)
      as (s3 & -> & Edb & _); [exact Hlog|]. eexists. split; [|split].
    + cbn [run]. cbn [f_organization_id f_project_id g with_invalid_at]. by rewrite Ho, Hp.
    + by rewrite Edb.
    + rewrite Edb. cbn [f_organization_id f_project_id g with_invalid_at]. by rewrite Ho, Hp.
  - change (st_db s2 facts) with (map stamp (st_db s facts)). rewrite map_map.
    erewrite map_ext; [exact Hd|]. intros x. unfold stamp. by destruct (f_id x =? f_id f).
  - change (st_db s2 facts) with (map stamp (st_db s facts)). rewrite <- Eg. by apply list_elem_of_fmap_2.
  - done.
  - done.
Qed.

(** C14. A retraction is final: it stamps the fact, logs itself and queues its effects;
    and as long as the row is there, no later assertion of what it said is stored. *)
Theorem retraction_is_terminal {W} `{World W} (w : W) svc pending org project f reason at_time :
  let s := abs w in
  let g := with_invalid_at at_time f in
  let r := run (retract_fact svc pending (f_id f) org project reason (Some at_time)) w in
  steady w → NoDup (map f_id (st_db s facts)) → f ∈ st_db s facts → in_scope org project f = true →
  f_invalid_at f = None → f_valid_to f = None →
  (∀ x, x ∈ st_db s fact_invalidation_events → ie_id x ≠ next_uuid s) →
  r.1 = inr (g, notify_retraction svc pending org project g at_time) ∧
  st_db (abs r.2) facts = map (λ x, if f_id x =? f_id f then with_invalid_at at_time x else x) (st_db s facts) ∧
  st_db (abs r.2) fact_invalidation_events = st_db s fact_invalidation_events
    ++ [mkFactInvalidationEvent (next_uuid s) org project (f_id f) None "retracted" reason at_time None] ∧
  ∀ (w2 : W) svc2 pending2 user i src mode t e,
    steady w2 → g ∈ st_db (abs w2) facts → _prepare_entry i src t = inr e →
    existsb (key_condition f) (e_match_keys e) = true → _name_identity_of_fact f = e_name_identity e →
    _candidate_conflicts e f = true →
    let r2 := run (ingest_with_supersession svc2 pending2 org project user [i] src mode (Some t)) w2 in
    r2.1 = inr (mkFactIngestionResult [] 0 0 1, pending2) ∧ st_db (abs r2.2) = st_db (abs w2).
Proof.
  intros s g r Hw Hd Hf Hsc Hia Hvt Hlog. pose proof Hsc as [Ho%Z.eqb_eq Hpr%Z.eqb_eq]%andb_true_iff.
  split_and!.
  4: { intros w2 svc2 pending2 user i src mode t e Hw2 Hg Hp Hk Hn Hc r2.
       destruct (known_assertion_skipped w2 svc2 pending2 org project user i src mode t e Hw2 Hp)
         as (E1 & E2 & _); [|done].
       apply orb_true_iff. right. apply existsb_exists. exists g. split; [by apply list_elem_of_In|].
       unfold retracted_match. change (in_scope org project g) with (in_scope org project f).
       change (existsb (key_condition g) (e_match_keys e)) with (existsb (key_condition f) (e_match_keys e)).
       change (_name_identity_of_fact g) with (_name_identity_of_fact f).
       change (_candidate_conflicts e g) with (_candidate_conflicts e f).
       rewrite Hsc, Hk, Hc, (bool_decide_false (f_invalid_at g = None)), bool_decide_true by done. done. }
  all: destruct (run_steady (retract_fact svc pending (f_id f) org project reason (Some at_time)) w Hw)
    as (E1 & E2 & _); subst r; rewrite ?E1, ?E2; fold s.
  all: by destruct (run_retract svc pending org project f reason at_time s Hd Hf Hsc Hia Hvt Hlog)
    as (s' & -> & Ef & El).
Qed.
End retraction.

(** * An assertion that is lost *)

Section lost.
Context `{Postgres} `{Datetime}.

Lemma insert_overlapped org project user src rw x (s : state) :
  let nf := new_fact (next_uuid s) org project user src rw in
  born_dead (st_clock s) rw = false → x ∈ st_db s facts → uq_facts_temporal_excl nf x = true →
  run (_insert_rows org project user src [rw] mode_batch_create_or_skip) s
  = (inr [], (op_sem (Draw (2 ^ 128)) s).2).
Proof.
  intros nf Hb Hx Hu. unfold _insert_rows, batch_create_or_skip. rewrite run_now. cbn [existsb].
  rewrite Hb. cbn [orb]. rewrite run_bind. cbn [new_facts]. rewrite run_uuid4.
  set (s1 := (op_sem (Draw (2 ^ 128)) s).2). cbn [run].
  rewrite run_bind. cbn [run]. rewrite run_call. cbn [exec state_world op_sem]. fold nf.
  assert (check_rows facts [nf] = true) as ->
    by (change (fact_range_ok nf && true = true); unfold nf; by rewrite (born_dead_range (st_clock s))).
  cbn [insert_rows insert_check negb orb]. change (st_db s1 facts) with (st_db s facts).
  assert (existsb (A := row facts) (uq_facts_temporal_excl nf) (st_db s facts) = true) as ->
    by (apply existsb_exists; exists x; by rewrite <- list_elem_of_In).
  f_equal. apply (set_facts_id s1).
Qed.

(** In the mode of the extraction worker a new assertion can be lost together with
    the ones it replaces: when its range overlaps an earlier row of the same episode
    and triple, its rivals are closed, the INSERT skips it, and the call reports the
    rivals as superseded although nothing was stored and no log row was written. *)
Theorem overlapped_assertion_lost {W} `{World W} (w : W) svc pending org project user i src t e x :
  let s := abs w in
  let cs := rivals org project t e (st_db s facts) in
  let closed := closed_rows (map f_id cs) t (st_db s facts) in
  let nf := new_fact (next_uuid s) org project user src (e_row e) in
  let r := run (ingest_with_supersession svc pending org project user [i] src mode_batch_create_or_skip
                  (Some t)) w in
  steady w → NoDup (map f_id (st_db s facts)) → _prepare_entry i src t = inr e →
  existsb (same_content e) cs = false → buried org project e (st_db s facts) = false →
  born_dead (st_clock s) (e_row e) = false →
  x ∈ closed → uq_facts_temporal_excl nf x = true →
  r.1 = inr (mkFactIngestionResult [] 0 (Z.of_nat (length cs)) 0,
             pending ++ (if Z.of_nat (length cs) =? 0 then [] else
                           IncSuperseded (Z.of_nat (length cs))
                           :: when (_cache_service svc) [InvalidateProjectContext org project])) ∧
  st_db (abs r.2) facts = closed ∧
  st_db (abs r.2) fact_invalidation_events = st_db s fact_invalidation_events.
Proof.
  intros s cs closed nf r Hw Hd Hp Hc Hb Hbd Hx Hu.
  destruct (run_steady (ingest_with_supersession svc pending org project user [i] src
    mode_batch_create_or_skip (Some t)) w Hw) as (E1 & E2 & _). subst r. rewrite E1, E2. fold s.
  rewrite (run_one svc pending org project user i src _ t e s Hp). unfold one_entry.
  unfold _supersede_batch_safe. cbn [for_fold batch_step].
  change (closed_ids new_batch_state) with (@nil uuid). rewrite rivals_spec, buried_spec. fold cs.
  rewrite Hc, Hb. cbn [cx_now app]. rewrite run_bind, run_bind, run_bind, run_bind, run_close_loop.
  2: { intros f Hf Hin. by eapply rivals_range. }
  cbn [run]. rewrite close_fold. cbn [map fst].
  change (st_db (locked org project e s) facts) with (st_db s facts). fold closed. set (s1 := set_facts _ _).
  rewrite run_bind, run_bind. cbn [cx_org_id cx_project_id cx_user_id cx_source_episode_id cx_insert_mode].
  rewrite (insert_overlapped _ _ _ _ _ x s1 Hbd Hx Hu). cbn [run].
  unfold pair_kept. cbn [foldl created add_created new_batch_state app]. rewrite bucket_filter.
  cbn [List.filter by_identity foldl]. unfold _record_lineage.
  cbn [add_created events new_batch_state for_each created app]. rewrite run_ret_bind.
  cbn [run fst snd created length superseded_count skipped_count].
  split_and!; [|done|done]. unfold superseded_effects. cbn [superseded_count events flat_map].
  destruct svc as [[] [] []]; cbn; rewrite ?app_nil_r; done.
Qed.
End lost.

(** * The identity locks *)

Definition text_lt (x y : string) : Prop := String.compare x y = Lt.

Lemma text_lt_trans x y z : text_lt x y → text_lt y z → text_lt x z.
Proof.
  unfold text_lt. revert y z; induction x as [|a x IH]; intros [|b y] [|c z]; cbn; try done.
  unfold Ascii.compare. intros Hxy Hyz.
  destruct (N.compare_spec (N_of_ascii a) (N_of_ascii b)) as [E|E|E]; [| |done];
    destruct (N.compare_spec (N_of_ascii b) (N_of_ascii c)) as [E'|E'|E']; try done.
  - rewrite E, E', N.compare_refl. by eapply IH.
  - rewrite E. by apply N.compare_lt_iff in E' as ->.
  - rewrite <- E'. by apply N.compare_lt_iff in E as ->.
  - assert (N_of_ascii a < N_of_ascii c)%N as ->%N.compare_lt_iff by lia. done.
Qed.

Lemma insert_text_elem x l y : y ∈ insert_text x l ↔ y = x ∨ y ∈ l.
Proof.
  induction l as [|z l IH]; cbn; [by rewrite list_elem_of_singleton, elem_of_nil; tauto|].
  destruct (String.compare x z) eqn:E.
  - apply String.compare_eq_iff in E as ->. rewrite elem_of_cons. tauto.
  - by rewrite (elem_of_cons (z :: l)).
  - rewrite !elem_of_cons, IH. tauto.
Qed.

Lemma insert_text_sorted x l : StronglySorted text_lt l → StronglySorted text_lt (insert_text x l).
Proof.
  induction l as [|z l IH]; intros Hs; cbn; [by repeat constructor|].
  apply StronglySorted_inv in Hs as [Hs Hz]. destruct (String.compare x z) eqn:E.
  - by constructor.
  - constructor; [by constructor|]. constructor; [done|]. eapply Forall_impl; [exact Hz|].
    intros y Hy. by eapply text_lt_trans.
  - constructor; [by apply IH|]. apply Forall_forall. intros y [->|Hy]%insert_text_elem.
    + unfold text_lt. by rewrite String.compare_antisym, E.
    + rewrite Forall_forall in Hz. by apply Hz.
Qed.

Lemma sorted_set_spec l : StronglySorted text_lt (sorted_set l) ∧ ∀ x, x ∈ sorted_set l ↔ x ∈ l.
Proof.
  induction l as [|y l [Hs He]]; [split; [constructor|done]|]. cbn. split; [by apply insert_text_sorted|].
  intros x. by rewrite insert_text_elem, elem_of_cons, He.
Qed.

(** What is left of a normalized term holds no colon. *)
Lemma lstrip_mem c p s : str_mem c s = false → str_mem c (lstrip_by p s) = false.
Proof.
  induction s as [|a s IH]; [done|]. cbn. intros Hs. pose proof Hs as [_ Ht]%orb_false_elim.
  destruct (p a); [by apply IH|exact Hs].
Qed.

Lemma rstrip_mem c p s : str_mem c s = false → str_mem c (rstrip_by p s) = false.
Proof.
  induction s as [|a s IH]; [done|]. cbn. intros [Ha Hs]%orb_false_elim. specialize (IH Hs).
  destruct (rstrip_by p s) eqn:E; [destruct (p a); cbn; by rewrite ?Ha|]. cbn [str_mem] in *. by rewrite Ha.
Qed.

Lemma filter_mem c p s : p c = false → str_mem c (str_filter p s) = false.
Proof.
  intros Hc. induction s as [|a s IH]; [done|]. cbn. destruct (p a) eqn:E; [|done]. cbn. rewrite IH, orb_false_r.
  destruct (Ascii.eqb_spec a c); [congruence|done].
Qed.

Lemma normalized_no_colon t : str_mem ":" (normalize_identity_term t) = false.
Proof.
  destruct t as [t|]; [|done]. unfold normalize_identity_term, str_strip, strip_by.
  by apply rstrip_mem, lstrip_mem, filter_mem.
Qed.

Definition normal (i : NameIdentity) : Prop :=
  str_mem ":" i.1.1 = false ∧ str_mem ":" i.1.2 = false ∧ str_mem ":" i.2 = false.

(** Two texts split at the first separator. *)
Lemma split_inj c a b x y :
  str_mem c a = false → str_mem c b = false → a +:+ (c ::: x) = b +:+ (c ::: y) → a = b ∧ x = y.
Proof.
  intros Ha Hb E. assert (partition c (a +:+ (c ::: x)) = partition c (b +:+ (c ::: y))) as E2 by (by rewrite E).
  rewrite !partition_app in E2 by done. by simplify_eq.
Qed.

Lemma lock_key_inj org project i org' project' i' :
  uuid_wf org → uuid_wf project → uuid_wf org' → uuid_wf project' → normal i → normal i' →
  _lock_key_for_identity org project i = _lock_key_for_identity org' project' i' →
  org = org' ∧ project = project' ∧ i = i'.
Proof.
  intros Ho Hp Ho' Hp' (N1 & N2 & _) (N1' & N2' & _) E. destruct i as [[a b] c], i' as [[a' b'] c'].
  unfold _lock_key_for_identity in E. apply str_app_inj_l in E.
  apply str_app_inj_len in E as [E1 E]; [|by rewrite !uuid_str_length]. apply str_app_inj_l in E.
  apply str_app_inj_len in E as [E2 E]; [|by rewrite !uuid_str_length]. apply str_app_inj_l in E.
  repeat rewrite (str_app_cons ":"%char) in E. rewrite !str_app_nil_l in E.
  apply split_inj in E as [-> E]; [|done|done]. apply split_inj in E as [-> E]; [|done|done].
  apply uuid_str_inj in E1 as ->; [|done|done]. apply uuid_str_inj in E2 as ->; [|done|done]. by subst.
Qed.

Lemma prepared_normal `{Postgres} `{Datetime} i src now e :
  _prepare_entry i src now = inr e → normal (e_name_identity e).
Proof.
  unfold _prepare_entry. repeat case_match; intros; simplify_eq;
  split_and!; apply normalized_no_colon.
Qed.

(** Writers of one triple meet at one lock and take their locks in one order: the
    keys of a batch are increasing without repetition, one for every name identity in
    it; two batches share a key exactly when they assert the same normalized triple
    in the same project. *)
Theorem identity_locks `{Postgres} `{Datetime} org project org' project' src src' now now' inputs inputs' es es' :
  uuid_wf org → uuid_wf project → uuid_wf org' → uuid_wf project' →
  try_map (λ f, _prepare_entry f src now) inputs = inr es →
  try_map (λ f, _prepare_entry f src' now') inputs' = inr es' →
  let keys := sorted_set (map (λ e, _lock_key_for_identity org project (e_name_identity e)) es) in
  let keys' := sorted_set (map (λ e, _lock_key_for_identity org' project' (e_name_identity e)) es') in
  StronglySorted text_lt keys ∧
  (∀ e, e ∈ es → _lock_key_for_identity org project (e_name_identity e) ∈ keys) ∧
  ((∃ k, k ∈ keys ∧ k ∈ keys') ↔
   org = org' ∧ project = project' ∧ ∃ e e', e ∈ es ∧ e' ∈ es' ∧ e_name_identity e = e_name_identity e').
Proof.
  intros Ho Hp Ho' Hp' Hes Hes' keys keys'.
  destruct (sorted_set_spec (map (λ e, _lock_key_for_identity org project (e_name_identity e)) es)) as [Hs He].
  destruct (sorted_set_spec (map (λ e, _lock_key_for_identity org' project' (e_name_identity e)) es')) as [_ He'].
  fold keys in Hs, He. fold keys' in He'. split; [done|]. split.
  - intros e Hin. apply He, list_elem_of_fmap. by exists e.
  - split.
    + intros (k & (e & -> & Hin)%He%list_elem_of_fmap & (e' & E & Hin')%He'%list_elem_of_fmap).
      destruct (try_map_spec _ _ _ _ Hes Hin) as (i & _ & Hi%prepared_normal).
      destruct (try_map_spec _ _ _ _ Hes' Hin') as (i' & _ & Hi'%prepared_normal).
      apply lock_key_inj in E as (-> & -> & E); [|done..]. split; [done|]. split; [done|]. by exists e, e'.
    + intros (-> & -> & e & e' & Hin & Hin' & E).
      exists (_lock_key_for_identity org' project' (e_name_identity e)). split.
      * apply He, list_elem_of_fmap. by exists e.
      * apply He', list_elem_of_fmap. exists e'. by rewrite E.
Qed.

(** * Edges of the graph *)

(** A fact stands for an edge when both its entities are resolved and its predicate is
    not blank. *)
Definition edge_of (f : Fact) (k : EdgeKey) : Prop :=
  f_subject_entity_id f = Some (source_id k) ∧ f_object_entity_id f = Some (target_id k) ∧
  f_predicate f = Some (relationship_type k) ∧ str_strip (relationship_type k) ≠ EmptyString.

Lemma edge_key_spec f k : edge_key_for_fact f = Some k ↔ edge_of f k.
Proof.
  unfold edge_key_for_fact, edge_of.
  destruct (f_subject_entity_id f) as [s|], (f_object_entity_id f) as [o|], (f_predicate f) as [p|];
    try (split; [done|by intros (? & ? & ? & _)]).
  destruct (String.eqb_spec (str_strip p) EmptyString) as [E|E].
  - split; [done|]. intros (_ & _ & [= Ep] & Hp). by rewrite <- Ep in Hp.
  - split; [by intros [= <-]|]. intros ([= ->] & [= ->] & [= ->] & _). by destruct k.
Qed.

(** The old fact had the edge [k] and its successor, if any, does not assert it. *)
Definition expires (x : Fact * option Fact * option Triple) (k : EdgeKey) : Prop :=
  edge_of x.1.1 k ∧ match x.1.2 with None => True | Some f => ¬ edge_of f k end.

Definition expiry (org project : uuid) (at_time : Z) (f : Fact) (k : EdgeKey) : EdgeExpiryCommand :=
  mkEdgeExpiryCommand org project (source_id k) (target_id k) (relationship_type k) at_time (f_id f).

Lemma expiry_one org project at_time x c :
  c ∈ compute_expiry_commands [make_supersession_event x.1.1 x.1.2 x.2] org project at_time ↔
  ∃ k, expires x k ∧ c = expiry org project at_time x.1.1 k.
Proof.
  destruct x as [[old new] tr]. unfold expires. cbn.
  destruct (edge_key_for_fact old) as [k|] eqn:E.
  2: { split; [by intros ?%elem_of_nil|]. intros (k & [Hk%edge_key_spec _] & _). congruence. }
  apply edge_key_spec in E as Hk. rewrite (bool_decide_true (Some k ≠ None)) by done.
  assert (∀ k', edge_of old k' → k' = k) as Huniq by (intros k' Hk'%edge_key_spec; congruence).
  destruct new as [f|]; cbn.
  - case_bool_decide as Ef.
    + split; [by intros ?%elem_of_nil|]. intros (k' & [Hk' Hn] & _). apply Huniq in Hk' as ->.
      by apply edge_key_spec in Ef.
    + rewrite list_elem_of_singleton. split.
      * intros ->. exists k. split; [|done]. split; [done|]. by intros Hf%edge_key_spec.
      * intros (k' & [Hk' _] & ->). by apply Huniq in Hk' as ->.
  - rewrite list_elem_of_singleton. split.
    + intros ->. by exists k.
    + intros (k' & [Hk' _] & ->). by apply Huniq in Hk' as ->.
Qed.

Lemma expiry_app e l org project at_time :
  compute_expiry_commands (e :: l) org project at_time
  = compute_expiry_commands [e] org project at_time ++ compute_expiry_commands l org project at_time.
Proof. cbn. repeat case_match; done. Qed.

(** An edge expires exactly when a fact that had it is replaced and its successor
    does not assert the same edge again, at the instant of the supersession. *)
Theorem edges_expire_with_facts org project at_time (l : list (Fact * option Fact * option Triple)) c :
  c ∈ compute_expiry_commands
        (map (λ x, make_supersession_event x.1.1 x.1.2 x.2) l) org project at_time ↔
  ∃ x k, x ∈ l ∧ expires x k ∧ c = expiry org project at_time x.1.1 k.
Proof.
  induction l as [|y l IH]; cbn [map].
  { split; [by intros ?%elem_of_nil|]. by intros (? & ? & ?%elem_of_nil & _). }
  rewrite expiry_app, elem_of_app, IH, expiry_one. split.
  - intros [(k & Hk)|(x & k & Hx & Hk)]; [exists y, k|exists x, k]; (split; [|done]); [left|by right].
  - intros (x & k & [->|Hx]%elem_of_cons & Hk); [left; by exists k|right; by exists x, k].
Qed.

(** * The LLM pass *)

(** What a pass has done so far: a row closed and a log row written per fact, no fact
    twice, every one of them a candidate the model was shown. *)
Definition pass_inv (refs : gmap string Fact) (now : Z) (s0 : state) (st : LLMPass) (s : state) : Prop :=
  ∃ log : list FactInvalidationEvent,
    st_db s fact_invalidation_events = st_db s0 fact_invalidation_events ++ log ∧
    map ie_old_fact_id log = rev (lp_closed_ids st) ∧ NoDup (lp_closed_ids st) ∧
    lp_closed st = Z.of_nat (length log) ∧
    (∀ id, id ∈ lp_closed_ids st → ∃ r f, refs !! r = Some f ∧ f_id f = id ∧ f_valid_to f = None ∧
       f_invalid_at f = None) ∧
    map f_id (st_db s facts) = map f_id (st_db s0 facts) ∧
    ∀ f, f ∈ st_db s facts → f_id f ∉ lp_closed_ids st → f ∈ st_db s0 facts.

Lemma run_for_fold_inv {A S} (I : nat → S → state → Prop) (l : list A) (body : S → A → prog S) n acc s r s' :
  (∀ n acc x s a s', x ∈ l → I n acc s → run (body acc x) s = (inr a, s') → I (n + 1)%nat a s') →
  I n acc s → run (for_fold l acc body) s = (inr r, s') → I (n + length l)%nat r s'.
Proof.
  revert n acc s; induction l as [|x l IH]; intros n acc s Hb Hi; cbn [for_fold].
  - intros [= <- <-]. by rewrite Nat.add_0_r.
  - rewrite run_bind. destruct (run (body acc x) s) as [[e|a] s1] eqn:E; [done|]. intros Hr.
    replace (n + length (x :: l))%nat with ((n + 1) + length l)%nat by (cbn; lia).
    eapply IH; [|by eapply Hb; [left|..]|done]. intros m acc' y s2 a' s3 Hy. apply Hb. by right.
Qed.

Lemma update_fact_inv id g (s : state) a s' :
  run (_ ← call (Update facts (λ f, f_id f =? id) g); Ret tt) s = (inr a, s') →
  s' = set_facts (map (λ f, if f_id f =? id then g f else f) (st_db s facts)) s.
Proof.
  rewrite run_bind, run_call. cbn [exec state_world op_sem].
  destruct (check_rows _ _); [|done]. cbn. by intros [= _ <-].
Qed.

Lemma record_inv org project old new kind reason t src (s : state) a s' :
  run (record_invalidation_event org project old new kind reason t src) s = (inr a, s') →
  st_db s' facts = st_db s facts ∧
  ∃ id, st_db s' fact_invalidation_events = st_db s fact_invalidation_events
    ++ [mkFactInvalidationEvent id org project old new kind reason t src].
Proof.
  unfold record_invalidation_event. rewrite run_uuid4, run_bind, run_call.
  set (s1 := (op_sem (Draw (2 ^ 128)) s).2). cbn [exec state_world op_sem check_rows row_check insert_rows insert_check negb orb].
  assert (∀ x l, existsb (no_arbiter fact_invalidation_events x) l = false) as Hn
    by (intros x l; by apply existsb_none).
  rewrite Hn. destruct (existsb _ _); [done|]. cbn. intros [= _ <-]. split; [done|]. by eexists.
Qed.

Lemma update_rows id ids g (l l0 : list Fact) :
  (∀ f, f_id (g f) = f_id f) → map f_id l = map f_id l0 →
  (∀ f, f ∈ l → f_id f ∉ ids → f ∈ l0) →
  map f_id (map (λ f, if f_id f =? id then g f else f) l) = map f_id l0 ∧
  ∀ f, f ∈ map (λ f, if f_id f =? id then g f else f) l → f_id f ∉ id :: ids → f ∈ l0.
Proof.
  intros Hg Hm Hl. split.
  - rewrite map_map, <- Hm. apply map_ext. intros f. by destruct (f_id f =? id).
  - intros f (y & -> & Hy)%list_elem_of_fmap Hn. destruct (Z.eqb_spec (f_id y) id) as [E|E].
    + exfalso. apply Hn. rewrite Hg, E. left.
    + apply Hl; [done|]. intros Hi. apply Hn. by right.
Qed.

Lemma invalidate_step_inv org project refs succs now s0 n st inv (s : state) st' s' :
  pass_inv refs now s0 st s ∧ Z.of_nat n = lp_closed st + lp_skipped st →
  run (invalidate_step org project refs succs now st inv) s = (inr st', s') →
  pass_inv refs now s0 st' s' ∧ Z.of_nat (n + 1) = lp_closed st' + lp_skipped st'.
Proof.
  intros [Hi Hn]. unfold invalidate_step. destruct (target refs inv) as [old|] eqn:Et; [|done].
  destruct (already_closed st old) eqn:Ec.
  { intros [= <- <-]. split; [exact Hi|cbn; lia]. }
  destruct Hi as (log & Hlog & Hold & Hd & Hcl & Hrefs & Hids & Hrest).
  apply orb_false_elim in Ec as [[Hvt Hia]%orb_false_elim Hnew].
  apply negb_false_iff, bool_decide_eq_true in Hvt. apply negb_false_iff, bool_decide_eq_true in Hia.
  rewrite run_bind. destruct (run (set_valid_to _ _) s) as [[e|u1] s1] eqn:E1; [done|].
  rewrite run_bind. destruct (run (set_superseded_by _ _) s1) as [[e|u2] s2] eqn:E2; [done|].
  rewrite run_bind. destruct (run (record_invalidation_event _ _ _ _ _ _ _ _) s2) as [[e|u3] s3] eqn:E3; [done|].
  intros [= <- <-]. apply update_fact_inv in E1 as ->. unfold set_superseded_by in E2. rewrite run_now in E2.
  apply update_fact_inv in E2 as ->. apply record_inv in E3 as (Ef & id & El).
  pose proof (update_rows (f_id old) (lp_closed_ids st) (with_valid_to now) (st_db s facts) (st_db s0 facts)
    (λ _, eq_refl) Hids Hrest) as [Hids1 Hrest1].
  pose proof (update_rows (f_id old) (f_id old :: lp_closed_ids st)
    (with_superseded_by (option_map f_id (successor_of succs inv)) (st_clock s)) _ (st_db s0 facts)
    (λ _, eq_refl) Hids1 Hrest1) as Hrows.
  split; [|cbn; lia]. exists (log ++ [mkFactInvalidationEvent id org project (f_id old)
    (option_map f_id (successor_of succs inv)) "llm_invalidated" (text_or_none (inv_reason inv)) now None]).
  cbn [lp_closed_ids lp_closed]. split_and!.
  - rewrite El. cbn. by rewrite Hlog, <- app_assoc.
  - rewrite map_app, Hold. done.
  - apply NoDup_cons. split; [|done]. intros Hin.
    assert (existsb (Z.eqb (f_id old)) (lp_closed_ids st) = true); [|congruence].
    apply existsb_exists. exists (f_id old). by rewrite Z.eqb_refl, <- list_elem_of_In.
  - rewrite length_app. cbn. lia.
  - intros x [->|Hx]%elem_of_cons; [|by apply Hrefs]. unfold target in Et.
    destruct (existing_fact_ref inv) as [ref|]; [|done]. by exists ref, old.
  - rewrite Ef. cbn [st_db set_facts set_db]. rewrite !set_table_eq. apply Hrows.
  - rewrite Ef. cbn [st_db set_facts set_db]. rewrite !set_table_eq.
    intros f Hf Hnf. apply (proj2 Hrows); [done|].
    intros [Hx|Hx]%elem_of_cons; apply Hnf; [rewrite Hx; left|done].
Qed.

(** The model's word is checked: a pass that names a fact it was not shown is
    refused before anything is read or written; a pass that returns accounts for every
    invalidation, has closed no fact twice and none that was closed already, logs one
    row per closed fact, and leaves every other fact as it was. *)
Theorem llm_pass_guarded {W} `{World W} (w : W) svc pending org project invs refs succs now :
  let s := abs w in
  let r := run (apply_llm_invalidations svc pending org project invs refs succs (Some now)) w in
  steady w → invs ≠ [] →
  (forallb (known_refs refs succs) invs = false →
   (∃ m, r.1 = inl (AppExc ValidationError m)) ∧ abs r.2 = s) ∧
  ∀ res pending', r.1 = inr (res, pending') →
    closed_count res + llm_skipped_count res = Z.of_nat (length invs) ∧
    ∃ st, pass_inv refs now s st (abs r.2) ∧ lp_closed st = closed_count res.
Proof.
  intros s r Hw Hne.
  destruct (run_steady (apply_llm_invalidations svc pending org project invs refs succs (Some now)) w Hw)
    as (E1 & E2 & _). subst r. rewrite E1, E2. fold s. unfold apply_llm_invalidations.
  rewrite run_ret_bind. destruct invs as [|inv invs]; [done|]. set (l := inv :: invs).
  destruct (forallb _ l); cbn [negb].
  2: { split; [|done]. intros _. split; [by eexists|done]. }
  split; [done|]. rewrite run_bind.
  destruct (run_locks (sorted_set (map (λ id, "inv:" +:+ uuid_str org +:+ ":" +:+ uuid_str project +:+ ":"
    +:+ uuid_str id) (omap (λ i, option_map f_id (target refs i)) l))) s) as (out & -> & _).
  set (s1 := mkState _ _ _ _ _ _ _ _ _). rewrite run_bind.
  destruct (run (for_fold l _ _) s1) as [[e|st] s2] eqn:E; [done|]. cbn [run fst snd].
  intros res pending' [= <- <-]. cbn [closed_count llm_skipped_count].
  apply (run_for_fold_inv (λ n st s', pass_inv refs now s st s' ∧ Z.of_nat n = lp_closed st + lp_skipped st)
    _ _ 0%nat) in E.
  - destruct E as [Hi Hn]. split; [lia|]. by exists st.
  - intros n acc x s3 a s4 _ Hi. by apply invalidate_step_inv.
  - split; [|done]. exists []. rewrite app_nil_r. split_and!; try done; [constructor|].
    by intros id ?%elem_of_nil.
Qed.

(** * Concrete inputs *)

Definition c_locale : Postgres := {| sql_lower := str_lower |}.
Definition no_dates : Datetime := {| fromisoformat := λ _, inl (ValueError "Invalid isoformat string") |}.

Definition plain_input (s p o : string) (content : option string) : FactInput :=
  mkFactInput (Some s) (Some p) (Some o) content None None None None None BNone BNone.

(** Project 2 of organization 1; user 3. *)
Definition stored_fact (id : uuid) (s p o content : string) (ep : option uuid) (from to : option Z) : Fact :=
  mkFact id 1 2 3 content (Some s) (Some p) (Some o) "literal" "literal" 1 ep None None from to None None None.

Definition facts_state (l : list Fact) : state := set_facts l empty_state.
Definition api : Collaborators := mkCollaborators true true true.

Definition job : Fact := stored_fact 100 "Alice" "works_at" "Acme" "Alice works at Acme." None (Some 0) None.

Definition entry_of (i : FactInput) (src : option uuid) (now : Z) : Entry :=
  match _prepare_entry (H0 := no_dates) i src now with
  | inr e => e
  | inl _ => mkEntry (""%string, ""%string, ""%string) [] (mkTriple "" "" "")
               (mkFactRow "" "" "" "" 1 "" "" None None None None None)
  end.

Definition promoted : FactInput := plain_input "alice" "works_at" "ACME" (Some "Alice leads Acme."%string).

Lemma supersession_keeps_history_witness :
  let p := ingest_with_supersession (H := c_locale) (H0 := no_dates) api [] 1 2 3 [promoted] None
    mode_batch_create (Some 50) in
  let s := abs (facts_state [job]) in
  let r := run p (facts_state [job]) in
  let t := default (st_clock s) (Some 50) in
  ∃ res pending', r.1 = inr (res, pending') ∧
  ∃ entries old new,
    (∀ e, e ∈ entries → ∃ i, i ∈ [promoted] ∧ _prepare_entry (H0 := no_dates) i None t = inr e) ∧
    st_db (abs r.2) facts = old ++ new ∧
    Forall2 (kept 1 2 t entries) (st_db s facts) old ∧
    Forall (born (H := c_locale) 1 2 3 None entries s) new ∧
    (∀ x, x ≠ facts → x ≠ fact_invalidation_events → st_db (abs r.2) x = st_db s x) ∧
    st_redis (abs r.2) = st_redis s ∧ st_committed (abs r.2) = st_committed s.
Proof.
  eexists _, _. split; [vm_compute; reflexivity|].
  eapply (supersession_keeps_history (H := c_locale) (H0 := no_dates) (facts_state [job]) api [] 1 2 3
    [promoted] None mode_batch_create (Some 50)).
  - exact I.
  - apply NoDup_singleton.
  - vm_compute. reflexivity.
Defined.

Lemma assertion_supersedes_witness :
  let s := abs (facts_state [job]) in
  let e := entry_of promoted None 50 in
  let cs := rivals (H := c_locale) 1 2 50 e (st_db s facts) in
  let closed := closed_rows (map f_id cs) 50 (st_db s facts) in
  let new := next_uuid s in
  let nf := new_fact new 1 2 3 None (e_row e) in
  let log := log_of (drawn_uuid s) 1 2 new 50 None (S (st_drawn s)) cs in
  let r := run (ingest_with_supersession (H := c_locale) (H0 := no_dates) api [] 1 2 3 [promoted] None
    mode_batch_create (Some 50)) (facts_state [job]) in
  length cs = 1%nat ∧
  r.1 = inr (mkFactIngestionResult [nf] 1 (Z.of_nat (length cs)) 0,
             [] ++ superseded_effects api 1 2 50 (outcome_of nf (e_triple e) cs)) ∧
  st_db (abs r.2) facts = linked_rows (map f_id cs) new (st_clock s) closed ++ [nf] ∧
  st_db (abs r.2) fact_invalidation_events = st_db s fact_invalidation_events ++ log.
Proof.
  intros s e cs closed new nf log r. split; [vm_compute; reflexivity|].
  apply (assertion_supersedes (H := c_locale) (H0 := no_dates) (facts_state [job]) api [] 1 2 3 promoted None
    mode_batch_create 50 (entry_of promoted None 50)).
  - exact I.
  - apply NoDup_singleton.
  - vm_compute. reflexivity.
  - vm_compute. reflexivity.
  - vm_compute. reflexivity.
  - vm_compute. reflexivity.
  - apply (bool_decide_unpack _). vm_compute. exact I.
  - intros f Hf. apply list_elem_of_singleton in Hf as ->. vm_compute. reflexivity.
  - apply (bool_decide_unpack _). vm_compute. exact I.
Defined.

Lemma retraction_is_terminal_witness :
  let s := abs (facts_state [job]) in
  let g := with_invalid_at 60 job in
  let r := run (retract_fact api [] (f_id job) 1 2 (Some "wrong"%string) (Some 60)) (facts_state [job]) in
  let again := ingest_with_supersession (H := c_locale) (H0 := no_dates) api [] 1 2 3 [promoted] None
    mode_batch_create (Some 70) in
  r.1 = inr (g, notify_retraction api [] 1 2 g 60) ∧
  (run again (abs r.2)).1 = inr (mkFactIngestionResult [] 0 0 1, []) ∧
  st_db (abs (run again (abs r.2)).2) = st_db (abs r.2).
Proof.
  intros s g r again.
  destruct (retraction_is_terminal (H := c_locale) (H0 := no_dates) (facts_state [job]) api [] 1 2 job
    (Some "wrong"%string) 60) as (E1 & E2 & _ & Hnext).
  - exact I.
  - apply NoDup_singleton.
  - left.
  - reflexivity.
  - reflexivity.
  - reflexivity.
  - intros x Hx. by apply elem_of_nil in Hx.
  - split; [exact E1|].
    apply (Hnext (abs r.2) api [] 3 promoted None mode_batch_create 70 (entry_of promoted None 70)).
    + exact I.
    + change (abs (abs r.2)) with (abs r.2). unfold r. rewrite E2. left.
    + vm_compute. reflexivity.
    + vm_compute. reflexivity.
    + vm_compute. reflexivity.
    + vm_compute. reflexivity.
Defined.

(** An old row of episode 9, ended at 100; since then episode 10 says the same in
    lower case; now the worker reads episode 9 again, with a stated start. *)
Definition first_reading : Fact :=
  stored_fact 101 "Alice" "works_at" "Acme" "Alice works_at Acme" (Some 9) (Some 0) (Some 100).
Definition current_reading : Fact :=
  stored_fact 102 "alice" "works_at" "acme" "alice works_at acme" (Some 10) (Some 100) None.
Definition second_reading : FactInput :=
  mkFactInput (Some "Alice") (Some "works_at") (Some "Acme") None None None None None None (BDatetime 50) BNone.
Definition readings : state := facts_state [first_reading; current_reading].

Lemma overlapped_assertion_lost_witness :
  let e := entry_of second_reading (Some 9) 200 in
  let cs := rivals (H := c_locale) 1 2 200 e (st_db (abs readings) facts) in
  let closed := closed_rows (map f_id cs) 200 (st_db (abs readings) facts) in
  let r := run (ingest_with_supersession (H := c_locale) (H0 := no_dates) api [] 1 2 3 [second_reading]
    (Some 9) mode_batch_create_or_skip (Some 200)) readings in
  length cs = 1%nat ∧
  r.1 = inr (mkFactIngestionResult [] 0 (Z.of_nat (length cs)) 0,
             [] ++ (if Z.of_nat (length cs) =? 0 then [] else
                      IncSuperseded (Z.of_nat (length cs))
                      :: when (_cache_service api) [InvalidateProjectContext 1 2])) ∧
  st_db (abs r.2) facts = closed ∧
  st_db (abs r.2) fact_invalidation_events = st_db (abs readings) fact_invalidation_events.
Proof.
  intros e cs closed r. split; [vm_compute; reflexivity|].
  apply (overlapped_assertion_lost (H := c_locale) (H0 := no_dates) readings api [] 1 2 3 second_reading
    (Some 9) 200 (entry_of second_reading (Some 9) 200) first_reading).
  - exact I.
  - apply (bool_decide_unpack _). vm_compute. exact I.
  - vm_compute. reflexivity.
  - vm_compute. reflexivity.
  - vm_compute. reflexivity.
  - vm_compute. reflexivity.
  - left.
  - vm_compute. reflexivity.
Defined.

Lemma identity_locks_witness :
  let key i := _lock_key_for_identity 1 2 (e_name_identity (entry_of i None 50)) in
  let keys := sorted_set (map (λ e, _lock_key_for_identity 1 2 (e_name_identity e)) [entry_of promoted None 50]) in
  StronglySorted text_lt keys ∧
  (∀ e, e ∈ [entry_of promoted None 50] → _lock_key_for_identity 1 2 (e_name_identity e) ∈ keys) ∧
  ((∃ k, k ∈ keys ∧ k ∈ keys) ↔
   1 = 1 ∧ 2 = 2 ∧ ∃ e e', e ∈ [entry_of promoted None 50] ∧ e' ∈ [entry_of promoted None 50] ∧
     e_name_identity e = e_name_identity e').
Proof.
  intros key keys.
  apply (identity_locks (H := c_locale) (H0 := no_dates) 1 2 1 2 None None 50 50 [promoted] [promoted]).
  - split; [discriminate|reflexivity].
  - split; [discriminate|reflexivity].
  - split; [discriminate|reflexivity].
  - split; [discriminate|reflexivity].
  - vm_compute. reflexivity.
  - vm_compute. reflexivity.
Defined.

Definition contradicted : list Invalidation :=
  [mkInvalidation (Some "E1"%string) None (Some "moved"%string); mkInvalidation (Some "E1"%string) None None].

Lemma llm_pass_guarded_witness :
  let s := abs (facts_state [job]) in
  let r := run (apply_llm_invalidations api [] 1 2 contradicted (<["E1"%string := job]> ∅) ∅ (Some 50)) (facts_state [job]) in
  contradicted ≠ [] ∧
  (forallb (known_refs (<["E1"%string := job]> ∅) ∅) contradicted = false →
   (∃ m, r.1 = inl (AppExc ValidationError m)) ∧ abs r.2 = s) ∧
  ∀ res pending', r.1 = inr (res, pending') →
    closed_count res + llm_skipped_count res = Z.of_nat (length contradicted) ∧
    ∃ st, pass_inv (<["E1"%string := job]> ∅) 50 s st (abs r.2) ∧ lp_closed st = closed_count res.
Proof.
  intros s r. split; [discriminate|].
  apply (llm_pass_guarded (facts_state [job]) api [] 1 2 contradicted).
  - exact I.
  - discriminate.
Defined.

(** ** Behaviours the documentation does not expect *)

Definition created_and_active (i : list FactInput) (l : list Fact) : option (Z * Z * Z) :=
  let r := run (ingest_with_supersession (H := c_locale) (H0 := no_dates) api [] 1 2 3 i None
    mode_batch_create (Some 50)) (facts_state l) in
  match r.1 with
  | inr (res, _) => Some (inserted_count res, res_superseded_count res,
      Z.of_nat (length (List.filter (_effective_at_clause 50) (st_db r.2 facts))))
  | inl _ => None
  end.

(** Both facts name the same two entities and predicate, the scan returns the old one and
    the rule says it conflicts; its stored name puts it in another bucket, and both
    stay active. *)
Definition resolved_fact (name : string) : Fact :=
  mkFact 100 1 2 3 "Bob works at Acme" (Some name) (Some "works_at"%string) (Some "Acme"%string)
    "entity" "entity" 1 None (Some 10) (Some 20) (Some 0) None None None None.
Definition resolved_input (name : string) : FactInput :=
  mkFactInput (Some name) (Some "works_at"%string) (Some "Acme"%string) (Some "since 2024"%string) None None None
    (Some (EUuid 10)) (Some (EUuid 20)) BNone BNone.

Example drifted_name_coexists :
  active_match (H := c_locale) 1 2 (e_match_keys (entry_of (resolved_input "Robert") None 50)) 50
    (resolved_fact "Bob") = true ∧
  _candidate_conflicts (entry_of (resolved_input "Robert") None 50) (resolved_fact "Bob") = true ∧
  created_and_active [resolved_input "Robert"] [resolved_fact "Bob"] = Some (1, 0, 2) ∧
  created_and_active [resolved_input "Bob"] [resolved_fact "Bob"] = Some (1, 1, 1).
Proof. vm_compute. done. Qed.

(** Punctuation is no part of an identity, but the scan compares the raw texts. *)
Example punctuation_coexists :
  let old := stored_fact 100 "Alice" "works_at" "Acme, Inc." "old" None (Some 0) None in
  let new := plain_input "Alice" "works_at" "Acme Inc" (Some "new"%string) in
  e_name_identity (entry_of new None 50) = _name_identity_of_fact old ∧
  created_and_active [new] [old] = Some (1, 0, 2).
Proof. vm_compute. done. Qed.

(** A fact that starts in the future and a second one of the same name in its batch: the
    first cannot be closed now, and the whole batch fails. *)
Example future_fact_fails_batch :
  let later := mkFactInput (Some "Alice") (Some "works_at") (Some "Acme") (Some "from June") None None None None
    None (BDatetime 90) BNone in
  let p := ingest_with_supersession (H := c_locale) (H0 := no_dates) api [] 1 2 3
    [later; plain_input "Alice" "works_at" "Acme" (Some "already")]%string None mode_batch_create (Some 50) in
  (run p (facts_state [])).1 = inl range_error.
Proof. vm_compute. done. Qed.
