(* ===== verification/Cursor.v ===== *)
(** core/cursor.py, core/sorting.py, domain/value_objects/cursor.py, sort_spec.py and
    the keyset pagination of repositories/episode_repository.py: opaque cursors, the
    sort whitelist, and the pages of a session's or project's episodes. *)
From Stdlib Require Import DecimalString.
From S2P Require Import Prelude Errors Data Effects.
Open Scope Z_scope.

(** * Bytes: UTF-8 and base64 of the standard library *)

Definition byte (z : Z) : ascii := ascii_of_nat (Z.to_nat z).

(** [n] bytes, the most significant first. *)
Fixpoint bytes_of (n : nat) (z : Z) : string :=
  match n with O => EmptyString | S n => byte (z / 256 ^ Z.of_nat n mod 256) ::: bytes_of n z end.

Definition byte_val (c : ascii) : Z := Z.of_nat (nat_of_ascii c).

(** [str.encode()] for code points below 256. *)
Fixpoint utf8_encode (s : string) : string :=
  match s with
  | EmptyString => EmptyString
  | c ::: r =>
      if byte_val c <? 128 then c ::: utf8_encode r
      else byte (192 + byte_val c / 64) ::: byte (128 + byte_val c mod 64) ::: utf8_encode r
  end.

(** [bytes.decode()]; [None] is [UnicodeDecodeError], or a code point of 256 or more. *)
Fixpoint utf8_decode (s : string) : option string :=
  match s with
  | EmptyString => Some EmptyString
  | c ::: r =>
      if byte_val c <? 128 then option_map (String c) (utf8_decode r)
      else match r with
           | d ::: r2 =>
               if ((byte_val c =? 194) || (byte_val c =? 195)) && (128 <=? byte_val d) && (byte_val d <? 192)
               then option_map (String (byte ((byte_val c - 192) * 64 + (byte_val d - 128)))) (utf8_decode r2)
               else None
           | EmptyString => None
           end
  end.

(** The digits of [urlsafe_b64encode]. *)
Definition b64_char (v : Z) : ascii :=
  if v <? 26 then byte (65 + v) else if v <? 52 then byte (71 + v) else if v <? 62 then byte (v - 4)
  else if v =? 62 then "-"%char else "_"%char.

Fixpoint b64encode (s : string) : string :=
  match s with
  | EmptyString => EmptyString
  | a ::: EmptyString =>
      b64_char (byte_val a / 4) ::: b64_char (byte_val a mod 4 * 16) ::: "=="
  | a ::: b ::: EmptyString =>
      b64_char (byte_val a / 4) ::: b64_char (byte_val a mod 4 * 16 + byte_val b / 16)
      ::: b64_char (byte_val b mod 16 * 4) ::: "="
  | a ::: b ::: c ::: r =>
      b64_char (byte_val a / 4) ::: b64_char (byte_val a mod 4 * 16 + byte_val b / 16)
      ::: b64_char (byte_val b mod 16 * 4 + byte_val c / 64) ::: b64_char (byte_val c mod 64)
      ::: b64encode r
  end.

(** The value of a digit after [urlsafe_b64decode] has translated [-_] to [+/];
    [None] is a character [binascii.a2b_base64] skips. *)
Definition b64_val (c : ascii) : option Z :=
  let n := byte_val c in
  if (65 <=? n) && (n <=? 90) then Some (n - 65)
  else if (97 <=? n) && (n <=? 122) then Some (n - 71)
  else if (48 <=? n) && (n <=? 57) then Some (n + 4)
  else if Ascii.eqb c "-" || Ascii.eqb c "+" then Some 62
  else if Ascii.eqb c "_" || Ascii.eqb c "/" then Some 63
  else None.

Definition push_byte (z : Z) (r : option string) : option string := option_map (String (byte z)) r.

(** [binascii.a2b_base64]: [quad] digits of the current group are read, [left] are the
    bits not yet written; [None] is [binascii.Error], a [ValueError]. *)
Fixpoint a2b (quad : nat) (left : Z) (pads : nat) (s : string) : option string :=
  match s with
  | EmptyString => if (quad =? 0)%nat then Some EmptyString else None
  | c ::: r =>
      if Ascii.eqb c "=" then
        if (2 <=? quad)%nat then
          if (4 <=? quad + S pads)%nat then Some EmptyString else a2b quad left (S pads) r
        else a2b quad left pads r
      else match b64_val c with
           | None => a2b quad left pads r
           | Some v =>
               match quad with
               | O => a2b 1 v 0 r
               | 1%nat => push_byte (left * 4 + v / 16) (a2b 2 (v mod 16) 0 r)
               | 2%nat => push_byte (left * 16 + v / 4) (a2b 3 (v mod 4) 0 r)
               | _ => push_byte (left * 64 + v) (a2b 0 0 0 r)
               end
           end
  end.

Definition b64decode (s : string) : option string := a2b 0 0 0 s.

Definition is_pad (c : ascii) : bool := Ascii.eqb c "=".

(** * core/cursor.py *)

Definition CURSOR_VERSION : string := "v1".

Definition encode_cursor (value : string) : string := rstrip_by is_pad (b64encode (utf8_encode value)).

Fixpoint pad_text (n : nat) : string :=
  match n with O => EmptyString | S k => "="%char ::: pad_text k end.

Definition decode_cursor (cursor : string) : exn + string :=
  let padding := 4 - str_len cursor mod 4 in
  let cursor := if padding =? 4 then cursor else cursor +:+ pad_text (Z.to_nat padding) in
  match b64decode (utf8_encode cursor) with
  | None => inl (ValueError "Invalid cursor")
  | Some b =>
      match utf8_decode b with
      | None => inl (ValueError "Invalid cursor")
      | Some t => inr t
      end
  end.

Definition encode_versioned_cursor (payload : string) : string :=
  encode_cursor (CURSOR_VERSION +:+ ":" +:+ payload).

Definition cursor_expired : exn := AppExc CursorExpiredError "Invalid cursor".

Definition decode_versioned_cursor (cursor : string) : exn + string :=
  match decode_cursor cursor with
  | inl e => if is_value_error e then inl cursor_expired else inl e
  | inr raw =>
      let '(version, sep, payload) := partition ":" raw in
      if negb sep || negb (version =? CURSOR_VERSION)%string || (payload =? EmptyString)%string
      then inl cursor_expired else inr payload
  end.

(** [sort_by], [sort_dir], [value] and the tiebreak id of a page cursor. *)
Definition parse_page (raw : string) : option (string * string * string * uuid) :=
  let '(prefix, _, id_hex) := rpartition "|" raw in
  let '(sort_by, _, rest) := partition ":" prefix in
  let '(sort_dir, _, value) := partition ":" rest in
  if (sort_by =? EmptyString)%string || negb ((sort_dir =? "asc")%string || (sort_dir =? "desc")%string)
     || (id_hex =? EmptyString)%string
  then None
  else option_map (λ id, (sort_by, sort_dir, value, id)) (uuid_parse id_hex).

Definition decode_page_cursor (cursor : string) : exn + (string * string * string * uuid) :=
  match decode_cursor cursor with
  | inl e => if is_value_error e then inl (AppExc ValidationError "Invalid cursor") else inl e
  | inr raw =>
      match parse_page raw with
      | Some p => inr p
      | None => inl (AppExc ValidationError "Invalid cursor")
      end
  end.

(** * domain/value_objects/cursor.py *)

Record Cursor := mkCursor { sort_by : string; sort_dir : string; value : string; tiebreak_id : uuid }.

Definition matches (c : Cursor) (by_ dir : string) : bool :=
  (sort_by c =? by_)%string && (sort_dir c =? dir)%string.

Definition encode (c : Cursor) : string :=
  rstrip_by is_pad (b64encode (utf8_encode
    (sort_by c +:+ ":" +:+ sort_dir c +:+ ":" +:+ value c +:+ "|" +:+ uuid_hex (tiebreak_id c)))).

(** [decode_cursor] of the value object. *)
Definition decode_position (raw : string) : exn + Cursor :=
  let padding := 4 - str_len raw mod 4 in
  let padded := if padding =? 4 then raw else raw +:+ pad_text (Z.to_nat padding) in
  match b64decode (utf8_encode padded) with
  | None => inl (ValueError "Invalid cursor")
  | Some b =>
      match utf8_decode b with
      | None => inl (ValueError "Invalid cursor")
      | Some decoded =>
          let '(prefix, _, id_hex) := rpartition "|" decoded in
          let '(sort_by, _, rest) := partition ":" prefix in
          let '(sort_dir, _, value) := partition ":" rest in
          if (sort_by =? EmptyString)%string
             || negb ((sort_dir =? "asc")%string || (sort_dir =? "desc")%string)
             || (id_hex =? EmptyString)%string
          then inl (ValueError "Invalid cursor")
          else match uuid_parse id_hex with
               | Some id => inr (mkCursor sort_by sort_dir value id)
               | None => inl (ValueError "Invalid cursor")
               end
      end
  end.

(** * core/sorting.py *)

Record SortSpec := mkSortSpec { spec_by : option string; spec_dir : string }.

Definition effective (s : SortSpec) (default_sort default_dir : string) : string * string :=
  match spec_by s with None => (default_sort, default_dir) | Some b => (b, spec_dir s) end.

(** A column with its direction. *)
Definition clause : Type := string * bool.
Definition asc (c : string) : clause := (c, true).
Definition desc (c : string) : clause := (c, false).

Definition is_dir (d : string) : bool := (d =? "asc")%string || (d =? "desc")%string.

(** [sortable] maps keys to columns, by name. *)
Definition resolve_order_by (sortable : gmap string string) (id_column : string) (sort_by : option string)
    (sort_dir default_sort_by default_dir : string) : exn + list clause :=
  let key := default default_sort_by sort_by in
  match sortable !! key with
  | None => inl (AppExc ValidationError "Invalid sort_by")
  | Some column =>
      if negb (is_dir sort_dir) then inl (AppExc ValidationError "Invalid sort_dir")
      else if negb (bool_decide (is_Some (sortable !! default_sort_by))) then
        inl (AppExc ValidationError "Invalid default sort")
      else if negb (is_dir default_dir) then inl (AppExc ValidationError "Invalid default dir")
      else
        let effective_dir := match sort_by with Some _ => sort_dir | None => default_dir end in
        let primary := if (effective_dir =? "asc")%string then asc column else desc column in
        inr (primary :: if negb (column =? id_column)%string && negb (key =? "id")%string
                        then [asc id_column] else [])
  end.

(** * repositories/episode_repository.py: keyset pages *)

Definition episode_key_le (a b : Episode) : Prop :=
  ep_sequence_number a < ep_sequence_number b ∨
  ep_sequence_number a = ep_sequence_number b ∧ ep_id a ≤ ep_id b.

#[export] Instance episode_key_le_dec : RelDecision episode_key_le.
Proof. intros a b. unfold episode_key_le. apply _. Defined.

(** [ORDER BY sequence_number, id LIMIT n]. *)
Definition order_by_key (l : list Episode) : list Episode := merge_sort episode_key_le l.

(** Rows after a position. *)
Definition after (p : Z * uuid) (e : Episode) : bool :=
  ((ep_sequence_number e =? p.1) && (p.2 <? ep_id e)) || (p.1 <? ep_sequence_number e).

Definition _encode_cursor (sequence_number : Z) (episode_id : uuid) : string :=
  encode_versioned_cursor (str_of_Z sequence_number +:+ "|" +:+ uuid_hex episode_id).

Definition _decode_cursor (cursor : string) : exn + (Z * uuid) :=
  match decode_versioned_cursor cursor with
  | inl e => inl e
  | inr raw =>
      let '(seq_str, sep, id_hex) := partition "|" raw in
      if negb sep then inl cursor_expired
      else match py_int seq_str, uuid_parse id_hex with
           | Some n, Some id => inr (n, id)
           | _, _ => inl cursor_expired
           end
  end.

(** The rows a cursor leaves: all of them without one. *)
Definition cursor_filter (cursor : option string) : prog (Episode → bool) :=
  match cursor with
  | None => Ret (λ _, true)
  | Some c => match _decode_cursor c with inl e => Throw e | inr p => Ret (after p) end
  end.

(** The common body of [get_by_session_id] and [get_by_project_id]; a negative LIMIT is
    an error of PostgreSQL. *)
Definition get_page (scope : Episode → bool) (limit : Z) (cursor : option string) :
    prog (list Episode * option string) :=
  let effective_limit := Z.min limit 500 + 1 in
  keep ← cursor_filter cursor;
  if effective_limit <? 0 then Throw (DatabaseError "LIMIT must not be negative")
  else
    found ← call (Select episodes (λ e, scope e && negb (ep_is_deleted e) && keep e));
    let rows := take (Z.to_nat effective_limit) (order_by_key found) in
    let has_more := Z.of_nat (length rows) =? effective_limit in
    let page := if has_more then slice_to limit rows else rows in
    Ret (page, if has_more then
                 match last page with
                 | Some e => Some (_encode_cursor (ep_sequence_number e) (ep_id e))
                 | None => None
                 end
               else None).

Definition get_by_session_id (session_id : uuid) (limit : Z) (cursor : option string) :
    prog (list Episode * option string) :=
  get_page (λ e, ep_session_id e =? session_id) limit cursor.

Definition get_by_project_id (project_id : uuid) (limit : Z) (cursor : option string) :
    prog (list Episode * option string) :=
  get_page (λ e, ep_project_id e =? project_id) limit cursor.

(** A reader that follows the cursors; [None] when [fuel] pages were not enough. *)
Fixpoint all_pages (fetch : option string → prog (list Episode * option string)) (fuel : nat)
    (cursor : option string) : prog (option (list (list Episode))) :=
  match fuel with
  | O => Ret None
  | S fuel =>
      '(page, next) ← fetch cursor;
      match next with
      | None => Ret (Some [page])
      | Some _ => rest ← all_pages fetch fuel next; Ret (option_map (cons page) rest)
      end
  end.

Example cursor_demo : encode_cursor "v1:42" = "djE6NDI"%string ∧ decode_cursor "djE6NDI" = inr "v1:42"%string
  ∧ decode_versioned_cursor "NDI" = inl cursor_expired.
Proof. vm_compute. done. Qed.

(** * Round trips: lemmas *)

Lemma utf8_round_trip s : utf8_decode (utf8_encode s) = Some s.
Proof.
  induction s as [|c s IH]; [done|]. cbn [utf8_encode].
  assert (∀ r, utf8_decode (if byte_val c <? 128 then c ::: r
    else byte (192 + byte_val c / 64) ::: byte (128 + byte_val c mod 64) ::: r)
    = option_map (String c) (utf8_decode r)) as Hc.
  { intros r. destruct c as [[] [] [] [] [] [] [] []]; reflexivity. }
  specialize (Hc (utf8_encode s)). rewrite IH in Hc. by destruct (byte_val c <? 128).
Qed.

Definition ascii7 (c : ascii) : bool := byte_val c <? 128.

Lemma utf8_ascii s : str_exists (λ c, negb (ascii7 c)) s = false → utf8_encode s = s.
Proof.
  induction s as [|c s IH]; [done|]. cbn. intros [Hc%negb_false_iff Hs]%orb_false_elim.
  unfold ascii7 in Hc. by rewrite Hc, IH.
Qed.

Lemma digits_of v : 0 ≤ v < 64 → b64_val (b64_char v) = Some v ∧ is_pad (b64_char v) = false ∧
  ascii7 (b64_char v) = true.
Proof.
  intros H. assert (v ∈ seqZ 0 64) as Hin by (apply elem_of_seqZ; lia).
  assert (Forall (λ v, b64_val (b64_char v) = Some v ∧ is_pad (b64_char v) = false ∧
    ascii7 (b64_char v) = true) (seqZ 0 64)) as Hall.
  { apply (bool_decide_unpack _). vm_compute. exact I. }
  rewrite Forall_forall in Hall. by apply Hall.
Qed.

Lemma digit_pad v : 0 ≤ v < 64 → is_pad (b64_char v) = false.
Proof. apply digits_of. Qed.

Lemma digit_ascii v : 0 ≤ v < 64 → negb (ascii7 (b64_char v)) = false.
Proof. intros H. apply negb_false_iff. by apply digits_of. Qed.

Lemma byte_range c : 0 ≤ byte_val c < 256.
Proof. destruct c as [[] [] [] [] [] [] [] []]; vm_compute; split; congruence. Qed.

Lemma byte_byte_val c : byte (byte_val c) = c.
Proof. unfold byte, byte_val. by rewrite Nat2Z.id, ascii_nat_embedding. Qed.

(** Strings by groups of three. *)
Lemma three_ind (P : string → Prop) :
  P EmptyString → (∀ a, P (a ::: EmptyString)) → (∀ a b, P (a ::: b ::: EmptyString)) →
  (∀ a b c r, P r → P (a ::: b ::: c ::: r)) → ∀ s, P s.
Proof.
  intros H0 H1 H2 H3. fix go 1. intros [|a [|b [|c r]]]; [exact H0|apply H1|apply H2|].
  apply H3, go.
Qed.

(** The encoding is digits followed by at most two pads, to a multiple of four. *)
Fixpoint b64raw (s : string) : string :=
  match s with
  | EmptyString => EmptyString
  | a ::: EmptyString => b64_char (byte_val a / 4) ::: b64_char (byte_val a mod 4 * 16) ::: EmptyString
  | a ::: b ::: EmptyString =>
      b64_char (byte_val a / 4) ::: b64_char (byte_val a mod 4 * 16 + byte_val b / 16)
      ::: b64_char (byte_val b mod 16 * 4) ::: EmptyString
  | a ::: b ::: c ::: r =>
      b64_char (byte_val a / 4) ::: b64_char (byte_val a mod 4 * 16 + byte_val b / 16)
      ::: b64_char (byte_val b mod 16 * 4 + byte_val c / 64) ::: b64_char (byte_val c mod 64)
      ::: b64raw r
  end.

(** The four digits of a group are below 64. *)
Lemma group_range a b c :
  0 ≤ a < 256 → 0 ≤ b < 256 → 0 ≤ c < 256 →
  0 ≤ a / 4 < 64 ∧ 0 ≤ a mod 4 * 16 < 64 ∧ 0 ≤ a mod 4 * 16 + b / 16 < 64 ∧ 0 ≤ b mod 16 * 4 < 64 ∧
  0 ≤ b mod 16 * 4 + c / 64 < 64 ∧ 0 ≤ c mod 64 < 64.
Proof. intros. Z.div_mod_to_equations. lia. Qed.

Lemma b64raw_digits s :
  str_exists is_pad (b64raw s) = false ∧ str_exists (λ c, negb (ascii7 c)) (b64raw s) = false.
Proof.
  induction s as [|a|a b|a b c r [IH1 IH2]] using three_ind; [done| | |];
    (pose proof (group_range (byte_val a) 0 0 (byte_range a) ltac:(lia) ltac:(lia)) as Ga);
    try (pose proof (group_range (byte_val a) (byte_val b) 0 (byte_range a) (byte_range b) ltac:(lia)) as Gb);
    try (pose proof (group_range (byte_val a) (byte_val b) (byte_val c) (byte_range a) (byte_range b) (byte_range c)) as Gc);
    cbn [b64raw str_exists];
    rewrite ?IH1, ?IH2;
    rewrite !digit_pad, !digit_ascii by lia; done.
Qed.

Lemma b64encode_raw s :
  ∃ n, b64encode s = b64raw s +:+ pad_text n ∧ (n ≤ 2)%nat ∧ (str_len (b64raw s) + Z.of_nat n) mod 4 = 0.
Proof.
  induction s as [|a|a b|a b c r (n & E & Hn & Hm)] using three_ind.
  - exists 0%nat. split; [reflexivity|]. split; [lia|reflexivity].
  - exists 2%nat. split; [reflexivity|]. split; [lia|reflexivity].
  - exists 1%nat. split; [reflexivity|]. split; [lia|reflexivity].
  - exists n. cbn [b64encode b64raw]. rewrite E. split_and!; [done|done|].
    unfold str_len in *. cbn [String.length]. rewrite <- Hm.
    rewrite !Nat2Z.inj_succ. replace (_ + Z.of_nat n) with (Z.of_nat (String.length (b64raw r)) + Z.of_nat n + 1 * 4) by lia.
    by rewrite Z.mod_add by lia.
Qed.

Lemma rstrip_pads p s n : str_exists p s = false → (∀ c, is_pad c = true → p c = true) →
  rstrip_by p (s +:+ pad_text n) = s.
Proof.
  intros Hs Hp. assert (rstrip_by p (pad_text n) = EmptyString) as Hn.
  { induction n as [|n IH]; [done|]. cbn. rewrite IH. by rewrite Hp. }
  induction s as [|a s IH]; [done|]. cbn in Hs. apply orb_false_elim in Hs as [Ha Hs].
  rewrite str_app_cons. cbn [rstrip_by]. rewrite IH by done. destruct s; [by rewrite Ha|done].
Qed.

Lemma a2b_digit quad left pads v r :
  0 ≤ v < 64 →
  a2b quad left pads (b64_char v ::: r) =
  match quad with
  | O => a2b 1 v 0 r
  | 1%nat => push_byte (left * 4 + v / 16) (a2b 2 (v mod 16) 0 r)
  | 2%nat => push_byte (left * 16 + v / 4) (a2b 3 (v mod 4) 0 r)
  | _ => push_byte (left * 64 + v) (a2b 0 0 0 r)
  end.
Proof.
  intros H. destruct (digits_of v H) as (Hv & Hp & _). cbn [a2b]. unfold is_pad in Hp.
  by rewrite Hp, Hv.
Qed.

Lemma group_bytes a b c :
  0 ≤ a < 256 → 0 ≤ b < 256 → 0 ≤ c < 256 →
  a / 4 * 4 + (a mod 4 * 16 + b / 16) / 16 = a ∧
  (a mod 4 * 16 + b / 16) mod 16 * 16 + (b mod 16 * 4 + c / 64) / 4 = b ∧
  (b mod 16 * 4 + c / 64) mod 4 * 64 + c mod 64 = c.
Proof. intros. Z.div_mod_to_equations. lia. Qed.

Lemma a2b_encoded s : b64decode (b64encode s) = Some s.
Proof.
  unfold b64decode. induction s as [|a|a b|a b c r IH] using three_ind; [done| | |]; cbn [b64encode].
  - pose proof (byte_range a) as Ra.
    pose proof (group_range (byte_val a) 0 0 Ra ltac:(lia) ltac:(lia)) as (? & ? & _).
    pose proof (group_bytes (byte_val a) 0 0 Ra ltac:(lia) ltac:(lia)) as (E & _).
    rewrite Z.add_0_r in E. rewrite !a2b_digit by lia. cbn. by rewrite E, byte_byte_val.
  - pose proof (byte_range a) as Ra. pose proof (byte_range b) as Rb.
    pose proof (group_range (byte_val a) (byte_val b) 0 Ra Rb ltac:(lia)) as (? & _ & ? & ? & _).
    pose proof (group_bytes (byte_val a) (byte_val b) 0 Ra Rb ltac:(lia)) as (E1 & E2 & _).
    rewrite Z.add_0_r in E2. rewrite !a2b_digit by lia. cbn. by rewrite E1, E2, !byte_byte_val.
  - pose proof (byte_range a) as Ra. pose proof (byte_range b) as Rb. pose proof (byte_range c) as Rc.
    pose proof (group_range (byte_val a) (byte_val b) (byte_val c) Ra Rb Rc) as (? & _ & ? & _ & ? & ?).
    pose proof (group_bytes (byte_val a) (byte_val b) (byte_val c) Ra Rb Rc) as (E1 & E2 & E3).
    rewrite !a2b_digit by lia. rewrite IH. cbn. by rewrite E1, E2, E3, !byte_byte_val.
Qed.

Lemma repad s :
  (let c := rstrip_by is_pad (b64encode s) in
   let padding := 4 - str_len c mod 4 in
   if padding =? 4 then c else c +:+ pad_text (Z.to_nat padding)) = b64encode s.
Proof.
  destruct (b64encode_raw s) as (n & E & Hn & Hm). destruct (b64raw_digits s) as [Hp _].
  rewrite E, rstrip_pads by done. cbv zeta. set (len := str_len (b64raw s)) in *.
  assert (0 ≤ len) by (unfold len, str_len; lia).
  destruct (Z.eqb_spec (4 - len mod 4) 4) as [E4|E4].
  - assert (n = 0%nat) as -> by (Z.div_mod_to_equations; lia). cbn. by rewrite str_app_nil_r.
  - assert (4 - len mod 4 = Z.of_nat n) as -> by (Z.div_mod_to_equations; lia). by rewrite Nat2Z.id.
Qed.

Lemma pad_ascii n : str_exists (λ c, negb (ascii7 c)) (pad_text n) = false.
Proof. by induction n. Qed.

Lemma encoded_ascii s : utf8_encode (b64encode s) = b64encode s.
Proof.
  apply utf8_ascii. destruct (b64encode_raw s) as (n & -> & _). destruct (b64raw_digits s) as [_ Ha].
  by rewrite str_exists_app, Ha, pad_ascii.
Qed.

(** Whatever was encoded is read back. *)
Lemma decode_encode v : decode_cursor (encode_cursor v) = inr v.
Proof.
  unfold decode_cursor, encode_cursor. pose proof (repad (utf8_encode v)) as E. cbv zeta in E |- *.
  rewrite E, encoded_ascii, a2b_encoded, utf8_round_trip. done.
Qed.

Lemma versioned_round_trip payload :
  payload ≠ EmptyString → decode_versioned_cursor (encode_versioned_cursor payload) = inr payload.
Proof.
  intros Hp. unfold decode_versioned_cursor, encode_versioned_cursor. rewrite decode_encode.
  rewrite (str_app_cons ":"%char), str_app_nil_l, (partition_app ":"%char) by done. cbn.
  by destruct (String.eqb_spec payload EmptyString).
Qed.

Lemma decode_versioned_total c : (∃ p, decode_versioned_cursor c = inr p) ∨ decode_versioned_cursor c = inl cursor_expired.
Proof.
  unfold decode_versioned_cursor, decode_cursor.
  repeat case_match; simplify_eq; try (by left; eexists); by right.
Qed.

Lemma uuid_hex_nonempty u : uuid_hex u ≠ EmptyString.
Proof. unfold uuid_hex. cbn [hexn]. done. Qed.

Lemma uuid_hex_bar u : str_mem "|" (uuid_hex u) = false.
Proof. apply hexn_sep. repeat constructor. Qed.

(** A decimal numeral holds no bar. *)
Lemma int_text_bar z : str_mem "|" (str_of_Z z) = false.
Proof. apply str_of_Z_sep. repeat constructor. Qed.

Lemma episode_cursor_round_trip n id : uuid_wf id → _decode_cursor (_encode_cursor n id) = inr (n, id).
Proof.
  intros Hid. unfold _decode_cursor, _encode_cursor. rewrite (str_app_cons "|"%char), str_app_nil_l.
  rewrite versioned_round_trip.
  - rewrite (partition_app "|"%char) by apply int_text_bar. cbn [negb].
    by rewrite py_int_of_Z, uuid_parse_hex.
  - intros E. apply (f_equal (str_mem "|")) in E. rewrite str_mem_app in E. cbn in E.
    by rewrite orb_true_r in E.
Qed.

Lemma is_dir_colon d : is_dir d = true → str_mem ":" d = false.
Proof. unfold is_dir. by intros [->%String.eqb_eq| ->%String.eqb_eq]%orb_true_iff. Qed.

(** The head of a partition holds no separator. *)
Lemma partition_head c s : str_mem c (partition c s).1.1 = false.
Proof.
  induction s as [|a s IH]; [done|]. cbn [partition]. destruct (Ascii.eqb a c) eqn:E; [done|].
  destruct (partition c s) as [[h f] t]. cbn in *. by rewrite E.
Qed.

Lemma position_round_trip c :
  sort_by c ≠ EmptyString → str_mem ":" (sort_by c) = false → is_dir (sort_dir c) = true →
  uuid_wf (tiebreak_id c) → decode_position (encode c) = inr c.
Proof.
  intros Hby Hco Hdir Hid. unfold decode_position, encode. set (t := sort_by c +:+ _).
  pose proof (repad (utf8_encode t)) as E. cbv zeta in E |- *.
  rewrite E, encoded_ascii, a2b_encoded, utf8_round_trip. unfold t.
  rewrite !(str_app_cons ":"%char), !(str_app_cons "|"%char), !str_app_nil_l.
  assert (sort_by c +:+ (":"%char ::: (sort_dir c +:+ (":"%char ::: (value c +:+ ("|"%char ::: uuid_hex (tiebreak_id c))))))
    = (sort_by c +:+ (":"%char ::: (sort_dir c +:+ (":"%char ::: value c)))) +:+ ("|"%char ::: uuid_hex (tiebreak_id c)))
    as -> by (by rewrite !str_app_assoc, !str_app_cons, !str_app_assoc, !str_app_cons).
  rewrite (rpartition_app "|"%char) by apply uuid_hex_bar.
  rewrite (partition_app ":"%char) by done. rewrite (partition_app ":"%char) by (by apply is_dir_colon).
  destruct (String.eqb_spec (sort_by c) EmptyString); [done|]. unfold is_dir in Hdir. rewrite Hdir.
  destruct (String.eqb_spec (uuid_hex (tiebreak_id c)) EmptyString) as [E0|]; [by apply uuid_hex_nonempty in E0|].
  cbn [negb orb]. rewrite uuid_parse_hex by done. by destruct c.
Qed.

(** What the decoders do with any text: the same, and what they accept is a position a
    cursor can carry. *)
Lemma decoders_agree raw :
  match decode_position raw with
  | inr p => decode_page_cursor raw = inr (sort_by p, sort_dir p, value p, tiebreak_id p) ∧
             is_dir (sort_dir p) = true ∧ sort_by p ≠ EmptyString ∧ str_mem ":" (sort_by p) = false ∧
             uuid_wf (tiebreak_id p)
  | inl e => e = ValueError "Invalid cursor" ∧
             decode_page_cursor raw = inl (AppExc ValidationError "Invalid cursor")
  end.
Proof.
  unfold decode_position, decode_page_cursor, decode_cursor, parse_page. cbv zeta.
  destruct (b64decode _) as [b|]; [|done]. destruct (utf8_decode b) as [t|]; [|done].
  destruct (rpartition "|" t) as [[prefix ?] id_hex]. pose proof (partition_head ":" prefix) as Hc.
  destruct (partition ":" prefix) as [[by_ ?] rest], (partition ":" rest) as [[dir ?] v].
  destruct (String.eqb_spec by_ EmptyString) as [|Hb]; [done|]. cbn [orb].
  destruct ((dir =? "asc")%string || (dir =? "desc")%string) eqn:Ed; [|done]. cbn [negb orb].
  destruct (id_hex =? EmptyString)%string; [done|].
  destruct (uuid_parse id_hex) as [u|] eqn:Hu; [|done]. apply uuid_parse_wf in Hu. by split_and!.
Qed.

(** C15. A page cursor means what it was made from: the position comes back whole,
    whatever the value holds, from both decoders, and only for the sort it was made
    for. The two decoders agree on every text (of code points below 256): both read the
    same position in it or both refuse it. Text that no cursor was encoded to can be
    read (see [lenient_cursors]), but then its position is one a cursor carries: it
    has a sort key, a direction and an id, and the cursor made from it reads back as
    that position. *)
Theorem page_cursor_faithful (c : Cursor) :
  sort_by c ≠ EmptyString → str_mem ":" (sort_by c) = false → is_dir (sort_dir c) = true →
  uuid_wf (tiebreak_id c) →
  decode_position (encode c) = inr c ∧
  decode_page_cursor (encode c) = inr (sort_by c, sort_dir c, value c, tiebreak_id c) ∧
  (∀ by_ dir, matches c by_ dir = true ↔ by_ = sort_by c ∧ dir = sort_dir c) ∧
  ∀ raw, match decode_position raw with
         | inr p => decode_page_cursor raw = inr (sort_by p, sort_dir p, value p, tiebreak_id p) ∧
                    is_dir (sort_dir p) = true ∧ sort_by p ≠ EmptyString ∧ uuid_wf (tiebreak_id p) ∧
                    decode_position (encode p) = inr p
         | inl e => e = ValueError "Invalid cursor" ∧
                    decode_page_cursor raw = inl (AppExc ValidationError "Invalid cursor")
         end.
Proof.
  intros Hby Hco Hdir Hid. pose proof (position_round_trip c Hby Hco Hdir Hid) as Hc.
  split_and!; [done| | |].
  - pose proof (decoders_agree (encode c)) as Ha. rewrite Hc in Ha. apply Ha.
  - intros by_ dir. unfold matches. rewrite andb_true_iff, !String.eqb_eq. intuition congruence.
  - intros raw. pose proof (decoders_agree raw) as Ha. destruct (decode_position raw) as [e|p]; [done|].
    destruct Ha as (? & ? & ? & ? & ?). split_and!; try done. by apply position_round_trip.
Qed.

(** Both decoders skip characters outside the alphabet and do not miss the colon before
    the value. *)
Example lenient_cursors :
  let c := mkCursor "created_at" "asc" "" 255 in
  let short := encode_cursor ("created_at:asc|" +:+ uuid_hex 255) in
  decode_position short = inr c ∧ decode_position ("*" +:+ encode c) = inr c ∧
  short ≠ encode c.
Proof. vm_compute. done. Qed.

(** * Pages: lemmas *)

Definition key_lt (a b : Episode) : Prop := episode_key_le a b ∧ ep_id a ≠ ep_id b.

#[export] Instance episode_key_le_trans : Transitive episode_key_le.
Proof. intros a b c. unfold episode_key_le. lia. Qed.

#[export] Instance episode_key_le_total : Total episode_key_le.
Proof. intros a b. unfold episode_key_le. lia. Qed.

Lemma filter_sorted {A} (R : A → A → Prop) (p : A → bool) l :
  StronglySorted R l → StronglySorted R (List.filter p l).
Proof.
  induction 1 as [|x l Hs IH Hx]; [constructor|]. cbn. destruct (p x); [|done]. constructor; [done|].
  apply Forall_forall. intros y [Hy _]%filter_elem. rewrite Forall_forall in Hx. auto.
Qed.

Lemma filter_perm {A} (p : A → bool) l k : l ≡ₚ k → List.filter p l ≡ₚ List.filter p k.
Proof.
  induction 1 as [|x l k _ IH|x y l|l k m _ IH1 _ IH2]; cbn; [done| | |by rewrite IH1].
  - destruct (p x); [by rewrite IH|done].
  - destruct (p x), (p y); try done. apply Permutation_swap.
Qed.

Section pages.
Context (rows : list Episode) (scope : Episode → bool).
Context (ids_unique : NoDup (map ep_id rows)) (ids_wf : Forall (λ e, uuid_wf (ep_id e)) rows).

Definition live_rows : list Episode := List.filter (λ e, scope e && negb (ep_is_deleted e)) rows.
Definition listing : list Episode := order_by_key live_rows.

Lemma listing_elem e : e ∈ listing → e ∈ rows.
Proof.
  unfold listing, order_by_key. rewrite merge_sort_Permutation. by intros [? _]%filter_elem.
Qed.

Lemma listing_ids : NoDup (map ep_id listing).
Proof.
  unfold listing, order_by_key, live_rows.
  rewrite (Permutation_map ep_id (merge_sort_Permutation _ _)). by apply NoDup_map_filter.
Qed.

Lemma listing_sorted : StronglySorted episode_key_le listing.
Proof. apply (StronglySorted_merge_sort episode_key_le). Qed.

(** Filtering and ordering commute. *)
Lemma order_filter (p : Episode → bool) :
  order_by_key (List.filter (λ e, scope e && negb (ep_is_deleted e) && p e) rows) = List.filter p listing.
Proof.
  rewrite <- (filter_filter p (λ e, scope e && negb (ep_is_deleted e))). fold live_rows.
  apply (StronglySorted_unique_strong episode_key_le).
  - intros x y Hx Hy Hxy Hyx. apply (NoDup_map_inj ep_id rows); [done| | |].
    + unfold order_by_key in Hx. rewrite merge_sort_Permutation in Hx.
      apply filter_elem in Hx as [Hx _]. by apply filter_elem in Hx as [Hx _].
    + apply filter_elem in Hy as [Hy _]. by apply listing_elem.
    + unfold episode_key_le in *. lia.
  - apply (StronglySorted_merge_sort episode_key_le).
  - by apply filter_sorted, listing_sorted.
  - unfold order_by_key at 1. rewrite merge_sort_Permutation. apply filter_perm. symmetry.
    apply merge_sort_Permutation.
Qed.

(** What lies after the last row of a prefix is the rest. *)
Lemma filter_after l k e :
  StronglySorted episode_key_le l → NoDup (map ep_id l) → l !! k = Some e →
  List.filter (after (ep_sequence_number e, ep_id e)) l = drop (S k) l.
Proof.
  revert k; induction l as [|x l IH]; intros k Hs Hd Hk; [done|].
  apply StronglySorted_inv in Hs as [Hs Hx]. cbn in Hd. apply NoDup_cons in Hd as [Hn Hd].
  rewrite Forall_forall in Hx. destruct k as [|k].
  - injection Hk as ->. cbn [List.filter drop]. unfold after at 1. cbn.
    rewrite Z.ltb_irrefl, andb_false_r, Z.ltb_irrefl. cbn. rewrite drop_0. apply filter_all.
    intros y Hy. specialize (Hx y Hy). unfold after, episode_key_le in *. cbn.
    assert (ep_id y ≠ ep_id e) by (intros E; apply Hn; rewrite <- E; by apply list_elem_of_fmap_2).
    apply orb_true_iff. rewrite andb_true_iff. lia.
  - cbn [List.filter drop]. cbn in Hk. apply list_elem_of_lookup_2 in Hk as He. specialize (Hx e He).
    assert (ep_id x ≠ ep_id e) by (intros E; apply Hn; rewrite E; by apply list_elem_of_fmap_2).
    assert (after (ep_sequence_number e, ep_id e) x = false) as ->.
    { unfold after, episode_key_le in *. cbn. apply orb_false_iff. rewrite andb_false_iff. lia. }
    by apply IH.
Qed.

Definition enc (e : Episode) : string := _encode_cursor (ep_sequence_number e) (ep_id e).

(** A cursor that stands after the first [k] rows. *)
Definition at_offset (k : nat) (cursor : option string) : Prop :=
  (k = 0%nat ∧ cursor = None) ∨ ∃ j e, k = S j ∧ listing !! j = Some e ∧ cursor = Some (enc e).

Definition page_size (limit : Z) : nat := Z.to_nat (if limit <=? 500 then limit else 501).

Lemma run_page limit k cursor (s : state) :
  1 ≤ limit → st_db s episodes = rows → at_offset k cursor →
  run (get_page scope limit cursor) s =
    (inr (take (page_size limit) (drop k listing),
          if (Z.to_nat (Z.min limit 500 + 1) <=? length (drop k listing))%nat
          then option_map enc (listing !! (k + page_size limit - 1)%nat) else None), s).
Proof.
  intros Hl Hrows Hk. unfold get_page.
  assert (∃ keep, run (A := row episodes → bool) (cursor_filter cursor) s = (inr keep, s) ∧ List.filter keep listing = drop k listing)
    as (keep & E & Hkeep).
  { destruct Hk as [[-> ->]|(j & e & -> & He & ->)].
    - exists (λ _, true). split; [done|]. rewrite drop_0. by apply filter_all.
    - exists (after (ep_sequence_number e, ep_id e)). unfold cursor_filter, enc. rewrite episode_cursor_round_trip.
      + split; [done|]. by apply filter_after; [apply listing_sorted|apply listing_ids|].
      + rewrite Forall_forall in ids_wf. by eapply ids_wf, listing_elem, list_elem_of_lookup_2. }
  rewrite run_bind, E. destruct (Z.ltb_spec (Z.min limit 500 + 1) 0); [lia|].
  rewrite (run_select episodes), Hrows. cbn [run].
  rewrite order_filter, (Hkeep : List.filter (A := Episode) keep listing = _). set (rest := drop k listing). set (n := Z.to_nat (Z.min limit 500 + 1)).
  assert (n = S (Z.to_nat (Z.min limit 500))) as Hn by (unfold n; lia).
  assert (page_size limit <= n)%nat as Hp by (unfold page_size, n; destruct (Z.leb_spec limit 500); lia).
  assert (1 <= page_size limit)%nat as Hp1 by (unfold page_size; destruct (Z.leb_spec limit 500); lia).
  rewrite length_take. destruct (Nat.leb_spec n (length rest)) as [Hm|Hm].
  - rewrite (proj2 (Z.eqb_eq _ _)) by lia. unfold slice_to. destruct (Z.ltb_spec limit 0); [lia|].
    assert (take (Z.to_nat limit) (take n rest) = take (page_size limit) rest) as ->.
    { rewrite take_take. f_equal. unfold page_size, n. destruct (Z.leb_spec limit 500); lia. }
    assert (last (take (page_size limit) rest) = listing !! (k + page_size limit - 1)%nat) as ->.
    { rewrite last_lookup, length_take. replace (page_size limit `min` length rest)%nat with (page_size limit) by lia.
      rewrite lookup_take_lt by lia. unfold rest. rewrite lookup_drop. f_equal. lia. }
    by destruct (listing !! _).
  - rewrite (proj2 (Z.eqb_neq _ _)) by lia. rewrite !take_ge; [done| |lia].
    revert Hm. unfold page_size. destruct (Z.leb_spec limit 500); lia.
Qed.

(** Pages fetched until there is no next cursor. *)
Lemma run_all_pages limit fuel k cursor (s : state) :
  1 ≤ limit → st_db s episodes = rows → at_offset k cursor → (length (drop k listing) < fuel)%nat →
  ∃ pages, run (all_pages (get_page scope limit) fuel cursor) s = (inr (Some pages), s) ∧
    concat pages = drop k listing ∧ Forall (λ p, (length p <= page_size limit)%nat) pages.
Proof.
  intros Hl Hrows. assert (1 <= page_size limit)%nat as Hp1 by (unfold page_size; destruct (Z.leb_spec limit 500); lia).
  revert k cursor; induction fuel as [|fuel IH]; intros k cursor Hk Hf; [lia|]. cbn [all_pages].
  rewrite run_bind, (run_page limit k cursor) by done.
  destruct (Nat.leb_spec (Z.to_nat (Z.min limit 500 + 1)) (length (drop k listing))) as [Hm|Hm].
  - assert (page_size limit <= length (drop k listing))%nat as Hle.
    { revert Hm. unfold page_size. destruct (Z.leb_spec limit 500); lia. }
    rewrite length_drop in Hle.
    destruct (lookup_lt_is_Some_2 listing (k + page_size limit - 1)) as [e He]; [lia|]. rewrite He. cbn [option_map].
    destruct (IH (k + page_size limit)%nat (Some (enc e))) as (pages & E & Hc & Hlen).
    + right. exists (k + page_size limit - 1)%nat, e. split_and!; [lia|done|done].
    + rewrite length_drop in *. lia.
    + exists (take (page_size limit) (drop k listing) :: pages). rewrite run_bind, E. split; [done|]. cbn. split.
      * rewrite Hc, <- drop_drop. apply take_drop.
      * constructor; [|done]. rewrite length_take. lia.
  - exists [take (page_size limit) (drop k listing)]. split; [done|]. cbn. rewrite app_nil_r. split.
    + apply take_ge. revert Hm. unfold page_size. destruct (Z.leb_spec limit 500); lia.
    + constructor; [|done]. rewrite length_take. lia.
Qed.
End pages.

(** C16. Following [next_cursor] from the first page reads every live episode of the
    session exactly once, in sequence order, in pages of the size asked for, ends,
    and writes nothing; an answer with no next cursor is the end of the list. *)
Theorem episode_pages_complete (s : state) (session_id : uuid) (limit : Z) (fuel : nat) :
  let live := List.filter (λ e, (ep_session_id e =? session_id) && negb (ep_is_deleted e)) (st_db s episodes) in
  1 ≤ limit →
  NoDup (map ep_id (st_db s episodes)) → Forall (λ e, uuid_wf (ep_id e)) (st_db s episodes) →
  (length live < fuel)%nat →
  ∃ pages, run (all_pages (get_by_session_id session_id limit) fuel None) s = (inr (Some pages), s) ∧
    concat pages ≡ₚ live ∧ StronglySorted episode_key_le (concat pages) ∧
    Forall (λ p, (length p <= page_size limit)%nat) pages.
Proof.
  intros live Hl Hd Hw Hf.
  destruct (run_all_pages (st_db s episodes) (λ e, ep_session_id e =? session_id) Hd Hw limit fuel 0 None s)
    as (pages & E & Hc & Hlen); [done|done|by left| |].
  - rewrite drop_0. unfold listing, order_by_key. by rewrite merge_sort_Permutation.
  - exists pages. rewrite drop_0 in Hc. split; [exact E|]. rewrite Hc. split_and!; [| |done].
    + apply merge_sort_Permutation.
    + apply listing_sorted.
Qed.

(** A page asked for with a limit above 500 holds 501 rows, although the docstring
    says the limit is capped at 500. *)
Definition many_episodes : state :=
  set_db (set_table episodes (map (λ i, mkEpisode (1000 - i) 1 2 3 i 0 false 9 "user" "" (JObj []) 0) (seqZ 0 600)) (st_db empty_state))
    empty_state.

Example page_beyond_cap :
  match (run (get_by_session_id 3 1000 None) many_episodes).1 with
  | inr (page, next) => length page = 501%nat ∧ option_map _decode_cursor next = Some (inr (500, 500))
  | inl _ => False
  end.
Proof. vm_compute. done. Qed.

(** ** Witnesses *)

Definition one_position : Cursor := mkCursor "created_at" "desc" "2024-01-02T03:04:05|+00:00" 77.

Lemma page_cursor_faithful_witness :
  let c := one_position in
  decode_position (encode c) = inr c ∧
  decode_page_cursor (encode c) = inr (sort_by c, sort_dir c, value c, tiebreak_id c) ∧
  (∀ by_ dir, matches c by_ dir = true ↔ by_ = sort_by c ∧ dir = sort_dir c) ∧
  ∀ raw, match decode_position raw with
         | inr p => decode_page_cursor raw = inr (sort_by p, sort_dir p, value p, tiebreak_id p) ∧
                    is_dir (sort_dir p) = true ∧ sort_by p ≠ EmptyString ∧ uuid_wf (tiebreak_id p) ∧
                    decode_position (encode p) = inr p
         | inl e => e = ValueError "Invalid cursor" ∧
                    decode_page_cursor raw = inl (AppExc ValidationError "Invalid cursor")
         end.
Proof.
  intros c. apply (page_cursor_faithful c); [discriminate|reflexivity|reflexivity|].
  split; [discriminate|reflexivity].
Defined.

Lemma episode_pages_complete_witness :
  let live := List.filter (λ e, (ep_session_id e =? 3) && negb (ep_is_deleted e)) (st_db many_episodes episodes) in
  ∃ pages, run (all_pages (get_by_session_id 3 250) 601 None) many_episodes = (inr (Some pages), many_episodes) ∧
    concat pages ≡ₚ live ∧ StronglySorted episode_key_le (concat pages) ∧
    Forall (λ p, (length p <= page_size 250)%nat) pages.
Proof.
  apply (episode_pages_complete many_episodes 3 250 601).
  - discriminate.
  - apply (bool_decide_unpack _). vm_compute. exact I.
  - apply (bool_decide_unpack _). vm_compute. exact I.
  - apply (bool_decide_unpack _). vm_compute. exact I.
Defined.
