(* ===== verification/Secrets.v ===== *)
(** What the encryption of webhook secrets promises its clients: [TransitManager], the
    two operations the webhook service calls, and [TransitLaws], what they answer
    whatever else runs at the same time. [OpenBao] discharges the laws for its client,
    [Webhooks] is proved against them. *)
From S2P Require Import Prelude Errors Data Effects Concurrent.
Open Scope Z_scope.

(** Time passes and the services reached over HTTP remember something else. *)
Definition waited (us : Z) (r : remote) (s : state) : state :=
  mkState (st_clock s + us) (st_redis s) (st_db s) (st_committed s) (st_tenant s) (st_entropy s) (st_drawn s) (st_out s) r.

Record TransitManager := mkTransitManager {
  tm_encrypt : uuid → string → prog string;
  tm_decrypt : uuid → string → prog string;
}.

(** [_is_transit_ciphertext] of services/webhook_service.py, which the ciphertexts meet. *)
Definition _is_transit_ciphertext (value : string) : bool := str_prefix "vault:v" value.

(** A relation on states that lets the clock and the remote services move on as [later]
    allows, and lets them do nothing else. *)
Class Outside (later : remote → remote → Prop) (R : state → state → Prop) := {
  outside_step s d r : 0 ≤ d → later (st_remote s) r → R s (waited d r s);
  outside_later s s' : R s s' → later (st_remote s) (st_remote s');
}.

(** [opens r i c x]: in [r], [c] decrypts to [x] for the endpoint [i]. *)
Class TransitLaws (t : TransitManager) := {
  later : remote → remote → Prop;
  later_preorder :: PreOrder later;
  opens : remote → uuid → string → string → Prop;
  opens_later r r' i c x : later r r' → opens r i c x → opens r' i c x;
  opens_once r i c x y : opens r i c x → opens r i c y → x = y;
  opens_ciphertext r i c x : opens r i c x → _is_transit_ciphertext c = true;
  encrypts (R : state → state → Prop) `{!PreOrder R} `{!Outside later R} s i x :
    rely R s (tm_encrypt t i x) (λ c s', opens (st_remote s') i c x);
  decrypts (R : state → state → Prop) `{!PreOrder R} `{!Outside later R} s i c x :
    opens (st_remote s) i c x → rely R s (tm_decrypt t i c) (λ y _, y = x);
  encrypt_harmless i x : harmless (tm_encrypt t i x);
  decrypt_harmless i c : harmless (tm_decrypt t i c);
}.
