(* ===== verification/OpenBao.v ===== *)
(** core/openbao.py and core/transit.py: the client of the OpenBao server, its retries,
    the KV, namespace and Transit operations, and the typed encryption on top. The
    server is a parameter: what it answers to a request, and what it remembers. *)
From S2P Require Import Prelude Errors Data Effects Concurrent Secrets Json Cursor.
Open Scope Z_scope.

(** * HTTP *)

Record HttpRequest := mkHttpRequest {
  hq_method : string;
  hq_path : string;
  hq_token : option json;
  hq_namespace : option string;
  hq_json : option json;
}.

(** [hs_json] is what [resp.json()] returns; [None] when it raises. *)
Record HttpResponse := mkHttpResponse {
  hs_status : Z;
  hs_json : option json;
  hs_reason : string;
}.

Class HttpServer := { http_request : HttpRequest → remote → (exn + HttpResponse) * remote }.

(** * The client *)

(** The constructor's arguments; the root token is what the bootstrap file holds. *)
Record OpenBaoClient := mkOpenBaoClient {
  bo_role_id : string;
  bo_secret_id : string;
  bo_namespace : string;
  bo_root_token : option string;
}.

(** What the client object changes. *)
Record auth := mkAuth { _client_token : option json; _token_expires_at : option Z }.

(** A method: it may raise, and what it changed of the client stays changed. *)
Definition bao (A : Type) : Type := auth → prog ((exn + A) * auth).

#[export] Instance bao_ret : MRet bao := λ A a c, Ret (inr a, c).
#[export] Instance bao_bind : MBind bao :=
  λ A B f p c, p c ≫= λ r, match r.1 with inl e => Ret (inl e, r.2) | inr a => f a r.2 end.

Definition bao_raise {A} (e : exn) : bao A := λ c, Ret (inl e, c).
Definition bao_lift {A} (r : exn + A) : bao A := λ c, Ret (r, c).
Definition bao_except {A} (p : bao A) (sel : exn → bool) (h : exn → bao A) : bao A :=
  λ c, p c ≫= λ r, match r.1 with inl e => if sel e then h e r.2 else Ret r | inr _ => Ret r end.
Definition bao_prog {A} (p : prog A) : bao A :=
  λ c, r ← catch (a ← p; Ret (inr a)) (λ e, Ret (inl e)); Ret (r, c).
Definition bao_get : bao auth := λ c, Ret (inr c, c).
Definition bao_set (c : auth) : bao unit := λ _, Ret (inr tt, c).

Definition MAX_RETRIES : nat := 3.
Definition KV_MOUNT : string := "config".
Definition ORG_NAMESPACE_PREFIX : string := "org_".
Definition _KV_UPGRADE_TRANSIENT_MARKER : string := "upgrading from non-versioned to versioned data".

(** [needle in s]. *)
Fixpoint str_contains (needle s : string) : bool :=
  str_prefix needle s || match s with EmptyString => false | _ ::: r => str_contains needle r end.

(** [str(e)] of the client's exceptions. *)
Definition bao_message (e : exn) : string := match e with OpenBaoExc _ m => m | _ => EmptyString end.
Definition is_openbao (e : exn) : bool := match e with OpenBaoExc _ _ => true | _ => false end.
Definition is_not_found (e : exn) : bool :=
  match e with OpenBaoExc OpenBaoSecretNotFoundError _ => true | _ => false end.
Definition is_bao_auth (e : exn) : bool := match e with OpenBaoExc OpenBaoAuthError _ => true | _ => false end.

Definition _is_kv_upgrade_transient (e : exn) : bool :=
  str_contains _KV_UPGRADE_TRANSIENT_MARKER (str_lower (bao_message e)).

(** [except httpx.ConnectError] and [except httpx.TimeoutException]. *)
Definition is_unreachable (e : exn) : bool :=
  match e with HttpxError ConnectError | HttpxError TimeoutException => true | _ => false end.

Fixpoint join_texts (sep : string) (l : list string) : string :=
  match l with [] => EmptyString | [s] => s | s :: r => s +:+ sep +:+ join_texts sep r end.

Fixpoint chars_of (s : string) : list string :=
  match s with EmptyString => [] | c ::: r => (c ::: EmptyString) :: chars_of r end.

(** ["; ".join(errors)]; [None] is [TypeError]. *)
Definition joined (errors : json) : option string :=
  match errors with
  | JStr s => Some (join_texts "; " (chars_of s))
  | JList l => option_map (join_texts "; ") (mapM (λ j, match j with JStr s => Some s | _ => None end) l)
  | JObj l => Some (join_texts "; " (map fst l))
  | _ => None
  end.

(** The message of an error response. *)
Definition error_message (resp : HttpResponse) : string :=
  let fallback := if (hs_reason resp =? "")%string then str_of_Z (hs_status resp) else hs_reason resp in
  match hs_json resp with
  | Some (JObj l) =>
      let errors := default (JList []) (obj_get "errors" l) in
      if truthy errors then default fallback (joined errors) else hs_reason resp
  | _ => fallback
  end.

Definition _raise_on_error (resp : HttpResponse) (path : string) : exn + unit :=
  let st := hs_status resp in
  let text := "[" +:+ path +:+ "] " in
  let msg := error_message resp in
  if (st =? 200) || (st =? 204) then inr tt
  else inl
    (if (st =? 401) || (st =? 403) then OpenBaoExc OpenBaoAuthError (text +:+ msg)
     else if st =? 404 then OpenBaoExc OpenBaoSecretNotFoundError (text +:+ msg)
     else if st =? 412 then OpenBaoExc OpenBaoNamespaceError (text +:+ msg)
     else if st =? 429 then OpenBaoExc OpenBaoRateLimitError (text +:+ msg)
     else if (500 <=? st) && (st <? 600) then
       OpenBaoExc OpenBaoConnectionError (text +:+ "Server error (" +:+ str_of_Z st +:+ "): " +:+ msg)
     else OpenBaoExc OpenBaoError (text +:+ "HTTP " +:+ str_of_Z st +:+ ": " +:+ msg)).

(** [body[key]] of a decoded body; without a body [resp.json()] raises. *)
Definition body_item (key : string) (j : json) : exn + json :=
  match j with
  | JObj l => match obj_get key l with Some v => inr v | None => inl (KeyError key) end
  | _ => inl (TypeError "indices must be integers or slices, not str")
  end.
Definition json_body (resp : HttpResponse) : exn + json :=
  match hs_json resp with Some j => inr j | None => inl (ValueError "Expecting value") end.
Definition json_text (j : json) : exn + string :=
  match j with JStr s => inr s | _ => inl (TypeError "expected str") end.

(** What [httpx] raises when the server cannot be reached, as the client reports it;
    the server's address and the cause are left out of the text. *)
Definition unreachable {A} (e : exn) : bao A :=
  bao_raise (OpenBaoExc OpenBaoConnectionError
    match e with HttpxError TimeoutException => "Timeout connecting to OpenBao" | _ => "Cannot connect to OpenBao" end).

Section client.
Context `{HttpServer} (self : OpenBaoClient).

Definition http (req : HttpRequest) : bao HttpResponse :=
  bao_except (bao_prog (call (Remote (http_request req)))) is_unreachable unreachable.

(** [lease_duration * 0.8] seconds, in microseconds; the API documents an integer. *)
Definition lease_us (lease : json) : exn + Z :=
  match lease with JInt z => inr (z * 800000) | _ => inl (TypeError "unsupported operand") end.

Definition malformed_login (e : exn) : bool :=
  match e with KeyError _ | TypeError _ | ValueError _ => true | _ => false end.

Definition login_request : HttpRequest :=
  mkHttpRequest "POST" "/v1/auth/approle/login" None
    (if (bo_namespace self =? "")%string then None else Some (bo_namespace self))
    (Some (JObj [("role_id", JStr (bo_role_id self)); ("secret_id", JStr (bo_secret_id self))]%string)).

(** The token and the lease of a login response; the token is kept even when the lease
    cannot be used. *)
Definition accept_login (resp : HttpResponse) : bao unit :=
  body ← bao_lift (json_body resp);
  a ← bao_lift (body_item "auth" body);
  token ← bao_lift (body_item "client_token" a);
  c ← bao_get;
  _ ← bao_set (mkAuth (Some token) (_token_expires_at c));
  let lease := match a with JObj l => default (JInt 3600) (obj_get "lease_duration" l) | _ => JInt 3600 end in
  now ← bao_prog (call Now);
  us ← bao_lift (lease_us lease);
  bao_set (mkAuth (Some token) (Some (now + us))).

Definition _authenticate : bao unit :=
  resp ← http login_request;
  if negb (hs_status resp =? 200) then
    bao_raise (OpenBaoExc OpenBaoAuthError ("[auth/approle/login] AppRole login failed: " +:+ error_message resp))
  else
    bao_except (accept_login resp) malformed_login
      (λ _, bao_raise (OpenBaoExc OpenBaoAuthError "[auth/approle/login] Response missing 'auth.client_token'")).

Definition _ensure_auth : bao unit :=
  c ← bao_get;
  match _token_expires_at c with
  | Some t => now ← bao_prog (call Now); if t <=? now then _authenticate else mret tt
  | None => mret tt
  end.

(** [_headers]: the token, and the namespace unless it is empty. *)
Definition _token : bao json :=
  c ← bao_get;
  match _client_token c with
  | Some t => mret t
  | None => bao_raise (OpenBaoExc OpenBaoAuthError "Not authenticated to OpenBao")
  end.
Definition namespace_header (namespace : option string) : option string :=
  match namespace with Some n => if (n =? "")%string then None else Some n | None => None end.

(** A response whose error is worth another attempt. *)
Definition is_transient (e : exn) : bool :=
  match e with
  | OpenBaoExc OpenBaoRateLimitError _ => true
  | OpenBaoExc _ _ => _is_kv_upgrade_transient e
  | _ => false
  end.

Definition seconds_us (n : Z) : Z := n * us_per_s.

(** The [for] loop of [_request], from [attempt] on. *)
Fixpoint request_loop (left : nat) (attempt : Z) (method path : string) (namespace : option string)
    (body : option json) : bao HttpResponse :=
  token ← _token;
  resp ← http (mkHttpRequest method ("/v1/" +:+ lstrip_by (λ c, Ascii.eqb c "/") path) (Some token)
                 (namespace_header namespace) body);
  match _raise_on_error resp path with
  | inr _ => mret resp
  | inl e =>
      match left with
      | S n =>
          if is_transient e then
            _ ← bao_prog (call (Sleep (seconds_us (2 ^ attempt))));
            request_loop n (attempt + 1) method path namespace body
          else bao_raise e
      | O => bao_raise e
      end
  end.

Definition _request (method path : string) (namespace : option string) (body : option json) : bao HttpResponse :=
  _ ← _ensure_auth;
  request_loop (MAX_RETRIES - 1) 0 method path namespace body.

(** ** KV v2 *)

Definition kv_data (resp : HttpResponse) : exn + json :=
  match json_body resp with
  | inl e => inl e
  | inr body => match body_item "data" body with inl e => inl e | inr d => body_item "data" d end
  end.

(** [body["data"].get("metadata", {}).get("version", 0)]. *)
Definition kv_version (resp : HttpResponse) : json :=
  match hs_json resp with
  | Some (JObj l) =>
      match obj_get "data" l with
      | Some (JObj d) =>
          match obj_get "metadata" d with Some (JObj m) => default (JInt 0) (obj_get "version" m) | _ => JInt 0 end
      | _ => JInt 0
      end
  | _ => JInt 0
  end.

(** [_kv_read] with [include_meta]; a [metadata] that is no dict is not modelled. *)
Definition kv_read_meta (path : string) (namespace : option string) : bao (json * json) :=
  resp ← _request "GET" path namespace None;
  data ← bao_lift (kv_data resp);
  mret (data, kv_version resp).

Definition _kv_read (path : string) (namespace : option string) : bao json :=
  resp ← _request "GET" path namespace None; bao_lift (kv_data resp).

Definition _kv_write (path : string) (data : json) (namespace : option string) (cas_version : option json) : bao unit :=
  let options := match cas_version with Some v => [("cas"%string, v)] | None => [] end in
  _ ← _request "POST" path namespace (Some (JObj [("data", data); ("options", JObj options)]%string));
  mret tt.

Definition _kv_list (path : string) (namespace : option string) : bao json :=
  resp ← _request "LIST" path namespace None;
  body ← bao_lift (json_body resp);
  d ← bao_lift (body_item "data" body);
  bao_lift (body_item "keys" d).

Definition _kv_delete (path : string) (namespace : option string) : bao unit :=
  _ ← _request "DELETE" path namespace None; mret tt.

(** ** Namespaces and mounts *)

(** A POST outside [_request]: one attempt, and 400 means that it was there already. *)
Definition idempotent_post (path : string) (token : option json) (namespace : option string) (body : option json) : bao unit :=
  resp ← http (mkHttpRequest "POST" ("/v1/" +:+ path) token (namespace_header namespace) body);
  if hs_status resp =? 400 then mret tt else bao_lift (_raise_on_error resp path).

Definition create_namespace (name parent : string) : bao unit :=
  c ← bao_get;
  let token := match bo_root_token self with
               | Some t => if (t =? "")%string then _client_token c else Some (JStr t)
               | None => _client_token c
               end in
  idempotent_post ("sys/namespaces/" +:+ name)
    (match token with Some j => if truthy j then Some j else None | None => None end) (Some parent) None.

Definition delete_namespace (name : string) : bao unit :=
  _ ← _request "DELETE" ("sys/namespaces/" +:+ name) None None; mret tt.

Definition enable_kv_v2 (mount_path : string) (namespace : option string) (use_root_token : bool) : bao unit :=
  token ← match bo_root_token self with
          | Some t => if use_root_token && negb (t =? "")%string then mret (JStr t) else _token
          | None => _token
          end;
  idempotent_post ("sys/mounts/" +:+ mount_path) (Some token) namespace (Some (JObj [("type", JStr "kv-v2")]%string)).

Definition enable_transit_engine (mount_path : string) : bao unit :=
  token ← _token;
  idempotent_post ("sys/mounts/" +:+ mount_path) (Some token) None (Some (JObj [("type", JStr "transit")]%string)).

(** ** Configuration *)

Definition system_path : string := KV_MOUNT +:+ "/data/system".

Definition read_system_config : bao json :=
  bao_except (_kv_read system_path (Some (bo_namespace self))) is_not_found (λ _, mret (JObj [])).

(** [existing.update(config)]: only a dict has [update] with a dict. *)
Definition write_system_config (config : list (string * json)) : bao unit :=
  current ← bao_except (kv_read_meta system_path (Some (bo_namespace self))) is_not_found
              (λ _, mret (JObj [], JInt 0));
  existing ← bao_lift match current.1 with JObj l => inr l | _ => inl (TypeError "no update") end;
  _kv_write system_path (JObj (obj_update config existing)) (Some (bo_namespace self)) (Some current.2).

Definition _org_ns (o : uuid) (parent : string) : string := parent +:+ ORG_NAMESPACE_PREFIX +:+ uuid_str o +:+ "/".

(** The keys [read_org_config] reads, one after the other. *)
Fixpoint read_keys (ns : string) (keys : list json) : bao (list (string * json)) :=
  match keys with
  | [] => mret []
  | k :: r =>
      key ← bao_lift (json_text k);
      found ← bao_except (d ← _kv_read (KV_MOUNT +:+ "/data/" +:+ key) (Some ns);
                          match d with
                          | JObj l => mret [(key, default JNull (obj_get "value" l))]
                          | _ => bao_raise (TypeError "no get")
                          end) is_not_found (λ _, mret []);
      rest ← read_keys ns r;
      mret (found ++ rest)
  end.

Definition read_org_config (o : uuid) : bao (list (string * json)) :=
  let ns := _org_ns o (bo_namespace self) in
  keys ← bao_except (k ← _kv_list (KV_MOUNT +:+ "/metadata/") (Some ns); mret (Some k)) is_not_found (λ _, mret None);
  match keys with
  | None => mret []
  | Some (JList l) => read_keys ns l
  | Some _ => bao_raise (TypeError "keys")
  end.

Definition create_org_namespace (o : uuid) : bao unit :=
  _ ← create_namespace (ORG_NAMESPACE_PREFIX +:+ uuid_str o) "system/";
  enable_kv_v2 KV_MOUNT (Some (_org_ns o (bo_namespace self))) true.

Fixpoint write_keys (ns : string) (config : list (string * json)) : bao unit :=
  match config with
  | [] => mret tt
  | (key, v) :: r =>
      let path := KV_MOUNT +:+ "/data/" +:+ key in
      _ ← match v with
          | JNull => _kv_delete path (Some ns)
          | _ => _kv_write path (JObj [("value"%string, v)]) (Some ns) None
          end;
      write_keys ns r
  end.

Definition write_org_config (o : uuid) (config : list (string * json)) : bao unit :=
  _ ← create_org_namespace o; write_keys (_org_ns o (bo_namespace self)) config.

Definition delete_org_namespace (o : uuid) : bao unit := delete_namespace (ORG_NAMESPACE_PREFIX +:+ uuid_str o).

(** ** Transit *)

Definition b64_std : ascii → ascii := λ c,
  if Ascii.eqb c "-" then "+"%char else if Ascii.eqb c "_" then "/"%char else c.

(** [base64.b64encode(text.encode()).decode()] and its inverse, which skips characters
    outside the alphabet. *)
Definition b64_text (s : string) : string := str_map b64_std (b64encode (utf8_encode s)).
Definition b64_read (s : string) : exn + string :=
  match b64decode (str_filter (λ c, negb (Ascii.eqb c "-") && negb (Ascii.eqb c "_")) s) with
  | Some b => match utf8_decode b with Some t => inr t | None => inl (ValueError "utf-8") end
  | None => inl (ValueError "Incorrect padding")
  end.

Definition with_context (context : option string) (payload : list (string * json)) : json :=
  JObj (payload ++ match context with
                   | Some c => if (c =? "")%string then [] else [("context"%string, JStr (b64_text c))]
                   | None => []
                   end).

(** [body["data"][key]] of a Transit answer, a text. *)
Definition transit_field (key : string) (resp : HttpResponse) : exn + string :=
  match json_body resp with
  | inl e => inl e
  | inr body =>
      match body_item "data" body with
      | inl e => inl e
      | inr d => match body_item key d with inl e => inl e | inr v => json_text v end
      end
  end.

Definition create_encryption_key (key_name key_type : string) : bao unit :=
  bao_except
    (_ ← _request "POST" ("transit/keys/" +:+ key_name) None
           (Some (JObj [("type", JStr key_type); ("exportable", JBool false);
                        ("allow_plaintext_backup", JBool false)]%string)); mret tt)
    is_openbao
    (λ e, if str_contains "already exists" (str_lower (bao_message e)) then mret tt else bao_raise e).

Definition key_exists (key_name : string) : bao bool :=
  bao_except (_ ← _request "GET" ("transit/keys/" +:+ key_name) None None; mret true) is_not_found
    (λ _, mret false).

Definition encrypt_data (key_name plaintext : string) (context : option string) : bao string :=
  resp ← _request "POST" ("transit/encrypt/" +:+ key_name) None
           (Some (with_context context [("plaintext"%string, JStr (b64_text plaintext))]));
  bao_lift (transit_field "ciphertext" resp).

Definition decrypt_data (key_name ciphertext : string) (context : option string) : bao string :=
  resp ← _request "POST" ("transit/decrypt/" +:+ key_name) None
           (Some (with_context context [("ciphertext"%string, JStr ciphertext)]));
  plain ← bao_lift (transit_field "plaintext" resp);
  bao_lift (b64_read plain).

Definition rotate_encryption_key (key_name : string) : bao unit :=
  _ ← _request "POST" ("transit/keys/" +:+ key_name +:+ "/rotate") None None; mret tt.

Definition rewrap_data (key_name ciphertext : string) (context : option string) : bao string :=
  resp ← _request "POST" ("transit/rewrap/" +:+ key_name) None
           (Some (with_context context [("ciphertext"%string, JStr ciphertext)]));
  bao_lift (transit_field "ciphertext" resp).

(** * core/transit.py *)

Definition ORG_API_KEY_KEY : string := "org-api-key".
Definition WEBHOOK_SECRET_KEY : string := "webhook-secret".
Definition PII_ENCRYPTION_KEY : string := "pii-encryption".

Definition encrypt_org_api_key (o : uuid) (api_key : string) : bao string :=
  encrypt_data ORG_API_KEY_KEY api_key (Some (uuid_str o)).
Definition decrypt_org_api_key (o : uuid) (ciphertext : string) : bao string :=
  decrypt_data ORG_API_KEY_KEY ciphertext (Some (uuid_str o)).

Definition webhook_failure {A} (what : string) : exn → bao A :=
  λ _, bao_raise (AppExc ExternalServiceError ("Webhook secret " +:+ what +:+ " failed")).

Definition encrypt_webhook_secret (webhook_id : uuid) (secret : string) : bao string :=
  bao_except (encrypt_data WEBHOOK_SECRET_KEY secret (Some (uuid_str webhook_id))) is_openbao
    (webhook_failure "encryption").
Definition decrypt_webhook_secret (webhook_id : uuid) (ciphertext : string) : bao string :=
  bao_except (decrypt_data WEBHOOK_SECRET_KEY ciphertext (Some (uuid_str webhook_id))) is_openbao
    (webhook_failure "decryption").

Definition encrypt_pii (user_id : uuid) (plaintext : string) : bao string :=
  encrypt_data PII_ENCRYPTION_KEY plaintext (Some (uuid_str user_id)).
Definition decrypt_pii (user_id : uuid) (ciphertext : string) : bao string :=
  decrypt_data PII_ENCRYPTION_KEY ciphertext (Some (uuid_str user_id)).

Definition verify_webhook_secret_key : bao unit :=
  found ← bao_except (b ← key_exists WEBHOOK_SECRET_KEY; mret (Some b)) is_bao_auth (λ _, mret None);
  match found with
  | Some false => bao_raise (AppExc ExternalServiceError "OpenBao Transit key 'webhook-secret' is missing")
  | _ => mret tt
  end.

(** [rotate_all_keys]: each key's outcome; no failure stops the others. *)
Fixpoint rotate_keys (keys : list string) : bao (list (string * bool)) :=
  match keys with
  | [] => mret []
  | k :: r =>
      ok ← bao_except (_ ← rotate_encryption_key k; mret true) is_exception (λ _, mret false);
      rest ← rotate_keys r;
      mret ((k, ok) :: rest)
  end.
Definition rotate_all_keys : bao (list (string * bool)) :=
  rotate_keys [ORG_API_KEY_KEY; WEBHOOK_SECRET_KEY; PII_ENCRYPTION_KEY].
End client.

(** * Theorems on requests *)

(** At most [n] requests leave, whatever is answered. *)
Fixpoint requests_le {A} (n : nat) (p : prog A) : Prop :=
  match p with
  | Call (Remote _) k => match n with O => False | S m => ∀ r, requests_le m (k r) end
  | Call _ k => ∀ r, requests_le n (k r)
  | _ => True
  end.

Lemma requests_weaken {A} (p : prog A) n m : (n ≤ m)%nat → requests_le n p → requests_le m p.
Proof.
  revert n m; induction p as [a|e|X o k IH]; intros n m Hnm; [done|done|].
  destruct o; cbn; try (intros Hk r; by eapply IH).
  destruct n as [|n]; [done|]. destruct m as [|m]; [lia|]. intros Hk r. eapply IH; [|done]. lia.
Qed.

Lemma requests_bind {A B} (p : prog A) (f : A → prog B) n m :
  requests_le n p → (∀ a, requests_le m (f a)) → requests_le (n + m) (p ≫= f).
Proof.
  intros Hp Hf. revert n Hp; induction p as [a|e|X o k IH]; intros n Hp; [by eapply requests_weaken; [|apply Hf]; lia|done|].
  destruct o; cbn in *; try (intros r; by apply IH).
  destruct n as [|n]; [done|]. intros r. by apply IH.
Qed.

(** A method that sends at most [n] requests. *)
Definition sends {A} (n : nat) (p : bao A) : Prop := ∀ c, requests_le n (p c).

Lemma sends_ret {A} n (a : A) : sends n (mret a : bao A).
Proof. by intros c. Qed.
Lemma sends_raise {A} n e : sends n (bao_raise e : bao A).
Proof. by intros c. Qed.
Lemma sends_lift {A} n (r : exn + A) : sends n (bao_lift r).
Proof. by intros c. Qed.
Lemma sends_get n : sends n bao_get.
Proof. by intros c. Qed.
Lemma sends_set n c0 : sends n (bao_set c0).
Proof. by intros c. Qed.
Lemma sends_now n : sends n (bao_prog (call Now)).
Proof. intros c. cbn. by intros [e|t]. Qed.
Lemma sends_sleep n d : sends n (bao_prog (call (Sleep d))).
Proof. intros c. cbn. by intros [e|t]. Qed.
Lemma sends_bind {A B} n m (p : bao A) (f : A → bao B) :
  sends n p → (∀ a, sends m (f a)) → sends (n + m) (p ≫= f).
Proof. intros Hp Hf c. apply requests_bind; [apply Hp|]. intros [[e|a] c']; [done|]. apply Hf. Qed.
Lemma sends_bind_0 {A B} m (p : bao A) (f : A → bao B) : sends 0 p → (∀ a, sends m (f a)) → sends m (p ≫= f).
Proof. apply (sends_bind 0). Qed.
Lemma sends_except {A} n (p : bao A) sel h : sends n p → (∀ e, sends 0 (h e)) → sends n (bao_except p sel h).
Proof.
  intros Hp Hh c. rewrite <- (Nat.add_0_r n). apply requests_bind; [apply Hp|].
  intros [[e|a] c']; cbn; [|done]. destruct (sel e); [apply Hh|done].
Qed.

Create HintDb sends discriminated.
#[export] Hint Resolve sends_ret sends_raise sends_lift sends_get sends_set sends_now sends_sleep sends_bind_0
  sends_except : sends.

Section retries.
Context `{HttpServer} (self : OpenBaoClient) (method path : string) (namespace : option string)
  (body : option json) (token : json).

Lemma sends_http req : sends 1 (http req).
Proof.
  apply sends_except; [|by intros e c]. intros c. cbn. by intros [e|r].
Qed.

Lemma sends_accept resp : sends 0 (accept_login resp).
Proof. unfold accept_login. eauto 12 with sends. Qed.

Lemma sends_authenticate : sends 1 (_authenticate self).
Proof.
  apply (sends_bind 1 0); [apply sends_http|]. intros resp.
  destruct (negb _); [apply sends_raise|]. apply sends_except; [apply sends_accept|auto with sends].
Qed.

Lemma sends_ensure : sends 1 (_ensure_auth self).
Proof.
  apply sends_bind_0; [apply sends_get|]. intros c. destruct (_token_expires_at c) as [t|]; [|apply sends_ret].
  apply sends_bind_0; [apply sends_now|]. intros now. destruct (t <=? now); [apply sends_authenticate|apply sends_ret].
Qed.

Lemma sends_token : sends 0 _token.
Proof.
  apply sends_bind_0; [apply sends_get|]. intros c. destruct (_client_token c); [apply sends_ret|apply sends_raise].
Qed.

Lemma sends_loop left attempt : sends (S left) (request_loop left attempt method path namespace body).
Proof.
  revert attempt; induction left as [|n IH]; intros attempt; cbn [request_loop];
    (apply sends_bind_0; [apply sends_token|]; intros t; apply (sends_bind 1); [apply sends_http|]; intros resp;
     destruct (_raise_on_error resp path) as [e|]; [|apply sends_ret]).
  - apply sends_raise.
  - destruct (is_transient e); [|apply sends_raise]. apply sends_bind_0; [apply sends_sleep|]. intros _. apply IH.
Qed.

(** The request [_request] sends, the server's answers to it one after the other, and
    what it remembers then. *)
Definition the_request : HttpRequest :=
  mkHttpRequest method ("/v1/" +:+ lstrip_by (λ c, Ascii.eqb c "/") path) (Some token) (namespace_header namespace) body.
Fixpoint remote_after (n : nat) (r : remote) : remote :=
  match n with O => r | S n => remote_after n (http_request the_request r).2 end.
Definition answer (n : nat) (r : remote) : exn + HttpResponse := (http_request the_request (remote_after n r)).1.

(** What an answer means to the caller. *)
Definition meaning (a : exn + HttpResponse) : exn + HttpResponse :=
  match a with
  | inl e => if is_unreachable e then
               inl (OpenBaoExc OpenBaoConnectionError
                 match e with HttpxError TimeoutException => "Timeout connecting to OpenBao" | _ => "Cannot connect to OpenBao" end)
             else inl e
  | inr resp => match _raise_on_error resp path with inr _ => inr resp | inl e => inl e end
  end.

(** An answer worth another attempt: 429, or an error in the KV upgrade window. *)
Definition transient (a : exn + HttpResponse) : bool :=
  match a with
  | inl _ => false
  | inr resp =>
      (hs_status resp =? 429) ||
      match _raise_on_error resp path with
      | inr _ => false
      | inl e => str_contains "upgrading from non-versioned to versioned data" (str_lower (bao_message e))
      end
  end.

Lemma is_transient_spec resp :
  transient (inr resp) = match _raise_on_error resp path with inr _ => false | inl e => is_transient e end.
Proof.
  unfold transient, _raise_on_error. cbv zeta. destruct (hs_status resp =? 429) eqn:E4.
  - apply Z.eqb_eq in E4. by rewrite E4.
  - rewrite orb_false_l. destruct (_ || _); [done|].
    unfold is_transient, _is_kv_upgrade_transient, _KV_UPGRADE_TRANSIENT_MARKER. by repeat case_match.
Qed.

Lemma after_S n r : remote_after (S n) r = (http_request the_request (remote_after n r)).2.
Proof. revert r; induction n as [|n IH]; intros r; [done|]. cbn [remote_after] in *. apply IH. Qed.

Lemma run_bao_bind {A B} (p : bao A) (f : A → bao B) c (s : state) :
  run ((p ≫= f) c) s =
    match run (p c) s with
    | (inr (inr a, c'), s') => run (f a c') s'
    | (inr (inl e, c'), s') => (inr (inl e, c'), s')
    | (inl e, s') => (inl e, s')
    end.
Proof.
  change ((p ≫= f) c) with (p c ≫= λ r : (exn + A) * auth, match r.1 with inl e => Ret (inl e, r.2) | inr a => f a r.2 end).
  rewrite run_bind. by destruct (run (p c) s) as [[e|[[e|a] c']] s'].
Qed.

Lemma run_token c (s : state) : _client_token c = Some token → run (_token c) s = (inr (inr token, c), s).
Proof. intros Hc. unfold _token. rewrite run_bao_bind. cbn. by rewrite Hc. Qed.

Lemma waited_0 r (s : state) :
  mkState (st_clock s) (st_redis s) (st_db s) (st_committed s) (st_tenant s) (st_entropy s) (st_drawn s) (st_out s) r = waited 0 r s.
Proof. unfold waited. by rewrite Z.add_0_r. Qed.

Lemma run_http req c (s : state) :
  run (http req c) s =
    (inr (match (http_request req (st_remote s)).1 with
          | inr resp => inr resp
          | inl e => if is_unreachable e then
                       inl (OpenBaoExc OpenBaoConnectionError
                         match e with HttpxError TimeoutException => "Timeout connecting to OpenBao" | _ => "Cannot connect to OpenBao" end)
                     else inl e
          end, c), waited 0 (http_request req (st_remote s)).2 s).
Proof.
  unfold http, bao_except, bao_prog, unreachable, bao_raise. rewrite run_bind. cbn.
  rewrite waited_0. destruct (http_request req (st_remote s)) as [[e|resp] r]; cbn; [|done].
  by destruct (is_unreachable e).
Qed.

Lemma run_pause us c (s : state) :
  0 ≤ us → run (bao_prog (call (Sleep us)) c) s = (inr (inr tt, c), waited us (st_remote s) s).
Proof. intros Hus. cbn. by rewrite Z.max_r. Qed.

(** One attempt. *)
Lemma request_step left attempt c (s : state) :
  _client_token c = Some token → 0 ≤ attempt →
  run (request_loop left attempt method path namespace body c) s =
    let a := (http_request the_request (st_remote s)).1 in
    let s' := waited 0 (http_request the_request (st_remote s)).2 s in
    match left with
    | S n => if transient a then
               run (request_loop n (attempt + 1) method path namespace body c) (waited (seconds_us (2 ^ attempt)) (st_remote s') s)
             else (inr (meaning a, c), s')
    | O => (inr (meaning a, c), s')
    end.
Proof.
  intros Hc Ha.
  assert (0 ≤ seconds_us (2 ^ attempt)) as Hp by (unfold seconds_us, us_per_s; pose proof (Z.pow_nonneg 2 attempt); lia).
  assert (∀ f : json → bao HttpResponse, run ((_token ≫= f) c) s = run (f token c) s) as Ht
    by (intros f; by rewrite run_bao_bind, run_token).
  destruct left as [|n]; cbn [request_loop]; rewrite Ht, run_bao_bind, run_http; fold the_request;
    destruct (http_request the_request (st_remote s)) as [[e|resp] r]; cbn [fst snd];
    rewrite ?is_transient_spec; unfold meaning; try (by cbn; destruct (is_unreachable e)).
  - by destruct (_raise_on_error resp path).
  - destruct (_raise_on_error resp path) as [e|]; [|done]. destruct (is_transient e); [|done].
    rewrite run_bao_bind, run_pause by done. unfold waited. cbn. by rewrite Z.add_0_r.
Qed.

(** The token is live: no login is needed. *)
Definition live_token (c : auth) (s : state) : Prop :=
  _client_token c = Some token ∧ ∀ t, _token_expires_at c = Some t → st_clock s < t.

Lemma run_ensure c (s : state) : live_token c s → run (_ensure_auth self c) s = (inr (inr tt, c), s).
Proof.
  intros [_ Hl]. unfold _ensure_auth. rewrite run_bao_bind. cbn.
  destruct (_token_expires_at c) as [t|]; [|done]. rewrite run_bao_bind. cbn.
  destruct (t <=? st_clock s) eqn:E; [|done]. apply Z.leb_le in E. specialize (Hl t eq_refl). lia.
Qed.

Lemma waited_twice u v r r' (s : state) : waited u r (waited v r' s) = waited (v + u) r s.
Proof. unfold waited. cbn. f_equal. lia. Qed.

Lemma backoff_sum attempt k :
  0 ≤ attempt →
  seconds_us (2 ^ attempt) + seconds_us (2 ^ (attempt + 1) * (2 ^ Z.of_nat k - 1))
  = seconds_us (2 ^ attempt * (2 ^ Z.of_nat (S k) - 1)).
Proof.
  intros Ha. assert (2 ^ (attempt + 1) = 2 ^ attempt * 2) as -> by (by rewrite Z.pow_add_r).
  assert (2 ^ Z.of_nat (S k) = 2 * 2 ^ Z.of_nat k) as -> by (rewrite Nat2Z.inj_succ; apply Z.pow_succ_r; lia).
  unfold seconds_us. ring.
Qed.

(** The loop with [left] attempts to spare ends with the first answer that is not
    transient, or with the last one. *)
Lemma run_loop left attempt c (s : state) :
  _client_token c = Some token → 0 ≤ attempt →
  ∃ k, (k ≤ left)%nat ∧ (∀ i, (i < k)%nat → transient (answer i (st_remote s)) = true) ∧
    (k = left ∨ transient (answer k (st_remote s)) = false) ∧
    run (request_loop left attempt method path namespace body c) s =
      (inr (meaning (answer k (st_remote s)), c),
       waited (seconds_us (2 ^ attempt * (2 ^ Z.of_nat k - 1))) (remote_after (S k) (st_remote s)) s).
Proof.
  intros Hc. revert attempt s; induction left as [|n IH]; intros attempt s Ha; rewrite request_step by done;
    cbn zeta.
  - exists 0%nat. split_and!; [lia|lia|by left|]. do 2 f_equal. unfold seconds_us. cbn. lia.
  - destruct (transient (http_request the_request (st_remote s)).1) eqn:Et.
    + change (st_remote (waited 0 (http_request the_request (st_remote s)).2 s)) with (http_request the_request (st_remote s)).2.
      destruct (IH (attempt + 1) (waited (seconds_us (2 ^ attempt)) (http_request the_request (st_remote s)).2 s))
        as (k & Hk & Hi & Hl & ->); [lia|]. exists (S k). split_and!.
      * lia.
      * intros [|i] Hi'; [done|]. apply (Hi i). lia.
      * destruct Hl as [->|Hl]; [by left|by right].
      * by rewrite waited_twice, backoff_sum.
    + exists 0%nat. split_and!; [lia|lia|by right|]. do 2 f_equal. unfold seconds_us. cbn. lia.
Qed.

(** C24. With a live token [_request] ends with the meaning of the first answer that is
    neither a rate limit nor the KV upgrade window, or of the third: it waits 1 and 2
    seconds in between and logs in no more than once; whatever is answered, at most four
    requests are sent. *)
Theorem request_retries c (s : state) :
  live_token c s →
  (∃ k, (k ≤ 2)%nat ∧ (∀ i, (i < k)%nat → transient (answer i (st_remote s)) = true) ∧
     (k = 2%nat ∨ transient (answer k (st_remote s)) = false) ∧
     run (_request self method path namespace body c) s =
       (inr (meaning (answer k (st_remote s)), c),
        waited (seconds_us (2 ^ Z.of_nat k - 1)) (remote_after (S k) (st_remote s)) s)) ∧
  sends 4 (_request self method path namespace body).
Proof.
  intros Hl. split.
  - destruct (run_loop (MAX_RETRIES - 1) 0 c s) as (k & Hk & Hi & Hlast & Hrun); [apply Hl|done|].
    exists k. split_and!; [done|done|done|]. unfold _request. rewrite run_bao_bind, run_ensure by done. rewrite Hrun.
    by rewrite Z.mul_1_l.
  - apply (sends_bind 1 3); [apply sends_ensure|]. intros _. apply sends_loop.
Qed.
End retries.

(** ** Witness: a server that is rate limited twice *)

Definition busy_server : HttpServer := {|
  http_request := λ req m,
    if bool_decide (hq_path req = "/v1/config/data/x") then
      match m !! "asked"%string with
      | Some "2" => (inr (mkHttpResponse 200 (Some (JObj [("data", JObj [("data", JObj [("value", JInt 7)])])]%string)) "OK"), m)
      | Some "1" => (inr (mkHttpResponse 429 None "Too Many Requests"), <["asked"%string := "2"%string]> m)
      | _ => (inr (mkHttpResponse 429 None "Too Many Requests"), <["asked"%string := "1"%string]> m)
      end
    else (inr (mkHttpResponse 404 None "Not Found"), m)
|}.
Definition a_client : OpenBaoClient := mkOpenBaoClient "role" "secret" "system/" (Some "root"%string).
Definition signed_in : auth := mkAuth (Some (JStr "token")) None.

Lemma request_retries_witness :
  (∃ k, (k ≤ 2)%nat ∧
     (∀ i, (i < k)%nat → transient "config/data/x" (answer (H := busy_server) "GET" "config/data/x" None None (JStr "token") i (st_remote empty_state)) = true) ∧
     (k = 2%nat ∨ transient "config/data/x" (answer (H := busy_server) "GET" "config/data/x" None None (JStr "token") k (st_remote empty_state)) = false) ∧
     run (_request (H := busy_server) a_client "GET" "config/data/x" None None signed_in) empty_state =
       (inr (meaning "config/data/x" (answer (H := busy_server) "GET" "config/data/x" None None (JStr "token") k (st_remote empty_state)), signed_in),
        waited (seconds_us (2 ^ Z.of_nat k - 1))
          (remote_after (H := busy_server) "GET" "config/data/x" None None (JStr "token") (S k) (st_remote empty_state)) empty_state)) ∧
  sends 4 (_request (H := busy_server) a_client "GET" "config/data/x" None None).
Proof. apply (request_retries (H := busy_server) a_client "GET" "config/data/x" None None (JStr "token") signed_in empty_state); by split. Defined.

(** The third attempt reads the value, three seconds later. *)
Example third_attempt :
  let r := run (_kv_read (H := busy_server) a_client "config/data/x" None signed_in) empty_state in
  (r.1, st_clock r.2) = (inr (inr (JObj [("value"%string, JInt 7)]), signed_in), 3000000).
Proof. by vm_compute. Qed.

Lemma b64_std_val c : b64_val (b64_std c) = b64_val c ∧ Ascii.eqb (b64_std c) "=" = Ascii.eqb c "=".
Proof. destruct c as [[] [] [] [] [] [] [] []]; vm_compute; split; reflexivity. Qed.

Lemma a2b_std quad left pads s : a2b quad left pads (str_map b64_std s) = a2b quad left pads s.
Proof.
  revert quad left pads; induction s as [|c s IH]; intros quad left pads; [done|]. cbn [str_map a2b].
  destruct (b64_std_val c) as [-> ->]. rewrite !IH. destruct (Ascii.eqb c "="), (b64_val c), quad as [|[|[|quad]]]; rewrite ?IH; reflexivity.
Qed.

Lemma filter_std s :
  str_filter (λ c, negb (Ascii.eqb c "-") && negb (Ascii.eqb c "_")) (str_map b64_std s) = str_map b64_std s.
Proof.
  induction s as [|c s IH]; [done|]. cbn [str_map str_filter]. rewrite IH.
  by assert (negb (Ascii.eqb (b64_std c) "-") && negb (Ascii.eqb (b64_std c) "_") = true) as ->
    by (by destruct c as [[] [] [] [] [] [] [] []]).
Qed.

Lemma b64_read_text s : b64_read (b64_text s) = inr s.
Proof. unfold b64_read, b64_text. rewrite filter_std. unfold b64decode. rewrite a2b_std.
  fold (b64decode (b64encode (utf8_encode s))). by rewrite a2b_encoded, utf8_round_trip. Qed.

(** * The encryption the webhook service relies on *)

(** The Transit engine as documented: what it encrypted it decrypts, whatever else it is
    asked; an answer, or [httpx]'s exception, comes for every request. *)
Class TransitServer `{HttpServer} := {
  ts_later : remote → remote → Prop;
  ts_preorder :: PreOrder ts_later;
  ts_grows req r : ts_later r (http_request req r).2;
  ts_exceptions req r e : (http_request req r).1 = inl e → is_exception e = true;
  ts_opens : remote → string → option string → string → string → Prop;
  ts_opens_later r r' key ctx c p : ts_later r r' → ts_opens r key ctx c p → ts_opens r' key ctx c p;
  ts_opens_once r key ctx c p p' : ts_opens r key ctx c p → ts_opens r key ctx c p' → p = p';
  ts_ciphertext r key ctx c p : ts_opens r key ctx c p → str_prefix "vault:v" c = true;
  ts_encrypts r tok key ctx p resp c :
    (http_request (mkHttpRequest "POST" ("/v1/transit/encrypt/" +:+ key) (Some tok) None
       (Some (with_context ctx [("plaintext"%string, JStr p)]))) r).1 = inr resp →
    transit_field "ciphertext" resp = inr c →
    ts_opens (http_request (mkHttpRequest "POST" ("/v1/transit/encrypt/" +:+ key) (Some tok) None
       (Some (with_context ctx [("plaintext"%string, JStr p)]))) r).2 key ctx c p;
  ts_decrypts r tok key ctx c p resp p' :
    ts_opens r key ctx c p →
    (http_request (mkHttpRequest "POST" ("/v1/transit/decrypt/" +:+ key) (Some tok) None
       (Some (with_context ctx [("ciphertext"%string, JStr c)]))) r).1 = inr resp →
    transit_field "plaintext" resp = inr p' → p' = p;
}.

(** A call of the service: the client works with the token it holds then. *)
Definition with_auth {A} (c : auth) (p : bao A) : prog A := r ← p c; lift r.1.

Definition transit_manager `{HttpServer} (self : OpenBaoClient) (c : auth) : TransitManager := {|
  tm_encrypt := λ i x, with_auth c (encrypt_webhook_secret self i x);
  tm_decrypt := λ i x, with_auth c (decrypt_webhook_secret self i x);
|}.

(** ** The client writes no table

    Every call of these methods is a step in [R], whatever the server answers, as soon as
    [R] relates the states with the same tables. *)

Section tables.
Context `{HttpServer} (self : OpenBaoClient) (R : state → state → Prop) (HR : keeps_tables R).

Definition bao_steps {A} (p : bao A) : Prop := ∀ c, steps_in R (p c).

Lemma bao_steps_ret {A} (a : A) : bao_steps (mret a).
Proof. done. Qed.
Lemma bao_steps_raise {A} e : bao_steps (bao_raise e : bao A).
Proof. done. Qed.
Lemma bao_steps_lift {A} (x : exn + A) : bao_steps (bao_lift x).
Proof. done. Qed.
Lemma bao_steps_get : bao_steps bao_get.
Proof. done. Qed.
Lemma bao_steps_set c : bao_steps (bao_set c).
Proof. done. Qed.
Lemma bao_steps_bind {A B} (p : bao A) (f : A → bao B) : bao_steps p → (∀ a, bao_steps (f a)) → bao_steps (p ≫= f).
Proof. intros Hp Hf c. apply steps_in_bind; [apply Hp|]. intros [[e|a] c']; [done|apply Hf]. Qed.
Lemma bao_steps_except {A} (p : bao A) sel h : bao_steps p → (∀ e, bao_steps (h e)) → bao_steps (bao_except p sel h).
Proof. intros Hp Hh c. apply steps_in_bind; [apply Hp|]. intros [[e|a] c']; cbn; [|done]. destruct (sel e); [apply Hh|done]. Qed.
Lemma bao_steps_call {X} (o : op X) : writes_nothing o = true → bao_steps (bao_prog (call o)).
Proof.
  intros Ho c. unfold bao_prog. apply steps_in_bind; [|done]. apply steps_in_catch; [|done].
  apply steps_in_bind; [by apply steps_read|done].
Qed.

Ltac bao_stepping :=
  repeat first
    [ done
    | apply bao_steps_ret | apply bao_steps_raise | apply bao_steps_lift | apply bao_steps_get | apply bao_steps_set
    | apply bao_steps_call; done
    | apply bao_steps_bind; [|intros ?]
    | apply bao_steps_except; [|intros ?]
    | case_goal ].

Lemma http_steps req : bao_steps (http req).
Proof. unfold http, unreachable. bao_stepping. Qed.

Lemma authenticate_steps : bao_steps (_authenticate self).
Proof.
  unfold _authenticate, accept_login. apply bao_steps_bind; [apply http_steps|]. intros resp. bao_stepping.
Qed.

Lemma ensure_steps : bao_steps (_ensure_auth self).
Proof. unfold _ensure_auth. apply bao_steps_bind; [bao_stepping|]. intros c. bao_stepping; try apply authenticate_steps. Qed.

Lemma token_steps : bao_steps _token.
Proof. unfold _token. bao_stepping. Qed.

Lemma loop_steps left attempt method path namespace body : bao_steps (request_loop left attempt method path namespace body).
Proof.
  revert attempt. induction left as [|n IH]; intros attempt; cbn [request_loop];
    (apply bao_steps_bind; [apply token_steps|]; intros token; apply bao_steps_bind; [apply http_steps|]; intros resp;
     destruct (_raise_on_error resp path) as [e|]; [|apply bao_steps_ret]); [apply bao_steps_raise|].
  destruct (is_transient e); [|apply bao_steps_raise]. apply bao_steps_bind; [by apply bao_steps_call|intros _; apply IH].
Qed.

Lemma request_steps method path namespace body : bao_steps (_request self method path namespace body).
Proof. apply bao_steps_bind; [apply ensure_steps|]. intros _. apply loop_steps. Qed.

Lemma read_system_config_steps : bao_steps (read_system_config self).
Proof.
  apply bao_steps_except; [|intros e; apply bao_steps_ret]. apply bao_steps_bind; [apply request_steps|].
  intros resp. apply bao_steps_lift.
Qed.

Lemma post_steps path token namespace body : bao_steps (idempotent_post path token namespace body).
Proof. apply bao_steps_bind; [apply http_steps|]. intros resp. destruct (_ =? _); [apply bao_steps_ret|apply bao_steps_lift]. Qed.

Lemma create_org_namespace_steps o : bao_steps (create_org_namespace self o).
Proof.
  apply bao_steps_bind.
  - apply bao_steps_bind; [apply bao_steps_get|]. intros c. apply post_steps.
  - intros _. apply bao_steps_bind; [|intros token; apply post_steps].
    destruct (bo_root_token self) as [t|]; [|apply token_steps]. destruct (_ && _); [apply bao_steps_ret|apply token_steps].
Qed.

Lemma write_org_config_steps o config : bao_steps (write_org_config self o config).
Proof.
  apply bao_steps_bind; [apply create_org_namespace_steps|]. intros _. generalize (_org_ns o (bo_namespace self)). intros ns.
  induction config as [|[k v] l IH]; [apply bao_steps_ret|]. cbn [write_keys].
  apply bao_steps_bind; [|intros _; apply IH].
  destruct v; (apply bao_steps_bind; [apply request_steps|intros ?; apply bao_steps_ret]).
Qed.

Lemma kv_read_steps path namespace : bao_steps (_kv_read self path namespace).
Proof. apply bao_steps_bind; [apply request_steps|]. intros resp. apply bao_steps_lift. Qed.

Lemma read_org_config_steps o : bao_steps (read_org_config self o).
Proof.
  apply bao_steps_bind.
  - apply bao_steps_except; [|intros e; apply bao_steps_ret]. apply bao_steps_bind; [|intros k; apply bao_steps_ret].
    apply bao_steps_bind; [apply request_steps|]. intros resp. bao_stepping.
  - generalize (_org_ns o (bo_namespace self)). intros ns [keys|]; [|apply bao_steps_ret]. destruct keys as [| | | | |keys|]; try apply bao_steps_raise.
    induction keys as [|k keys IH]; [apply bao_steps_ret|]. cbn [read_keys].
    apply bao_steps_bind; [apply bao_steps_lift|]. intros key.
    apply bao_steps_bind; [|intros found; apply bao_steps_bind; [exact IH|intros rest; apply bao_steps_ret]].
    apply bao_steps_except; [|intros e; apply bao_steps_ret]. apply bao_steps_bind; [apply kv_read_steps|]. intros d. bao_stepping.
Qed.

Lemma encrypt_webhook_secret_steps i x : bao_steps (encrypt_webhook_secret self i x).
Proof.
  apply bao_steps_except; [|intros e; apply bao_steps_raise]. apply bao_steps_bind; [apply request_steps|].
  intros resp. apply bao_steps_lift.
Qed.
Lemma decrypt_webhook_secret_steps i x : bao_steps (decrypt_webhook_secret self i x).
Proof.
  apply bao_steps_except; [|intros e; apply bao_steps_raise]. apply bao_steps_bind; [apply request_steps|].
  intros resp. bao_stepping.
Qed.

Lemma with_auth_steps {A} c (p : bao A) : bao_steps p → steps_in R (with_auth c p).
Proof. intros Hp. apply steps_in_bind; [apply Hp|]. intros r. by destruct r.1. Qed.
End tables.

(** ** Methods beside other requests *)

Section relying.
Context `{TransitServer} (R : state → state → Prop) `{!PreOrder R} `{!Outside ts_later R}.

(** Every call of the method is a step in [R], and a result meets [Φ]. *)
Definition bao_relies {A} (s : state) (p : bao A) (Φ : A → state → Prop) : Prop :=
  ∀ c, rely R s (p c) (λ r s', match r.1 with inl _ => True | inr a => Φ a s' end).

Lemma bao_relies_ret {A} s (a : A) Φ : (∀ s', R s s' → Φ a s') → bao_relies s (mret a) Φ.
Proof. intros Ha c s' Hs'. by apply Ha. Qed.

Lemma bao_relies_raise {A} s e (Φ : A → state → Prop) : bao_relies s (bao_raise e) Φ.
Proof. by intros c s' Hs'. Qed.

Lemma bao_relies_lift {A} s (x : exn + A) (Φ : A → state → Prop) :
  (∀ a s', x = inr a → R s s' → Φ a s') → bao_relies s (bao_lift x) Φ.
Proof. intros Ha c s' Hs'. cbn. destruct x as [e|a]; [done|]. by apply Ha. Qed.

Lemma bao_relies_get s (Φ : auth → state → Prop) : (∀ c s', R s s' → Φ c s') → bao_relies s bao_get Φ.
Proof. intros Hc c s' Hs'. by apply Hc. Qed.

Lemma bao_relies_set s c0 : bao_relies s (bao_set c0) (λ _ _, True).
Proof. by intros c s' Hs'. Qed.

Lemma bao_relies_bind {A B} s (p : bao A) (f : A → bao B) Φ Ψ :
  bao_relies s p Φ → (∀ a s', R s s' → (∀ s1, R s' s1 → Φ a s1) → bao_relies s' (f a) Ψ) →
  bao_relies s (p ≫= f) Ψ.
Proof.
  intros Hp Hf c. eapply rely_bind; [done|apply Hp|]. intros [[e|a] c'] s' Hs' Ha; [done|]. by apply Hf.
Qed.

Lemma bao_relies_any {A B} s (p : bao A) (f : A → bao B) Ψ :
  bao_relies s p (λ _ _, True) → (∀ a s', R s s' → bao_relies s' (f a) Ψ) → bao_relies s (p ≫= f) Ψ.
Proof. intros Hp Hf. eapply bao_relies_bind; [exact Hp|]. intros a s' Hs' _. by apply Hf. Qed.

Lemma bao_relies_except {A} s (p : bao A) sel h Φ :
  bao_relies s p Φ → (∀ e s', R s s' → bao_relies s' (h e) Φ) → bao_relies s (bao_except p sel h) Φ.
Proof.
  intros Hp Hh c. eapply rely_bind; [done|apply Hp|]. intros [[e|a] c'] s' Hs' Ha; [|exact Ha].
  cbn. destruct (sel e); [by apply Hh|done].
Qed.

Lemma bao_relies_later {A} s s' (p : bao A) Φ : R s s' → bao_relies s p Φ → bao_relies s' p Φ.
Proof. intros Hs Hp c. by eapply rely_later; [|exact Hs|apply Hp]. Qed.

Lemma bao_relies_weaken {A} s (p : bao A) (Φ Ψ : A → state → Prop) :
  bao_relies s p Φ → (∀ a s', R s s' → Φ a s' → Ψ a s') → bao_relies s p Ψ.
Proof.
  intros Hp HΦ c. eapply rely_weaken; [done|apply Hp|]. intros [[e|a] c'] s' Hs'; [done|]. by apply HΦ.
Qed.

(** One request: what the server remembered when it answered. *)
Definition answered (req : HttpRequest) (s : state) (resp : HttpResponse) (s' : state) : Prop :=
  ∃ r, ts_later (st_remote s) r ∧ (http_request req r).1 = inr resp ∧
       ts_later (http_request req r).2 (st_remote s').

Lemma answered_from req s0 s resp s' : R s0 s → answered req s resp s' → answered req s0 resp s'.
Proof. intros Hs (r & Hr & E & Hl). exists r. split; [|done]. etrans; [|exact Hr]. by eapply outside_later. Qed.

Lemma relies_remote {A} s s' (f : remote → (exn + A) * remote) :
  R s s' → ts_later (st_remote s') (f (st_remote s')).2 → R s' (op_sem (Remote f) s').2.
Proof. intros Hs Hf. cbn. rewrite waited_0. by apply outside_step. Qed.

Lemma bao_relies_http s req : bao_relies s (http req) (answered req s).
Proof.
  apply bao_relies_except; [|by intros e s' Hs' c]. intros c. unfold bao_prog. cbn.
  intros s' Hs'. split; [apply (relies_remote s); [done|apply ts_grows]|].
  destruct (http_request req (st_remote s')) as [[e|resp] r'] eqn:E; cbn; [done|].
  intros s1 Hs1. exists (st_remote s'). rewrite E. split_and!; [by eapply outside_later|done|].
  by apply outside_later in Hs1.
Qed.

(** Methods that only wait and ask. *)
Definition quiet {A} (p : bao A) : Prop := ∀ s, bao_relies s p (λ _ _, True).

Lemma quiet_bind {A B} (p : bao A) (f : A → bao B) : quiet p → (∀ a, quiet (f a)) → quiet (p ≫= f).
Proof. intros Hp Hf s. apply bao_relies_any; [apply Hp|]. intros a s' _. apply Hf. Qed.
Lemma quiet_except {A} (p : bao A) sel h : quiet p → (∀ e, quiet (h e)) → quiet (bao_except p sel h).
Proof. intros Hp Hh s. apply bao_relies_except; [apply Hp|]. intros e s' _. apply Hh. Qed.
Lemma quiet_ret {A} (a : A) : quiet (mret a).
Proof. by intros s c s' Hs'. Qed.
Lemma quiet_raise {A} e : quiet (bao_raise e : bao A).
Proof. by intros s c s' Hs'. Qed.
Lemma quiet_lift {A} (x : exn + A) : quiet (bao_lift x).
Proof. intros s c s' Hs'. by destruct x. Qed.
Lemma quiet_get : quiet bao_get.
Proof. by intros s c s' Hs'. Qed.
Lemma quiet_set c0 : quiet (bao_set c0).
Proof. by intros s c s' Hs'. Qed.
Lemma quiet_now : quiet (bao_prog (call Now)).
Proof. by intros s c s' Hs'. Qed.
Lemma quiet_sleep us : quiet (bao_prog (call (Sleep us))).
Proof.
  intros s c s' Hs'. split; [|by intros s1 Hs1]. apply (outside_step s' (Z.max 0 us) (st_remote s')); [lia|done].
Qed.
Lemma quiet_http req : quiet (http req).
Proof. intros s. eapply bao_relies_weaken; [apply bao_relies_http|done]. Qed.

Create HintDb quiet discriminated.
Hint Resolve quiet_bind quiet_except quiet_ret quiet_raise quiet_lift quiet_get quiet_set quiet_now quiet_sleep quiet_http : quiet.

Context (self : OpenBaoClient).

Lemma quiet_ensure : quiet (_ensure_auth self).
Proof.
  unfold _ensure_auth, _authenticate, accept_login.
  apply quiet_bind; [auto with quiet|]. intros c. destruct (_token_expires_at c) as [t|]; [|auto with quiet].
  apply quiet_bind; [auto with quiet|]. intros now. destruct (t <=? now); [|auto with quiet].
  apply quiet_bind; [auto with quiet|]. intros resp. destruct (negb _); auto 12 with quiet.
Qed.

Lemma quiet_token : quiet _token.
Proof. apply quiet_bind; [auto with quiet|]. intros c. destruct (_client_token c); auto with quiet. Qed.

(** What [_request] returns was answered to its request, without an error. *)
Definition replied (method path : string) (namespace : option string) (body : option json)
    (s : state) (resp : HttpResponse) (s' : state) : Prop :=
  _raise_on_error resp path = inr tt ∧
  ∃ token, answered (mkHttpRequest method ("/v1/" +:+ lstrip_by (λ c, Ascii.eqb c "/") path) (Some token)
                       (namespace_header namespace) body) s resp s'.

Lemma replied_from method path namespace body s0 s resp s' :
  R s0 s → replied method path namespace body s resp s' → replied method path namespace body s0 resp s'.
Proof. intros Hs (E & token & Ha). split; [done|]. exists token. by eapply answered_from. Qed.

Lemma relies_loop s left attempt method path namespace body :
  bao_relies s (request_loop left attempt method path namespace body) (replied method path namespace body s).
Proof.
  revert s attempt; induction left as [|n IH]; intros s attempt; cbn [request_loop];
    (apply bao_relies_any; [apply quiet_token|]; intros token s1 Hs1;
     eapply bao_relies_bind; [apply bao_relies_http|]; intros resp s2 Hs2 Ha;
     destruct (_raise_on_error resp path) as [e|[]] eqn:E;
     [|apply bao_relies_ret; intros s3 Hs3; split; [done|]; exists token; eapply answered_from; [exact Hs1|by apply Ha]]).
  - apply bao_relies_raise.
  - destruct (is_transient e); [|apply bao_relies_raise].
    apply bao_relies_any; [apply quiet_sleep|]. intros _ s3 Hs3.
    eapply bao_relies_weaken; [apply IH|]. intros r s4 Hs4. apply replied_from. by do 2 (etrans; [eassumption|]).
Qed.

Lemma relies_request s method path namespace body :
  bao_relies s (_request self method path namespace body) (replied method path namespace body s).
Proof.
  apply bao_relies_any; [apply quiet_ensure|]. intros _ s1 Hs1.
  eapply bao_relies_weaken; [apply relies_loop|]. intros r s2 Hs2. by apply replied_from.
Qed.

Lemma relies_encrypt s key x ctx :
  bao_relies s (encrypt_data self key x ctx) (λ c s', ts_opens (st_remote s') key ctx c (b64_text x)).
Proof.
  eapply bao_relies_bind; [apply relies_request|]. intros resp s1 Hs1 Hr. apply bao_relies_lift.
  intros c s2 Ec Hs2. destruct (Hr _ Hs2) as (_ & token & r & Hrr & Er & Hl). cbn [namespace_header] in *.
  eapply ts_opens_later; [exact Hl|]. eapply ts_encrypts; [|exact Ec]. exact Er.
Qed.

Lemma relies_decrypt s key x ctx c :
  ts_opens (st_remote s) key ctx c (b64_text x) →
  bao_relies s (decrypt_data self key c ctx) (λ y _, y = x).
Proof.
  intros Ho. eapply bao_relies_bind; [apply relies_request|]. intros resp s1 Hs1 Hr.
  eapply bao_relies_bind with (Φ := λ p _, p = b64_text x).
  - apply bao_relies_lift. intros p s2 Ep Hs2. destruct (Hr _ Hs2) as (_ & token & r & Hrr & Er & Hl).
    eapply ts_decrypts; [eapply ts_opens_later; [exact Hrr|exact Ho]|exact Er|exact Ep].
  - intros p s2 Hs2 Hp. apply bao_relies_lift. intros y s3 Ey Hs3. rewrite (Hp s2) in Ey by done.
    rewrite b64_read_text in Ey. congruence.
Qed.
End relying.

(** ** What methods raise *)

Section raising.
Context `{TransitServer} (self : OpenBaoClient).

(** Whatever is answered, the method raises an ordinary exception at most. *)
Definition mild_result {A} (r : (exn + A) * auth) : Prop :=
  match r.1 with inl e => is_exception e = true | inr _ => True end.
Definition mild {A} (p : bao A) : Prop := ∀ c, tame mild_result (p c).

Lemma mild_bind {A B} (p : bao A) (f : A → bao B) : mild p → (∀ a, mild (f a)) → mild (p ≫= f).
Proof. intros Hp Hf c. eapply tame_bind; [apply Hp|]. intros [[e|a] c'] He; [exact He|apply Hf]. Qed.
Lemma mild_except {A} (p : bao A) sel h : mild p → (∀ e, mild (h e)) → mild (bao_except p sel h).
Proof.
  intros Hp Hh c. eapply tame_bind; [apply Hp|]. intros [[e|a] c'] He; [|done]. cbn [fst snd].
  destruct (sel e); [apply Hh|exact He].
Qed.
Lemma mild_ret {A} (a : A) : mild (mret a).
Proof. by intros c. Qed.
Lemma mild_raise {A} e : is_exception e = true → mild (bao_raise e : bao A).
Proof. by intros He c. Qed.
Lemma mild_lift {A} (x : exn + A) : (∀ e, x = inl e → is_exception e = true) → mild (bao_lift x).
Proof. intros Hx c. destruct x; [by apply Hx|done]. Qed.
Lemma mild_get : mild bao_get.
Proof. by intros c. Qed.
Lemma mild_set c0 : mild (bao_set c0).
Proof. by intros c. Qed.
Lemma mild_prog {A} (p : prog A) : harmless p → mild (bao_prog p).
Proof.
  intros Hp c. eapply tame_bind with (Ψ := λ r : exn + A, match r with inl e => is_exception e = true | inr _ => True end).
  - apply tame_catch; [|done]. eapply tame_bind; [exact Hp|done].
  - by intros [e|a] He.
Qed.
Lemma mild_now : mild (bao_prog (call Now)).
Proof. by apply mild_prog, tame_ordinary. Qed.
Lemma mild_sleep us : mild (bao_prog (call (Sleep us))).
Proof. by apply mild_prog, tame_ordinary. Qed.
Lemma mild_http req : mild (http req).
Proof.
  apply mild_except; [|intros e; by apply mild_raise]. apply mild_prog, tame_call. intros s e. cbn. apply ts_exceptions.
Qed.

Lemma json_body_mild resp : mild (bao_lift (json_body resp)).
Proof. apply mild_lift. unfold json_body. by destruct (hs_json resp); intros e [= <-]. Qed.
Lemma body_item_mild key j : mild (bao_lift (body_item key j)).
Proof. apply mild_lift. unfold body_item. intros e. by repeat case_match; intros [= <-]. Qed.
Lemma lease_mild j : mild (bao_lift (lease_us j)).
Proof. apply mild_lift. unfold lease_us. intros e. by repeat case_match; intros [= <-]. Qed.
Lemma transit_field_mild key resp : mild (bao_lift (transit_field key resp)).
Proof.
  apply mild_lift. unfold transit_field, json_body, body_item, json_text. intros e.
  by repeat case_match; intros; simplify_eq.
Qed.
Lemma b64_read_mild x : mild (bao_lift (b64_read x)).
Proof. apply mild_lift. unfold b64_read. intros e. by repeat case_match; intros [= <-]. Qed.

Create HintDb mild discriminated.
Hint Resolve mild_bind mild_except mild_ret mild_get mild_set mild_now mild_sleep mild_http
  json_body_mild body_item_mild lease_mild transit_field_mild b64_read_mild : mild.
Hint Extern 1 (mild (bao_raise _)) => apply mild_raise; reflexivity : mild.

Lemma mild_ensure : mild (_ensure_auth self).
Proof.
  unfold _ensure_auth, _authenticate, accept_login.
  apply mild_bind; [auto with mild|]. intros c. destruct (_token_expires_at c) as [t|]; [|auto with mild].
  apply mild_bind; [auto with mild|]. intros now. destruct (t <=? now); [|auto with mild].
  apply mild_bind; [auto with mild|]. intros resp. destruct (negb _); auto 12 with mild.
Qed.

Lemma mild_token : mild _token.
Proof. apply mild_bind; [auto with mild|]. intros c. destruct (_client_token c); auto with mild. Qed.

Lemma mild_request method path namespace body : mild (_request self method path namespace body).
Proof.
  assert (∀ resp e, _raise_on_error resp path = inl e → is_exception e = true) as He.
  { intros resp e. unfold _raise_on_error. by repeat case_match; intros [= <-]. }
  apply mild_bind; [apply mild_ensure|]. intros _. generalize 0 as attempt.
  generalize (MAX_RETRIES - 1)%nat as left.
  induction left as [|n IH]; intros attempt; cbn [request_loop];
    (apply mild_bind; [apply mild_token|]; intros token; apply mild_bind; [apply mild_http|]; intros resp;
     destruct (_raise_on_error resp path) as [e|] eqn:E; [|apply mild_ret]).
  - apply mild_raise. by eapply He.
  - destruct (is_transient e); [|apply mild_raise; by eapply He]. apply mild_bind; [apply mild_sleep|]. intros _. apply IH.
Qed.

Lemma mild_encrypt i x : mild (encrypt_webhook_secret self i x).
Proof.
  unfold encrypt_webhook_secret, encrypt_data, webhook_failure.
  apply mild_except; [|intros e; auto with mild]. apply mild_bind; [apply mild_request|auto with mild].
Qed.

Lemma mild_decrypt i x : mild (decrypt_webhook_secret self i x).
Proof.
  unfold decrypt_webhook_secret, decrypt_data, webhook_failure.
  apply mild_except; [|intros e; auto with mild]. apply mild_bind; [apply mild_request|auto with mild].
Qed.

Lemma harmless_with_auth {A} c (p : bao A) : mild p → harmless (with_auth c p).
Proof.
  intros Hp. eapply tame_bind; [apply Hp|]. intros [[e|a] c'] He; [exact He|done].
Qed.
End raising.

Lemma rely_with_auth `{TransitServer} (R : state → state → Prop) `{!PreOrder R} s {A} c (p : bao A) Φ :
  bao_relies R s p Φ → rely R s (with_auth c p) Φ.
Proof.
  intros Hp. eapply rely_bind; [done|apply Hp|]. intros [[e|a] c'] s' Hs' Ha; [done|]. exact Ha.
Qed.

(** The client keeps what its users rely on. *)
#[export] Instance transit_manager_laws `{TransitServer} self c : TransitLaws (transit_manager self c).
Proof.
  refine {| later := ts_later;
            opens := λ r i ct x, ts_opens r WEBHOOK_SECRET_KEY (Some (uuid_str i)) ct (b64_text x) |}.
  - intros r r' i ct x. apply ts_opens_later.
  - intros r i ct x y Hx Hy. pose proof (ts_opens_once _ _ _ _ _ _ Hx Hy) as E.
    pose proof (b64_read_text x) as Ex. rewrite E, b64_read_text in Ex. congruence.
  - intros r i ct x. apply ts_ciphertext.
  - intros R HR HO s i x. apply rely_with_auth; [done|]. apply bao_relies_except; [done|by apply relies_encrypt|].
    intros e s' _. apply bao_relies_raise.
  - intros R HR HO s i ct x Ho. apply rely_with_auth; [done|].
    apply bao_relies_except; [done|by apply relies_decrypt|]. intros e s' _. apply bao_relies_raise.
  - intros i x. apply harmless_with_auth, mild_encrypt.
  - intros i ct. apply harmless_with_auth, mild_decrypt.
Defined.

(** ** A Transit engine that marks what it was given *)

Definition marking_transit : HttpServer := {|
  http_request := λ req r,
    match hq_json req with
    | Some (JObj ((k, JStr v) :: _)) =>
        if (k =? "plaintext")%string then
          (inr (mkHttpResponse 200 (Some (JObj [("data", JObj [("ciphertext", JStr ("vault:v1:" +:+ v))])]%string)) "OK"), r)
        else (inr (mkHttpResponse 200 (Some (JObj [("data", JObj [("plaintext", JStr (str_drop 9 v))])]%string)) "OK"), r)
    | _ => (inr (mkHttpResponse 404 None "Not Found"), r)
    end
|}.

#[export] Instance marking_transit_server : TransitServer (H := marking_transit).
Proof.
  refine {| ts_later := λ _ _, True; ts_opens := λ _ _ _ c p, c = "vault:v1:" +:+ p |}.
  - done.
  - done.
  - intros req r e. cbn. repeat case_match; done.
  - done.
  - intros r key ctx c p p' -> E. cbn in E. by simplify_eq.
  - by intros r key ctx c p ->.
  - intros r tok key ctx p resp c. cbn. intros [= <-]. unfold transit_field. cbn. intros [= <-]. done.
  - intros r tok key ctx c p resp p' ->. cbn. intros [= <-]. unfold transit_field. cbn. by intros [= <-].
Defined.
