(* ===== verification/OrgConfig.v ===== *)
(** core/org_config.py, services/org_config_service.py and what they read of
    schemas/organization_config.py: an organization's settings, from the cache or from
    OpenBao. *)
From Stdlib Require Import QArith.
From S2P Require Import Prelude Errors Data Effects Json OpenBao.
Open Scope Z_scope.

(** * schemas/organization_config.py *)

(** The fields other parts read; the others stay with Pydantic. *)
Record OrgConfigBase := mkOrgConfigBase {
  blob_storage_backend : option string;
  s3_endpoint_url : option string;
  s3_region : option string;
  s3_access_key_id : option string;
  s3_secret_access_key : option string;
  s3_bucket_name : option string;
  max_blob_size_mb : option Z;
  pii_mode : option string;
  pii_sensitivity : option string;
  pii_enabled_types : option (list string);
  pii_min_confidence : option Q;
  other_fields : list (string * json);
}.

Definition model_fields : list string :=
  ["llm_backend"; "llm_model"; "llm_temperature"; "llm_max_tokens"; "openai_api_key"; "azure_openai_endpoint";
   "azure_openai_key"; "anthropic_api_key"; "ollama_base_url"; "openai_like_base_url"; "llm_fact_invalidation_enabled";
   "prompt_caching"; "graph_backend"; "graph_search_type"; "graph_max_traversal_depth"; "surrealdb_url"; "surrealdb_user";
   "surrealdb_pass"; "surrealdb_namespace"; "surrealdb_database"; "falkordb_url"; "context_cache_ttl";
   "audit_log_response_body"; "reranker_backend"; "reranker_model"; "reranker_top_k"; "reranker_top_n"; "cohere_api_key";
   "blob_storage_backend"; "s3_endpoint_url"; "s3_region"; "s3_access_key_id"; "s3_secret_access_key"; "s3_bucket_name";
   "max_blob_size_mb"; "image_extraction"; "pii_mode"; "pii_sensitivity"; "pii_enabled_types"; "pii_min_confidence"]%string.

(** Pydantic's part: the validation of a dict and of a JSON text, with the fields that fail
    ([loc[0]] of each error, none where it is empty), and the JSON of a configuration. *)
Class OrgConfigSchema := {
  oc_validate : list (string * json) → list string + OrgConfigBase;
  oc_validate_json : string → list string + OrgConfigBase;
  oc_dump_json : OrgConfigBase → string;
}.

(** The keys [to_blob_storage_config] sets. *)
Record StorageOverrides := mkStorageOverrides {
  ov_backend : option string;
  ov_endpoint_url : option string;
  ov_region : option string;
  ov_access_key_id : option string;
  ov_secret_access_key : option string;
  ov_bucket_name : option string;
  ov_max_blob_size_mb : option Z;
}.
Definition to_blob_storage_config (c : OrgConfigBase) : StorageOverrides :=
  mkStorageOverrides (blob_storage_backend c) (s3_endpoint_url c) (s3_region c) (s3_access_key_id c)
    (s3_secret_access_key c) (s3_bucket_name c) (max_blob_size_mb c).

(** * core/org_config.py *)

Definition ORG_CONFIG_CACHE_TTL : Z := 300.
Definition CACHE_KEY_PREFIX : string := "org_config".
Definition build_cache_key (org_id : uuid) : string := CACHE_KEY_PREFIX +:+ ":" +:+ uuid_str org_id.

Fixpoint distinct_sorted (l : list string) : list string :=
  match l with
  | a :: ((b :: _) as r) => if (a =? b)%string then distinct_sorted r else a :: distinct_sorted r
  | _ => l
  end.
Definition _invalid_field_names (locs : list string) : list string := distinct_sorted (Prelude.sort_by String.leb locs).

(** A Pydantic [ValidationError] is a [ValueError]. *)
Definition pydantic_error : exn := ValueError "validation error for OrgConfigBase".

(** No stored configuration: every field unset, the backend falkordb. *)
Definition unset_fields : list (string * json) :=
  obj_set "graph_backend" (JStr "falkordb") (map (λ name, (name, JNull)) model_fields).

Definition with_backend (raw : list (string * json)) : list (string * json) :=
  if truthy (dict_get "graph_backend" raw) then raw else obj_set "graph_backend" (JStr "falkordb") raw.

Definition invalid_message (fields : list string) : string :=
  "Stored org config failed validation in field(s): "
  +:+ (match fields with [] => "unknown" | _ => String.concat ", " fields end)
  +:+ ". Fix via PATCH /admin/org/config.".

Section org_config.
Context `{HttpServer} `{OrgConfigSchema}.

Definition of_stored (raw : list (string * json)) : exn + OrgConfigBase :=
  match raw with
  | [] => match oc_validate unset_fields with inl _ => inl pydantic_error | inr c => inr c end
  | _ =>
      match oc_validate (with_backend raw) with
      | inl locs => inl (AppExc ValidationError (invalid_message (_invalid_field_names locs)))
      | inr c => inr c
      end
  end.

(** What the cache answers; a poisoned entry is dropped. *)
Definition cached_config (org_id : uuid) : prog (option OrgConfigBase) :=
  try_except
    (cached ← redis (ks_get (build_cache_key org_id));
     match cached with
     | None | Some EmptyString => Ret None
     | Some text =>
         match oc_validate_json text with
         | inr c => Ret (Some c)
         | inl _ => _ ← try_except (_ ← redis (ks_delete [build_cache_key org_id]); Ret tt) is_exception (λ _, Ret tt); Ret None
         end
     end) is_exception (λ _, Ret None).

(** [bao_client] is the OpenBao client with its login; [cache]: there is a Redis client. *)
Definition get_org_config (org_id : uuid) (cache : bool) (bao_client : option (OpenBaoClient * auth)) (skip_cache : bool) :
    prog OrgConfigBase :=
  match bao_client with
  | None => Throw (OpenBaoExc OpenBaoConnectionError "OpenBao client required for org config reads")
  | Some (bao, c) =>
      hit ← if negb skip_cache && cache then cached_config org_id else Ret None;
      match hit with
      | Some cfg => Ret cfg
      | None =>
          raw ← with_auth c (read_org_config bao org_id);
          org_config ← lift (of_stored raw);
          _ ← if negb skip_cache && cache then
                try_except (redis (ks_setex (build_cache_key org_id) ORG_CONFIG_CACHE_TTL (oc_dump_json org_config)))
                  is_exception (λ _, Ret tt)
              else Ret tt;
          Ret org_config
      end
  end.

Lemma get_org_config_steps R org_id cache bao_client skip_cache :
  keeps_tables R → steps_in R (get_org_config org_id cache bao_client skip_cache).
Proof.
  intros HR. destruct bao_client as [[bao c]|]; [|done]. unfold get_org_config, cached_config.
  apply steps_in_bind; [stepping|]. intros [cfg|]; [done|].
  apply steps_in_bind; [by apply with_auth_steps, read_org_config_steps|]. intros raw. stepping.
Qed.

Definition update_org_config (org_id : uuid) (update_dict : list (string * json)) (bao : OpenBaoClient) (c : auth) (cache : bool) :
    prog OrgConfigBase :=
  existing ← with_auth c (read_org_config bao org_id);
  _ ← with_auth c (write_org_config bao org_id (obj_update update_dict existing));
  _ ← if cache then try_except (_ ← redis (ks_delete [build_cache_key org_id]); Ret tt) is_exception (λ _, Ret tt) else Ret tt;
  get_org_config org_id cache (Some (bao, c)) true.

(** * services/org_config_service.py *)

Definition get_config (org_id : uuid) (bao : OpenBaoClient) (c : auth) (cache : bool) : prog OrgConfigBase :=
  get_org_config org_id cache (Some (bao, c)) false.
Definition get_config_response : uuid → OpenBaoClient → auth → bool → prog OrgConfigBase := get_config.
Definition update_config (org_id : uuid) (payload : list (string * json)) (bao : OpenBaoClient) (c : auth) (cache : bool) :
    prog OrgConfigBase := update_org_config org_id payload bao c cache.
End org_config.
