(* ===== verification/Webhooks.v ===== *)
(** services/webhook_service.py, repositories/webhook_repository.py and
    services/worker/tasks/deliver_webhook.py: webhook endpoints, the signed deliveries
    that are queued for an event, and their attempts. *)
From S2P Require Import Prelude Errors Data Effects Concurrent Secrets Json Cursor OpenBao Idempotency.
Open Scope Z_scope.

(** HMAC-SHA256 in hexadecimal, of a key and a message. *)
Class Hmac := { hmac_hexdigest : string → string → string }.

(** [secrets.token_urlsafe(43)]. *)
Definition token_urlsafe_43 : prog string :=
  z ← call (Draw (256 ^ 43)); Ret (rstrip_by is_pad (b64encode (bytes_of 43 z))).

(** * core/queue_names.py *)

Definition QUEUE_TYPES : list string := ["high"; "low"]%string.
Definition get_queue_name (env queue_type : string) : exn + string :=
  if negb (bool_decide (queue_type ∈ QUEUE_TYPES)) then inl (ValueError "queue_type must be 'high' or 'low'")
  else inr ("OpenZync:" +:+ env +:+ ":queue:" +:+ queue_type).

Definition ARQ_WEBHOOK_QUEUE : string := "low".

(** * The repository *)

Definition with_secret (c : option string) (e : WebhookEndpoint) : WebhookEndpoint :=
  mkWebhookEndpoint (we_id e) (we_organization_id e) (we_name e) (we_url e) (we_events e) (we_is_active e) c
    (we_last_delivery_at e) (we_created_at e).

(** The fields [update] accepts; [None] is a field that is not given. *)
Record EndpointUpdate := mkEndpointUpdate {
  up_name : option string;
  up_url : option string;
  up_events : option (list string);
  up_is_active : option bool;
  up_last_delivery_at : option (option Z);
  up_signing_secret : option string;
}.

Section webhooks.
Context `{Orjson} `{Hmac} `{Deployment}.

Definition dump_events (l : list string) : string := orjson_dumps (JList (map JStr l)).

Definition updated (u : EndpointUpdate) (e : WebhookEndpoint) : WebhookEndpoint :=
  mkWebhookEndpoint (we_id e) (we_organization_id e) (default (we_name e) (up_name u)) (default (we_url e) (up_url u))
    (match up_events u with Some l => dump_events l | None => we_events e end)
    (default (we_is_active e) (up_is_active u))
    (match up_signing_secret u with Some c => Some c | None => we_signing_secret e end)
    (default (we_last_delivery_at e) (up_last_delivery_at u)) (we_created_at e).

Definition no_update (u : EndpointUpdate) : bool :=
  match u with mkEndpointUpdate None None None None None None => true | _ => false end.

Definition has_id (id : uuid) (e : WebhookEndpoint) : bool := we_id e =? id.

Definition get_by_id (id : uuid) : prog (option WebhookEndpoint) :=
  l ← call (Select webhook_endpoints (has_id id)); scalar_one_or_none l.

Definition create (organization_id : uuid) (name url : string) (events : option (list string))
    (signing_secret : option string) (endpoint_id : option uuid) : prog WebhookEndpoint :=
  id ← match endpoint_id with Some i => Ret i | None => uuid4 end;
  now ← call Now;
  let e := mkWebhookEndpoint id organization_id name url (dump_events (default [] events)) true signing_secret None now in
  _ ← call (Insert webhook_endpoints (no_arbiter webhook_endpoints) [e]);
  Ret e.

Definition update (id : uuid) (u : EndpointUpdate) : prog (option WebhookEndpoint) :=
  if no_update u then get_by_id id
  else _ ← call (Update webhook_endpoints (has_id id) (updated u)); get_by_id id.

Definition delete (id : uuid) : prog bool :=
  e ← get_by_id id;
  match e with
  | None => Ret false
  | Some e => _ ← call (Delete webhook_endpoints (has_id (we_id e))); Ret true
  end.

Definition unset (id : uuid) (e : WebhookEndpoint) : bool :=
  has_id id e && bool_decide (we_signing_secret e = None).
Definition set_signing_secret_if_null (id : uuid) (secret : string) : prog Z :=
  call (Update webhook_endpoints (unset id) (with_secret (Some secret))).

(** A row the session holds already keeps the attributes it was loaded with, and an
    UPDATE sets them in every held row its WHERE clause matches as it was loaded. *)
Definition synchronized (secret : string) (e : WebhookEndpoint) : WebhookEndpoint :=
  if unset (we_id e) e then with_secret (Some secret) e else e.
Definition get_held (e : WebhookEndpoint) : prog (option WebhookEndpoint) :=
  found ← get_by_id (we_id e); Ret (option_map (λ _, e) found).

(** [event_type in subscribed] of a decoded value. *)
Definition is_member (event_type : string) (j : json) : exn + bool :=
  match j with
  | JList l => inr (existsb (λ v, match v with JStr s => (s =? event_type)%string | _ => false end) l)
  | JObj l => inr (existsb (λ kv, (kv.1 =? event_type)%string) l)
  | JStr s => inr (str_contains event_type s)
  | _ => inl (TypeError "argument is not iterable")
  end.

Definition _endpoint_subscribes_to (e : WebhookEndpoint) (event_type : string) : exn + bool :=
  match orjson_loads (we_events e) with
  | None => inr false
  | Some subscribed => if negb (truthy subscribed) then inr true else is_member event_type subscribed
  end.

Fixpoint subscribers (event_type : string) (l : list WebhookEndpoint) : exn + list WebhookEndpoint :=
  match l with
  | [] => inr []
  | e :: r =>
      match _endpoint_subscribes_to e event_type with
      | inl x => inl x
      | inr b => match subscribers event_type r with inl x => inl x | inr es => inr (if b then e :: es else es) end
      end
  end.

Definition get_active_endpoints_for_event (organization_id : uuid) (event_type : string) : prog (list WebhookEndpoint) :=
  _ ← call (SetTenant (Some organization_id));
  l ← call (Select webhook_endpoints (λ e, (we_organization_id e =? organization_id) && we_is_active e));
  lift (subscribers event_type l).

(** * The service *)

(** [str(int(time.time()))], signed together with the body. *)
Definition sign_with (secret timestamp body : string) : string :=
  "t=" +:+ timestamp +:+ ",v1=" +:+ hmac_hexdigest (utf8_encode secret) (utf8_encode (timestamp +:+ "." +:+ body)).
Definition sign_payload (secret body : string) : prog string :=
  now ← call Now; Ret (sign_with secret (str_of_Z (Z.quot now us_per_s)) body).

(** The response of the API: every column but the secret. *)
Record EndpointView := mkEndpointView {
  ev_id : string; ev_organization_id : string; ev_name : string; ev_url : string; ev_events : json;
  ev_is_active : bool; ev_last_delivery_at : option string; ev_created_at : string;
}.
Definition _serialize (e : WebhookEndpoint) : EndpointView :=
  mkEndpointView (uuid_str (we_id e)) (uuid_str (we_organization_id e)) (we_name e) (we_url e)
    (if (we_events e =? "")%string then JList [] else default (JList []) (orjson_loads (we_events e)))
    (we_is_active e) (option_map isoformat_utc (we_last_delivery_at e)) (isoformat_utc (we_created_at e)).

(** The service is wired with Transit and a queue, or not. *)
Context (_transit : option TransitManager) (arq : bool).

Definition is_external (e : exn) : bool :=
  match e with AppExc k _ => app_isinstance k ExternalServiceError | _ => false end.

Definition _encrypt_secret (endpoint_id : uuid) (secret : string) : prog string :=
  match _transit with
  | None => Throw (AppExc ExternalServiceError "Webhook signing requires Transit encryption, but no TransitManager is wired (OpenBao client missing).")
  | Some t =>
      try_except (tm_encrypt t endpoint_id secret) (λ e, is_exception e && negb (is_external e))
        (λ _, Throw (AppExc ExternalServiceError "Webhook secret encryption failed."))
  end.

Definition _decrypt_secret_value (endpoint_id : uuid) (raw : option string) : prog (option string) :=
  match raw with
  | None | Some EmptyString => Ret None
  | Some c =>
      if negb (_is_transit_ciphertext c) then Ret (Some c)
      else match _transit with
           | None => Ret None
           | Some t => try_except (x ← tm_decrypt t endpoint_id c; Ret (Some x)) is_exception (λ _, Ret None)
           end
  end.

(** [if not endpoint or endpoint.organization_id != organization_id]. *)
Definition owned (endpoint_id organization_id : uuid) : prog (option WebhookEndpoint) :=
  e ← get_by_id endpoint_id;
  Ret match e with
      | Some e => if we_organization_id e =? organization_id then Some e else None
      | None => None
      end.

Definition get_endpoint (endpoint_id organization_id : uuid) : prog (option EndpointView) :=
  e ← owned endpoint_id organization_id; Ret (option_map _serialize e).

Definition create_endpoint (organization_id : uuid) (name url : string) (events : option (list string)) :
    prog (EndpointView * string) :=
  signing_secret ← token_urlsafe_43;
  endpoint_id ← uuid4;
  ciphertext ← _encrypt_secret endpoint_id signing_secret;
  e ← create organization_id name url events (Some ciphertext) (Some endpoint_id);
  Ret (_serialize e, signing_secret).

Definition only_secret (c : string) : EndpointUpdate := mkEndpointUpdate None None None None None (Some c).
Definition only_active (b : bool) : EndpointUpdate := mkEndpointUpdate None None None (Some b) None None.

Definition rotate_endpoint_secret (endpoint_id organization_id : uuid) : prog (option string) :=
  e ← owned endpoint_id organization_id;
  match e with
  | None => Ret None
  | Some _ =>
      new_secret ← token_urlsafe_43;
      ciphertext ← _encrypt_secret endpoint_id new_secret;
      _ ← update endpoint_id (only_secret ciphertext);
      Ret (Some new_secret)
  end.

(** A secret among the updates is plaintext. *)
Definition update_endpoint (endpoint_id organization_id : uuid) (u : EndpointUpdate) : prog (option EndpointView) :=
  e ← owned endpoint_id organization_id;
  match e with
  | None => Ret None
  | Some _ =>
      secret ← match up_signing_secret u with
               | Some raw => c ← _encrypt_secret endpoint_id raw; Ret (Some c)
               | None => Ret None
               end;
      e' ← update endpoint_id (mkEndpointUpdate (up_name u) (up_url u) (up_events u) (up_is_active u)
                                 (up_last_delivery_at u) secret);
      Ret (option_map _serialize e')
  end.

Definition toggle_endpoint (endpoint_id organization_id : uuid) (is_active : bool) : prog (option EndpointView) :=
  e ← owned endpoint_id organization_id;
  match e with
  | None => Ret None
  | Some _ => e' ← update endpoint_id (only_active is_active); Ret (option_map _serialize e')
  end.

Definition delete_endpoint (endpoint_id organization_id : uuid) : prog bool :=
  e ← owned endpoint_id organization_id;
  match e with None => Ret false | Some _ => delete endpoint_id end.

(** ** Emission *)

(** The secret a delivery is signed with; [None] skips the endpoint. *)
Definition backfill (e : WebhookEndpoint) : prog (option string) :=
  match _transit with
  | None => Ret None
  | Some _ =>
      raw ← token_urlsafe_43;
      stored ← _encrypt_secret (we_id e) raw;
      n ← set_signing_secret_if_null (we_id e) stored;
      if n =? 0 then
        refreshed ← get_held (synchronized stored e);
        match refreshed with
        | Some r => _decrypt_secret_value (we_id e) (we_signing_secret r)
        | None => Ret None
        end
      else Ret (Some raw)
  end.

Definition signing_key (e : WebhookEndpoint) : prog (option string) :=
  match we_signing_secret e with
  | Some stored => if (stored =? "")%string then backfill e else _decrypt_secret_value (we_id e) (Some stored)
  | None => backfill e
  end.

(** The job of one delivery: queue, endpoint, address, body, event and signature. *)
Definition delivery_job (queue_name id url body event_type signature : string) : event :=
  Effect "deliver_webhook" [queue_name; id; url; body; event_type; signature].

Definition _enqueue_one (queue_name event_type body : string) (e : WebhookEndpoint) : prog unit :=
  key ← signing_key e;
  match key with
  | None => Ret tt
  | Some secret =>
      signature ← sign_payload secret body;
      call (Emit (delivery_job queue_name (uuid_str (we_id e)) (we_url e) body event_type signature))
  end.

Definition event_body (event_type : string) (payload : option json) : string :=
  orjson_dumps (JObj [("type", JStr event_type); ("payload", default (JObj []) payload)]%string).

(** [turns]: how the event loop schedules the deliveries of this event. *)
Definition fan_out (turns : list nat) (organization_id : uuid) (event_type : string) (payload : option json) : prog unit :=
  endpoints ← get_active_endpoints_for_event organization_id event_type;
  match endpoints with
  | [] => Ret tt
  | _ =>
      if negb arq then Throw (RuntimeError "ARQ pool has not been initialised")
      else queue_name ← lift (get_queue_name ENVIRONMENT ARQ_WEBHOOK_QUEUE);
           _ ← gather turns (map (_enqueue_one queue_name event_type (event_body event_type payload)) endpoints);
           Ret tt
  end.

Definition emit (turns : list nat) (organization_id : uuid) (event_type : string) (payload : option json) : prog bool :=
  try_except (_ ← fan_out turns organization_id event_type payload; Ret true) is_exception (λ _, Ret false).
End webhooks.

(** * Delivery *)

(** What an address answers to a POST: a status and a text, or an exception of [httpx];
    and the text of an exception. [Retry] is ARQ's own. *)
Class Consumer := {
  consumer_post : string → string → list (string * string) → remote → (exn + Z * string) * remote;
  exception_text : exn → string;
  consumer_raises url body hs r d : (consumer_post url body hs r).1 ≠ inl (Retry d);
}.

Definition MAX_ATTEMPTS : Z := 5.

Section delivery.
Context `{Consumer}.

Definition _log_delivery (endpoint_id event_type : string) (attempt : Z) (status_code : option Z) (success : bool)
    (error : option string) : prog unit :=
  try_except
    (eid ← lift (match uuid_parse endpoint_id with Some u => inr u | None => inl (ValueError "badly formed hexadecimal UUID string") end);
     id ← uuid4;
     _ ← call (Insert webhook_delivery_logs (no_arbiter webhook_delivery_logs)
                 [mkWebhookDeliveryLog id eid event_type attempt status_code success error]);
     call Commit) is_exception (λ _, Ret tt).

Definition headers (signature : string) (attempt : Z) (event_type : string) : list (string * string) :=
  [("Content-Type", "application/json"); ("X-Webhook-Signature", signature);
   ("X-Webhook-Attempt", str_of_Z attempt); ("X-Webhook-Event", event_type);
   ("User-Agent", "OpenZync-Webhook/1.0")]%string.

(** What an attempt ends with: the columns of its log row, and what it raises. *)
Record verdict := mkVerdict { vd_status : option Z; vd_success : bool; vd_error : option string; vd_raises : option exn }.

Definition again (attempt : Z) : option exn :=
  if attempt <? MAX_ATTEMPTS then Some (Retry (2 ^ (attempt - 1) * us_per_s)) else None.

Definition judge (attempt : Z) (r : exn + Z * string) : verdict :=
  match r with
  | inr (st, text) =>
      let success := (200 <=? st) && (st <? 300) in
      if success then mkVerdict (Some st) true None None
      else if (400 <=? st) && (st <? 500) then
        mkVerdict (Some st) false (Some ("HTTP " +:+ str_of_Z st +:+ ": " +:+ str_take 200 text)) None
      else if (500 <=? st) && (attempt <? MAX_ATTEMPTS) then
        mkVerdict (Some st) false (Some ("HTTP " +:+ str_of_Z st)) (again attempt)
      else mkVerdict (Some st) false (Some ("HTTP " +:+ str_of_Z st +:+ " (final)")) None
  | inl e =>
      match e with
      | HttpxError TimeoutException => mkVerdict None false (Some ("Timeout: " +:+ exception_text e)) (again attempt)
      | HttpxError _ => mkVerdict None false (Some ("Network error: " +:+ exception_text e)) (again attempt)
      | _ => mkVerdict None false None (Some e)
      end
  end.

Definition deliver_webhook (job_try : Z) (endpoint_id endpoint_url body event_type signature : string) : prog unit :=
  r ← catch (x ← call (Remote (consumer_post endpoint_url body (headers signature job_try event_type))); Ret (inr x))
        (λ e, Ret (inl e));
  let v := judge job_try r in
  _ ← _log_delivery endpoint_id event_type job_try (vd_status v) (vd_success v) (vd_error v);
  match vd_raises v with Some e => Throw e | None => Ret tt end.

(** [TASK_MAX_TRIES], and what ARQ does with a job: one that raises [Retry] runs again
    after its delay, with [job_try] one higher, up to [max_tries]; the result is the
    last try's. *)
Definition TASK_MAX_TRIES : Z := MAX_ATTEMPTS.

Fixpoint arq_job (left : nat) (job_try : Z) (task : Z → prog unit) : prog unit :=
  try_except (task job_try) (λ e, match e with Retry _ => true | _ => false end)
    (λ e, match left, e with
          | S n, Retry defer => _ ← call (Sleep defer); arq_job n (job_try + 1) task
          | _, _ => Throw e
          end).

Definition delivery (endpoint_id endpoint_url body event_type signature : string) : prog unit :=
  arq_job (Z.to_nat (TASK_MAX_TRIES - 1)) 1
    (λ n, deliver_webhook n endpoint_id endpoint_url body event_type signature).
End delivery.

(** * Theorems on signatures *)

Abbreviation endpoints_of s := (st_db s webhook_endpoints).

Inductive WebhookRequest :=
| Emission (turns : list nat) (organization_id : uuid) (event_type : string) (payload : option json)
| Creation (organization_id : uuid) (name url : string) (events : option (list string)).

Section signatures.
Context `{Orjson} `{Hmac} `{Deployment} (t : TransitManager) `{!TransitLaws t} (arq : bool).
Context (s0 : state) (requests : list WebhookRequest).

Definition serve (r : WebhookRequest) : prog (bool + EndpointView * string) :=
  match r with
  | Emission turns o event_type payload => b ← emit (Some t) arq turns o event_type payload; Ret (inl b)
  | Creation o name url events => x ← create_endpoint (Some t) o name url events; Ret (inr x)
  end.

(** An endpoint without a secret of its own: a row older than the column. *)
Definition secretless (e : WebhookEndpoint) : Prop := we_signing_secret e = None ∨ we_signing_secret e = Some ""%string.
Definition legacy (id : uuid) : Prop := ∃ e, e ∈ endpoints_of s0 ∧ we_id e = id ∧ secretless e.

(** [x] is the plaintext of the secret that is stored for the endpoint. *)
Definition secret_of (s : state) (e : WebhookEndpoint) (x : string) : Prop :=
  ∃ c, we_signing_secret e = Some c ∧
    if _is_transit_ciphertext c then opens (st_remote s) (we_id e) c x else x = c.

(** Every stored ciphertext was made for its endpoint. *)
Definition sealed (s : state) (e : WebhookEndpoint) : Prop :=
  ∀ c, we_signing_secret e = Some c → _is_transit_ciphertext c = true → ∃ x, opens (st_remote s) (we_id e) c x.
Definition well_sealed (s : state) : Prop := Forall (sealed s) (endpoints_of s).

(** What a queued delivery must be: an event of one of the requests, for an active
    subscribed endpoint of its organization, signed with the endpoint's secret. *)
Definition rightly_queued (s : state) (ev : event) : Prop :=
  ∀ queue id url body event_type signature,
    ev = delivery_job queue id url body event_type signature →
    ∃ e turns payload secret timestamp,
      e ∈ endpoints_of s ∧ id = uuid_str (we_id e) ∧ url = we_url e ∧ we_is_active e = true ∧
      _endpoint_subscribes_to e event_type = inr true ∧
      Emission turns (we_organization_id e) event_type payload ∈ requests ∧
      body = event_body event_type payload ∧ signature = sign_with secret timestamp body ∧
      (secret_of s e secret ∨ legacy (we_id e)).

(** ** The relation every step is in *)

Definition evolves (s' : state) (e e' : WebhookEndpoint) : Prop :=
  e' = e ∨ we_signing_secret e = None ∧
    ∃ c x, e' = with_secret (Some c) e ∧ opens (st_remote s') (we_id e) c x.
Definition fresh_row (s' : state) (e : WebhookEndpoint) : Prop :=
  ∃ c x, we_signing_secret e = Some c ∧ opens (st_remote s') (we_id e) c x.

Record grows (s s' : state) : Prop := {
  g_remote : later (st_remote s) (st_remote s');
  g_table : ∃ l news, endpoints_of s' = l ++ news ∧ Forall2 (evolves s') (endpoints_of s) l ∧ Forall (fresh_row s') news;
  g_out : ∃ evs, st_out s' = st_out s ++ evs ∧ Forall (rightly_queued s') evs;
}.

Lemma evolves_later s s' e e' : later (st_remote s) (st_remote s') → evolves s e e' → evolves s' e e'.
Proof. intros Hl [->|(He & c & x & -> & Ho)]; [by left|]. right. split; [done|]. exists c, x. split; [done|]. by eapply opens_later. Qed.

#[local] Instance evolves_preorder s : PreOrder (evolves s).
Proof.
  split; [by left|]. intros e e' e''.
  intros [->|(He & c & x & -> & Ho)] [->|(He' & c' & x' & -> & Ho')]; [by left|right; eauto|right; eauto|done].
Qed.

Lemma fresh_later s s' e : later (st_remote s) (st_remote s') → fresh_row s e → fresh_row s' e.
Proof. intros Hl (c & x & He & Ho). exists c, x. split; [done|]. by eapply opens_later. Qed.

Lemma fresh_evolves s e e' : evolves s e e' → fresh_row s e → fresh_row s e'.
Proof. intros [->|(He & _)] Hf; [done|]. destruct Hf as (c & x & Hc & _). congruence. Qed.

(** A row of an earlier state is still there, with the secret it had. *)
Lemma row_stays s s' e : grows s s' → e ∈ endpoints_of s → ∃ e', e' ∈ endpoints_of s' ∧ evolves s' e e'.
Proof.
  intros [_ (l & news & -> & Hl & _) _] He. apply list_elem_of_lookup_1 in He as [i Hi].
  eapply Forall2_lookup_l in Hl as (e' & Hi' & Hev); [|exact Hi]. exists e'. split; [|done].
  apply elem_of_app. left. by eapply list_elem_of_lookup_2.
Qed.

Lemma secret_stays s s' e e' x :
  later (st_remote s) (st_remote s') → evolves s' e e' → secret_of s e x → secret_of s' e' x.
Proof.
  intros Hl [->|(He & _)] (c & Hc & Hx); [|congruence]. exists c. split; [done|].
  destruct (_is_transit_ciphertext c); [by eapply opens_later|done].
Qed.

Lemma queued_stays s s' ev :
  later (st_remote s) (st_remote s') → (∀ e, e ∈ endpoints_of s → ∃ e', e' ∈ endpoints_of s' ∧ evolves s' e e') →
  rightly_queued s ev → rightly_queued s' ev.
Proof.
  intros Hl Hrow Hq queue id url body et sig Eev.
  destruct (Hq _ _ _ _ _ _ Eev) as (e & turns & payload & secret & ts & He & -> & -> & Ha & Hs & Hr & -> & -> & Hk).
  destruct (Hrow e He) as (e' & He' & Hev). exists e', turns, payload, secret, ts.
  assert (we_id e' = we_id e ∧ we_url e' = we_url e ∧ we_is_active e' = we_is_active e ∧
          we_events e' = we_events e ∧ we_organization_id e' = we_organization_id e) as (-> & -> & -> & Ee & ->)
    by (destruct Hev as [->|(_ & c & x & -> & _)]; done).
  split_and!; try done; [unfold _endpoint_subscribes_to in *; by rewrite Ee|].
  destruct Hk as [Hk|Hk]; [left; by eapply secret_stays|by right].
Qed.

#[export] Instance grows_preorder : PreOrder grows.
Proof.
  split.
  - intros s. split; [done| |].
    + by exists (endpoints_of s), []; rewrite app_nil_r.
    + exists []. by rewrite app_nil_r.
  - intros s s1 s2 G1 G2. pose proof G2 as [L2 (l2 & n2 & E2 & F2 & N2) (ev2 & O2 & Q2)].
    destruct G1 as [L1 (l1 & n1 & E1 & F1 & N1) (ev1 & O1 & Q1)]. split; [by etrans| |].
    + rewrite E1 in F2. apply Forall2_app_inv_l in F2 as (k1 & k2 & Fk1 & Fk2 & ->).
      exists k1, (k2 ++ n2). split_and!; [by rewrite E2, app_assoc| |].
      * etrans; [|exact Fk1]. eapply Forall2_impl; [exact F1|]. intros x y. by apply evolves_later.
      * apply Forall_app. split; [|done]. rewrite Forall_forall in *. intros e He.
        apply list_elem_of_lookup_1 in He as [i Hi].
        eapply Forall2_lookup_r in Fk2 as (e0 & Hi0 & Hev); [|exact Hi].
        eapply fresh_evolves; [exact Hev|]. eapply fresh_later; [exact L2|]. apply N1. by eapply list_elem_of_lookup_2.
    + exists (ev1 ++ ev2). rewrite O2, O1, app_assoc. split; [done|]. apply Forall_app. split; [|done].
      eapply Forall_impl; [exact Q1|]. intros ev. apply queued_stays; [done|]. intros e. by apply row_stays.
Qed.

#[export] Instance grows_outside : Outside later grows.
Proof.
  split; [|by intros s s' []]. intros s d r Hd Hr. split; [done| |].
  - by exists (endpoints_of s), []; rewrite app_nil_r.
  - exists []. by rewrite app_nil_r.
Qed.

(** A step that leaves the endpoints, the services and the queue alone. *)
Lemma grows_same s s' :
  st_remote s' = st_remote s → endpoints_of s' = endpoints_of s → st_out s' = st_out s → grows s s'.
Proof.
  intros Er Et Eo. split.
  - by rewrite Er.
  - exists (endpoints_of s), []. rewrite app_nil_r. split_and!; done.
  - exists []. by rewrite app_nil_r.
Qed.

Lemma grows_time s d : 0 ≤ d → grows s (op_sem (Sleep d) s).2.
Proof. intros Hd. by apply grows_same. Qed.

(** What holds of every endpoint, and stays. *)
Definition row_fine (s : state) (e : WebhookEndpoint) : Prop := sealed s e ∧ (secretless e → legacy (we_id e)).
Definition rows_fine (s : state) : Prop := ∀ e, e ∈ endpoints_of s → row_fine s e.

Lemma row_fine_evolves s s' e e' :
  later (st_remote s) (st_remote s') → evolves s' e e' → row_fine s e → row_fine s' e'.
Proof.
  intros Hl [->|(He & c & x & -> & Ho)] [Hs Hleg].
  - split; [|done]. intros c Hc Hct. destruct (Hs c Hc Hct) as [x Hx]. exists x. by eapply opens_later.
  - split.
    + intros c' [= <-] _. by exists x.
    + intros _. apply Hleg. by left.
Qed.

Lemma row_fine_fresh s e : fresh_row s e → row_fine s e.
Proof.
  intros (c & x & Hc & Ho). split; [intros c' Hc' _; exists x; congruence|].
  apply opens_ciphertext in Ho. intros [E|E]; [congruence|]. assert (c = ""%string) as -> by congruence. done.
Qed.

Lemma rows_fine_later s s' : grows s s' → rows_fine s → rows_fine s'.
Proof.
  intros [Hl (l & news & E & Hev & Hn) _] Hs e He. rewrite E in He. apply elem_of_app in He as [He|He].
  - apply list_elem_of_lookup_1 in He as [i Hi]. eapply Forall2_lookup_r in Hev as (e0 & Hi0 & Hev); [|exact Hi].
    eapply row_fine_evolves; [exact Hl|exact Hev|]. apply Hs. by eapply list_elem_of_lookup_2.
  - rewrite Forall_forall in Hn. by apply row_fine_fresh, Hn.
Qed.

(** ** The operations *)

(** An endpoint as it was read. *)
Definition known (s : state) (e : WebhookEndpoint) : Prop :=
  row_fine s e ∧ ∃ e', e' ∈ endpoints_of s ∧ evolves s e e'.

Lemma known_later s s' e : grows s s' → known s e → known s' e.
Proof.
  intros Hg [Hf (e' & He' & Hev)]. destruct (row_stays _ _ _ Hg He') as (e2 & He2 & Hev2).
  split; [eapply row_fine_evolves; [apply Hg|by left|exact Hf]|]. exists e2. split; [done|].
  etrans; [|exact Hev2]. eapply evolves_later; [apply Hg|exact Hev].
Qed.

Lemma known_row s e : rows_fine s → e ∈ endpoints_of s → known s e.
Proof. intros Hs He. split; [by apply Hs|]. exists e. split; [done|by left]. Qed.

Lemma rely_token s (Φ : string → state → Prop) : (∀ x s', grows s s' → Φ x s') → rely grows s token_urlsafe_43 Φ.
Proof.
  intros HΦ. apply rely_call. intros s' Hs'. split; [by apply grows_same|]. intros z _ s1 Hs1. apply HΦ.
  etrans; [exact Hs'|]. etrans; [|exact Hs1]. by apply grows_same.
Qed.

Lemma rely_encrypt s i x :
  rely grows s (_encrypt_secret (Some t) i x) (λ c s', opens (st_remote s') i c x).
Proof. apply rely_try; [apply _|apply encrypts; apply _|by intros e s' _]. Qed.

Lemma rely_decrypt s e c :
  row_fine s e → we_signing_secret e = Some c → c ≠ ""%string →
  rely grows s (_decrypt_secret_value (Some t) (we_id e) (Some c)) (λ k s', ∀ x, k = Some x → secret_of s' e x).
Proof.
  intros Hf Hc Hne. unfold _decrypt_secret_value. destruct c as [|a c]; [done|].
  destruct (_is_transit_ciphertext (a ::: c)) eqn:Ect; cbn [negb].
  - destruct Hf as [Hs _]. destruct (Hs _ Hc Ect) as [x Hx]. apply rely_try; [apply _| |by intros e' s' _ s1 _].
    eapply rely_bind; [apply _|apply decrypts; [apply _..|exact Hx]|].
    intros y s' Hs' Hy s1 Hs1 z [= <-]. exists (a ::: c). rewrite Ect. split; [done|]. rewrite (Hy _ Hs1).
    eapply opens_later; [|exact Hx]. by do 2 (etrans; [by eapply outside_later|]).
  - intros s' Hs' x [= <-]. exists (a ::: c). by rewrite Ect.
Qed.

(** Storing a ciphertext that opens, where there was none. *)
Lemma grows_backfill s id c x :
  opens (st_remote s) id c x → grows s (op_sem (Update webhook_endpoints (unset id) (with_secret (Some c))) s).2.
Proof.
  intros Ho. split; [done| |by exists []; rewrite app_nil_r]. cbn.
  exists (map (λ e, if unset id e then with_secret (Some c) e else e) (endpoints_of s)), [].
  rewrite app_nil_r. split_and!; [done| |done]. apply Forall2_fmap_r, Forall_Forall2_diag, Forall_forall. intros e He. unfold evolves, compose.
  destruct (unset id e) eqn:Eu; [|by left]. unfold unset, has_id in Eu.
  apply andb_true_iff in Eu as [<-%Z.eqb_eq En%bool_decide_eq_true]. right. split; [done|]. by exists c, x.
Qed.

Lemma rely_get_by_id s id : rely grows s (get_by_id id) (λ _ _, True).
Proof.
  apply rely_call. intros s' Hs'. split; [done|]. intros l _. by apply rely_scalar.
Qed.

Lemma takes_decrypt s id c :
  (_is_transit_ciphertext c = true → ∃ x, opens (st_remote s) id c x) →
  rely grows s (_decrypt_secret_value (Some t) id (Some c)) (λ _ _, True).
Proof.
  intros Hc. unfold _decrypt_secret_value. destruct c as [|a c]; [done|].
  destruct (_is_transit_ciphertext (a ::: c)); [|done]. destruct Hc as [x Hx]; [done|].
  apply rely_try; [apply _| |done]. eapply rely_bind; [apply _|apply decrypts; [apply _..|exact Hx]|done].
Qed.

Lemma rely_backfill s e : row_fine s e → rely grows s (backfill (Some t) e) (λ _ _, True).
Proof.
  intros Hf.
  eapply rely_bind; [apply _|by apply (rely_token s (λ _ _, True))|]. intros raw s1 Hs1 _.
  eapply rely_bind; [apply _|apply rely_encrypt|]. intros stored s2 Hs2 Ho.
  apply rely_call. intros s3 Hs3. split; [eapply grows_backfill; by apply Ho|]. intros n _.
  set (s4 := (op_sem _ s3).2). destruct (n =? 0); [|done].
  eapply rely_bind with (Φ := λ f _, ∀ r, f = Some r → r = synchronized stored e); [apply _| |].
  - eapply rely_bind; [apply _|apply rely_get_by_id|]. intros [f|] s5 _ _ s6 _ r; [|done]. by intros [= <-].
  - intros [r|] s5 Hs5 Hr; [|done]. rewrite (Hr s5 (reflexivity _) r eq_refl). clear Hr r.
    unfold synchronized, unset, has_id. rewrite Z.eqb_refl. cbn [andb].
    destruct (decide (we_signing_secret e = None)) as [En|En]; [rewrite bool_decide_true by done|rewrite bool_decide_false by done].
    + cbn [with_secret we_signing_secret]. apply takes_decrypt. intros _. exists raw.
      apply Ho. etrans; [exact Hs3|]. etrans; [|exact Hs5]. eapply grows_backfill. by apply Ho.
    + destruct (we_signing_secret e) as [c|] eqn:Ec; [|done]. apply takes_decrypt. intros Hct.
      destruct Hf as [Hsealed _]. destruct (Hsealed c Ec Hct) as [x Hx]. exists x.
      eapply opens_later; [|exact Hx]. apply g_remote. do 3 (etrans; [eassumption|]).
      etrans; [|exact Hs5]. eapply grows_backfill. by apply Ho.
Qed.

Lemma rely_signing_key s e :
  row_fine s e →
  rely grows s (signing_key (Some t) e) (λ k s', ∀ x, k = Some x → secret_of s' e x ∨ legacy (we_id e)).
Proof.
  intros Hf. unfold signing_key. destruct (we_signing_secret e) as [c|] eqn:Ec.
  - destruct (c =? "")%string eqn:E0.
    + apply String.eqb_eq in E0 as ->. eapply rely_weaken; [apply _|by apply rely_backfill|].
      intros k s' _ _ x _. right. apply Hf. by right.
    + apply String.eqb_neq in E0. eapply rely_weaken; [apply _|by apply rely_decrypt|]. intros k s' _ Hk x Hx. left. by apply Hk.
  - eapply rely_weaken; [apply _|by apply rely_backfill|]. intros k s' _ _ x _. right. apply Hf. by left.
Qed.

Lemma secret_evolves s e e' x : evolves s e e' → secret_of s e x → secret_of s e' x.
Proof. intros Hev. by apply secret_stays. Qed.

(** One delivery of an event of the requests to an endpoint that was read for it. *)
Lemma takes_enqueue s turns o event_type payload queue e :
  Emission turns o event_type payload ∈ requests → known s e → we_organization_id e = o →
  we_is_active e = true → _endpoint_subscribes_to e event_type = inr true →
  takes grows s (_enqueue_one (Some t) queue event_type (event_body event_type payload) e).
Proof.
  intros Hr Hk Ho Ha Hsub. unfold takes, _enqueue_one.
  eapply rely_bind; [apply _|apply rely_signing_key, Hk|]. intros [secret|] s1 Hs1 Hx; [|done].
  eapply rely_bind with (Φ := λ sig _, ∃ ts, sig = sign_with secret ts (event_body event_type payload)); [apply _| |].
  { apply rely_call. intros s2 Hs2. split; [done|]. intros now _ s3 Hs3. by eexists. }
  intros signature s2 Hs2 Hsig. apply rely_last. intros s3 Hs3. split; [|done].
  destruct (Hsig s3 Hs3) as [ts ->]. split; [done|exists (endpoints_of s3), []; rewrite app_nil_r; done|].
  exists [delivery_job queue (uuid_str (we_id e)) (we_url e) (event_body event_type payload) event_type
           (sign_with secret ts (event_body event_type payload))].
  split; [done|]. apply Forall_singleton. intros q id url body et sig E.
  assert (grows s1 s3) as Hg by by etrans.
  apply (known_later s s3) in Hk as [_ (e' & He' & Hev)]; [|by etrans].
  assert (we_id e' = we_id e ∧ we_url e' = we_url e ∧ we_is_active e' = we_is_active e ∧
          we_events e' = we_events e ∧ we_organization_id e' = we_organization_id e) as (Ei & Eu & Ea & Ee & Eo)
    by (destruct Hev as [->|(_ & c & x & -> & _)]; done).
  unfold delivery_job in E. simplify_eq. exists e', turns, payload, secret, ts.
  split_and!; try congruence; [done|by unfold _endpoint_subscribes_to in *; rewrite Ee|].
  destruct (Hx s3 Hg secret eq_refl) as [Hsec|Hleg]; [left; by eapply secret_evolves|right; congruence].
Qed.

Lemma subscribers_spec event_type l es e :
  subscribers event_type l = inr es → e ∈ es → e ∈ l ∧ _endpoint_subscribes_to e event_type = inr true.
Proof.
  revert es; induction l as [|a l IH]; intros es; cbn; [intros [= <-] ?%elem_of_nil; done|].
  destruct (_endpoint_subscribes_to a event_type) as [x|b] eqn:Ea; [done|].
  destruct (subscribers event_type l) as [x|es'] eqn:El; [done|]. intros [= <-] He.
  destruct b; [apply elem_of_cons in He as [->|He]|]; try (destruct (IH _ eq_refl He); split; [by right|done]).
  split; [by left|done].
Qed.

Lemma takes_emit s turns o event_type payload :
  rows_fine s → Emission turns o event_type payload ∈ requests → takes grows s (emit (Some t) arq turns o event_type payload).
Proof.
  intros Hs Hr. apply rely_try; [apply _| |done]. eapply rely_bind with (Φ := λ _ _, True); [apply _| |done].
  unfold fan_out, get_active_endpoints_for_event. eapply rely_bind with
    (Φ := λ es s', ∀ e, e ∈ es → known s' e ∧ we_organization_id e = o ∧ we_is_active e = true ∧
                        _endpoint_subscribes_to e event_type = inr true); [apply _| |].
  - apply rely_call. intros s1 Hs1. split; [by apply grows_same|]. intros _ _.
    apply rely_call. intros s2 Hs2. split; [done|]. intros l [= <-].
    destruct (subscribers _ _) as [x|es] eqn:E; [done|]. intros s3 Hs3 e He.
    destruct (subscribers_spec _ _ _ _ E He) as [Hin Hsub].
    apply list_elem_of_In, List.filter_In in Hin as [Hin [Eo%Z.eqb_eq Ea]%andb_true_iff].
    split_and!; try done. apply (known_later s2); [done|]. apply known_row; [|by apply list_elem_of_In].
    eapply rows_fine_later; [|exact Hs]. etrans; [exact Hs1|]. etrans; [|exact Hs2]. by apply grows_same.
  - intros es s1 Hs1 Hes. destruct es as [|e0 es]; [done|]. destruct (negb arq); [done|].
    destruct (get_queue_name _ _) as [x|queue]; [done|].
    eapply rely_bind; [apply _|by apply (rely_ret grows s1 queue (λ q _, q = queue))|].
    intros q s2 Hs2 Hq. rewrite (Hq s2) by done. eapply rely_bind; [apply _| |by intros a s3 _ _ s4 _].
    apply takes_gather; [apply _|]. apply Forall_fmap, Forall_forall. intros e He.
    destruct (Hes s2 Hs2 e He) as (Hk & Ho & Ha & Hsub). by eapply takes_enqueue.
Qed.

(** What a creation answers: the new endpoint, and the secret it will sign with. *)
Definition created (o : uuid) (name url : string) (r : EndpointView * string) (s : state) : Prop :=
  ∃ e, e ∈ endpoints_of s ∧ r.1 = _serialize e ∧ we_organization_id e = o ∧ we_name e = name ∧ we_url e = url ∧
       secret_of s e r.2.

(** A new row that PostgreSQL accepts. *)
Lemma grows_insert s e x c :
  we_signing_secret e = Some c → opens (st_remote s) (we_id e) c x →
  let r := op_sem (Insert webhook_endpoints (no_arbiter webhook_endpoints) [e]) s in
  grows s r.2 ∧ ∀ l, r.1 = inr l → e ∈ endpoints_of r.2.
Proof.
  intros Hc Ho. cbn. rewrite existsb_none by done.
  destruct (existsb _ _); [by split; [|intros l ?]|]. split.
  - split; [done| |by exists []; rewrite app_nil_r]. exists (endpoints_of s), [e].
    split_and!; [done|done|]. apply Forall_singleton. by exists c, x.
  - intros l _. apply elem_of_app. right. by left.
Qed.

Lemma rely_create s o name url events :
  rely grows s (create_endpoint (Some t) o name url events) (λ r s', created o name url r s').
Proof.
  eapply rely_bind; [apply _|by apply (rely_token s (λ _ _, True))|]. intros secret s1 Hs1 _.
  apply rely_call. intros s2 Hs2. split; [by apply grows_same|]. intros id _.
  eapply rely_bind; [apply _|apply rely_encrypt|]. intros c s3 Hs3 Ho.
  eapply rely_bind with (Φ := λ e s', created o name url (_serialize e, secret) s'); [apply _| |by intros e s4 _ He s5 Hs5; apply He].
  unfold create. apply rely_call. intros s4 Hs4. split; [done|]. intros now _.
  set (e := mkWebhookEndpoint id o name url (dump_events (default [] events)) true (Some c) None now).
  apply rely_call. intros s5 Hs5. pose proof (Ho s5 ltac:(by etrans)) as Ho5.
  destruct (grows_insert s5 e secret c eq_refl Ho5) as [Hg He]. split; [exact Hg|].
  intros l Hl s6 Hs6. destruct (row_stays _ _ _ Hs6 (He l Hl)) as (e' & He' & [->|(En & _)]); [|done].
  exists e. split_and!; try done. exists c. split; [done|]. rewrite (opens_ciphertext _ _ _ _ Ho5).
  eapply opens_later; [|exact Ho5]. etrans; [apply Hg|apply Hs6].
Qed.

Lemma relies_serve s :
  rows_fine s → relies grows (λ i a s', ∀ o name url events x, requests !! i = Some (Creation o name url events) →
      a = inr x → created o name url x s') (map serve requests) s.
Proof.
  intros Hs i p Hi. apply list_lookup_fmap_Some in Hi as (r & -> & Hi). destruct r as [turns o et payload|o name url events]; cbn [serve].
  - eapply rely_bind; [apply _|apply takes_emit; [done|by eapply list_elem_of_lookup_2]|].
    by intros b s1 _ _ s2 _ o' name' url' events' x E.
  - eapply rely_bind; [apply _|apply rely_create|]. intros r s1 Hs1 Hr s2 Hs2 o' name' url' events' x E [= <-].
    rewrite Hi in E. simplify_eq. by apply Hr.
Qed.
End signatures.

(** C25. Under every interleaving of emissions, their deliveries and creations of endpoints,
    a delivery is queued only for an event of a request, to an active subscribed endpoint
    of its organization, and is signed with the secret that is stored for the endpoint,
    unless the endpoint had none to begin with; what a creation answered is the secret
    its endpoint signs with. *)
Theorem deliveries_signed `{Orjson} `{Hmac} `{Deployment} (t : TransitManager) `{!TransitLaws t} (arq : bool)
    (requests : list WebhookRequest) (s0 : state) ps s :
  well_sealed t s0 →
  psteps (map (serve t arq) requests, s0) (ps, s) →
  (∃ evs, st_out s = st_out s0 ++ evs ∧ Forall (rightly_queued t s0 requests s) evs) ∧
  ∀ i o name url events x,
    requests !! i = Some (Creation o name url events) → ps !! i = Some (Ret (inr x)) → created t o name url x s.
Proof.
  intros Hs Hst.
  assert (rows_fine t s0 s0) as Hf.
  { intros e He. split; [unfold well_sealed in Hs; rewrite Forall_forall in Hs; by apply Hs|]. intros Hl. by exists e. }
  pose proof (relies_psteps (grows t s0 requests) (grows_time t s0 requests) _ _ _ _ _ Hst (relies_serve t arq s0 requests s0 Hf)) as [Hg Hr].
  split; [apply Hg|]. intros i o name url events x Hi Hp. by eapply (Hr i _ Hp).
Qed.

(** ** Failures *)

(** The encryption raises nothing but exceptions. *)
Definition ordinary_manager (t : TransitManager) : Prop :=
  ∀ i x, harmless (tm_encrypt t i x) ∧ harmless (tm_decrypt t i x).

Section failures.
Context `{Orjson} `{Hmac} `{Deployment} (transit : option TransitManager) (arq : bool).
Context (no_other : ∀ t, transit = Some t → ordinary_manager t).

Lemma harmless_token : harmless token_urlsafe_43.
Proof. by eapply tame_bind; [apply tame_ordinary|]. Qed.

Lemma harmless_encrypt i x : harmless (_encrypt_secret transit i x).
Proof. destruct transit as [t|]; [|done]. apply tame_try; [by apply (no_other t)|done]. Qed.

Lemma harmless_decrypt i raw : harmless (_decrypt_secret_value transit i raw).
Proof.
  unfold _decrypt_secret_value. destruct raw as [[|a c]|]; try done. destruct (negb _); [done|].
  destruct transit as [t|]; [|done]. apply tame_try; [|done]. by eapply tame_bind; [apply (no_other t)|].
Qed.

Lemma harmless_get_by_id id : harmless (get_by_id id).
Proof. eapply tame_bind; [by apply tame_ordinary|]. intros l _. apply tame_scalar. Qed.

Lemma harmless_backfill e : harmless (backfill transit e).
Proof.
  pose proof harmless_encrypt as Henc. pose proof harmless_decrypt as Hdec. unfold backfill.
  destruct transit as [t|]; [|done]. clear no_other.
  eapply tame_bind; [apply harmless_token|]. intros raw _. eapply tame_bind; [apply Henc|]. intros c _.
  eapply tame_bind; [by apply tame_ordinary|]. intros n _. destruct (n =? 0); [|done].
  eapply tame_bind with (Ψ := λ _, True).
  - by eapply tame_bind; [apply harmless_get_by_id|].
  - intros [r|] _; [apply Hdec|done].
Qed.

Lemma harmless_enqueue queue event_type body e : harmless (_enqueue_one transit queue event_type body e).
Proof.
  eapply tame_bind with (Ψ := λ _, True).
  - unfold signing_key. destruct (we_signing_secret e) as [c|]; [|apply harmless_backfill].
    destruct (c =? "")%string; [apply harmless_backfill|apply harmless_decrypt].
  - intros [secret|] _; [|done]. eapply tame_bind with (Ψ := λ _, True).
    + by eapply tame_bind; [apply tame_ordinary|].
    + intros signature _. by apply tame_ordinary.
Qed.

Lemma subscribers_errors event_type l e : subscribers event_type l = inl e → is_exception e = true.
Proof.
  induction l as [|a l IH]; cbn; [done|]. destruct (_endpoint_subscribes_to a event_type) as [x|b] eqn:Ea.
  - intros [= <-]. unfold _endpoint_subscribes_to, is_member in Ea. by repeat case_match; simplify_eq.
  - destruct (subscribers event_type l) as [x|es]; [|done]. intros [= <-]. by apply IH.
Qed.

Lemma harmless_fan_out turns o event_type payload : harmless (fan_out transit arq turns o event_type payload).
Proof.
  unfold fan_out, get_active_endpoints_for_event. eapply tame_bind with (Ψ := λ _, True).
  - eapply tame_bind; [by apply tame_ordinary|]. intros _ _. eapply tame_bind; [by apply tame_ordinary|]. intros l _.
    apply tame_lift. intros e. apply subscribers_errors.
  - intros es _. destruct es as [|e0 es]; [done|]. destruct (negb arq); [done|].
    eapply tame_bind; [apply tame_lift; unfold get_queue_name; intros e; case_match; by intros [= <-]|]. intros queue _.
    eapply tame_bind with (Ψ := λ _, True); [apply tame_gather|by intros]. apply Forall_fmap, Forall_forall. intros e _. apply harmless_enqueue.
Qed.

Lemma harmless_emit turns o event_type payload :
  tame (λ _, True) (emit transit arq turns o event_type payload).
Proof. apply tame_try; [|done]. by eapply tame_bind; [apply harmless_fan_out|]. Qed.
End failures.

(** ** What an emission writes *)

Definition silent_manager (t : TransitManager) : Prop :=
  ∀ i x, steps_in same_tables (tm_encrypt t i x) ∧ steps_in same_tables (tm_decrypt t i x).

Section writes.
Context `{Orjson} `{Hmac} `{Deployment} (transit : option TransitManager) (arq : bool).
(** Steps that keep the tables, and statements on the endpoints. *)
Context (R : state → state → Prop) (HT : keeps_tables R).
Context (on_endpoints : ∀ X (o : op X), orderly o → (∀ t, op_writes o t = true → t = webhook_endpoints) → steps_in R (call o)).
Context (no_table : ∀ t, transit = Some t → silent_manager t).

Lemma silent_steps {A} (p : prog A) : steps_in same_tables p → steps_in R p.
Proof. apply steps_in_weaken, HT. Qed.

Lemma encrypt_writes i x : steps_in R (_encrypt_secret transit i x).
Proof. destruct transit as [t|]; [|done]. apply steps_in_try; [by apply silent_steps, (no_table t)|done]. Qed.

Lemma decrypt_writes i raw : steps_in R (_decrypt_secret_value transit i raw).
Proof.
  destruct raw as [[|a c]|]; try done. unfold _decrypt_secret_value. destruct (negb _); [done|]. destruct transit as [t|]; [|done].
  apply steps_in_try; [|done]. apply steps_in_bind; [by apply silent_steps, (no_table t)|done].
Qed.

Lemma backfill_writes e : steps_in R (backfill transit e).
Proof.
  pose proof encrypt_writes as Henc. pose proof decrypt_writes as Hdec. unfold backfill.
  destruct transit as [t|]; [|done]. clear no_table.
  apply steps_in_bind; [unfold token_urlsafe_43; stepping|]. intros raw.
  apply steps_in_bind; [apply Henc|]. intros stored. apply steps_in_bind.
  - apply on_endpoints; [done|]. intros t' Ht. by apply bool_decide_eq_true in Ht.
  - intros n. case_match; [|done]. apply steps_in_bind; [unfold get_held, get_by_id; stepping|]. intros [r|]; [apply Hdec|done].
Qed.

Lemma emit_writes turns o event_type payload : steps_in R (emit transit arq turns o event_type payload).
Proof.
  unfold emit. apply steps_in_try; [|done]. apply steps_in_bind; [|done].
  unfold fan_out, get_active_endpoints_for_event. apply steps_in_bind; [stepping|]. intros es.
  destruct es as [|e0 es]; [done|]. destruct (negb arq); [done|]. apply steps_in_bind; [stepping|]. intros queue.
  apply steps_in_bind; [|done]. apply steps_in_gather, Forall_fmap, Forall_forall. intros e _. unfold compose, _enqueue_one.
  apply steps_in_bind; [|intros [secret|]; unfold sign_payload; stepping].
  unfold signing_key. destruct (we_signing_secret e) as [c|]; [|apply backfill_writes].
  destruct (c =? "")%string; [apply backfill_writes|apply decrypt_writes].
Qed.
End writes.

(** An emission answers, whatever fails and in whatever order its deliveries are queued. *)
Theorem emit_never_raises `{Orjson} `{Hmac} `{Deployment} (t : TransitManager) `{!TransitLaws t} (arq : bool)
    turns o event_type payload (w : faulty) :
  ∃ b, (run (emit (Some t) arq turns o event_type payload) w).1 = inr b.
Proof.
  unfold emit. rewrite plain_total.
  - destruct (run (_ ← fan_out (Some t) arq turns o event_type payload; Ret true) w) as [[e|b] w']; [by exists false|by exists b].
  - apply (tame_plain _ (λ _, True)). eapply tame_bind; [apply harmless_fan_out|done].
    intros t' [= <-] i x. split; [apply encrypt_harmless|apply decrypt_harmless].
Qed.


(** * Theorems on delivery *)

Section attempts.
Context `{Consumer} (endpoint : uuid) (url body event_type signature : string).

Definition reply (attempt : Z) (r : remote) : (exn + Z * string) * remote :=
  consumer_post url body (headers signature attempt event_type) r.

(** The service was reached and accepted the event; or it may accept it later. *)
Definition accepted (x : exn + Z * string) : bool :=
  match x with inr (st, _) => (200 <=? st) && (st <? 300) | inl _ => false end.
Definition passing (x : exn + Z * string) : bool :=
  match x with inr (st, _) => 500 <=? st | inl (HttpxError _) => true | inl _ => false end.
Definition broken (x : exn + Z * string) : option exn :=
  match x with inl (HttpxError _) | inr _ => None | inl e => Some e end.

(** The state after an attempt. *)
Definition tried (attempt : Z) (s : state) : state :=
  let p := reply attempt (st_remote s) in
  let v := judge attempt p.1 in
  let log := mkWebhookDeliveryLog (next_uuid s) endpoint event_type attempt (vd_status v) (vd_success v) (vd_error v) in
  let d := set_table webhook_delivery_logs (st_db s webhook_delivery_logs ++ [log]) (st_db s) in
  mkState (st_clock s) (st_redis s) d d (st_tenant s) (st_entropy s) (S (st_drawn s)) (st_out s) p.2.

Definition unused (s : state) (id : uuid) : Prop := ∀ r, r ∈ st_db s webhook_delivery_logs → wl_id r ≠ id.

Lemma run_log attempt (s : state) st ok err :
  uuid_wf endpoint → unused s (next_uuid s) →
  run (_log_delivery (uuid_str endpoint) event_type attempt st ok err) s =
    (inr tt,
     let d := set_table webhook_delivery_logs
                (st_db s webhook_delivery_logs ++ [mkWebhookDeliveryLog (next_uuid s) endpoint event_type attempt st ok err]) (st_db s) in
     mkState (st_clock s) (st_redis s) d d (st_tenant s) (st_entropy s) (S (st_drawn s)) (st_out s) (st_remote s)).
Proof.
  intros Hw Hu. unfold _log_delivery, try_except. rewrite run_catch, uuid_parse_str by done. cbn [lift].
  rewrite run_ret_bind, run_uuid4, run_insert_one; [done|done|done|].
  intros r Hr. cbn. apply Z.eqb_neq. intros E. by apply (Hu r).
Qed.

Lemma run_deliver attempt (s : state) :
  uuid_wf endpoint → unused s (next_uuid s) →
  run (deliver_webhook attempt (uuid_str endpoint) url body event_type signature) s =
    (match vd_raises (judge attempt (reply attempt (st_remote s)).1) with Some e => inl e | None => inr tt end, tried attempt s).
Proof.
  intros Hw Hu. unfold deliver_webhook. rewrite run_bind, run_catch, run_bind, run_call. cbn [exec state_world op_sem].
  fold (reply attempt (st_remote s)). unfold tried. destruct (reply attempt (st_remote s)) as [[e|x] r]; cbn [fst snd];
    cbn [run mret prog_ret]; rewrite run_bind, run_log by done; cbn -[judge set_table];
    by destruct (vd_raises _).
Qed.

Lemma judge_raises attempt x :
  (∀ d, x ≠ inl (Retry d)) →
  vd_raises (judge attempt x) =
    if passing x && (attempt <? MAX_ATTEMPTS) then Some (Retry (2 ^ (attempt - 1) * us_per_s)) else broken x.
Proof.
  intros Hx. destruct x as [e|[st text]]; cbn [passing broken judge].
  - unfold again. destruct e as [| | | | | | | | | | |k| | |]; try done; destruct k; cbn [vd_raises];
      by destruct (attempt <? MAX_ATTEMPTS).
  - destruct ((200 <=? st) && (st <? 300)) eqn:E2; [|destruct ((400 <=? st) && (st <? 500)) eqn:E4];
      cbn [vd_raises].
    + apply andb_true_iff in E2. by replace (500 <=? st) with false by lia.
    + apply andb_true_iff in E4. by replace (500 <=? st) with false by lia.
    + unfold again. by destruct ((500 <=? st) && (attempt <? MAX_ATTEMPTS)) eqn:E5; cbn [vd_raises];
        [apply andb_true_iff in E5 as [_ ->]|].
Qed.

Lemma judge_log attempt x :
  vd_success (judge attempt x) = accepted x ∧ vd_status (judge attempt x) = match x with inr (st, _) => Some st | inl _ => None end.
Proof.
  destruct x as [e|[st text]]; cbn.
  - destruct e as [| | | | | | | | | | |k| | |]; try done; by destruct k.
  - destruct ((200 <=? st) && (st <? 300)); [done|]. destruct ((400 <=? st) && _); [done|]. by destruct ((500 <=? st) && _).
Qed.

(** The remote services after [k] attempts from the [a]-th on, and what the one after answers. *)
Fixpoint after_tries (k : nat) (a : Z) (r : remote) : remote :=
  match k with O => r | S k => after_tries k (a + 1) (reply a r).2 end.
Definition response (k : nat) (a : Z) (r : remote) : exn + Z * string := (reply (a + Z.of_nat k) (after_tries k a r)).1.

(** A row of the log, without its id and the text of its error. *)
Definition logged (l : WebhookDeliveryLog) : uuid * string * Z * option Z * bool :=
  (wl_endpoint_id l, wl_event_type l, wl_attempt l, wl_status_code l, wl_success l).
Definition log_of (r : remote) (a : Z) (i : nat) : uuid * string * Z * option Z * bool :=
  let x := response i a r in
  (endpoint, event_type, a + Z.of_nat i, match x with inr (st, _) => Some st | inl _ => None end, accepted x).

(** The ids of the next [n] log rows are not in use. *)
Definition ids_fresh (n : nat) (s : state) : Prop :=
  (∀ i, (i < n)%nat → unused s (drawn_uuid s (st_drawn s + i))) ∧
  (∀ i j, (i < n)%nat → (j < n)%nat → drawn_uuid s (st_drawn s + i) = drawn_uuid s (st_drawn s + j) → i = j).

Definition later_by (us : Z) (s : state) : state := (op_sem (Sleep us) s).2.

Lemma fresh_next n (s : state) : ids_fresh (S n) s → unused s (next_uuid s).
Proof. intros [Hu _]. specialize (Hu 0%nat ltac:(lia)). by rewrite Nat.add_0_r in Hu. Qed.

Lemma fresh_tried n a us (s : state) : ids_fresh (S n) s → ids_fresh n (later_by us (tried a s)).
Proof.
  intros [Hu Hd]. split.
  - intros i Hi r. cbn. intros [Hr|Er%list_elem_of_singleton]%elem_of_app.
    + rewrite <- Nat.add_succ_r. by apply (Hu (S i) ltac:(lia)).
    + subst r. cbn. intros E. specialize (Hd 0%nat (S i) ltac:(lia) ltac:(lia)). rewrite Nat.add_0_r, Nat.add_succ_r in Hd.
      by specialize (Hd E).
  - intros i j Hi Hj. cbn. unfold drawn_uuid in *. cbn. rewrite <- !Nat.add_succ_r. intros E.
    specialize (Hd (S i) (S j) ltac:(lia) ltac:(lia) E). lia.
Qed.

Lemma pow_step a k : 1 ≤ a → 2 ^ (a - 1) + 2 ^ a * (2 ^ Z.of_nat k - 1) = 2 ^ (a - 1) * (2 ^ Z.of_nat (S k) - 1).
Proof.
  intros Ha. assert (2 ^ a = 2 ^ (a - 1) * 2) as ->
    by (replace a with (Z.succ (a - 1)) at 1 by lia; rewrite Z.pow_succ_r by lia; ring).
  rewrite Nat2Z.inj_succ, Z.pow_succ_r by lia. ring.
Qed.

Definition task (n : Z) : prog unit := deliver_webhook n (uuid_str endpoint) url body event_type signature.

Lemma response_S i a r : response (S i) a r = response i (a + 1) (reply a r).2.
Proof. unfold response. cbn [after_tries]. do 2 f_equal. lia. Qed.

Lemma log_of_S r a i : log_of r a (S i) = log_of (reply a r).2 (a + 1) i.
Proof. unfold log_of. rewrite response_S. by replace (a + Z.of_nat (S i)) with (a + 1 + Z.of_nat i) by lia. Qed.

Lemma logged_tried a (s : state) :
  map logged (st_db (tried a s) webhook_delivery_logs)
  = map logged (st_db s webhook_delivery_logs) ++ [log_of (st_remote s) a 0].
Proof.
  destruct (judge_log a (reply a (st_remote s)).1) as [Hok Hst]. cbn. rewrite map_app. cbn. do 2 f_equal.
  unfold logged, log_of, response. cbn [wl_endpoint_id wl_event_type wl_attempt wl_status_code wl_success after_tries].
  by rewrite Hok, Hst, Z.add_0_r.
Qed.

(** One try of the job. *)
Lemma run_try left a (s : state) :
  uuid_wf endpoint → 1 ≤ a → unused s (next_uuid s) →
  run (arq_job left a task) s =
    match left with
    | S n => if passing (response 0 a (st_remote s)) && (a <? MAX_ATTEMPTS)
             then run (arq_job n (a + 1) task) (later_by (2 ^ (a - 1) * us_per_s) (tried a s))
             else (match broken (response 0 a (st_remote s)) with Some e => inl e | None => inr tt end, tried a s)
    | O => (match (if passing (response 0 a (st_remote s)) && (a <? MAX_ATTEMPTS)
                   then Some (Retry (2 ^ (a - 1) * us_per_s)) else broken (response 0 a (st_remote s))) with
            | Some e => inl e | None => inr tt end, tried a s)
    end.
Proof.
  intros Hw Ha Hu. pose proof (judge_raises a (reply a (st_remote s)).1 (consumer_raises _ _ _ _)) as Hj.
  unfold response. cbn [after_tries]. rewrite Z.add_0_r.
  assert (∀ e, broken (reply a (st_remote s)).1 = Some e → ∀ d, e ≠ Retry d) as Hb.
  { intros e He d ->. pose proof (consumer_raises url body (headers signature a event_type) (st_remote s) d) as Hc.
    fold (reply a (st_remote s)) in Hc. destruct (reply a (st_remote s)).1 as [e|]; [|done]. cbn in He. by destruct e; simplify_eq. }
  destruct left as [|n]; cbn [arq_job]; unfold try_except; rewrite run_catch; unfold task at 1;
    rewrite run_deliver by done; rewrite Hj.
  - destruct (passing _ && _); [done|]. destruct (broken _) as [e|]; [|done]. by destruct e.
  - destruct (passing _ && _); [by rewrite run_sleep|].
    destruct (broken _) as [e|] eqn:Eb; [|done]. specialize (Hb e eq_refl).
    destruct e; try done. by destruct (Hb defer_us).
Qed.

Lemma run_tries left a (s : state) :
  uuid_wf endpoint → 1 ≤ a → a + Z.of_nat left = MAX_ATTEMPTS → ids_fresh (S left) s →
  ∃ k, (k ≤ left)%nat ∧ (∀ i, (i < k)%nat → passing (response i a (st_remote s)) = true) ∧
    (k = left ∨ passing (response k a (st_remote s)) = false) ∧
    let r := run (arq_job left a task) s in
    r.1 = match broken (response k a (st_remote s)) with Some e => inl e | None => inr tt end ∧
    st_clock r.2 = st_clock s + (2 ^ (a - 1) * (2 ^ Z.of_nat k - 1)) * us_per_s ∧
    st_remote r.2 = after_tries (S k) a (st_remote s) ∧
    map logged (st_db r.2 webhook_delivery_logs)
      = map logged (st_db s webhook_delivery_logs) ++ map (log_of (st_remote s) a) (seq 0 (S k)).
Proof.
  intros Hw. revert a s; induction left as [|n IH]; intros a s Ha Hsum Hf; rewrite run_try by (try done; by eapply fresh_next).
  - exists 0%nat. split_and!; [lia|lia|by left|]. assert ((a <? MAX_ATTEMPTS) = false) as -> by (unfold MAX_ATTEMPTS in *; lia).
    rewrite andb_false_r. cbn [fst snd]. rewrite logged_tried. split_and!; [done|cbn; lia|done|done].
  - assert ((a <? MAX_ATTEMPTS) = true) as -> by (unfold MAX_ATTEMPTS in *; lia). rewrite andb_true_r.
    destruct (passing (response 0 a (st_remote s))) eqn:Ep.
    + set (s1 := later_by _ _). destruct (IH (a + 1) s1) as (k & Hk & Hi & Hlast & Hres); [lia|lia|by apply fresh_tried|].
      change (st_remote s1) with (reply a (st_remote s)).2 in *.
      exists (S k). rewrite response_S. split_and!; [lia| |by destruct Hlast; [left; lia|right]|].
      * intros [|i] Hi'; [done|]. rewrite response_S. apply Hi. lia.
      * destruct Hres as (Hr & Hc & Hrem & Hlg). split_and!; [done| |done|].
        -- rewrite Hc. change (st_clock s1) with (st_clock s + Z.max 0 (2 ^ (a - 1) * us_per_s)).
           rewrite Z.max_r by (pose proof (Z.pow_nonneg 2 (a - 1)); unfold us_per_s; lia).
           rewrite Z.add_simpl_r, <- pow_step by done. ring.
        -- rewrite Hlg. change (st_db s1) with (st_db (tried a s)). rewrite logged_tried, <- app_assoc. f_equal.
           change (seq 0 (S (S k))) with (0%nat :: seq 1 (S k)). rewrite map_cons. cbn [app]. f_equal.
           rewrite <- seq_shift, map_map. apply map_ext. intros i. by rewrite log_of_S.
    + exists 0%nat. split_and!; [lia|lia|by right|]. cbn [fst snd]. rewrite logged_tried. split_and!; [done|cbn; lia|done|done].
Qed.

(** C26. A delivery ends: it is tried until an answer is no server error and no failure to
    reach the address, five times at most, with 1, 2, 4 and 8 seconds in between; each
    try writes one row of the log, and only a 2xx answer is a success. *)
Theorem delivery_attempts (s : state) :
  uuid_wf endpoint → ids_fresh 5 s →
  ∃ k, (k ≤ 4)%nat ∧ (∀ i, (i < k)%nat → passing (response i 1 (st_remote s)) = true) ∧
    (k = 4%nat ∨ passing (response k 1 (st_remote s)) = false) ∧
    let r := run (delivery (uuid_str endpoint) url body event_type signature) s in
    r.1 = match broken (response k 1 (st_remote s)) with Some e => inl e | None => inr tt end ∧
    st_clock r.2 = st_clock s + (2 ^ Z.of_nat k - 1) * us_per_s ∧
    st_remote r.2 = after_tries (S k) 1 (st_remote s) ∧
    map logged (st_db r.2 webhook_delivery_logs)
      = map logged (st_db s webhook_delivery_logs) ++ map (log_of (st_remote s) 1) (seq 0 (S k)).
Proof.
  intros Hw Hf. destruct (run_tries 4 1 s) as (k & Hk & Hi & Hl & Hr & Hc & Hrest); [done|lia|done|done|].
  exists k. split_and!; [done|done|done|]. change (Z.to_nat (TASK_MAX_TRIES - 1)) with 4%nat in *. unfold delivery.
  change (Z.to_nat (TASK_MAX_TRIES - 1)) with 4%nat. fold task. 
  split_and!; [exact Hr| |apply Hrest..]. etrans; [exact Hc|]. f_equal. f_equal. change (2 ^ (1 - 1)) with 1. lia.
Qed.
End attempts.

(** * Witnesses *)

Definition marked_hmac : Hmac := {| hmac_hexdigest := λ key msg, key |}.
Definition marked_transit : TransitManager := transit_manager (H := marking_transit) a_client signed_in.
#[export] Instance marked_transit_laws : TransitLaws marked_transit.
Proof. apply (transit_manager_laws (H := marking_transit)). Defined.

Definition one_organization : list WebhookRequest :=
  [Creation 1 "crm" "https://crm.example/hook" (Some ["session.created"%string]); Emission [] 1 "session.created" None].
Definition serve_marked : WebhookRequest → prog (bool + EndpointView * string) :=
  serve (H := json_codec) (H0 := marked_hmac) (H1 := production) marked_transit true.

(** The creation runs, then the emission. *)
Definition in_turn : list nat := replicate 10 0%nat ++ replicate 10 1%nat.

Lemma deliveries_signed_witness :
  let c := take_turns in_turn (map serve_marked one_organization) empty_state in
  (∃ evs, st_out c.2 = [] ++ evs ∧
     Forall (rightly_queued (H := json_codec) (H0 := marked_hmac) marked_transit empty_state one_organization c.2) evs) ∧
  ∀ i o name url events x,
    one_organization !! i = Some (Creation o name url events) → c.1 !! i = Some (Ret (inr x)) →
    created (H := json_codec) marked_transit o name url x c.2.
Proof.
  apply (deliveries_signed (H := json_codec) (H0 := marked_hmac) (H1 := production) marked_transit true one_organization empty_state).
  - constructor.
  - rewrite <- (surjective_pairing (take_turns _ _ _)). apply take_turns_psteps.
Defined.

Definition keys_of (evs : list event) : list string :=
  omap (λ e, match e with Effect "deliver_webhook" [_; _; _; _; _; signature] => Some signature | _ => None end) evs.

(** The delivery carries the secret the creation answered. *)
Example delivery_is_queued :
  let c := take_turns in_turn (map serve_marked one_organization) empty_state in
  (omap (λ p, match p with Ret (inr x) => Some ("t=0,v1=" +:+ x.2) | _ => None end) c.1, length (keys_of (st_out c.2)))
  = (keys_of (st_out c.2), 1%nat).
Proof. by vm_compute. Qed.

(** Two emissions backfill the secret of one old endpoint at the same time: the second
    signs its delivery with a secret that is not stored. *)
Definition old_endpoint : WebhookEndpoint := mkWebhookEndpoint 7 1 "old" "https://old.example/hook" "[]" true None None 0.
Definition old_state : state :=
  set_db (set_table webhook_endpoints [old_endpoint] (st_db empty_state)) empty_state.

Example backfill_race :
  let c := take_turns (concat (replicate 12 [0; 1]%nat))
             (map serve_marked [Emission [] 1 "session.created" None; Emission [] 1 "session.created" None]) old_state in
  let stored := map we_signing_secret (st_db c.2 webhook_endpoints) in
  let opened := map (λ k, Some ("vault:v1:" +:+ b64_text (str_drop 7 k))) (keys_of (st_out c.2)) in
  (length opened, bool_decide (opened !! 0%nat = Some (default None (stored !! 0%nat))),
   bool_decide (opened !! 1%nat = Some (default None (stored !! 0%nat)))) = (2%nat, true, false).
Proof. by vm_compute. Qed.

(** An address that fails twice and then accepts. *)
Definition flaky : Consumer.
Proof.
  refine {| consumer_post := λ url body hs m,
              match m !! "calls"%string with
              | Some "2" => (inr (204, EmptyString), m)
              | Some "1" => (inl (HttpxError TimeoutException), <["calls"%string := "2"%string]> m)
              | _ => (inr (503, "busy"%string), <["calls"%string := "1"%string]> m)
              end;
            exception_text := λ _, EmptyString |}.
  intros url body hs r d. by repeat case_match.
Defined.

Lemma delivery_attempts_witness :
  ∃ k, (k ≤ 4)%nat ∧
    (∀ i, (i < k)%nat → passing (response (H := flaky) "https://x" "{}" "e" "t=0,v1=s" i 1 (st_remote empty_state)) = true) ∧
    (k = 4%nat ∨ passing (response (H := flaky) "https://x" "{}" "e" "t=0,v1=s" k 1 (st_remote empty_state)) = false) ∧
    let r := run (delivery (H := flaky) (uuid_str 7) "https://x" "{}" "e" "t=0,v1=s") empty_state in
    r.1 = match broken (response (H := flaky) "https://x" "{}" "e" "t=0,v1=s" k 1 (st_remote empty_state)) with
          | Some e => inl e | None => inr tt end ∧
    st_clock r.2 = st_clock empty_state + (2 ^ Z.of_nat k - 1) * us_per_s ∧
    st_remote r.2 = after_tries (H := flaky) "https://x" "{}" "e" "t=0,v1=s" (S k) 1 (st_remote empty_state) ∧
    map logged (st_db r.2 webhook_delivery_logs)
      = map logged (st_db empty_state webhook_delivery_logs)
        ++ map (log_of (H := flaky) 7 "https://x" "{}" "e" "t=0,v1=s" (st_remote empty_state) 1) (seq 0 (S k)).
Proof.
  apply (delivery_attempts (H := flaky) 7 "https://x" "{}" "e" "t=0,v1=s" empty_state).
  - vm_compute. split; congruence.
  - split.
    + intros i Hi r Hr. by apply elem_of_nil in Hr.
    + intros i j Hi Hj. do 5 (destruct i as [|i]; [do 5 (destruct j as [|j]; [by vm_compute|]); lia|]). lia.
Defined.

Example third_try_delivers :
  let r := run (delivery (H := flaky) (uuid_str 7) "https://x" "{}" "e" "t=0,v1=s") empty_state in
  (r.1, st_clock r.2, map wl_success (st_db r.2 webhook_delivery_logs)) = (inr tt, 3000000, [false; false; true]).
Proof. by vm_compute. Qed.
