(* ===== verification/Blobs.v ===== *)
(** core/blob_storage.py, services/blob_storage_service.py,
    repositories/episode_blob_repository.py and services/memory/blob_ingest.py: files
    attached to messages, from the upload to the stored object and its row. *)
From S2P Require Import Prelude Errors Data Effects Concurrent Json OpenBao Idempotency Secrets Webhooks OrgConfig.
Open Scope Z_scope.

(** * core/blob_storage.py *)

Record BlobStorageConfig := mkBlobStorageConfig {
  backend : string;
  endpoint_url : string;
  region : string;
  access_key_id : string;
  secret_access_key : string;
  bucket_name : string;
  bs_max_blob_size_mb : Z;
}.
Definition max_blob_bytes (c : BlobStorageConfig) : Z := bs_max_blob_size_mb c * 1024 * 1024.

(** The dict [_resolve_storage_config] starts from, whose values are also the defaults of
    [from_org_config], and what the organization's configuration overrides. *)
Definition default_storage : BlobStorageConfig := mkBlobStorageConfig "s3" "http://minio:9000" "auto" "" "" "openzync-blobs" 50.
Definition override (d : BlobStorageConfig) (o : StorageOverrides) : BlobStorageConfig :=
  mkBlobStorageConfig (default (backend d) (ov_backend o)) (default (endpoint_url d) (ov_endpoint_url o))
    (default (region d) (ov_region o)) (default (access_key_id d) (ov_access_key_id o))
    (default (secret_access_key d) (ov_secret_access_key o)) (default (bucket_name d) (ov_bucket_name o))
    (default (bs_max_blob_size_mb d) (ov_max_blob_size_mb o)).

(** The object store, and the text of an exception. *)
Class S3 := {
  s3_put : BlobStorageConfig → string → string → string → remote → (exn + unit) * remote;
  s3_delete : BlobStorageConfig → string → remote → (exn + unit) * remote;
  s3_exception_text : exn → string;
}.

(** ** Keys *)

Definition _MAX_SAFE_FILE_NAME_CHARS : nat := 128.
Definition remove_all (p s : string) : string := str_remove (String.length s) p s.
Definition nul : string := "000"%char ::: EmptyString.
Definition is_separator (c : ascii) : bool := Ascii.eqb c "/" || Ascii.eqb c "\".
Definition is_safe (c : ascii) : bool :=
  between 48 57 c || between 65 90 c || between 97 122 c || Ascii.eqb c "." || Ascii.eqb c "_" || Ascii.eqb c "-".
Definition is_filler (c : ascii) : bool := Ascii.eqb c "." || Ascii.eqb c "_".

(** [re.split(r"[/\\]", s)[-1]]. *)
Fixpoint after_last (p : ascii → bool) (s : string) : string :=
  match s with
  | EmptyString => EmptyString
  | c ::: r => if str_exists p r then after_last p r else if p c then r else s
  end.

Definition sanitize_file_name (file_name : string) : string :=
  let cleaned := remove_all "%00" (remove_all nul file_name) in
  let base := str_strip (after_last is_separator cleaned) in
  let safe := str_take _MAX_SAFE_FILE_NAME_CHARS (str_map (λ c, if is_safe c then c else "_"%char) base) in
  match strip_by is_filler safe with EmptyString => "unnamed"%string | s => s end.

Definition build_key (org_id project_id episode_id : string) (blob_index : nat) (file_name : string) : string :=
  "blobs/" +:+ org_id +:+ "/" +:+ project_id +:+ "/" +:+ episode_id +:+ "/" +:+ str_of_Z (Z.of_nat blob_index) +:+ "_"
  +:+ sanitize_file_name file_name.

(** * Uploads *)

Definition _ALLOWED_UPLOAD_MIME_TYPES : list string :=
  ["application/pdf"; "application/msword"; "application/vnd.openxmlformats-officedocument.wordprocessingml.document";
   "application/octet-stream"]%string.
Definition normalize_upload_mime (mime_type : string) : string := str_lower (str_strip (partition ";" mime_type).1.1).
Definition is_allowed_upload_mime (mime_type : string) : bool :=
  bool_decide (mime_type ∈ _ALLOWED_UPLOAD_MIME_TYPES) || str_prefix "text/" mime_type || str_prefix "image/" mime_type.

Definition _UPLOAD_CHUNK_BYTES : Z := 1024 * 1024.

(** [file.read(n)]: the next bytes, and those that are left. *)
Fixpoint read_bytes (n : Z) (s : string) : string * string :=
  match s with
  | EmptyString => (EmptyString, EmptyString)
  | c ::: r => if n <=? 0 then (EmptyString, s) else let '(a, b) := read_bytes (n - 1) r in (c ::: a, b)
  end.

Definition too_large (file_name : string) (max_bytes : Z) : exn :=
  AppExc PayloadTooLargeError ("Blob " +:+ file_name +:+ " exceeds limit of " +:+ str_of_Z max_bytes +:+ " bytes").

(** The loop on a stream: the bytes read, or the exception, and what the stream still
    holds. Every round reads a byte at least: the length of the stream is fuel enough. *)
Fixpoint read_chunks (fuel : nat) (buffer unread : string) (max_bytes : Z) (file_name : string) : (exn + string) * string :=
  match fuel with
  | O => (inr buffer, unread)
  | S fuel =>
      let '(chunk, unread) := read_bytes _UPLOAD_CHUNK_BYTES unread in
      match chunk with
      | EmptyString => (inr buffer, unread)
      | _ =>
          let buffer := buffer +:+ chunk in
          if max_bytes <? str_len buffer then (inl (too_large file_name max_bytes), unread)
          else read_chunks fuel buffer unread max_bytes file_name
      end
  end.
Definition read_upload_bounded (unread : string) (max_bytes : Z) (file_name : string) : (exn + string) * string :=
  read_chunks (S (String.length unread)) EmptyString unread max_bytes file_name.

(** The fast path for bytes. *)
Definition bytes_bounded (data : string) (max_bytes : Z) (file_name : string) : exn + string :=
  if max_bytes <? str_len data then inl (too_large file_name max_bytes) else inr data.

Record BlobMetadata := mkBlobMetadata { bm_blob_id : nat; bm_mime_type : string; bm_file_name : string }.
Record UploadFile := mkUploadFile { uf_filename : option string; uf_content : string }.

Class BlobSettings := { MAX_BLOBS_PER_MESSAGE : Z; MAX_BLOBS_PER_REQUEST : Z }.

Definition validate_blob_metadata_count `{BlobSettings} (metas : list BlobMetadata) : exn + unit :=
  if MAX_BLOBS_PER_MESSAGE <? Z.of_nat (length metas) then
    inl (AppExc ValidationError ("Too many blobs per message: " +:+ str_of_Z (Z.of_nat (length metas)) +:+ " exceeds limit of "
                                 +:+ str_of_Z MAX_BLOBS_PER_MESSAGE))
  else inr tt.

(** [x or y] of a text. *)
Definition or_else (s t : string) : string := match s with EmptyString => t | _ => s end.

(** What a row takes from the request. *)
Record Place := mkPlace { pl_org : uuid; pl_project : uuid; pl_session : uuid; pl_created_by : uuid }.

(** The order in which a set of numbers is gone through: each once. *)
Class PySet := {
  set_iter : list nat → list nat;
  set_iter_nodup l : NoDup (set_iter l);
  set_iter_elem l x : x ∈ set_iter l ↔ x ∈ l;
}.

Section blobs.
Context `{Hashlib} `{S3} `{BlobSettings} `{Repr}.

Definition upload (config : BlobStorageConfig) (key data mime_type : string) : prog unit :=
  try_except (call (Remote (s3_put config key data mime_type))) is_exception
    (λ e, Throw (AppExc ExternalServiceError ("Failed to upload blob: " +:+ s3_exception_text e))).

Definition delete (config : BlobStorageConfig) (key : string) : prog unit :=
  try_except (call (Remote (s3_delete config key))) is_exception
    (λ e, Throw (AppExc ExternalServiceError ("Failed to delete blob: " +:+ s3_exception_text e))).

Definition out_of_range (blob_id files : nat) : exn :=
  AppExc ValidationError ("blob_id " +:+ str_of_Z (Z.of_nat blob_id) +:+ " out of range: only " +:+ str_of_Z (Z.of_nat files)
                          +:+ " files uploaded").

(** [upload_blobs] where every file is bytes already, as ingest calls it. *)
Definition upload_one (config : BlobStorageConfig) (at_ : Place) (episode_id : uuid) (uploaded_files : list string)
    (meta : BlobMetadata) : prog EpisodeBlob :=
  match uploaded_files !! bm_blob_id meta with
  | None => Throw (out_of_range (bm_blob_id meta) (length uploaded_files))
  | Some file =>
      let file_name := or_else (bm_file_name meta) "unnamed" in
      let mime_type := normalize_upload_mime (or_else (bm_mime_type meta) "application/octet-stream") in
      if negb (is_allowed_upload_mime mime_type) then
        Throw (AppExc ValidationError ("Unsupported MIME type " +:+ py_repr mime_type +:+ " for blob " +:+ file_name))
      else
        let key := build_key (uuid_str (pl_org at_)) (uuid_str (pl_project at_)) (uuid_str episode_id) (bm_blob_id meta) file_name in
        data ← lift (bytes_bounded file (max_blob_bytes config) file_name);
        _ ← upload config key data mime_type;
        id ← uuid4;
        Ret (mkEpisodeBlob id (pl_org at_) (pl_project at_) (pl_session at_) episode_id key file_name mime_type
               (str_len data) (Z.of_nat (bm_blob_id meta)) (pl_created_by at_) (sha256_hexdigest data))
  end.

Fixpoint upload_each (config : BlobStorageConfig) (at_ : Place) (episode_id : uuid) (uploaded_files : list string)
    (metas : list BlobMetadata) : prog (list EpisodeBlob) :=
  match metas with
  | [] => Ret []
  | meta :: metas =>
      b ← upload_one config at_ episode_id uploaded_files meta;
      bs ← upload_each config at_ episode_id uploaded_files metas;
      Ret (b :: bs)
  end.

(** repositories/episode_blob_repository.py *)
Definition blob_batch_create (blobs : list EpisodeBlob) : prog (list EpisodeBlob) :=
  match blobs with [] => Ret [] | _ => call (Insert episode_blobs (no_arbiter episode_blobs) blobs) end.

Definition upload_blobs (config : BlobStorageConfig) (at_ : Place) (episode_id : uuid) (uploaded_files : list string)
    (metas : list BlobMetadata) : prog (list EpisodeBlob) :=
  if MAX_BLOBS_PER_REQUEST <? Z.of_nat (length metas) then
    Throw (AppExc ValidationError ("Too many blobs: " +:+ str_of_Z (Z.of_nat (length metas)) +:+ " exceeds limit of "
                                   +:+ str_of_Z MAX_BLOBS_PER_REQUEST))
  else blobs ← upload_each config at_ episode_id uploaded_files metas; blob_batch_create blobs.

(** [turns]: how the event loop schedules the deletions. *)
Definition delete_blobs (turns : list nat) (config : BlobStorageConfig) (blob_records : list EpisodeBlob) : prog unit :=
  match blob_records with
  | [] => Ret tt
  | _ => _ ← gather turns (map (λ b, delete config (eb_storage_key b)) blob_records); Ret tt
  end.
End blobs.

(** * services/memory/blob_ingest.py *)

(** What is left of the uploaded streams, and the files kept for a later episode with how
    many references are to come. *)
Record Cache := mkCache {
  unread : list string;
  shared_bytes : gmap nat string;
  remaining : gmap nat Z;
}.

(** [Counter(...)] of the references. *)
Definition use_counts (ep_blob_metas : list (uuid * list BlobMetadata)) : gmap nat Z :=
  fold_left (λ m b, <[b := default 0 (m !! b) + 1]> m) (concat (map (λ x : uuid * list BlobMetadata, map bm_blob_id x.2) ep_blob_metas)) ∅.
Definition shared (counts : gmap nat Z) (bid : nat) : bool := 1 <? default 0 (counts !! bid).

(** [for i, msg in enumerate(messages): if msg.blobs: ...], with the ids of the episodes. *)
Definition attachments (episode_ids : list uuid) (blobs : list (list BlobMetadata)) : list (uuid * list BlobMetadata) :=
  List.filter (λ x : uuid * list BlobMetadata, match x.2 with [] => false | _ => true end) (combine episode_ids blobs).

Section process.
Context `{Hashlib} `{S3} `{BlobSettings} `{Repr} `{PySet}.
Context (config : BlobStorageConfig) (at_ : Place) (files : list UploadFile) (counts : gmap nat Z).

Definition fill_slot (acc : list string * Cache) (bid : nat) : prog (list string * Cache) :=
  let '(slots, c) := acc in
  match files !! bid with
  | None => Throw (out_of_range bid (length files))
  | Some f =>
      match shared_bytes c !! bid with
      | Some cached => Ret (<[bid := cached]> slots, c)
      | None =>
          let '(r, rest) := read_upload_bounded (default EmptyString (unread c !! bid)) (max_blob_bytes config)
                              (or_else (default EmptyString (uf_filename f)) "unnamed") in
          data ← lift r;
          Ret (<[bid := data]> slots,
               mkCache (<[bid := rest]> (unread c))
                 (if shared counts bid then <[bid := data]> (shared_bytes c) else shared_bytes c) (remaining c))
      end
  end.

Definition release_slot (c : Cache) (bid : nat) : Cache :=
  if shared counts bid then
    let left := default 0 (remaining c !! bid) - 1 in
    mkCache (unread c) (if left <=? 0 then base.delete bid (shared_bytes c) else shared_bytes c) (<[bid := left]> (remaining c))
  else c.

Definition one_episode (acc : Cache * list EpisodeBlob) (x : uuid * list BlobMetadata) : prog (Cache * list EpisodeBlob) :=
  let '(c, blob_records) := acc in
  let needed_ids := set_iter (map bm_blob_id x.2) in
  filled ← for_fold needed_ids (replicate (length files) EmptyString, c) fill_slot;
  records ← upload_blobs config at_ x.1 filled.1 x.2;
  Ret (fold_left release_slot needed_ids filled.2, blob_records ++ records).
End process.

Section ingest.
Context `{Hashlib} `{S3} `{BlobSettings} `{Repr} `{PySet} `{HttpServer} `{OrgConfigSchema} `{Deployment}.

Definition _resolve_storage_config (org_id : uuid) (bao_client : option (OpenBaoClient * auth)) : prog BlobStorageConfig :=
  org_cfg ← try_except (get_org_config org_id true bao_client false) is_exception
    (λ _, Throw (AppExc ExternalServiceError ("Blob storage config for org " +:+ uuid_str org_id +:+ " could not be read from OpenBao.")));
  Ret (override default_storage (to_blob_storage_config org_cfg)).

Definition _compensate_blob_uploads (bao_client : option (OpenBaoClient * auth)) (org_id : uuid) (storage_keys : list string) : prog unit :=
  match storage_keys with
  | [] => Ret tt
  | _ =>
      try_except
        (config ← _resolve_storage_config org_id bao_client;
         for_each storage_keys (λ key, try_except (delete config key) is_exception (λ _, Ret tt)))
        is_exception (λ _, Ret tt)
  end.

(** The messages are given by their blobs. *)
Definition _process_blobs (bao_client : option (OpenBaoClient * auth)) (at_ : Place) (episode_ids : list uuid)
    (message_blobs : list (list BlobMetadata)) (uploaded_blobs : list UploadFile) : prog (list EpisodeBlob) :=
  match attachments episode_ids message_blobs with
  | [] => Ret []
  | ep_blob_metas =>
      config ← _resolve_storage_config (pl_org at_) bao_client;
      let counts := use_counts ep_blob_metas in
      done_ ← for_fold ep_blob_metas (mkCache (map uf_content uploaded_blobs) ∅ counts, [])
                (one_episode config at_ uploaded_blobs counts);
      Ret done_.2
  end.

Definition extraction_job (queue_name trace_id : string) (org_id project_id : uuid) (b : EpisodeBlob) : event :=
  Effect "extract_blob_text" [queue_name; uuid_str (eb_id b); uuid_str org_id; uuid_str project_id; uuid_str (eb_episode_id b);
                              eb_storage_key b; eb_mime_type b; eb_file_name b; trace_id].

(** [arq]: the queue's pool is there. *)
Definition _enqueue_blob_extraction_tasks (arq : bool) (turns : list nat) (trace_id : string) (blob_records : list EpisodeBlob)
    (org_id project_id : uuid) : prog unit :=
  try_except
    (if negb arq then Throw (RuntimeError "ARQ pool has not been initialised")
     else low_qname ← lift (get_queue_name ENVIRONMENT "low");
          _ ← gather turns (map (λ b, call (Emit (extraction_job low_qname trace_id org_id project_id b))) blob_records);
          Ret tt) is_exception (λ _, Ret tt).
End ingest.

(** * Keys *)

(** Every character of a text. *)
Definition all_chars (p : ascii → bool) (s : string) : Prop := str_exists (λ c, negb (p c)) s = false.

Lemma all_chars_cons p c s : all_chars p (c ::: s) ↔ p c = true ∧ all_chars p s.
Proof. unfold all_chars. cbn. by rewrite orb_false_iff, negb_false_iff. Qed.

Lemma all_chars_map p f s : (∀ c, p (f c) = true) → all_chars p (str_map f s).
Proof. intros Hf. induction s as [|c s IH]; [done|]. by apply all_chars_cons. Qed.
Lemma all_chars_take p n s : all_chars p s → all_chars p (str_take n s).
Proof. revert s; induction n as [|n IH]; intros [|c s]; try done. cbn. rewrite !all_chars_cons. intros [? ?]. auto. Qed.
Lemma all_chars_lstrip p q s : all_chars p s → all_chars p (lstrip_by q s).
Proof. induction s as [|c s IH]; [done|]. cbn. intros H. destruct (q c); [|done]. apply all_chars_cons in H as [_ H]. auto. Qed.
Lemma all_chars_rstrip p q s : all_chars p s → all_chars p (rstrip_by q s).
Proof.
  induction s as [|c s IH]; [done|]. rewrite all_chars_cons. intros [Hc Hs]. specialize (IH Hs). cbn.
  destruct (rstrip_by q s); [destruct (q c); [done|]|]; apply all_chars_cons; split; done.
Qed.

Lemma rstrip_shorter q s : (String.length (rstrip_by q s) ≤ String.length s)%nat.
Proof. induction s as [|c s IH]; [done|]. cbn. destruct (rstrip_by q s); [destruct (q c); cbn; lia|cbn in *; lia]. Qed.
Lemma lstrip_shorter q s : (String.length (lstrip_by q s) ≤ String.length s)%nat.
Proof. induction s as [|c s IH]; [done|]. cbn. destruct (q c); cbn; lia. Qed.

Definition starts_with (p : ascii → bool) (s : string) : Prop := match s with c ::: _ => p c = true | _ => False end.

Lemma strip_starts q s : strip_by q s = EmptyString ∨ starts_with (λ c, negb (q c)) (strip_by q s).
Proof.
  unfold strip_by. assert (lstrip_by q s = EmptyString ∨ starts_with (λ c, negb (q c)) (lstrip_by q s)) as H.
  { induction s as [|c s IH]; [by left|]. cbn. destruct (q c) eqn:E; [done|]. right. cbn. by rewrite E. }
  destruct H as [-> |H]; [by left|]. destruct (lstrip_by q s) as [|c r]; [done|]. cbn in *.
  destruct (rstrip_by q r); [|by right]. apply negb_true_iff in H. rewrite H. right. cbn. by rewrite H.
Qed.

(** A file name in a key. *)
Definition name_characters : string := "ABCDEFGHIJKLMNOPQRSTUVWXYZabcdefghijklmnopqrstuvwxyz0123456789._-".
Definition safe_name (name : string) : Prop :=
  all_chars (λ c, str_mem c name_characters) name ∧ (String.length name ≤ _MAX_SAFE_FILE_NAME_CHARS)%nat ∧ starts_with (λ c, negb (is_filler c)) name.

Lemma is_safe_mem c : is_safe c = true → str_mem c name_characters = true.
Proof. destruct c as [[] [] [] [] [] [] [] []]; by vm_compute. Qed.

Lemma sanitize_safe file_name : safe_name (sanitize_file_name file_name).
Proof.
  unfold sanitize_file_name. set (safe := str_take _ _). set (allowed := λ c, str_mem c name_characters).
  assert (all_chars allowed safe) as Hs.
  { apply all_chars_take, all_chars_map. intros c. destruct (is_safe c) eqn:E; [by apply is_safe_mem|done]. }
  assert (String.length safe ≤ _MAX_SAFE_FILE_NAME_CHARS)%nat as Hl by (unfold safe; rewrite str_take_length; lia).
  destruct (strip_starts is_filler safe) as [-> |Hst].
  - split_and!; [done|cbn; unfold _MAX_SAFE_FILE_NAME_CHARS; lia|done].
  - assert (all_chars allowed (strip_by is_filler safe)) as Ha by by apply all_chars_rstrip, all_chars_lstrip.
    assert (String.length (strip_by is_filler safe) ≤ _MAX_SAFE_FILE_NAME_CHARS)%nat as Hl'.
    { pose proof (rstrip_shorter is_filler (lstrip_by is_filler safe)). pose proof (lstrip_shorter is_filler safe).
      unfold strip_by. lia. }
    destruct (strip_by is_filler safe); [done|]. by split_and!.
Qed.

(** C37. Where an attachment is stored: under its organization, project and episode, in an
    object whose name holds letters, digits, dots, dashes and underscores only, at most
    128 of them, and begins with none of the fillers, so that no file name leaves that
    place; and two attachments share an object only if they are the same blob of the same
    episode. *)
Theorem build_key_confined o p e i f :
  (∃ name, safe_name name ∧
     build_key (uuid_str o) (uuid_str p) (uuid_str e) i f
     = "blobs/" +:+ uuid_str o +:+ "/" +:+ uuid_str p +:+ "/" +:+ uuid_str e +:+ "/" +:+ str_of_Z (Z.of_nat i) +:+ "_" +:+ name)
  ∧ ∀ o' p' e' i' f', uuid_wf o → uuid_wf p → uuid_wf e → uuid_wf o' → uuid_wf p' → uuid_wf e' →
      build_key (uuid_str o) (uuid_str p) (uuid_str e) i f = build_key (uuid_str o') (uuid_str p') (uuid_str e') i' f' →
      o = o' ∧ p = p' ∧ e = e' ∧ i = i'.
Proof.
  split; [by exists (sanitize_file_name f); split; [apply sanitize_safe|]|].
  intros o' p' e' i' f' Ho Hp He Ho' Hp' He' E. unfold build_key in E. apply str_app_inj_l in E.
  apply str_app_inj_len in E as [E1 E]; [|by rewrite !uuid_str_length]. apply str_app_inj_l in E.
  apply str_app_inj_len in E as [E2 E]; [|by rewrite !uuid_str_length]. apply str_app_inj_l in E.
  apply str_app_inj_len in E as [E3 E]; [|by rewrite !uuid_str_length]. apply str_app_inj_l in E.
  apply (lsplit_inj "_") in E as [E _]; [|by apply str_of_Z_sep; repeat constructor..].
  apply (f_equal Z_of_str) in E. rewrite !Z_of_str_of_Z in E. injection E as E.
  split_and!; [by apply uuid_str_inj..|lia].
Qed.

(** * Reading an upload *)

Lemma read_bytes_spec n s : (read_bytes n s).1 +:+ (read_bytes n s).2 = s ∧
  (0 < n → (read_bytes n s).1 = EmptyString → s = EmptyString).
Proof.
  revert n; induction s as [|c s IH]; intros n; [done|]. cbn. destruct (Z.leb_spec n 0); [by split; [|lia]|].
  specialize (IH (n - 1)). destruct (read_bytes (n - 1) s) as [a b]. cbn in *. split; [by rewrite str_app_cons, (proj1 IH)|done].
Qed.

Lemma str_len_app a b : str_len (a +:+ b) = str_len a + str_len b.
Proof. unfold str_len. rewrite str_length_app. lia. Qed.

Lemma read_chunks_spec fuel buffer unread max_bytes name :
  (String.length unread < fuel)%nat → str_len buffer ≤ max_bytes →
  match read_chunks fuel buffer unread max_bytes name with
  | (inr data, rest) => data = buffer +:+ unread ∧ rest = EmptyString ∧ str_len buffer + str_len unread ≤ max_bytes
  | (inl e, _) => e = too_large name max_bytes ∧ max_bytes < str_len buffer + str_len unread
  end.
Proof.
  revert buffer unread; induction fuel as [|fuel IH]; intros buffer unread Hf Hb; [lia|]. cbn [read_chunks].
  destruct (read_bytes_spec _UPLOAD_CHUNK_BYTES unread) as [Ha He].
  destruct (read_bytes _UPLOAD_CHUNK_BYTES unread) as [chunk rest]. cbn [fst snd] in *.
  destruct chunk as [|c r].
  - rewrite str_app_nil_l in Ha. subst rest. rewrite (He ltac:(done) eq_refl) in *. rewrite str_app_nil_r.
    split_and!; [done|done|]. unfold str_len in *. cbn. lia.
  - assert (str_len unread = str_len (c ::: r) + str_len rest) as Hl by by rewrite <- Ha, str_len_app.
    destruct (Z.ltb_spec max_bytes (str_len (buffer +:+ (c ::: r)))) as [Hlt|Hge]; rewrite str_len_app in *.
    + split; [done|]. unfold str_len in *. lia.
    + assert (String.length rest < fuel)%nat as Hr.
      { rewrite <- Ha, str_length_app in Hf. cbn in Hf. lia. }
      specialize (IH (buffer +:+ (c ::: r)) rest Hr). rewrite str_len_app in IH. specialize (IH Hge).
      destruct (read_chunks fuel _ rest max_bytes name) as [[e|data] rest'].
      * split; [tauto|lia].
      * destruct IH as (-> & -> & ?). rewrite str_app_assoc, Ha. split_and!; [done|done|lia].
Qed.

(** The whole file, or 413 when it is larger than allowed. *)
Lemma read_bounded_spec unread max_bytes name :
  0 ≤ max_bytes →
  match read_upload_bounded unread max_bytes name with
  | (inr data, rest) => data = unread ∧ rest = EmptyString ∧ str_len unread ≤ max_bytes
  | (inl e, _) => e = too_large name max_bytes ∧ max_bytes < str_len unread
  end.
Proof.
  intros Hm. pose proof (read_chunks_spec (S (String.length unread)) EmptyString unread max_bytes name ltac:(lia) Hm) as H.
  unfold read_upload_bounded. destruct (read_chunks _ _ _ _ _) as [[e|data] rest]; [tauto|].
  by rewrite str_app_nil_l in H.
Qed.

(** What is read is all there was. *)
Lemma read_chunks_data fuel buffer unread max_bytes name data rest :
  (String.length unread < fuel)%nat → read_chunks fuel buffer unread max_bytes name = (inr data, rest) →
  data = buffer +:+ unread ∧ rest = EmptyString.
Proof.
  revert buffer unread; induction fuel as [|fuel IH]; intros buffer unread Hf; [lia|]. cbn [read_chunks].
  destruct (read_bytes_spec _UPLOAD_CHUNK_BYTES unread) as [Ha He].
  destruct (read_bytes _UPLOAD_CHUNK_BYTES unread) as [chunk r]. cbn [fst snd] in *.
  destruct chunk as [|c t].
  - intros [= <- <-]. rewrite str_app_nil_l in Ha. subst r. by rewrite (He ltac:(done) eq_refl), str_app_nil_r.
  - destruct (_ <? _); [done|]. intros E. apply IH in E as [-> ->].
    + by rewrite str_app_assoc, Ha.
    + rewrite <- Ha, str_length_app in Hf. cbn in Hf. lia.
Qed.

(** * Storing the files of one episode *)

(** A plain INSERT that goes through stores every row. *)
Lemma insert_plain t new old ins l :
  insert_rows t (no_arbiter t) new old = Some (ins, l) → ins = new ∧ l = old ++ new.
Proof.
  revert old ins l; induction new as [|r new IH]; intros old ins l; cbn [insert_rows].
  - intros [= <- <-]. by rewrite app_nil_r.
  - rewrite (existsb_none (no_arbiter t r)) by done. destruct (_ || _); [done|].
    destruct (insert_rows t (no_arbiter t) new (old ++ [r])) as [[ins' l']|] eqn:E; [|done]. intros [= <- <-].
    destruct (IH _ _ _ E) as [-> ->]. by rewrite <- app_assoc.
Qed.

(** New rows of a table, and nothing else. *)
Definition appended (t : table) (rows : list (row t)) (d d' : database) : Prop :=
  d' t = d t ++ rows ∧ ∀ t', t' ≠ t → d' t' = d t'.

Lemma appended_nil t d : appended t [] d d.
Proof. split; [by rewrite app_nil_r|done]. Qed.
Lemma appended_app t rows rows' d d1 d2 : appended t rows d d1 → appended t rows' d1 d2 → appended t (rows ++ rows') d d2.
Proof. intros [H1 H2] [H3 H4]. split; [by rewrite H3, H1, app_assoc|]. intros t' Ht. by rewrite H4, H2. Qed.

Lemma works_insert t (rows : list (row t)) :
  works (call (Insert t (no_arbiter t) rows)) (λ d ins d', ins = rows ∧ appended t rows d d').
Proof.
  apply works_acts. eapply acts_weaken; [by apply acts_call|]. intros d ins d' (l & [-> ->]%insert_plain & ->).
  split; [done|]. split; [by rewrite set_table_eq|]. intros t' Ht. by rewrite set_table_ne.
Qed.

Section storing.
Context `{Hashlib} `{S3} `{BlobSettings} `{Repr}.
Context (config : BlobStorageConfig) (at_ : Place).

(** The row of a file: [content] is the file. *)
Definition row_of (episode_id : uuid) (meta : BlobMetadata) (content : string) (b : EpisodeBlob) : Prop :=
  let file_name := or_else (bm_file_name meta) "unnamed" in
  let mime_type := normalize_upload_mime (or_else (bm_mime_type meta) "application/octet-stream") in
  is_allowed_upload_mime mime_type = true ∧ str_len content ≤ max_blob_bytes config ∧
  b = mkEpisodeBlob (eb_id b) (pl_org at_) (pl_project at_) (pl_session at_) episode_id
        (build_key (uuid_str (pl_org at_)) (uuid_str (pl_project at_)) (uuid_str episode_id) (bm_blob_id meta) file_name)
        file_name mime_type (str_len content) (Z.of_nat (bm_blob_id meta)) (pl_created_by at_) (sha256_hexdigest content).

Definition stored (episode_id : uuid) (slots : list string) (meta : BlobMetadata) (b : EpisodeBlob) : Prop :=
  ∃ content, slots !! bm_blob_id meta = Some content ∧ row_of episode_id meta content b.

Lemma works_upload_one episode_id slots meta :
  works (upload_one config at_ episode_id slots meta) (λ d b d', d' = d ∧ stored episode_id slots meta b).
Proof.
  unfold upload_one. destruct (slots !! bm_blob_id meta) as [file|] eqn:E; [|apply works_throw].
  destruct (is_allowed_upload_mime _) eqn:Em; [|apply works_throw]. cbn [negb]. apply works_lift. intros data Hd.
  unfold bytes_bounded in Hd. destruct (Z.ltb_spec (max_blob_bytes config) (str_len file)); [done|]. injection Hd as <-.
  apply works_then; [unfold upload; stepping|]. intros _. apply works_then; [unfold uuid4; stepping|]. intros id.
  apply works_ret. intros d. split; [done|]. exists file. by split_and!.
Qed.

Lemma works_upload_each episode_id slots metas :
  works (upload_each config at_ episode_id slots metas) (λ d bs d', d' = d ∧ Forall2 (stored episode_id slots) metas bs).
Proof.
  induction metas as [|meta metas IH]; [by apply works_ret|]. cbn [upload_each].
  eapply works_bind; [apply works_upload_one|intros b; eapply works_last, IH|].
  cbn. intros d b d1 x d2 [-> Hb] (bs & -> & -> & Hbs). split; [done|]. by constructor.
Qed.

Lemma works_upload_blobs episode_id slots metas :
  works (upload_blobs config at_ episode_id slots metas)
    (λ d bs d', Forall2 (stored episode_id slots) metas bs ∧ appended episode_blobs bs d d').
Proof.
  unfold upload_blobs. destruct (_ <? _); [apply works_throw|].
  eapply (works_bind _ _ _ (λ blobs d bs d', bs = blobs ∧ appended episode_blobs bs d d')); [apply works_upload_each| |].
  - intros [|b blobs]; [apply works_ret; intros d; split; [done|apply appended_nil]|].
    eapply works_weaken; [apply works_insert|]. cbn. intros d ins d' [-> Ha]. done.
  - cbn. intros d blobs d1 bs d2 [-> Hf] [-> Ha]. done.
Qed.
End storing.

(** * Streams and the files kept for later *)

Definition ids_of (x : uuid * list BlobMetadata) : list nat := map bm_blob_id x.2.

(** How many of the episodes to come refer to a file. *)
Definition needing (todo : list (uuid * list BlobMetadata)) (bid : nat) : nat :=
  length (List.filter (λ x, bool_decide (bid ∈ ids_of x)) todo).

Lemma needing_cons x todo bid :
  needing (x :: todo) bid = ((if bool_decide (bid ∈ ids_of x) then 1 else 0) + needing todo bid)%nat.
Proof. unfold needing. cbn. by destruct (bool_decide _). Qed.

Lemma use_counts_spec l bid : Z.of_nat (needing l bid) ≤ default 0 (use_counts l !! bid).
Proof.
  unfold use_counts. change (concat (map _ l)) with (concat (map ids_of l)).
  assert (∀ (bs : list nat) (m : gmap nat Z), default 0 (fold_left (λ m b, <[b := default 0 (m !! b) + 1]> m) bs m !! bid)
    = default 0 (m !! bid) + Z.of_nat (length (List.filter (λ b, bool_decide (b = bid)) bs))) as Hf.
  { induction bs as [|b bs IH]; intros m; cbn; [lia|]. rewrite IH. destruct (decide (b = bid)) as [->|Hne].
    - rewrite lookup_insert_eq, bool_decide_true by done. cbn. lia.
    - rewrite lookup_insert_ne, bool_decide_false by done. done. }
  rewrite Hf, lookup_empty. cbn. induction l as [|x l IH]; [done|]. rewrite needing_cons. cbn [map concat].
  rewrite List.filter_app, length_app. destruct (bool_decide_reflect (bid ∈ ids_of x)) as [Hx|Hx]; [|lia].
  assert (0 < length (List.filter (λ b : nat, bool_decide (b = bid)) (ids_of x)))%nat; [|lia].
  assert (∀ k : list nat, In bid k → (0 < length k)%nat) as Hk by (intros [|]; cbn; [done|lia]).
  apply Hk, filter_In. split; [by apply list_elem_of_In|by apply bool_decide_true].
Qed.

Lemma Forall2_within {A B} (P Q : A → B → Prop) l k :
  Forall2 P l k → (∀ x y, x ∈ l → P x y → Q x y) → Forall2 Q l k.
Proof.
  induction 1 as [|x y l k Hx Hl IH]; intros HQ; [done|]. constructor; [by apply HQ; [left|]|].
  apply IH. intros x' y' Hin. apply HQ. by right.
Qed.

Section streams.
Context `{Hashlib} `{S3} `{BlobSettings} `{Repr} `{PySet}.
Context (config : BlobStorageConfig) (at_ : Place) (files : list UploadFile) (counts : gmap nat Z).

(** A file that is not kept is still unread, as far as [wanted] asks for it. *)
Definition holds (wanted : nat → Prop) (c : Cache) : Prop :=
  ∀ bid f, files !! bid = Some f →
    match shared_bytes c !! bid with
    | Some data => data = uf_content f
    | None => wanted bid → unread c !! bid = Some (uf_content f)
    end.

(** Between episodes: shared files are held as long as references are to come, and any
    other file has one at most. *)
Definition ready (todo : list (uuid * list BlobMetadata)) (c : Cache) : Prop :=
  holds (λ bid, (0 < needing todo bid)%nat) c
  ∧ ∀ bid, if shared counts bid then Z.of_nat (needing todo bid) ≤ default 0 (remaining c !! bid)
           else (needing todo bid ≤ 1)%nat.

(** Within one: [rest] of its files are still to be fetched. *)
Definition fetching (x : uuid * list BlobMetadata) (todo : list (uuid * list BlobMetadata)) (c0 : Cache)
    (rest : list nat) (acc : list string * Cache) : Prop :=
  NoDup rest ∧ (∀ bid, bid ∈ rest → bid ∈ ids_of x) ∧ length acc.1 = length files ∧ remaining acc.2 = remaining c0
  ∧ holds (λ bid, bid ∈ rest ∨ ((0 < needing todo bid)%nat ∧ bid ∉ ids_of x)) acc.2
  ∧ ∀ bid, bid ∈ ids_of x → bid ∉ rest → ∃ f, files !! bid = Some f ∧ acc.1 !! bid = Some (uf_content f)
      ∧ (shared counts bid = true → shared_bytes acc.2 !! bid = Some (uf_content f)).

Lemma fetching_step x todo c0 bid rest slots c c' data f :
  files !! bid = Some f → data = uf_content f → remaining c' = remaining c →
  shared_bytes c' !! bid = Some data ∨ (shared counts bid = false ∧ shared_bytes c' !! bid = None) →
  (∀ b, b ≠ bid → shared_bytes c' !! b = shared_bytes c !! b ∧ unread c' !! b = unread c !! b) →
  fetching x todo c0 (bid :: rest) (slots, c) → fetching x todo c0 rest (<[bid := data]> slots, c').
Proof.
  intros Ef -> Hr Hk Ho ([Hn Hnd]%NoDup_cons & Hsub & Hlen & Hrem & Hh & Hs). cbn [fst snd] in *.
  split_and!; cbn [fst snd]; [done| |by rewrite length_insert|by rewrite Hr| |].
  - intros b Hb. apply Hsub. by right.
  - intros b g Hg. destruct (decide (b = bid)) as [->|Hne].
    + assert (g = f) as -> by congruence. destruct Hk as [->|[Hk ->]]; [done|].
      intros [Hr'|[_ Hi]]; [done|]. destruct Hi. apply Hsub. left.
    + specialize (Hh b g Hg). destruct (Ho b Hne) as [-> ->]. destruct (shared_bytes c !! b); [done|]. intros Hw. apply Hh.
      destruct Hw as [Hr'|Hw]; [left; by right|by right].
  - intros b Hx Hr'. destruct (decide (b = bid)) as [->|Hne].
    + exists f. split_and!; [done| |].
      * apply list_lookup_insert_eq. rewrite Hlen. by apply lookup_lt_Some in Ef.
      * destruct Hk as [->|[-> _]]; done.
    + rewrite list_lookup_insert_ne by done. destruct (Ho b Hne) as [-> _]. apply Hs; [done|]. by intros [?|?]%elem_of_cons.
Qed.

Lemma works_fill_slot x todo c0 bid rest acc :
  works (fill_slot config files counts acc bid)
    (λ d acc' d', d' = d ∧ (fetching x todo c0 (bid :: rest) acc → fetching x todo c0 rest acc')).
Proof.
  destruct acc as [slots c]. cbn [fill_slot]. destruct (files !! bid) as [f|] eqn:Ef; [|apply works_throw].
  destruct (shared_bytes c !! bid) as [cached|] eqn:Ec.
  - apply works_ret. intros d. split; [done|]. intros Hf. eapply fetching_step; [exact Ef| |done|by left|done|exact Hf].
    destruct Hf as (_ & _ & _ & _ & Hh & _). specialize (Hh bid f Ef). cbn [snd] in Hh. by rewrite Ec in Hh.
  - destruct (read_upload_bounded _ _ _) as [r left] eqn:Er. apply works_lift. intros data ->.
    apply read_chunks_data in Er as [Hd ->]; [|lia]. rewrite str_app_nil_l in Hd.
    apply works_ret. intros d. split; [done|]. intros Hf. eapply (fetching_step _ _ _ _ _ _ c); [exact Ef| |done| | |exact Hf]; cbn [shared_bytes unread].
    + destruct Hf as (_ & _ & _ & _ & Hh & _). specialize (Hh bid f Ef). cbn [snd] in Hh. rewrite Ec in Hh.
      rewrite Hd, Hh; [done|]. left. by left.
    + destruct (shared counts bid); [left; by rewrite lookup_insert_eq|by right].
    + intros b Hne. rewrite list_lookup_insert_ne by done. split; [|done].
      destruct (shared counts bid); [by rewrite lookup_insert_ne|done].
Qed.

Lemma fetching_starts x todo c :
  ready (x :: todo) c → fetching x todo c (set_iter (ids_of x)) (replicate (length files) EmptyString, c).
Proof.
  intros [Hh _]. split_and!; [apply set_iter_nodup|intros bid Hb; by apply (proj1 (set_iter_elem _ _)) in Hb|cbn; by rewrite length_replicate|done| |].
  - intros bid f Hf. specialize (Hh bid f Hf). cbn [snd]. destruct (shared_bytes c !! bid); [done|]. intros Hw. apply Hh.
    rewrite needing_cons. destruct Hw as [Hx|[Hn _]]; [|lia]. apply (proj1 (set_iter_elem _ _)) in Hx. rewrite bool_decide_true by done. lia.
  - intros bid Hx Hn. destruct Hn. by apply set_iter_elem.
Qed.

(** The releases of one episode. *)
Lemma released_spec (l : list nat) c :
  NoDup l →
  unread (fold_left (release_slot counts) l c) = unread c ∧
  ∀ bid, (bid ∉ l ∨ shared counts bid = false →
            shared_bytes (fold_left (release_slot counts) l c) !! bid = shared_bytes c !! bid ∧
            remaining (fold_left (release_slot counts) l c) !! bid = remaining c !! bid) ∧
         (bid ∈ l → shared counts bid = true →
            let left := default 0 (remaining c !! bid) - 1 in
            remaining (fold_left (release_slot counts) l c) !! bid = Some left ∧
            shared_bytes (fold_left (release_slot counts) l c) !! bid = if left <=? 0 then None else shared_bytes c !! bid).
Proof.
  revert c; induction l as [|b l IH]; intros c; cbn [fold_left].
  - intros _. split; [done|]. intros bid. split; [done|]. by intros ?%elem_of_nil.
  - intros [Hb Hn]%NoDup_cons. destruct (IH (release_slot counts c b) Hn) as [Hu Hs].
    assert (unread (release_slot counts c b) = unread c) as Hu' by (unfold release_slot; by destruct (shared counts b)).
    assert (Ho : ∀ bid, bid ≠ b ∨ shared counts bid = false → shared_bytes (release_slot counts c b) !! bid = shared_bytes c !! bid
                          ∧ remaining (release_slot counts c b) !! bid = remaining c !! bid).
    { intros bid Hd. unfold release_slot. destruct (shared counts b) eqn:Eb; [|done].
      assert (bid ≠ b) as Hne by (destruct Hd as [?|?]; [done|congruence]). cbn [shared_bytes remaining].
      rewrite (lookup_insert_ne (remaining c)) by done. split; [|done]. destruct (_ <=? 0); [by rewrite lookup_delete_ne|done]. }
    split; [by rewrite Hu|]. intros bid. destruct (Hs bid) as [R1 R2]. split.
    + intros Hd. destruct (Ho bid) as [<- <-]; [|apply R1]; (destruct Hd as [Hd|?]; [left; intros ?; apply Hd|by right]); [subst; left|by right].
    + intros [->|Hin]%elem_of_cons Hsh.
      * destruct (R1 ltac:(by left)) as [-> ->]. unfold release_slot. rewrite Hsh. cbn [shared_bytes remaining].
        rewrite lookup_insert_eq. split; [done|]. destruct (_ <=? 0); [by rewrite lookup_delete_eq|done].
      * destruct (R2 Hin Hsh) as [-> ->]. destruct (Ho bid) as [-> ->]; [|done]. left. by intros ->.
Qed.

Lemma fetched_ready x todo c slots c' :
  ready (x :: todo) c → fetching x todo c [] (slots, c') → ready todo (fold_left (release_slot counts) (set_iter (ids_of x)) c').
Proof.
  intros [_ Hc] (_ & _ & _ & Hrem & Hh & Hd). cbn [fst snd] in *.
  destruct (released_spec (set_iter (ids_of x)) c' (set_iter_nodup _)) as [Hu Hs]. split.
  - intros bid f Hf. specialize (Hh bid f Hf). destruct (Hs bid) as [R1 R2]. specialize (Hc bid). rewrite needing_cons in Hc. rewrite Hu.
    destruct (decide (bid ∈ ids_of x)) as [Hx|Hx].
    + rewrite bool_decide_true in Hc by done. destruct (Hd bid Hx) as (g & Hg & _ & Hk); [by apply not_elem_of_nil|].
      assert (g = f) as -> by congruence. destruct (shared counts bid) eqn:Esh.
      * destruct (R2 ltac:(by apply set_iter_elem) eq_refl) as [_ ->]. rewrite Hrem, (Hk eq_refl) in *.
        destruct (Z.leb_spec (default 0 (remaining c !! bid) - 1) 0); [lia|done].
      * destruct (R1 ltac:(by right)) as [-> _]. destruct (shared_bytes c' !! bid); [done|]. lia.
    + destruct (R1 ltac:(left; by rewrite set_iter_elem)) as [-> _]. destruct (shared_bytes c' !! bid); [done|].
      intros Hn. apply Hh. by right.
  - intros bid. specialize (Hc bid). rewrite needing_cons in Hc. destruct (Hs bid) as [R1 R2].
    destruct (decide (bid ∈ ids_of x)) as [Hx|Hx].
    + rewrite bool_decide_true in Hc by done. destruct (shared counts bid) eqn:Esh; [|lia].
      destruct (R2 ltac:(by apply set_iter_elem) eq_refl) as [-> _]. rewrite Hrem. cbn. lia.
    + rewrite bool_decide_false in Hc by done. destruct (R1 ltac:(left; by rewrite set_iter_elem)) as [_ ->]. by rewrite Hrem.
Qed.

(** A reference of an episode to a file, and the row it becomes. *)
Definition references (l : list (uuid * list BlobMetadata)) : list (uuid * BlobMetadata) :=
  concat (map (λ x : uuid * list BlobMetadata, map (pair x.1) x.2) l).
Definition attached (r : uuid * BlobMetadata) (b : EpisodeBlob) : Prop :=
  ∃ f, files !! bm_blob_id r.2 = Some f ∧ row_of config at_ r.1 r.2 (uf_content f) b.

Lemma works_fetch x todo c :
  ready (x :: todo) c →
  works (for_fold (set_iter (ids_of x)) (replicate (length files) EmptyString, c) (fill_slot config files counts))
    (λ d acc d', d' = d ∧ fetching x todo c [] acc).
Proof.
  intros Hr. eapply works_weaken.
  - apply (works_from _ (λ d0 d acc d', (d = d0 ∧ fetching x todo c (set_iter (ids_of x)) (replicate (length files) EmptyString, c)) →
                                         d' = d0 ∧ fetching x todo c [] acc)). intros d0.
    apply (works_for_fold (λ rest acc d, d = d0 ∧ fetching x todo c rest acc)). intros bid rest acc.
    eapply works_weaken; [apply works_fill_slot|]. cbn. intros d acc' d' [-> Hf] [-> Ha]. auto.
  - cbn. intros d acc d' Hd. apply Hd. split; [done|]. by apply fetching_starts.
Qed.

Lemma works_one_episode x todo c recs :
  ready (x :: todo) c →
  works (one_episode config at_ files counts (c, recs) x)
    (λ d acc d', ready todo acc.1 ∧ ∃ new, acc.2 = recs ++ new ∧ Forall2 attached (map (pair x.1) x.2) new
                                         ∧ appended episode_blobs new d d').
Proof.
  intros Hr. unfold one_episode. eapply works_bind; [apply (works_fetch x todo c Hr)| |].
  - intros filled. eapply works_last, works_upload_blobs.
  - cbn. intros d [slots c'] d1 acc d2 [-> Hf] (new & -> & Hn & Ha). cbn. split; [by eapply fetched_ready|].
    exists new. split_and!; [done| |done]. apply Forall2_fmap_l. eapply Forall2_within; [exact Hn|].
    intros meta b Hm (content & Hl & Hrow). destruct Hf as (_ & _ & _ & _ & _ & Hd).
    destruct (Hd (bm_blob_id meta)) as (f & Ef & Es & _); [by apply list_elem_of_fmap_2|by apply not_elem_of_nil|].
    exists f. split; [done|]. cbn in *. by replace (uf_content f) with content by congruence.
Qed.

Lemma works_episodes l c recs :
  ready l c →
  works (for_fold l (c, recs) (one_episode config at_ files counts))
    (λ d acc d', ∃ new, acc.2 = recs ++ new ∧ Forall2 attached (references l) new ∧ appended episode_blobs new d d').
Proof.
  revert c recs; induction l as [|x l IH]; intros c recs Hr.
  - apply works_ret. intros d. exists []. rewrite app_nil_r. split_and!; [done|constructor|apply appended_nil].
  - cbn [for_fold]. eapply works_bind_if; [by apply works_one_episode|by intros d acc d' [Hl _]; exact Hl| |].
    + intros acc Hl. rewrite (surjective_pairing acc) at 1. by apply IH.
    + cbn. intros d [c' recs'] d1 acc d2 [_ (n1 & -> & H1' & Ha1)] (n2 & -> & H2' & Ha2). exists (n1 ++ n2). cbn.
      split_and!; [by rewrite app_assoc|by apply Forall2_app|by eapply appended_app].
Qed.
End streams.

(** A value a program returned somewhere. *)
Definition returned {A} (p : prog A) (a : A) : Prop := ∃ s s' : state, run p s = (inr a, s').

Lemma works_returned {A} (p : prog A) R : works p R → works p (λ d a d', R d a d' ∧ returned p a).
Proof.
  intros Hp s. destruct (Hp s) as [Hc HR]. split; [done|]. intros a Ha. split; [by apply HR|].
  exists s, (run p s).2. by rewrite <- Ha, <- surjective_pairing.
Qed.

Section attaching.
Context `{Hashlib} `{S3} `{BlobSettings} `{Repr} `{PySet} `{HttpServer} `{OrgConfigSchema}.

Lemma resolve_steps R org_id bao_client : keeps_tables R → steps_in R (_resolve_storage_config org_id bao_client).
Proof.
  intros HR. unfold _resolve_storage_config. apply steps_in_bind; [|done].
  apply steps_in_try; [by apply get_org_config_steps|done].
Qed.

Lemma compensate_steps R org_id bao_client keys : keeps_tables R → steps_in R (_compensate_blob_uploads bao_client org_id keys).
Proof.
  intros HR. destruct keys as [|key keys]; [done|]. unfold _compensate_blob_uploads. apply steps_in_try; [|done].
  apply steps_in_bind; [by apply resolve_steps|]. intros config. generalize (key :: keys). intros l.
  induction l as [|k l IH]; [done|]. cbn [for_each]. apply steps_in_bind; [|done]. unfold delete. stepping.
Qed.

Lemma ready_first files l : ready files (use_counts l) l (mkCache (map uf_content files) ∅ (use_counts l)).
Proof.
  split.
  - intros bid f Hf. cbn. rewrite lookup_empty. intros _. by rewrite list_lookup_fmap, Hf.
  - intros bid. pose proof (use_counts_spec l bid) as Hc. unfold shared. cbn. destruct (Z.ltb_spec 1 (default 0 (use_counts l !! bid))); lia.
Qed.

Lemma works_process_blobs bao_client at_ episode_ids blobs files :
  works (_process_blobs bao_client at_ episode_ids blobs files)
    (λ d records d',
       ∃ config, (attachments episode_ids blobs ≠ [] → returned (_resolve_storage_config (pl_org at_) bao_client) config)
         ∧ Forall2 (attached config at_ files) (references (attachments episode_ids blobs)) records
         ∧ appended episode_blobs records d d').
Proof.
  unfold _process_blobs. destruct (attachments episode_ids blobs) as [|x l] eqn:El.
  - apply works_ret. intros d. exists default_storage. split_and!; [done|constructor|apply appended_nil].
  - eapply works_bind; [apply works_returned, works_steps, resolve_steps, same_tables_kept|intros config; eapply works_last, works_episodes, ready_first|].
    cbn. intros d config d1 records d2 [-> Hr] (acc & -> & new & -> & Hf & Ha). by exists config.
Qed.

(** C36. What ingest stores of the attachments: one row for every reference of a message to
    a file, in order, with the size and the hash of the whole file, though an upload can
    be read only once and a file that several messages share is fetched for the first of
    them and kept until the last has it; every type is allowed and no file is larger than
    the organization's storage configuration permits. Nothing else is written. *)
Theorem attachments_stored bao_client at_ episode_ids blobs files (s s' : state) records :
  run (_process_blobs bao_client at_ episode_ids blobs files) s = (inr records, s') →
  ∃ config, (attachments episode_ids blobs ≠ [] → returned (_resolve_storage_config (pl_org at_) bao_client) config)
    ∧ Forall2 (attached config at_ files) (references (attachments episode_ids blobs)) records
    ∧ appended episode_blobs records (st_db s) (st_db s').
Proof.
  intros E. destruct (works_process_blobs bao_client at_ episode_ids blobs files s) as [_ HR].
  rewrite E in HR. by apply HR.
Qed.
End attaching.

(** ** At a concrete request *)

Definition marked_hash : Hashlib := {| sha256_hexdigest := λ s, "sha:" +:+ s |}.

(** A store that keeps each object under its bucket and key. *)
Definition bucket_store : S3 := {|
  s3_put := λ config key data mime_type r, (inr tt, <[bucket_name config +:+ "/" +:+ key := data]> r);
  s3_delete := λ config key r, (inr tt, base.delete (bucket_name config +:+ "/" +:+ key) r);
  s3_exception_text := λ _, EmptyString;
|}.
Definition usual_limits : BlobSettings := {| MAX_BLOBS_PER_MESSAGE := 10; MAX_BLOBS_PER_REQUEST := 50 |}.
Definition quoted : Repr := {| py_repr := λ s, "'" +:+ s +:+ "'" |}.
#[program] Definition in_order : PySet := {| set_iter := λ l, remove_dups l |}.
Next Obligation. intros l. apply NoDup_remove_dups. Qed.
Next Obligation. intros l x. apply elem_of_remove_dups. Qed.

(** OpenBao has no configuration of the organization. *)
Definition nothing_stored : HttpServer := {|
  http_request := λ req r, (inr (mkHttpResponse 404 None "Not Found"), r)
|}.
Definition no_settings : OrgConfigBase := mkOrgConfigBase None None None None None None None None None None None [].
Definition no_schema : OrgConfigSchema := {|
  oc_validate := λ _, inr no_settings; oc_validate_json := λ _, inl []; oc_dump_json := λ _, "{}"%string
|}.

Definition here : Place := mkPlace 1 2 3 4.
Definition pdf (i : nat) (name : string) : BlobMetadata := mkBlobMetadata i "Application/PDF; charset=binary" name.

(** Two messages share the first file, the second also has a file of its own. *)
Definition two_messages : list (list BlobMetadata) := [[pdf 0 "a.pdf"]; [pdf 1 "../b?.pdf"; pdf 0 "a.pdf"]].
Definition two_files : list UploadFile := [mkUploadFile (Some "a.pdf"%string) "first file"; mkUploadFile None "second"].
Definition store_two (s : state) : (exn + list EpisodeBlob) * state :=
  run (@_process_blobs marked_hash bucket_store usual_limits quoted in_order nothing_stored no_schema
         (Some (a_client, signed_in)) here [10; 11] two_messages two_files) s.

Lemma attachments_stored_witness :
  ∃ records s', store_two empty_state = (inr records, s') ∧
    map (λ b, (eb_episode_id b, eb_file_size b, eb_content_hash b, eb_mime_type b)) records
    = [(10, 10, "sha:first file"%string, "application/pdf"%string); (11, 6, "sha:second"%string, "application/pdf"%string);
       (11, 10, "sha:first file"%string, "application/pdf"%string)]
    ∧ appended episode_blobs records (st_db empty_state) (st_db s').
Proof.
  exists (match (store_two empty_state).1 with inr l => l | inl _ => [] end), (store_two empty_state).2.
  assert (store_two empty_state = (inr (match (store_two empty_state).1 with inr l => l | inl _ => [] end), (store_two empty_state).2)) as E.
  { rewrite (surjective_pairing (store_two empty_state)) at 1. f_equal. }
  split; [exact E|]. split; [by vm_compute|].
  destruct (@attachments_stored marked_hash bucket_store usual_limits quoted in_order nothing_stored no_schema
              (Some (a_client, signed_in)) here [10; 11] two_messages two_files _ _ _ E) as (config & _ & _ & Ha).
  exact Ha.
Defined.

Lemma build_key_confined_witness :
  ∃ o p e i f, build_key (uuid_str o) (uuid_str p) (uuid_str e) i f
    = "blobs/00000000-0000-0000-0000-000000000001/00000000-0000-0000-0000-000000000002/00000000-0000-0000-0000-00000000000a/1_b_.pdf"%string
    ∧ ∀ f', build_key (uuid_str 1) (uuid_str 2) (uuid_str 10) 1 f ≠ build_key (uuid_str 1) (uuid_str 2) (uuid_str 11) 1 f'.
Proof.
  exists 1, 2, 10, 1%nat, "../b?.pdf"%string. split; [by vm_compute|]. intros f' E.
  assert (∀ u, 0 ≤ u < 100 → uuid_wf u) as Hw by (intros u Hu; unfold uuid_wf; lia).
  pose proof (proj2 (build_key_confined 1 2 10 1 "../b?.pdf") 1 2 11 1%nat f' (Hw 1 ltac:(lia)) (Hw 2 ltac:(lia)) (Hw 10 ltac:(lia))
                (Hw 1 ltac:(lia)) (Hw 2 ltac:(lia)) (Hw 11 ltac:(lia)) E) as (_ & _ & He & _).
  lia.
Defined.

(** What an upload that fails in the middle leaves in the store. *)
Example partial_upload_stays :
  let r := run (@_process_blobs marked_hash bucket_store usual_limits quoted in_order nothing_stored no_schema
                  (Some (a_client, signed_in)) here [10] [[pdf 0 "a.pdf"; mkBlobMetadata 1 "video/mp4" "b.mp4"]] two_files) empty_state in
  r.1 = inl (AppExc ValidationError "Unsupported MIME type 'video/mp4' for blob b.mp4")
  ∧ map_to_list (st_remote r.2)
    = [("openzync-blobs/blobs/00000000-0000-0000-0000-000000000001/00000000-0000-0000-0000-000000000002/00000000-0000-0000-0000-00000000000a/0_a.pdf",
        "first file")]%string.
Proof. by vm_compute. Qed.

(** A message that refers to a file twice meets [uq_episode_blob_index]. *)
Example file_attached_twice :
  (run (@_process_blobs marked_hash bucket_store usual_limits quoted in_order nothing_stored no_schema
          (Some (a_client, signed_in)) here [10] [[pdf 0 "a.pdf"; pdf 0 "b.pdf"]] two_files) empty_state).1 = inl IntegrityError.
Proof. by vm_compute. Qed.

(** The limit of a request counts the blobs of each message alone. *)
Definition two_per_request : BlobSettings := {| MAX_BLOBS_PER_MESSAGE := 1; MAX_BLOBS_PER_REQUEST := 2 |}.
Example three_blobs_of_two :
  match (run (@_process_blobs marked_hash bucket_store two_per_request quoted in_order nothing_stored no_schema
                (Some (a_client, signed_in)) here [10; 11] two_messages two_files) empty_state).1 with
  | inr records => length records = 3%nat
  | inl _ => False
  end.
Proof. by vm_compute. Qed.
