(* ===== verification/Sessions.v ===== *)
(** repositories/session_repository.py, services/session_service.py and the lookup of
    repositories/project_repository.py: sessions of a project, from creation to their
    soft deletion. *)
From S2P Require Import Prelude Errors Data Effects Concurrent Json Users Secrets OpenBao Idempotency Webhooks Blobs.
Open Scope Z_scope.

(** * repositories/project_repository.py *)

Definition live_project (organization_id project_id : uuid) (p : Project) : bool :=
  (p_id p =? project_id) && (p_organization_id p =? organization_id) && negb (p_is_archived p).
Definition get_project (organization_id project_id : uuid) : prog (option Project) :=
  l ← call (Select projects (live_project organization_id project_id)); scalar_one_or_none l.

(** * repositories/session_repository.py *)

(** [JOIN projects ON sessions.project_id = projects.id WHERE projects.organization_id = ...];
    both selections are one statement. *)
Definition project_ids (org_id : uuid) : prog (list uuid) :=
  ps ← call (Select projects (λ p, p_organization_id p =? org_id)); Ret (map p_id ps).
Definition joined_session (org_id : uuid) (p : Session → bool) : prog (option Session) :=
  ids ← project_ids org_id;
  l ← call (Select sessions (λ s, p s && negb (se_is_deleted s) && bool_decide (se_project_id s ∈ ids)));
  scalar_one_or_none l.

Definition in_project (project_id : option uuid) (s : Session) : bool :=
  match project_id with Some p => se_project_id s =? p | None => true end.

Definition get_by_external_id (org_id project_id : uuid) (external_id : string) : prog (option Session) :=
  joined_session org_id (λ s, (se_project_id s =? project_id) && (se_external_id s =? external_id)%string).

Definition get_by_uuid (org_id session_id : uuid) (project_id : option uuid) : prog (option Session) :=
  joined_session org_id (λ s, (se_id s =? session_id) && in_project project_id s).

Definition get_by_id_for_update (session_id : uuid) : prog (option Session) :=
  l ← call (Select sessions (λ s, (se_id s =? session_id) && negb (se_is_deleted s))); scalar_one_or_none l.

(** The defaults of the columns; the server sets both times. *)
Definition create (organization_id project_id created_by : uuid) (external_id : string) (metadata : option (list (string * json))) :
    prog Session :=
  id ← uuid4;
  now ← call Now;
  let s := mkSession id organization_id project_id created_by external_id (default [] metadata) true false None now now in
  _ ← call (Insert sessions (no_arbiter sessions) [s]);
  Ret s.

Definition with_id (id : uuid) (s : Session) : bool := se_id s =? id.
Definition with_metadata (m : list (string * json)) (now : Z) (s : Session) : Session :=
  mkSession (se_id s) (se_organization_id s) (se_project_id s) (se_user_id s) (se_external_id s) m (se_is_active s)
    (se_is_deleted s) (se_closed_at s) (se_created_at s) now.
Definition closed (at_ now : Z) (s : Session) : Session :=
  mkSession (se_id s) (se_organization_id s) (se_project_id s) (se_user_id s) (se_external_id s) (se_metadata s) (se_is_active s)
    (se_is_deleted s) (Some at_) (se_created_at s) now.
Definition deleted (now : Z) (s : Session) : Session :=
  mkSession (se_id s) (se_organization_id s) (se_project_id s) (se_user_id s) (se_external_id s) (se_metadata s) (se_is_active s)
    true (se_closed_at s) (se_created_at s) now.

(** A flush writes what differs, with a new [updated_at], and the refresh reads the row. *)
Definition flush_session (id : uuid) (same : bool) (f : Z → Session → Session) : prog (option Session) :=
  now ← call Now;
  _ ← if same then Ret 0 else call (Update sessions (with_id id) (f now));
  l ← call (Select sessions (with_id id));
  match l with s :: _ => Ret (Some s) | [] => Throw (RuntimeError "Could not refresh instance") end.

Definition update_metadata (org_id session_id : uuid) (metadata : list (string * json)) : prog (option Session) :=
  found ← get_by_uuid org_id session_id None;
  match found with
  | None => Ret None
  | Some s =>
      let existing := merge_metadata (se_metadata s) metadata in
      flush_session (se_id s) (bool_decide (existing = se_metadata s)) (with_metadata existing)
  end.

Definition close (org_id session_id : uuid) : prog (option Session) :=
  found ← get_by_uuid org_id session_id None;
  match found with
  | None => Ret None
  | Some s => now ← call Now; flush_session (se_id s) (bool_decide (se_closed_at s = Some now)) (closed now)
  end.

Definition soft_delete (org_id session_id : uuid) (project_id : option uuid) : prog (option Session) :=
  found ← get_by_uuid org_id session_id project_id;
  match found with
  | None => Ret None
  | Some s => flush_session (se_id s) false deleted
  end.

Definition hours_us : Z := 3600 * us_per_s.
(** Without ORDER BY, any [batch_size] of the rows; here the first ones. *)
Definition find_stale_open_sessions (inactivity_hours batch_size : Z) : prog (list Session) :=
  now ← call Now;
  l ← call (Select sessions (λ s, bool_decide (se_closed_at s = None) && negb (se_is_deleted s)
                                  && (se_updated_at s <? now - inactivity_hours * hours_us)));
  Ret (take (Z.to_nat batch_size) l).

(** ** Counts *)

Definition live_of (session_id : uuid) (e : Episode) : bool := (ep_session_id e =? session_id) && negb (ep_is_deleted e).
Definition message_count (session_id : uuid) : prog Z :=
  l ← call (Select episodes (live_of session_id)); Ret (Z.of_nat (length l)).

Record Stats := mkStats {
  st_message_count : Z;
  st_fact_count : Z;
  st_last_message_at : option Z;
  st_pending_enrichment_count : Z;
}.
Definition no_stats : Stats := mkStats 0 0 None 0.

(** [max] of a column, [NULL] of no row. *)
Definition max_of (l : list Z) : option Z :=
  match l with [] => None | x :: r => Some (fold_left Z.max r x) end.

Definition pending (archived : list uuid) (e : Episode) : bool :=
  negb (Z.land (ep_enrichment_status e) ENRICHMENT_ALL =? ENRICHMENT_ALL) && negb (bool_decide (ep_project_id e ∈ archived)).

(** The selections are subqueries of one statement. *)
Definition get_stats (session_id : uuid) : prog Stats :=
  found ← call (Select sessions (with_id session_id));
  match found with
  | [] => Ret no_stats
  | _ =>
      msgs ← call (Select episodes (live_of session_id));
      fs ← call (Select facts (λ f, bool_decide (f_invalid_at f = None)
                                    && match f_source_episode_id f with
                                       | Some e => bool_decide (e ∈ map ep_id msgs)
                                       | None => false
                                       end));
      archived ← call (Select projects p_is_archived);
      Ret (mkStats (Z.of_nat (length msgs)) (Z.of_nat (length fs)) (max_of (map ep_created_at msgs))
             (Z.of_nat (length (List.filter (pending (map p_id archived)) msgs))))
  end.

(** [get_next_sequence], also as [next_sequence_number]: [MAX + 1] over the live rows. *)
Definition next_sequence (l : list Episode) : Z := default (-1) (max_of (map ep_sequence_number l)) + 1.
Definition get_next_sequence (session_id : uuid) : prog Z :=
  l ← call (Select episodes (live_of session_id)); Ret (next_sequence l).
Definition next_sequence_number : uuid → prog Z := get_next_sequence.

(** Messages and facts of many sessions, of those that have messages. *)
Definition batch_get_stats (session_ids : list uuid) (organization_id : uuid) : prog (list (uuid * (Z * Z))) :=
  match session_ids with
  | [] => Ret []
  | _ =>
      msgs ← call (Select episodes (λ e, bool_decide (ep_session_id e ∈ session_ids)
                                        && (ep_organization_id e =? organization_id) && negb (ep_is_deleted e)));
      fs ← call (Select facts (λ f, bool_decide (f_invalid_at f = None)));
      let facts_of (e : Episode) := length (List.filter (λ f, bool_decide (f_source_episode_id f = Some (ep_id e))) fs) in
      Ret (map (λ id, let mine := List.filter (λ e, ep_session_id e =? id) msgs in
                      (id, (Z.of_nat (length mine), Z.of_nat (list_sum (map facts_of mine)))))
             (remove_dups (map ep_session_id msgs)))
  end.

(** * services/session_service.py *)

(** [if self._webhook_service: await ....emit(...)]; [turns]: how the deliveries are scheduled. *)
Section service.
Context `{Hmac} `{Orjson} `{Deployment} `{Repr}.
Context (webhooks : option (option TransitManager * bool)) (turns : list nat).

Definition notify (organization_id : uuid) (event_type : string) (payload : json) : prog unit :=
  match webhooks with
  | None => Ret tt
  | Some (t, arq) => _ ← emit t arq turns organization_id event_type (Some payload); Ret tt
  end.

(** [SessionResponse]: the row and its counts. *)
Record SessionResponse := mkSessionResponse {
  sr_session : Session;
  sr_message_count : Z;
  sr_fact_count : Z;
  sr_pending_enrichment_count : Z;
}.

Definition create_session (organization_id project_id created_by : uuid) (external_id : string)
    (metadata : option (list (string * json))) : prog SessionResponse :=
  existing ← get_by_external_id organization_id project_id external_id;
  match existing with
  | Some _ => Throw (AppExc ConflictError ("Session '" +:+ external_id +:+ "' already exists in project " +:+ uuid_str project_id))
  | None =>
      s ← create organization_id project_id created_by external_id metadata;
      _ ← notify organization_id "session.created"
            (JObj [("session_id", JStr (uuid_str (se_id s))); ("project_id", JStr (uuid_str project_id));
                   ("created_by", JStr (uuid_str created_by)); ("external_id", JStr external_id)]%string);
      Ret (mkSessionResponse s 0 0 0)
  end.

Definition session_404 (session_id : uuid) : exn := AppExc NotFoundError ("Session " +:+ uuid_str session_id +:+ " not found").

(** The count of observations is left out: their table is not modelled. *)
Definition get_session (org_id session_id : uuid) (project_id : option uuid) : prog SessionResponse :=
  found ← get_by_uuid org_id session_id project_id;
  match found with
  | None => Throw (session_404 session_id)
  | Some s => stats ← get_stats session_id;
      Ret (mkSessionResponse s (st_message_count stats) (st_fact_count stats) (st_pending_enrichment_count stats))
  end.

(** The pending count is not passed on here. *)
Definition get_session_by_external_id (org_id project_id : uuid) (external_id : string) : prog SessionResponse :=
  found ← get_by_external_id org_id project_id external_id;
  match found with
  | None => Throw (AppExc NotFoundError ("Session external_id=" +:+ py_repr external_id +:+ " not found in project "
                                         +:+ uuid_str project_id))
  | Some s =>
      stats ← get_stats (se_id s);
      Ret (mkSessionResponse s (st_message_count stats) (st_fact_count stats) 0)
  end.

Definition delete_session (org_id session_id : uuid) (project_id : option uuid) : prog unit :=
  found ← soft_delete org_id session_id project_id;
  match found with
  | None => Throw (session_404 session_id)
  | Some s =>
      notify org_id "session.closed"
        (JObj [("session_id", JStr (uuid_str session_id)); ("project_id", JStr (uuid_str (se_project_id s)))]%string)
  end.
End service.

(** * Sessions: examples *)

Definition plain_repr : Repr := {| py_repr := λ s, s |}.
Definition deployed : Deployment := {| ENVIRONMENT := "production" |}.
Definition no_hmac : Hmac := {| hmac_hexdigest := λ _ _, EmptyString |}.
Definition one_project : database := set_table projects [mkProject 2 1 "support" None [] false None 0 0] (st_db empty_state).
Definition project_state : state := mkState 0 ∅ one_project one_project None (λ n, Z.of_nat n + 100) 0 [] ∅.

Definition open_session (external_id : string) : prog SessionResponse :=
  @create_session no_hmac json_codec deployed None [] 1 2 4 external_id None.

(** A deleted session keeps its external id taken, without being found under it. *)
Example deleted_id_taken :
  let s1 := (run (request (_ ← open_session "chat-7"; @delete_session no_hmac json_codec deployed None [] 1 100 None)) project_state).2 in
  (run (request (get_by_external_id 1 2 "chat-7")) s1).1 = inr None
  ∧ (run (request (open_session "chat-7")) s1).1 = inl IntegrityError.
Proof. by vm_compute. Qed.

(** A live one answers 409. *)
Example live_id_conflicts :
  (run (request (_ ← open_session "chat-7"; open_session "chat-7")) project_state).1
  = inl (AppExc ConflictError "Session 'chat-7' already exists in project 00000000-0000-0000-0000-000000000002").
Proof. by vm_compute. Qed.

(** Closing again moves the time the session was closed at. *)
Example close_again :
  (run (_ ← open_session "chat-7"; a ← close 1 100; _ ← call (Sleep 5); b ← close 1 100; Ret (a ≫= se_closed_at, b ≫= se_closed_at)) project_state).1
  = inr (Some 0, Some 5).
Proof. by vm_compute. Qed.
