(* ===== verification/Projects.v ===== *)
(** repositories/project_repository.py, repositories/project_pin_repository.py and
    services/project_service.py: projects, their members and the pins of the dashboard. *)
From Stdlib Require Import FunctionalExtensionality.
From S2P Require Import Prelude Errors Data Effects Concurrent Json Cursor Authz Sessions.
Open Scope Z_scope.

(** [ORDER BY] puts the selected rows in some order and keeps them all; text is ordered
    by the collation of the database. *)
Class RowOrder := {
  order_projects : list clause → list Project → list Project;
  order_projects_perm cs l : order_projects cs l ≡ₚ l;
  order_members : list clause → list (ProjectMember * option User) → list (ProjectMember * option User);
  order_members_perm cs l : order_members cs l ≡ₚ l;
  order_pins : list clause → list (Project * ProjectPin) → list (Project * ProjectPin);
  order_pins_perm cs l : order_pins cs l ≡ₚ l;
}.

(** [.limit(limit).offset(offset)]; the server refuses negative ones. *)
Definition paged {A} (limit offset : Z) (l : list A) : prog (list A) :=
  if (limit <? 0) || (offset <? 0) then Throw (DatabaseError "LIMIT must not be negative")
  else Ret (take (Z.to_nat limit) (drop (Z.to_nat offset) l)).

(** * repositories/project_repository.py *)

Definition PROJECT_SORTABLE_COLUMNS : gmap string string :=
  list_to_map [("name", "projects.name"); ("created_at", "projects.created_at"); ("updated_at", "projects.updated_at")]%string.
Definition PROJECT_MEMBER_SORTABLE_COLUMNS : gmap string string :=
  list_to_map [("created_at", "project_members.created_at"); ("role", "project_members.role");
               ("name", "users.name"); ("email", "users.email")]%string.

(** The defaults of the columns; the server sets both times. *)
Definition create (organization_id : uuid) (name : string) (created_by : option uuid) (description : option string)
    (metadata : option (list (string * json))) : prog Project :=
  id ← uuid4;
  now ← call Now;
  let p := mkProject id organization_id name (Some (default EmptyString description)) (default [] metadata) false created_by now now in
  _ ← call (Insert projects (no_arbiter projects) [p]);
  Ret p.

Definition named (organization_id : uuid) (name : string) (p : Project) : bool :=
  (p_organization_id p =? organization_id) && (p_name p =? name)%string && negb (p_is_archived p).
Definition get_by_name (organization_id : uuid) (name : string) : prog (option Project) :=
  l ← call (Select projects (named organization_id name)); scalar_one_or_none l.

Definition project_of (organization_id project_id : uuid) (p : Project) : bool :=
  (p_id p =? project_id) && (p_organization_id p =? organization_id).
Definition is_archived (organization_id project_id : uuid) : prog bool :=
  l ← call (Select projects (project_of organization_id project_id));
  flag ← scalar_one_or_none (map p_is_archived l);
  Ret (match flag with None => true | Some b => b end).

Definition visible (organization_id : uuid) (include_archived : bool) (p : Project) : bool :=
  (p_organization_id p =? organization_id) && (include_archived || negb (p_is_archived p)).

(** Of a user's memberships there is one per project, so that the join repeats no row;
    both selections are one statement. *)
Definition joined_ids (user_id : option uuid) : prog (option (list uuid)) :=
  match user_id with
  | None => Ret None
  | Some u => ms ← call (Select project_members (λ m, pm_user_id m =? u)); Ret (Some (map pm_project_id ms))
  end.
Definition is_joined (ids : option (list uuid)) (p : Project) : bool :=
  match ids with None => true | Some ids => bool_decide (p_id p ∈ ids) end.

(** [SortSpec()]. *)
Definition no_sort : SortSpec := mkSortSpec None "asc".

Section repository.
Context `{RowOrder}.

Definition list_projects_of (organization_id : uuid) (user_id : option uuid) (limit offset : Z) (sort : option SortSpec)
    (include_archived : bool) : prog (list Project) :=
  let effective_limit := Z.min limit 200 in
  let '(req_sort, req_dir) := effective (default no_sort sort) "created_at" "desc" in
  clauses ← lift (resolve_order_by PROJECT_SORTABLE_COLUMNS "projects.id" (Some req_sort) req_dir "created_at" "desc");
  ids ← joined_ids user_id;
  l ← call (Select projects (λ p, visible organization_id include_archived p && is_joined ids p));
  paged effective_limit offset (order_projects clauses l).

Definition all_users (ids : list uuid) : prog (list User) := call (Select users (λ u, bool_decide (u_id u ∈ ids))).

(** [LEFT OUTER JOIN users]: one statement, and one row per member, the id of a user
    being its primary key. *)
Definition with_user (us : list User) (m : ProjectMember) : ProjectMember * option User :=
  (m, List.find (λ u, u_id u =? pm_user_id m) us).
Definition list_members (project_id : uuid) (sort : option SortSpec) : prog (list (ProjectMember * option User)) :=
  let '(req_sort, req_dir) := effective (default no_sort sort) "created_at" "asc" in
  clauses ← lift (resolve_order_by PROJECT_MEMBER_SORTABLE_COLUMNS "project_members.id" (Some req_sort) req_dir "created_at" "asc");
  ms ← call (Select project_members (λ m, pm_project_id m =? project_id));
  us ← all_users (map pm_user_id ms);
  Ret (order_members clauses (map (with_user us) ms)).
End repository.

(** A flush writes what differs, with a new [updated_at], and the refresh reads the row. *)
Definition flush_project (id : uuid) (same : bool) (f : Z → Project → Project) : prog Project :=
  now ← call Now;
  _ ← if same then Ret 0 else call (UpdateUnique projects (λ p, p_id p =? id) (f now));
  l ← call (Select projects (λ p, p_id p =? id));
  match l with p :: _ => Ret p | [] => Throw (RuntimeError "Could not refresh instance") end.

Definition with_fields (name description : option string) (now : Z) (p : Project) : Project :=
  mkProject (p_id p) (p_organization_id p) (default (p_name p) name)
    (match description with Some d => Some d | None => p_description p end)
    (p_metadata p) (p_is_archived p) (p_created_by p) (p_created_at p) now.
Definition with_archived (b : bool) (now : Z) (p : Project) : Project :=
  mkProject (p_id p) (p_organization_id p) (p_name p) (p_description p) (p_metadata p) b (p_created_by p) (p_created_at p) now.

Definition keeps_field (old : option string) (new : option string) : bool :=
  match new with None => true | Some x => bool_decide (old = Some x) end.
Definition update (organization_id project_id : uuid) (name description : option string) : prog (option Project) :=
  found ← Sessions.get_project organization_id project_id;
  match found with
  | None => Ret None
  | Some p =>
      q ← flush_project (p_id p) (keeps_field (Some (p_name p)) name && keeps_field (p_description p) description)
            (with_fields name description);
      Ret (Some q)
  end.

Definition archive (organization_id project_id : uuid) : prog (option Project) :=
  found ← Sessions.get_project organization_id project_id;
  match found with
  | None => Ret None
  | Some p => q ← flush_project (p_id p) (p_is_archived p) (with_archived true); Ret (Some q)
  end.

Definition unarchive (organization_id project_id : uuid) : prog (option Project) :=
  l ← call (Select projects (project_of organization_id project_id));
  found ← scalar_one_or_none l;
  match found with
  | None => Ret None
  | Some p => q ← flush_project (p_id p) (negb (p_is_archived p)) (with_archived false); Ret (Some q)
  end.

Definition count_active (organization_id : uuid) : prog Z :=
  l ← call (Select projects (visible organization_id false)); Ret (Z.of_nat (length l)).

(** ** Members *)

Definition add_member_row (project_id user_id : uuid) (role : string) : prog ProjectMember :=
  id ← uuid4;
  now ← call Now;
  let m := mkProjectMember id project_id user_id role now in
  _ ← call (Insert project_members (no_arbiter project_members) [m]);
  Ret m.

Definition has_id (id : uuid) (m : ProjectMember) : bool := pm_id m =? id.
Definition remove_member_row (project_id user_id : uuid) : prog bool :=
  found ← get_member project_id user_id;
  match found with
  | None => Ret false
  | Some m => _ ← call (Delete project_members (has_id (pm_id m))); Ret true
  end.

Definition with_role (role : string) (m : ProjectMember) : ProjectMember :=
  mkProjectMember (pm_id m) (pm_project_id m) (pm_user_id m) role (pm_created_at m).
Definition update_role_row (project_id user_id : uuid) (role : string) : prog (option ProjectMember) :=
  found ← get_member project_id user_id;
  match found with
  | None => Ret None
  | Some m =>
      _ ← if (pm_role m =? role)%string then Ret 0 else call (Update project_members (has_id (pm_id m)) (with_role role));
      l ← call (Select project_members (has_id (pm_id m)));
      match l with m :: _ => Ret (Some m) | [] => Throw (RuntimeError "Could not refresh instance") end
  end.

Definition count_members (project_id : uuid) : prog Z :=
  l ← call (Select project_members (λ m, pm_project_id m =? project_id)); Ret (Z.of_nat (length l)).

(** [GROUP BY project_id]. *)
Definition tally (ms : list ProjectMember) : gmap uuid Z :=
  foldr (λ m, partial_alter (λ n, Some (default 0 n + 1)) (pm_project_id m)) ∅ ms.
Definition count_members_for_projects (project_ids : list uuid) : prog (gmap uuid Z) :=
  match project_ids with
  | [] => Ret ∅
  | _ => ms ← call (Select project_members (λ m, bool_decide (pm_project_id m ∈ project_ids))); Ret (tally ms)
  end.

(** * repositories/project_pin_repository.py *)

Definition PINNED_PROJECT_SORTABLE_COLUMNS : gmap string string :=
  list_to_map [("pinned_at", "project_pins.pinned_at"); ("name", "projects.name"); ("created_at", "projects.created_at");
               ("updated_at", "projects.updated_at")]%string.

Definition pin_of_user (organization_id user_id : uuid) (x : ProjectPin) : bool :=
  (pp_organization_id x =? organization_id) && (pp_user_id x =? user_id).
Definition pin_on (organization_id user_id project_id : uuid) (x : ProjectPin) : bool :=
  pin_of_user organization_id user_id x && (pp_project_id x =? project_id).

Definition get_pinned_ids (organization_id user_id : uuid) : prog (gset uuid) :=
  l ← call (Select project_pins (pin_of_user organization_id user_id)); Ret (list_to_set (map pp_project_id l)).
Definition count_for_user (organization_id user_id : uuid) : prog Z :=
  l ← call (Select project_pins (pin_of_user organization_id user_id)); Ret (Z.of_nat (length l)).
Definition get_pin (organization_id user_id project_id : uuid) : prog (option ProjectPin) :=
  l ← call (Select project_pins (pin_on organization_id user_id project_id)); scalar_one_or_none l.
Definition is_pinned (organization_id user_id project_id : uuid) : prog bool :=
  x ← get_pin organization_id user_id project_id; Ret (bool_decide (is_Some x)).

(** The advisory lock lets nobody else count or pin for the user until the end of the
    transaction; the count and the insertion are one statement, in a savepoint. *)
Definition pin_if_under_limit (organization_id user_id project_id : uuid) (limit : nat) : prog (option ProjectPin) :=
  try_except
    (id ← uuid4;
     now ← call Now;
     l ← call (Select project_pins (pin_of_user organization_id user_id));
     ins ← if (length l <? limit)%nat then
             call (Insert project_pins (no_arbiter project_pins) [mkProjectPin id user_id project_id organization_id now])
           else Ret [];
     scalar_one_or_none ins) is_integrity
    (λ _, existing ← get_pin organization_id user_id project_id;
          match existing with None => Throw IntegrityError | Some x => Ret (Some x) end).

(** [DELETE ... RETURNING]. *)
Definition unpin (organization_id user_id project_id : uuid) : prog bool :=
  n ← call (Delete project_pins (pin_on organization_id user_id project_id)); Ret (negb (n =? 0)).
Definition delete_for_project (project_id : uuid) : prog Z :=
  call (Delete project_pins (λ x, pp_project_id x =? project_id)).

(** [JOIN project_pins]; both selections are one statement. *)
Definition pin_pairs (pins : list ProjectPin) (p : Project) : list (Project * ProjectPin) :=
  map (pair p) (List.filter (λ x, pp_project_id x =? p_id p) pins).
Definition list_pinned_projects `{RowOrder} (organization_id user_id : uuid) (limit offset : Z) (sort : option SortSpec) :
    prog (list Project) :=
  let effective_limit := Z.min limit 200 in
  let '(req_sort, req_dir) := effective (default no_sort sort) "pinned_at" "desc" in
  clauses ← lift (resolve_order_by PINNED_PROJECT_SORTABLE_COLUMNS "projects.id" (Some req_sort) req_dir "pinned_at" "desc");
  pins ← call (Select project_pins (pin_of_user organization_id user_id));
  ps ← call (Select projects (visible organization_id false));
  paged effective_limit offset (map fst (order_pins clauses (concat (map (pin_pairs pins) ps)))).

(** * services/project_service.py *)

Definition MAX_PINS : nat := 3.

(** schemas/projects.py *)
Inductive ProjectRole := Owner | Member.
Definition role_text (r : ProjectRole) : string := match r with Owner => "owner" | Member => "member" end.

Record ProjectResponse := mkProjectResponse {
  pr_id : uuid;
  pr_name : string;
  pr_description : string;
  pr_metadata : list (string * json);
  pr_is_archived : bool;
  pr_is_pinned : bool;
  pr_member_count : Z;
  pr_created_by : option uuid;
  pr_created_at : Z;
  pr_updated_at : Z;
}.

(** The response as the service fills it in: it never passes the metadata on. *)
Definition response (p : Project) (archived pinned : bool) (members : Z) : ProjectResponse :=
  mkProjectResponse (p_id p) (p_name p) (default EmptyString (p_description p)) [] archived pinned members (p_created_by p)
    (p_created_at p) (p_updated_at p).

Record ProjectMemberResponse := mkProjectMemberResponse {
  pmr_id : uuid;
  pmr_user_id : uuid;
  pmr_role : string;
  pmr_created_at : Z;
}.
Definition member_response (m : ProjectMember) : ProjectMemberResponse :=
  mkProjectMemberResponse (pm_id m) (pm_user_id m) (pm_role m) (pm_created_at m).

Definition project_404 (project_id : uuid) : exn :=
  AppExc NotFoundError ("Project " +:+ uuid_str project_id +:+ " not found").
Definition membership_404 (user_id : uuid) : exn :=
  AppExc NotFoundError ("Membership not found for user " +:+ uuid_str user_id).

Definition create_project (organization_id : uuid) (user_id : option uuid) (name : string) (description : option string)
    (metadata : list (string * json)) : prog ProjectResponse :=
  existing ← get_by_name organization_id name;
  match existing with
  | Some _ => Throw (AppExc ValidationError ("A project named '" +:+ name +:+ "' already exists in this organisation"))
  | None =>
      p ← create organization_id name user_id description (Some metadata);
      _ ← match user_id with Some u => _ ← add_member_row (p_id p) u "owner"; Ret tt | None => Ret tt end;
      Ret (response p false false (match user_id with Some _ => 1 | None => 0 end))
  end.

Definition get_project (organization_id project_id : uuid) : prog ProjectResponse :=
  found ← Sessions.get_project organization_id project_id;
  match found with
  | None => Throw (project_404 project_id)
  | Some p => n ← count_members project_id; Ret (response p false false n)
  end.

Definition update_project (organization_id project_id : uuid) (name description : option string) : prog ProjectResponse :=
  _ ← match name with
      | None => Ret tt
      | Some n =>
          existing ← get_by_name organization_id n;
          match existing with
          | Some p => if p_id p =? project_id then Ret tt
                      else Throw (AppExc ValidationError ("A project named '" +:+ n +:+ "' already exists"))
          | None => Ret tt
          end
      end;
  updated ← update organization_id project_id name description;
  match updated with
  | None => Throw (project_404 project_id)
  | Some p => n ← count_members project_id; Ret (response p false false n)
  end.

Definition archive_project (organization_id project_id : uuid) : prog unit :=
  archived ← archive organization_id project_id;
  match archived with
  | None => Throw (project_404 project_id)
  | Some _ => _ ← delete_for_project project_id; Ret tt
  end.

Definition unarchive_project (organization_id project_id : uuid) : prog ProjectResponse :=
  restored ← unarchive organization_id project_id;
  match restored with
  | None => Throw (project_404 project_id)
  | Some p => n ← count_members project_id; Ret (response p (p_is_archived p) false n)
  end.

Definition pin_project (organization_id user_id project_id : uuid) : prog unit :=
  found ← Sessions.get_project organization_id project_id;
  match found with
  | None => Throw (project_404 project_id)
  | Some p =>
      if p_is_archived p then Throw (project_404 project_id)
      else
        member ← get_member project_id user_id;
        match member with
        | None => Throw (membership_404 user_id)
        | Some _ =>
            already ← is_pinned organization_id user_id project_id;
            if already : bool then Ret tt
            else
              pinned ← pin_if_under_limit organization_id user_id project_id MAX_PINS;
              match pinned with
              | None => Throw (AppExc ValidationError ("Pin limit reached (max " +:+ str_of_Z (Z.of_nat MAX_PINS) +:+ " pinned projects)"))
              | Some _ => Ret tt
              end
        end
  end.

Definition unpin_project (organization_id user_id project_id : uuid) : prog unit :=
  _ ← unpin organization_id user_id project_id; Ret tt.

Definition add_member (project_id user_id : uuid) (role : ProjectRole) : prog ProjectMemberResponse :=
  existing ← get_member project_id user_id;
  match existing with
  | Some _ => Throw (AppExc ValidationError ("User " +:+ uuid_str user_id +:+ " is already a member of this project"))
  | None => m ← add_member_row project_id user_id (role_text role); Ret (member_response m)
  end.

Section service.
Context `{RowOrder}.

Definition list_projects (organization_id : uuid) (user_id : option uuid) (limit offset : Z) (pinned_only : bool)
    (sort : option SortSpec) (include_archived : bool) : prog (list ProjectResponse) :=
  if pinned_only && bool_decide (user_id = None) then
    Throw (AppExc ValidationError "pinned_only requires dashboard authentication")
  else
    pinned_ids ← match user_id with Some u => get_pinned_ids organization_id u | None => Ret ∅ end;
    match user_id, pinned_only with
    | Some u, true =>
        ps ← list_pinned_projects organization_id u limit offset sort;
        counts ← count_members_for_projects (map p_id ps);
        Ret (map (λ p, response p false true (default 0 (counts !! p_id p))) ps)
    | _, _ =>
        ps ← list_projects_of organization_id user_id limit offset sort include_archived;
        counts ← count_members_for_projects (map p_id ps);
        Ret (map (λ p, response p (p_is_archived p) (bool_decide (p_id p ∈ pinned_ids)) (default 0 (counts !! p_id p))) ps)
    end.

Definition is_owner (m : ProjectMember) : bool := (pm_role m =? "owner")%string.
Definition _count_owners (project_id : uuid) : prog Z :=
  ms ← list_members project_id None; Ret (Z.of_nat (length (List.filter is_owner (map fst ms)))).

Definition remove_member (project_id user_id : uuid) : prog unit :=
  found ← get_member project_id user_id;
  match found with
  | None => Throw (AppExc NotFoundError ("Membership not found for user " +:+ uuid_str user_id +:+ " in project " +:+ uuid_str project_id))
  | Some m =>
      _ ← if is_owner m then
            owner_count ← _count_owners project_id;
            if owner_count <=? 1 then Throw (AppExc ValidationError "Cannot remove the last owner from the project") else Ret tt
          else Ret tt;
      removed ← remove_member_row project_id user_id;
      if removed : bool then Ret tt else Throw (membership_404 user_id)
  end.

Definition update_member_role (project_id user_id : uuid) (role : ProjectRole) : prog ProjectMemberResponse :=
  found ← get_member project_id user_id;
  match found with
  | None => Throw (membership_404 user_id)
  | Some m =>
      _ ← if is_owner m && negb (role_text role =? "owner")%string then
            owner_count ← _count_owners project_id;
            if owner_count <=? 1 then Throw (AppExc ValidationError "Cannot downgrade the last owner of the project") else Ret tt
          else Ret tt;
      updated ← update_role_row project_id user_id (role_text role);
      match updated with None => Throw (membership_404 user_id) | Some m => Ret (member_response m) end
  end.

(** * The requests of /v1/projects that change something *)

Inductive project_request :=
| CreateProject (organization_id : uuid) (user_id : option uuid) (name : string) (description : option string)
    (metadata : list (string * json))
| UpdateProject (organization_id project_id : uuid) (name description : option string)
| ArchiveProject (organization_id project_id : uuid)
| UnarchiveProject (organization_id project_id : uuid)
| PinProject (organization_id user_id project_id : uuid)
| UnpinProject (organization_id user_id project_id : uuid)
| AddMember (project_id user_id : uuid) (role : ProjectRole)
| RemoveMember (project_id user_id : uuid)
| UpdateMemberRole (project_id user_id : uuid) (role : ProjectRole).

Definition serve (q : project_request) : prog unit :=
  match q with
  | CreateProject o u n d m => _ ← create_project o u n d m; Ret tt
  | UpdateProject o p n d => _ ← update_project o p n d; Ret tt
  | ArchiveProject o p => archive_project o p
  | UnarchiveProject o p => _ ← unarchive_project o p; Ret tt
  | PinProject o u p => pin_project o u p
  | UnpinProject o u p => unpin_project o u p
  | AddMember p u r => _ ← add_member p u r; Ret tt
  | RemoveMember p u => remove_member p u
  | UpdateMemberRole p u r => _ ← update_member_role p u r; Ret tt
  end.
Definition serve_projects (l : list (Z * project_request)) : prog (list bool) :=
  Effects.attempts (map (λ q, (q.1, Effects.request (serve q.2))) l).
End service.

(** * What the requests keep *)

Definition kept (d : database) : Prop :=
  NoDup (map p_id (d projects : list Project)) ∧ NoDup (map pm_id (d project_members : list ProjectMember))
  ∧ (∀ o u, (length (List.filter (pin_of_user o u) (d project_pins)) ≤ MAX_PINS)%nat)
  ∧ ∀ x p, x ∈ (d project_pins : list ProjectPin) → p ∈ (d projects : list Project) → p_id p = pp_project_id x → p_is_archived p = false.
Definition owned (project_id : uuid) (d : database) : Prop :=
  ∃ m, m ∈ (d project_members : list ProjectMember) ∧ pm_project_id m = project_id ∧ is_owner m = true.
Definition step (d d' : database) : Prop := kept d → kept d' ∧ ∀ p, owned p d → owned p d'.

Lemma step_refl d : step d d.
Proof. by intros Hk. Qed.

(** Only the tables a step is about. *)
Lemma kept_same d d' :
  d' projects = d projects → d' project_members = d project_members → d' project_pins = d project_pins → kept d → kept d'.
Proof. unfold kept. by intros -> -> ->. Qed.
Lemma owned_same p d d' : d' project_members = d project_members → owned p d → owned p d'.
Proof. unfold owned. by intros ->. Qed.

Definition on_project (id : uuid) (g : Project → Project) (p : Project) : Project := if p_id p =? id then g p else p.

Lemma on_project_id id g p : (∀ q, p_id (g q) = p_id q) → p_id (on_project id g p) = p_id p.
Proof. intros Hg. unfold on_project. case_match; [apply Hg|done]. Qed.

(** A project is changed; if it is archived, its pins go. *)
Lemma step_project id g (pins : list ProjectPin) (d : database) :
  (∀ p, p_id (g p) = p_id p) → (∀ x, x ∈ pins → x ∈ (d project_pins : list ProjectPin)) →
  (∀ o u, (length (List.filter (pin_of_user o u) pins) ≤ length (List.filter (pin_of_user o u) (d project_pins)))%nat) →
  (∀ p x, p ∈ (d projects : list Project) → p_id p = id → x ∈ pins → pp_project_id x = id → p_is_archived (g p) = p_is_archived p
          ∨ p_is_archived (g p) = false) →
  step d (set_table project_pins pins (set_table projects (map (on_project id g) (d projects : list Project)) d)).
Proof.
  intros Hid Hpins Hlen Harch (Hp & Hm & Hn & Hl). split; [|by intros p].
  split_and!; [|exact Hm| |].
  - change (NoDup (map p_id (map (on_project id g) (d projects)))). rewrite map_map.
    rewrite (map_ext _ p_id); [done|]. intros p. exact (on_project_id id g p Hid).
  - intros o u. etransitivity; [apply Hlen|apply Hn].
  - intros x p Hx Hp' Ep. change (x ∈ pins) in Hx. change (p ∈ map (on_project id g) (d projects)) in Hp'.
    apply list_elem_of_fmap in Hp' as (q & -> & Hq). rewrite on_project_id in Ep by done.
    unfold on_project. destruct (Z.eqb_spec (p_id q) id) as [E|]; [|apply (Hl x); [by apply Hpins|done..]].
    destruct (Harch q x Hq E Hx ltac:(congruence)) as [->|]; [|done]. apply (Hl x); [by apply Hpins|done..].
Qed.

Lemma step_new_project p (d : database) :
  p_is_archived p = false → (∀ q, q ∈ (d projects : list Project) → row_conflict projects p q = false) →
  step d (set_table projects ((d projects : list Project) ++ [p]) d).
Proof.
  intros Ha Hc (Hp & Hm & Hn & Hl). split; [|by intros x]. split_and!; [|exact Hm|exact Hn|].
  - change (NoDup (map p_id ((d projects : list Project) ++ [p]))). rewrite map_app. apply NoDup_app. split_and!; [done| |apply NoDup_singleton].
    intros i (q & -> & Hq)%list_elem_of_fmap Hi%list_elem_of_singleton. specialize (Hc q Hq). cbn in Hc.
    apply orb_false_iff in Hc as [Hc _]. cbn in Hi. lia.
  - intros x q Hx Hq Eq. change (q ∈ (d projects : list Project) ++ [p]) in Hq. apply elem_of_app in Hq as [Hq| ->%list_elem_of_singleton]; [by apply (Hl x)|done].
Qed.

Lemma step_new_member m (d : database) :
  (∀ x, x ∈ (d project_members : list ProjectMember) → row_conflict project_members m x = false) →
  step d (set_table project_members ((d project_members : list ProjectMember) ++ [m]) d).
Proof.
  intros Hc (Hp & Hm & Hn & Hl). split.
  - split_and!; [exact Hp| |exact Hn|exact Hl].
    change (NoDup (map pm_id ((d project_members : list ProjectMember) ++ [m]))). rewrite map_app. apply NoDup_app.
    split_and!; [done| |apply NoDup_singleton].
    intros i (x & -> & Hx)%list_elem_of_fmap Hi%list_elem_of_singleton. specialize (Hc x Hx). cbn in Hc.
    apply orb_false_iff in Hc as [Hc _]. cbn in Hi. lia.
  - intros p (x & Hx & Ho). exists x. split; [|done]. apply elem_of_app. by left.
Qed.

(** The rows of a project that own it. *)
Definition owners (project_id : uuid) (d : database) : list ProjectMember :=
  List.filter is_owner (List.filter (λ m, pm_project_id m =? project_id) (d project_members)).

(** With two of them, one is another row than [i]. *)
Lemma another_owner project_id i (d : database) :
  NoDup (map pm_id (d project_members : list ProjectMember)) → (2 ≤ length (owners project_id d))%nat →
  ∃ m, m ∈ (d project_members : list ProjectMember) ∧ pm_project_id m = project_id ∧ is_owner m = true ∧ pm_id m ≠ i.
Proof.
  intros Hd Hl.
  assert (NoDup (map pm_id (owners project_id d))) as Hn by by apply NoDup_map_filter, NoDup_map_filter.
  assert (∀ m, m ∈ owners project_id d → m ∈ (d project_members : list ProjectMember) ∧ pm_project_id m = project_id ∧ is_owner m = true) as Hm.
  { intros m [[Hm Hp]%filter_elem Ho]%filter_elem. split; [done|]. split; [lia|done]. }
  destruct (owners project_id d) as [|a [|b l]]; cbn in Hl; [lia|lia|]. cbn in Hn. apply NoDup_cons in Hn as [Hab _].
  destruct (decide (pm_id a = i)) as [E|]; [|exists a; split_and!; [apply Hm; left..|done]].
  exists b. split_and!; [apply Hm; right; left..|]. intros E'. apply Hab. rewrite E, <- E'. left.
Qed.

Lemma step_trans d1 d2 d3 : step d1 d2 → step d2 d3 → step d1 d3.
Proof. intros H1 H2 Hk. destruct (H1 Hk) as [Hk2 Ho]. destruct (H2 Hk2) as [Hk3 Ho']. auto. Qed.

Lemma on_project_none id (l : list Project) : map (on_project id (λ p, p)) l = l.
Proof. rewrite <- (map_id l) at 2. apply map_ext. intros p. unfold on_project. by case_match. Qed.

(** A member's row is removed, or its role changes, where the project keeps an owner. *)
Lemma step_member_gone (m : ProjectMember) (d : database) :
  m ∈ (d project_members : list ProjectMember) → (is_owner m = true → (2 ≤ length (owners (pm_project_id m) d))%nat) →
  step d (set_table project_members (List.filter (λ x : ProjectMember, negb (has_id (pm_id m) x)) (d project_members)) d).
Proof.
  intros Hin Ho (Hp & Hm & Hn & Hl). split.
  - split_and!; [exact Hp|by apply NoDup_map_filter|exact Hn|exact Hl].
  - intros p (x & Hx & Ep & Hox).
    assert (∃ y, y ∈ (d project_members : list ProjectMember) ∧ pm_project_id y = p ∧ is_owner y = true ∧ pm_id y ≠ pm_id m) as (y & Hy & Ey & Hoy & Hne).
    { destruct (decide (pm_id x = pm_id m)) as [E|]; [|by exists x].
      rewrite (NoDup_map_inj pm_id _ x m Hm Hx Hin E) in *. subst p. by apply another_owner; [|apply Ho]. }
    exists y. split; [|done]. apply filter_elem. split; [done|]. unfold has_id. lia.
Qed.

Lemma step_new_role (m : ProjectMember) role (d : database) :
  m ∈ (d project_members : list ProjectMember) →
  (is_owner m = true → role ≠ "owner"%string → (2 ≤ length (owners (pm_project_id m) d))%nat) →
  step d (set_table project_members (map (λ x, if has_id (pm_id m) x then with_role role x else x) (d project_members)) d).
Proof.
  intros Hin Ho (Hp & Hm & Hn & Hl). split.
  - split_and!; [exact Hp| |exact Hn|exact Hl].
    change (NoDup (map pm_id (map (λ x, if has_id (pm_id m) x then with_role role x else x) (d project_members)))). rewrite map_map.
    rewrite (map_ext _ pm_id); [done|]. intros x. by case_match.
  - intros p (x & Hx & Ep & Hox).
    assert (∃ y, y ∈ (d project_members : list ProjectMember) ∧ pm_project_id y = p
               ∧ is_owner (if has_id (pm_id m) y then with_role role y else y) = true) as (y & Hy & Ey & Hoy).
    { unfold has_id. destruct (Z.eqb_spec (pm_id x) (pm_id m)) as [E|Hne].
      - rewrite (NoDup_map_inj pm_id _ x m Hm Hx Hin E) in *. subst p. destruct (decide (role = "owner"%string)) as [->|Hr].
        + exists m. split; [done|]. split; [done|]. by rewrite Z.eqb_refl.
        + destruct (another_owner (pm_project_id m) (pm_id m) d Hm (Ho Hox Hr)) as (y & Hy & Ey & Hoy & Hne).
          exists y. split; [done|]. split; [done|]. by destruct (Z.eqb_spec (pm_id y) (pm_id m)).
      - exists x. split; [done|]. split; [done|]. by destruct (Z.eqb_spec (pm_id x) (pm_id m)). }
    exists (if has_id (pm_id m) y then with_role role y else y). split; [exact (list_elem_of_fmap_2 _ _ _ Hy)|]. split; [by case_match|done].
Qed.

Lemma filter_comm {A} (p q : A → bool) l : List.filter p (List.filter q l) = List.filter q (List.filter p l).
Proof. rewrite !filter_filter. apply List.filter_ext. intros x. apply andb_comm. Qed.

Lemma step_pins_filtered (f : ProjectPin → bool) (d : database) : step d (set_table project_pins (List.filter f (d project_pins)) d).
Proof.
  intros (Hp & Hm & Hn & Hl). split; [|by intros p]. split_and!; [exact Hp|exact Hm| |].
  - intros o u. etransitivity; [|apply (Hn o u)].
    change (length (List.filter (pin_of_user o u) (List.filter f (d project_pins))) ≤ length (List.filter (pin_of_user o u) (d project_pins)))%nat.
    rewrite filter_comm. apply filter_length_le.
  - intros x p [Hx _]%filter_elem. by apply Hl.
Qed.

Lemma step_new_pin (x : ProjectPin) (p : Project) (d : database) :
  p ∈ (d projects : list Project) → p_id p = pp_project_id x → p_is_archived p = false →
  (length (List.filter (pin_of_user (pp_organization_id x) (pp_user_id x)) (d project_pins)) < MAX_PINS)%nat →
  step d (set_table project_pins ((d project_pins : list ProjectPin) ++ [x]) d).
Proof.
  intros Hin Ep Ha Hlen (Hp & Hm & Hn & Hl). split; [|by intros q]. split_and!; [exact Hp|exact Hm| |].
  - intros o u. change (length (List.filter (pin_of_user o u) ((d project_pins : list ProjectPin) ++ [x])) ≤ MAX_PINS)%nat.
    rewrite List.filter_app, length_app. cbn [List.filter]. destruct (pin_of_user o u x) eqn:Eu; [|cbn; rewrite Nat.add_0_r; apply Hn].
    apply andb_true_iff in Eu as [Eo Eu']. assert (o = pp_organization_id x) as -> by lia. assert (u = pp_user_id x) as -> by lia. cbn. lia.
  - intros y q Hy Hq Eq. change (y ∈ (d project_pins : list ProjectPin) ++ [x]) in Hy. apply elem_of_app in Hy as [Hy| ->%list_elem_of_singleton].
    + by apply (Hl y).
    + by rewrite (NoDup_map_inj p_id _ q p Hp Hq Hin ltac:(congruence)).
Qed.

(** ** What the operations do to the database *)

Lemma acts_flush_project id same f :
  (∀ now p, p_id (f now p) = p_id p) →
  acts (flush_project id same f)
    (λ d q d', ∃ now, d' = (if same then d else set_table projects (map (on_project id (f now)) (d projects : list Project)) d)
                 ∧ q ∈ (d' projects : list Project) ∧ p_id q = id).
Proof.
  intros Hf. unfold flush_project. eapply acts_weaken.
  - apply acts_seq; [by apply acts_call|intros now]. apply acts_seq; [|intros n].
    { instantiate (1 := λ d _ d', d' = (if same then d else set_table projects (map (on_project id (f now)) (d projects : list Project)) d)).
      destruct same; [by apply acts_ret|]. eapply acts_weaken; [by apply acts_call|]. by intros d n d' (_ & _ & ->). }
    apply acts_seq; [by apply acts_call|intros l]. instantiate (1 := λ l d q d', d' = d ∧ ∃ r, l = q :: r).
    destruct l as [|q r]; [by apply acts_throw|]. apply acts_ret. eauto.
  - intros d q d' (now & d1 & Hd1 & n & d2 & -> & l & d3 & [-> ->] & -> & r & Hr). cbn in Hd1. subst d1. exists now. split; [done|].
    symmetry in Hr. assert (q ∈ q :: r) as Hq by left. rewrite Hr in Hq. apply filter_elem in Hq as [Hq Ei]. split; [done|lia].
Qed.

Lemma acts_live o p :
  acts (Sessions.get_project o p) (λ d x d', d' = d ∧ ∀ y, x = Some y → y ∈ (d projects : list Project) ∧ p_id y = p ∧ p_is_archived y = false).
Proof.
  eapply acts_weaken; [exact (acts_one projects (live_project o p))|]. intros d x d' [Hx ->]. split; [done|]. intros y ->. cbn in Hx.
  apply filter_single in Hx as [Hy Hl]. split; [done|]. unfold live_project in Hl. apply andb_true_iff in Hl as [Hl Ha].
  split; [lia|]. by destruct (p_is_archived y).
Qed.

Definition member_of (project_id user_id : uuid) (m : ProjectMember) : bool := (pm_project_id m =? project_id) && (pm_user_id m =? user_id).
Lemma acts_member p u :
  acts (get_member p u) (λ d x d', List.filter (member_of p u) (d project_members) = option_list x ∧ d' = d).
Proof. exact (acts_one project_members (member_of p u)). Qed.
Lemma found_member p u m (l : list ProjectMember) : List.filter (member_of p u) l = [m] → m ∈ l ∧ pm_project_id m = p.
Proof. intros [Hm Hp]%filter_single. split; [done|]. unfold member_of in Hp. lia. Qed.

Lemma acts_create_row o n u desc md : acts (create o n u desc md) (λ d p d', step d d').
Proof.
  unfold create. eapply acts_weaken.
  - apply acts_seq; [apply acts_uuid4|intros id]. apply acts_seq; [by apply acts_call|intros now].
    apply acts_seq; [apply acts_insert|intros ins]. by apply (acts_ret _ (λ d _ d', d' = d)).
  - intros d p d' (id & d1 & -> & now & d2 & Hd2 & ins & d3 & [-> Hc] & ->). cbn in Hd2. subst d2. by apply step_new_project.
Qed.

Lemma acts_add_member_row p u role : acts (add_member_row p u role) (λ d m d', step d d').
Proof.
  unfold add_member_row. eapply acts_weaken.
  - apply acts_seq; [apply acts_uuid4|intros id]. apply acts_seq; [by apply acts_call|intros now].
    apply acts_seq; [apply acts_insert|intros ins]. by apply (acts_ret _ (λ d _ d', d' = d)).
  - intros d m d' (id & d1 & -> & now & d2 & Hd2 & ins & d3 & [-> Hc] & ->). cbn in Hd2. subst d2. by apply step_new_member.
Qed.

Lemma count_members_reads p : reads_only (count_members p).
Proof. unfold count_members. reading. Qed.
Lemma get_by_name_reads o n : reads_only (get_by_name o n).
Proof. unfold get_by_name. reading. Qed.
#[local] Hint Resolve count_members_reads get_by_name_reads : zync.

(** A request whose first part makes the step and whose rest reads. *)
Lemma acts_step_then {A B} (p : prog A) (f : A → prog B) :
  acts p (λ d _ d', step d d') → (∀ a, acts (f a) (λ d _ d', step d d')) → acts (p ≫= f) (λ d _ d', step d d').
Proof. intros Hp Hf. eapply acts_bind; [exact Hp|exact Hf|]. intros d a d1 b d2. apply step_trans. Qed.
Lemma acts_step_reads {A} (p : prog A) : reads_only p → acts p (λ d _ d', step d d').
Proof. intros Hp. eapply acts_weaken; [by apply reads_acts|]. intros d a d' ->. apply step_refl. Qed.

Lemma acts_update_fields o p n desc : acts (update o p n desc) (λ d _ d', step d d').
Proof.
  unfold update. eapply acts_bind; [apply acts_live|intros x|].
  - instantiate (1 := λ x d _ d', (∀ y, x = Some y → y ∈ (d projects : list Project)) → step d d').
    destruct x as [y|]; [|apply acts_ret; intros d _; apply step_refl].
    eapply acts_weaken; [apply acts_seq; [by apply acts_flush_project|intros q; by apply (acts_ret _ (λ d _ d', d' = d))]|].
    intros d r d' (q & d1 & (now & Hd1 & _) & ->) _. subst d1. destruct (_ && _); [apply step_refl|].
    rewrite <- (set_table_id project_pins (set_table projects _ d)).
    apply step_project; [done|done|done|]. intros. by left.
  - intros d x d1 r d2 [-> Hx] Hs. apply Hs. intros y ->. by apply Hx.
Qed.

Lemma acts_archive_project o p : acts (archive_project o p) (λ d _ d', step d d').
Proof.
  unfold archive_project, archive. eapply acts_weaken.
  - apply acts_seq; [|intros r].
    { eapply acts_bind; [apply acts_live|intros x|].
      - instantiate (1 := λ x d r d', (∀ y, x = Some y → p_id y = p ∧ p_is_archived y = false) →
          match r with None => True | Some _ => ∃ now, d' = set_table projects (map (on_project p (with_archived true now)) (d projects : list Project)) d end).
        destruct x as [y|]; [|by apply acts_ret].
        eapply acts_weaken; [apply acts_seq; [by apply acts_flush_project|intros q; by apply (acts_ret (Some q) (λ d r d', r = Some q ∧ d' = d))]|].
        intros d r d' (q & d1 & (now & Hd1 & _) & -> & ->) Hy. destruct (Hy y eq_refl) as [<- Ha]. rewrite Ha in Hd1. by exists now.
      - intros d x d1 r d2 [-> Hx] Hr. cbn beta in Hr. apply Hr. intros y E. by apply Hx in E as (_ & ? & ?). }
    instantiate (1 := λ r d _ d', r ≠ None ∧ d' = set_table project_pins (List.filter (λ x : ProjectPin, negb (pp_project_id x =? p)) (d project_pins)) d).
    destruct r as [q|]; [|by apply acts_throw].
    eapply acts_weaken; [apply acts_seq; [by apply acts_call|intros n; by apply (acts_ret tt (λ d _ d', d' = d))]|].
    by intros d [] d' (n & d1 & [_ ->] & ->).
  - intros d [] d' (r & d1 & Hr & Hn & ->). destruct r as [q|]; [|done]. destruct Hr as [now ->].
    apply (step_project p (with_archived true now)); [done| | |].
    + intros x [Hx _]%filter_elem. exact Hx.
    + intros o' u. rewrite filter_comm. apply filter_length_le.
    + intros y x _ _ [_ Hx]%filter_elem E. rewrite E, Z.eqb_refl in Hx. done.
Qed.

Lemma acts_unarchive o p : acts (unarchive o p) (λ d _ d', step d d').
Proof.
  unfold unarchive. apply reads_then; [reading|intros l]. apply reads_then; [reading|intros [y|]].
  - eapply acts_weaken; [apply acts_seq; [by apply acts_flush_project|intros q; by apply (acts_ret _ (λ d _ d', d' = d))]|].
    intros d r d' (q & d1 & (now & Hd1 & _) & ->). subst d1. destruct (negb _); [apply step_refl|].
    rewrite <- (set_table_id project_pins (set_table projects _ d)).
    apply step_project; [done|done|done|]. intros. by right.
  - by apply acts_step_reads, reads_ret.
Qed.

Lemma get_pin_reads o u p : reads_only (get_pin o u p).
Proof. unfold get_pin. reading. Qed.
Lemma is_pinned_reads o u p : reads_only (is_pinned o u p).
Proof. unfold is_pinned. apply reads_bind; [apply get_pin_reads|intros]. reading. Qed.
#[local] Hint Resolve get_pin_reads is_pinned_reads : zync.

Definition has_live (project_id : uuid) (d : database) : Prop :=
  ∃ p, p ∈ (d projects : list Project) ∧ p_id p = project_id ∧ p_is_archived p = false.

(** Without the savepoint. *)
Lemma acts_pin_counted o u p id now :
  acts (l ← call (Select project_pins (pin_of_user o u));
        ins ← if (length l <? MAX_PINS)%nat then call (Insert project_pins (no_arbiter project_pins) [mkProjectPin id u p o now]) else Ret [];
        scalar_one_or_none ins)
    (λ d _ d', has_live p d → step d d').
Proof.
  eapply acts_weaken.
  - apply acts_seq; [by apply acts_call|intros l]. apply acts_seq; [|intros ins; apply acts_scalar].
    instantiate (1 := λ d _ d', (d' = d ∨ (length l < MAX_PINS)%nat ∧ d' = set_table project_pins ((d project_pins : list ProjectPin) ++ [mkProjectPin id u p o now]) d)).
    destruct (Nat.ltb_spec (length l) MAX_PINS); [|apply acts_ret; by left].
    eapply acts_weaken; [apply acts_insert|]. intros d ins d' [-> _]. by right.
  - intros d x d' (l & d1 & [-> ->] & ins & d2 & Hd & _ & ->) (y & Hy & Ey & Ha). destruct Hd as [->|[Hl ->]]; [apply step_refl|].
    by apply (step_new_pin _ y).
Qed.

Lemma acts_pin o u p : acts (pin_if_under_limit o u p MAX_PINS) (λ d _ d', has_live p d → step d d').
Proof.
  intros s. unfold pin_if_under_limit, try_except. rewrite run_catch, run_uuid4. set (s1 := (op_sem _ s).2). rewrite run_now.
  assert (st_committed s1 = st_committed s) as Hc1 by done. change (st_db s) with (st_db s1). clearbody s1.
  match goal with |- context [run ?x s1] => set (q := x) end.
  assert (Hq : match run (A:=option ProjectPin) q s1 with
               | (inr _, s') => (has_live p (st_db s1) → step (st_db s1) (st_db s')) ∧ st_committed s' = st_committed s1
               | (inl e, s') => is_exception e = true ∧ st_committed s' = st_committed s1
               end) by exact (acts_pin_counted o u p (next_uuid s) (st_clock s1) s1).
  assert (∀ e, (run (A:=option ProjectPin) q s1).1 = inl e → st_db (run (A:=option ProjectPin) q s1).2 = st_db s1) as Hsame.
  { intros e. subst q. rewrite (run_select project_pins). destruct (_ <? _)%nat; [|done]. rewrite run_bind, run_call.
    cbn [exec state_world op_sem check_rows row_check insert_rows].
    rewrite (existsb_none (no_arbiter _ _)) by done. by destruct (_ || _). }
  rewrite <- Hc1. destruct (run (A:=option ProjectPin) q s1) as [[e|x] s2]; [|exact Hq]. cbn [fst snd] in *. destruct Hq as [He Hc]. specialize (Hsame e eq_refl).
  destruct (is_integrity e); [|done].
  pose proof (reads_acts (existing ← get_pin o u p; match existing with None => Throw IntegrityError | Some x => Ret (Some x) end)
    ltac:(reading) s2) as Hh. destruct (run _ s2) as [[e'|y] s3]; destruct Hh as [Hd Hc3]; [split; congruence|].
  split; [|congruence]. intros _. rewrite Hd, Hsame. apply step_refl.
Qed.

Section served.
Context `{RowOrder}.

Lemma resolve_reads t c b r db dd : reads_only (lift (resolve_order_by t c b r db dd)).
Proof. apply reads_lift. unfold resolve_order_by. intros e. repeat case_match; by intros [= <-]. Qed.

Lemma acts_list_members p sort :
  acts (list_members p sort)
    (λ d l d', d' = d ∧ map fst l ≡ₚ List.filter (λ m : ProjectMember, pm_project_id m =? p) (d project_members)).
Proof.
  unfold list_members. destruct (effective _ _ _) as [req_sort req_dir]. apply reads_then; [apply resolve_reads|intros cs].
  eapply acts_weaken.
  - apply acts_seq; [by apply acts_call|intros ms]. apply acts_seq; [by apply acts_call|intros us].
    by apply (acts_ret _ (λ d l d', d' = d ∧ l = order_members cs (map (with_user us) ms))).
  - intros d l d' (ms & d1 & [-> ->] & us & d2 & [_ ->] & -> & ->). split; [done|]. rewrite order_members_perm, map_map.
    by rewrite map_id.
Qed.

Lemma acts_owners p : acts (_count_owners p) (λ d n d', d' = d ∧ n = Z.of_nat (length (owners p d))).
Proof.
  unfold _count_owners. eapply acts_weaken; [apply acts_seq; [apply acts_list_members|intros l]|].
  - by apply (acts_ret _ (λ d n d', d' = d ∧ n = Z.of_nat (length (List.filter is_owner (map fst l))))).
  - intros d n d' (l & d1 & [-> Hl] & -> & ->). split; [done|]. unfold owners. f_equal.
    by apply Permutation_length, filter_perm.
Qed.

(** An owner goes only where the project has two. *)
Lemma acts_guard (b : bool) p e :
  acts (if b then n ← _count_owners p; if n <=? 1 then Throw (AppExc ValidationError e) else Ret tt else Ret tt)
    (λ d _ d', d' = d ∧ (b = true → (2 ≤ length (owners p d))%nat)).
Proof.
  destruct b; [|by apply acts_ret]. eapply acts_weaken; [apply acts_seq; [apply acts_owners|intros n]|].
  - instantiate (1 := λ n d _ d', d' = d ∧ 1 < n). destruct (Z.leb_spec n 1); [by apply acts_throw|by apply acts_ret].
  - intros d [] d' (n & d1 & [-> ->] & -> & Hn). split; [done|]. lia.
Qed.

(** What follows the first lookup of a member. *)
Lemma acts_member_then {A} p u (f : option ProjectMember → prog A) :
  (∀ x, acts (f x) (λ d _ d', List.filter (member_of p u) (d project_members) = option_list x → step d d')) →
  acts (get_member p u ≫= f) (λ d _ d', step d d').
Proof. intros Hf. eapply acts_bind; [apply acts_member|exact Hf|]. intros d x d1 a d2 [Hx ->] Hs. by apply Hs. Qed.

Lemma acts_remove_row p u :
  acts (remove_member_row p u)
    (λ d _ d', match List.filter (member_of p u) (d project_members) with
               | [m] => d' = set_table project_members (List.filter (λ x : ProjectMember, negb (has_id (pm_id m) x)) (d project_members)) d
               | _ => d' = d
               end).
Proof.
  unfold remove_member_row. eapply acts_bind; [apply acts_member|intros x|].
  - instantiate (1 := λ x d _ d', d' = match x with
        | Some m => set_table project_members (List.filter (λ x : ProjectMember, negb (has_id (pm_id m) x)) (d project_members)) d
        | None => d end).
    destruct x as [m|]; [|by apply acts_ret].
    eapply acts_weaken; [apply acts_seq; [by apply acts_call|intros n; by apply (acts_ret true (λ d _ d', d' = d))]|].
    by intros d b d' (n & d1 & [_ ->] & ->).
  - intros d x d1 b d2 [Hx ->] ->. cbn in Hx. rewrite Hx. by destruct x.
Qed.

Lemma acts_update_role_row p u role :
  acts (update_role_row p u role)
    (λ d _ d', d' = d ∨ match List.filter (member_of p u) (d project_members) with
               | [m] => d' = set_table project_members (map (λ x, if has_id (pm_id m) x then with_role role x else x) (d project_members)) d
               | _ => d' = d
               end).
Proof.
  unfold update_role_row. eapply acts_bind; [apply acts_member|intros x|].
  - instantiate (1 := λ x d _ d', d' = d ∨ d' = match x with
        | Some m => set_table project_members (map (λ x, if has_id (pm_id m) x then with_role role x else x) (d project_members)) d
        | None => d end).
    destruct x as [m|]; [|apply acts_ret; by left]. eapply acts_bind.
    + instantiate (1 := λ d _ d', d' = d ∨ d' = set_table project_members (map (λ x, if has_id (pm_id m) x then with_role role x else x) (d project_members)) d).
      destruct (_ =? _)%string; [apply acts_ret; by left|]. eapply acts_weaken; [by apply acts_call|]. intros d n d' [_ ->]. by right.
    + intros n. apply reads_acts. reading.
    + by intros d n d1 r d2 Hd ->.
  - intros d x d1 b d2 [Hx ->] Hd. cbn in Hx. rewrite Hx. destruct Hd as [->| ->]; [by left|right]. by destruct x.
Qed.

Lemma acts_remove_member p u : acts (remove_member p u) (λ d _ d', step d d').
Proof.
  unfold remove_member. apply acts_member_then. intros [m|]; [|by apply acts_throw]. eapply acts_weaken.
  - apply acts_seq; [apply acts_guard|intros n]. apply acts_seq; [apply acts_remove_row|intros b].
    instantiate (1 := λ _ d _ d', d' = d). by destruct b; [apply acts_ret|apply acts_throw].
  - intros d r d' (n & d1 & [-> Ho] & b & d2 & Hd & ->) Hm. change (List.filter (member_of p u) (d project_members) = [m]) in Hm.
    rewrite Hm in Hd. apply found_member in Hm as [Hin <-]. subst d2. by apply step_member_gone.
Qed.

Lemma acts_update_member_role p u role : acts (update_member_role p u role) (λ d _ d', step d d').
Proof.
  unfold update_member_role. apply acts_member_then. intros [m|]; [|by apply acts_throw]. eapply acts_weaken.
  - apply acts_seq; [apply acts_guard|intros n]. apply acts_seq; [apply acts_update_role_row|intros r].
    instantiate (1 := λ _ d _ d', d' = d). by destruct r; [apply acts_ret|apply acts_throw].
  - intros d r d' (n & d1 & [-> Ho] & b & d2 & Hd & ->) Hm. change (List.filter (member_of p u) (d project_members) = [m]) in Hm.
    rewrite Hm in Hd. apply found_member in Hm as [Hin <-]. destruct Hd as [->| ->]; [apply step_refl|]. apply step_new_role; [done|].
    intros Hw Hr. apply Ho. rewrite Hw. cbn. by apply negb_true_iff, String.eqb_neq.
Qed.

Lemma serve_steps q : acts (serve q) (λ d _ d', step d d').
Proof.
  destruct q; cbn [serve].
  - apply acts_drop. unfold create_project. apply reads_then; [auto with zync|intros [?|]]; [by apply acts_throw|].
    apply acts_step_then; [apply acts_create_row|intros p]. apply acts_step_then; [|intros _; by apply acts_step_reads, reads_ret].
    destruct user_id; [|by apply acts_step_reads, reads_ret]. apply acts_step_then; [apply acts_add_member_row|intros _].
    by apply acts_step_reads, reads_ret.
  - apply acts_drop. unfold update_project. apply reads_then; [destruct name; reading|intros _].
    apply acts_step_then; [apply acts_update_fields|intros r]. apply acts_step_reads. reading.
  - apply acts_archive_project.
  - apply acts_drop. unfold unarchive_project. apply acts_step_then; [apply acts_unarchive|intros r]. apply acts_step_reads. reading.
  - unfold pin_project. eapply acts_bind; [apply acts_live|intros x|].
    + instantiate (1 := λ x d _ d', (∀ y, x = Some y → has_live project_id d) → step d d').
      destruct x as [y|]; [|by apply acts_throw]. destruct (p_is_archived y); [by apply acts_throw|].
      apply reads_then; [unfold get_member; reading|intros [m|]]; [|by apply acts_throw].
      apply reads_then; [auto with zync|intros [|]]; [apply acts_ret; intros d _; apply step_refl|].
      eapply acts_bind; [apply acts_pin|intros r; instantiate (1 := λ _ d _ d', d' = d); by destruct r; [apply acts_ret|apply acts_throw]|].
      intros d r d1 [] d2 Hs -> Hy. apply Hs. by apply (Hy y).
    + intros d x d1 [] d2 [-> Hx] Hs. apply Hs. intros y Ey. exists y. by apply Hx.
  - unfold unpin_project, unpin. apply acts_step_then; [|intros _; by apply acts_step_reads, reads_ret].
    apply acts_step_then; [|intros ?; by apply acts_step_reads, reads_ret].
    eapply acts_weaken; [by apply acts_call|]. intros d n d' [_ ->]. apply step_pins_filtered.
  - apply acts_drop. unfold add_member. apply reads_then; [unfold get_member; reading|intros [?|]]; [by apply acts_throw|].
    apply acts_step_then; [apply acts_add_member_row|intros m]. by apply acts_step_reads, reads_ret.
  - apply acts_remove_member.
  - apply acts_drop, acts_update_member_role.
Qed.

(** Whatever requests /v1/projects serves one after the other: a user has at most
    three pins in an organization, no pinned project is archived, ids stay unique, and a
    project that has an owner still has one. *)
Theorem projects_kept (l : list (Z * project_request)) (s : state) :
  st_db s = st_committed s → kept (st_db s) →
  let s' := (run (serve_projects l) s).2 in
  st_db s' = st_committed s' ∧ kept (st_db s') ∧ ∀ p, owned p (st_db s) → owned p (st_db s').
Proof.
  intros Hs Hk. apply (requests_keep (λ d, kept d ∧ ∀ p, owned p (st_db s) → owned p d)); [|done|done].
  intros d p ([d' q] & [= -> ->] & _)%list_elem_of_fmap. eexists. split; [done|].
  eapply acts_weaken; [apply serve_steps|]. intros d0 v d1 Hst [Hk0 Ho]. destruct (Hst Hk0) as [Hk1 Ho1]. auto.
Qed.

(** * What a listing shows *)

Definition joined (user_id : option uuid) (d : database) (p : Project) : bool :=
  match user_id with
  | None => true
  | Some u => existsb (λ m : ProjectMember, (pm_user_id m =? u) && (pm_project_id m =? p_id p)) (d project_members)
  end.
Definition members_of (d : database) (p : Project) : Z :=
  Z.of_nat (length (List.filter (λ m : ProjectMember, pm_project_id m =? p_id p) (d project_members))).
Definition pinned_by (organization_id : uuid) (user_id : option uuid) (d : database) (p : Project) : bool :=
  match user_id with
  | None => false
  | Some u => existsb (λ x, pin_on organization_id u (p_id p) x) (d project_pins)
  end.
Definition sortable (columns : gmap string string) (sort : option SortSpec) : bool :=
  match sort with
  | Some (mkSortSpec (Some b) dir) => bool_decide (is_Some (columns !! b)) && is_dir dir
  | _ => true
  end.

Lemma resolved sort :
  sortable PROJECT_SORTABLE_COLUMNS sort = true →
  let '(b, dir) := effective (default no_sort sort) "created_at" "desc" in
  ∃ cs, resolve_order_by PROJECT_SORTABLE_COLUMNS "projects.id" (Some b) dir "created_at" "desc" = inr cs.
Proof.
  destruct sort as [[[b|] dir]|]; [|intros _; by eexists..]. cbn [sortable from_option id effective spec_by spec_dir].
  intros [Hb Hd]%andb_true_iff. apply bool_decide_eq_true in Hb as [c Hc]. unfold resolve_order_by. cbn [from_option id].
  rewrite Hc, Hd. eexists. cbn. reflexivity.
Qed.

Lemma tally_lookup (ms : list ProjectMember) p :
  default 0 (tally ms !! p) = Z.of_nat (length (List.filter (λ m, pm_project_id m =? p) ms)).
Proof.
  induction ms as [|m ms IH]; [done|]. cbn [tally foldr List.filter]. fold (tally ms). destruct (Z.eqb_spec (pm_project_id m) p) as [->|Hn].
  - rewrite lookup_partial_alter_eq. cbn [from_option id length]. rewrite IH. lia.
  - rewrite lookup_partial_alter_ne by done. exact IH.
Qed.

Definition listed (organization_id : uuid) (user_id : option uuid) (d : database) (p : Project) : ProjectResponse :=
  response p (p_is_archived p) (pinned_by organization_id user_id d p) (members_of d p).

Lemma run_counts (ps : list Project) (s : state) :
  ∃ counts, (∀ p, p ∈ ps → default 0 (counts !! p_id p) = members_of (st_db s) p) ∧
    ∀ A (f : gmap uuid Z → prog A), run (count_members_for_projects (map p_id ps) ≫= f) s = run (f counts) s.
Proof.
  unfold count_members_for_projects. destruct ps as [|p0 ps].
  - exists ∅. split; [by intros p ?%elem_of_nil|done].
  - set (l := p0 :: ps) in *. change (map p_id l) with (p_id p0 :: map p_id ps) at 1. cbn [map].
    set (ms := List.filter (λ m : ProjectMember, bool_decide (pm_project_id m ∈ map p_id l)) (st_db s project_members)).
    assert (Hms : ∀ p, p ∈ l → default 0 (tally ms !! p_id p) = members_of (st_db s) p).
    { intros p Hp. rewrite tally_lookup. unfold members_of, ms. rewrite filter_filter. do 2 f_equal. apply List.filter_ext. intros m.
      destruct (Z.eqb_spec (pm_project_id m) (p_id p)) as [E|]; [|by rewrite andb_false_r]. rewrite andb_true_r.
      apply bool_decide_eq_true. rewrite E. by apply list_elem_of_fmap_2. }
    exists (tally ms). split; [done|]. intros A f. by rewrite run_assoc, (run_select project_members).
Qed.

Lemma pinned_ids o u (d : database) p :
  bool_decide (p_id p ∈ (list_to_set (map pp_project_id (List.filter (pin_of_user o u) (d project_pins))) : gset uuid))
  = pinned_by o (Some u) d p.
Proof.
  apply Bool.eq_iff_eq_true. rewrite bool_decide_eq_true, elem_of_list_to_set. cbn [pinned_by]. rewrite existsb_exists. split.
  - intros (x & E & [Hx Hp]%filter_elem)%list_elem_of_fmap. exists x. split; [by apply list_elem_of_In|]. unfold pin_on. rewrite Hp. cbn. lia.
  - intros (x & Hx%list_elem_of_In & [Hp E]%andb_true_iff). apply list_elem_of_fmap. exists x. split; [lia|by apply filter_elem].
Qed.

Lemma run_list_of {A} o user limit offset sort arch (f : list Project → prog A) (s : state) :
  0 ≤ limit → 0 ≤ offset → sortable PROJECT_SORTABLE_COLUMNS sort = true →
  ∃ all, all ≡ₚ List.filter (λ p, visible o arch p && joined user (st_db s) p) (st_db s projects) ∧
    run (list_projects_of o user limit offset sort arch ≫= f) s
    = run (f (take (Z.to_nat (Z.min limit 200)) (drop (Z.to_nat offset) all))) s.
Proof.
  intros Hl Ho Hs. unfold list_projects_of. apply resolved in Hs. destruct (effective _ _ _) as [b dir].
  destruct Hs as [cs ->]. cbn [lift]. rewrite run_assoc, run_ret_bind, run_assoc.
  assert (∃ ids, (∀ p, is_joined ids p = joined user (st_db s) p) ∧ ∀ k : option (list uuid) → prog A, run (joined_ids user ≫= k) s = run (k ids) s)
    as (ids & Hids & ->).
  { destruct user as [u|]; [|by exists None]. cbn [joined_ids].
    exists (Some (map pm_project_id (List.filter (λ m, pm_user_id m =? u) (st_db s project_members : list ProjectMember)))). split.
    - intros p. cbn [is_joined joined]. apply Bool.eq_iff_eq_true. rewrite bool_decide_eq_true, existsb_exists, list_elem_of_fmap. split.
      + intros (m & E & [Hm Hu]%filter_elem). exists m. split; [by apply list_elem_of_In|]. apply andb_true_iff. split; [done|lia].
      + intros (m & Hm%list_elem_of_In & [Hu E]%andb_true_iff). exists m. split; [lia|by apply filter_elem].
    - intros k. by rewrite run_assoc, (run_select project_members). }
  rewrite run_assoc, (run_select projects). eexists. split.
  2:{ unfold paged. replace ((Z.min limit 200 <? 0) || (offset <? 0)) with false by lia. by rewrite run_ret_bind. }
  rewrite order_projects_perm. apply Permutation_refl'. apply List.filter_ext. intros p. by rewrite Hids.
Qed.

(** A listing of projects. With a sort that is allowed and no negative bound it
    answers, changing nothing, one page of at most 200 of the projects of the organization
    that the caller belongs to (of all of them for an API key), the archived ones only on
    request, each exactly once and with its number of members and the caller's own pin. *)
Theorem listing_exact o user limit offset sort arch (s : state) :
  0 ≤ limit → 0 ≤ offset → sortable PROJECT_SORTABLE_COLUMNS sort = true →
  ∃ all, all ≡ₚ List.filter (λ p, visible o arch p && joined user (st_db s) p) (st_db s projects) ∧
    run (list_projects o user limit offset false sort arch) s
    = (inr (map (listed o user (st_db s)) (take (Z.to_nat (Z.min limit 200)) (drop (Z.to_nat offset) all))), s).
Proof.
  intros Hl Ho Hs. unfold list_projects. cbn [andb].
  set (pins := match user with Some u => list_to_set (map pp_project_id (List.filter (pin_of_user o u) (st_db s project_pins))) | None => ∅ end : gset uuid).
  assert (Hpins : ∀ p, bool_decide (p_id p ∈ pins) = pinned_by o user (st_db s) p).
  { intros p. destruct user as [u|]; [apply pinned_ids|]. by apply bool_decide_eq_false. }
  match goal with |- context [run (?q ≫= ?k) s] => set (K := k) end.
  assert (run (match user with Some u => get_pinned_ids o u | None => Ret ∅ end ≫= K) s = run (K pins) s) as ->.
  { destruct user; [|done]. unfold get_pinned_ids. by rewrite run_assoc, (run_select project_pins). }
  subst K. cbn beta.
  destruct (run_list_of o user limit offset sort arch
    (λ ps, counts ← count_members_for_projects (map p_id ps);
           Ret (map (λ p, response p (p_is_archived p) (bool_decide (p_id p ∈ pins)) (default 0 (counts !! p_id p))) ps)) s Hl Ho Hs)
    as (all & Hall & Hrun).
  exists all. split; [done|]. transitivity (run (ps ← list_projects_of o user limit offset sort arch; counts ← count_members_for_projects (map p_id ps);
           Ret (map (λ p, response p (p_is_archived p) (bool_decide (p_id p ∈ pins)) (default 0 (counts !! p_id p))) ps)) s).
  { by destruct user. }
  rewrite Hrun. set (page := take _ _).
  destruct (run_counts page s) as (counts & Hc & ->). cbn [run].
  do 2 f_equal. apply map_ext_in. intros p Hp%list_elem_of_In. unfold listed. by rewrite Hpins, (Hc p Hp).
Qed.
End served.

(** * Archiving and restoring *)

(** The rows of a table meet its constraints among themselves; they go on doing so when
    the columns the constraints read are left alone. *)
Definition constraints_hold (t : table) (l : list (row t)) : Prop := Effects.unique_rows t (map (pair true) l) = true.

Lemma constraints_map t (f : row t → row t) (l : list (row t)) :
  (∀ a b, row_conflict t (f a) (f b) = row_conflict t a b) → constraints_hold t l → constraints_hold t (map f l).
Proof.
  intros Hf. unfold constraints_hold. induction l as [|x l IH]; [done|]. cbn [map Effects.unique_rows]. intros [Hx Hu]%andb_true_iff.
  rewrite IH, andb_true_r by done. rewrite forallb_forall in Hx |- *. intros y (z & <- & Hz)%in_map_iff.
  apply in_map_iff in Hz as (w & <- & Hw). cbn [orb snd]. rewrite Hf. apply (Hx (true, w)), in_map_iff. by exists w.
Qed.

Lemma constraints_unique t (l : list (bool * row t)) : constraints_hold t (map snd l) → Effects.unique_rows t l = true.
Proof.
  unfold constraints_hold. induction l as [|[b x] l IH]; [done|]. cbn [map Effects.unique_rows snd]. intros [Hx Hu]%andb_true_iff.
  rewrite IH, andb_true_r by done. rewrite forallb_forall in Hx |- *. intros y Hy. specialize (Hx (true, y.2)). cbn in Hx.
  assert (negb (row_conflict t x y.2) = true) as Hn%negb_true_iff by (apply Hx, in_map_iff; exists y.2; split; [done|]; by apply in_map).
  by rewrite Hn, andb_false_r.
Qed.

(** A change of one project that keeps what the constraints read. *)
Definition plain_change (g : Project → Project) : Prop :=
  ∀ a, p_id (g a) = p_id a ∧ p_organization_id (g a) = p_organization_id a ∧ p_name (g a) = p_name a.

Lemma changed_constraints id g (l : list Project) : plain_change g → constraints_hold projects l → constraints_hold projects (map (on_project id g) l).
Proof.
  intros Hg. apply (constraints_map projects). intros a b. unfold on_project. cbn.
  destruct (Hg a) as (Ea & Oa & Na), (Hg b) as (Eb & Ob & Nb). repeat case_match; by rewrite ?Ea, ?Eb, ?Oa, ?Ob, ?Na, ?Nb.
Qed.

Lemma changed_found id g p (l : list Project) :
  plain_change g → List.filter (λ q, p_id q =? id) l = [p] → List.filter (λ q, p_id q =? id) (map (on_project id g) l) = [g p].
Proof.
  intros Hg Hp. rewrite filter_map_same, Hp; [|intros a; f_equal; apply on_project_id; intros q; apply Hg].
  apply filter_single in Hp as [_ Ei]. cbn [map]. unfold on_project. by rewrite Ei.
Qed.

Lemma run_flush {A} id f (k : Project → prog A) p (s : state) :
  (∀ now, plain_change (f now)) → constraints_hold projects (st_db s projects) →
  List.filter (λ p, p_id p =? id) (st_db s projects : list Project) = [p] →
  run (flush_project id false f ≫= k) s
  = run (k (f (st_clock s) p)) (set_db (set_table projects (map (on_project id (f (st_clock s))) (st_db s projects : list Project)) (st_db s)) s).
Proof.
  intros Hf Hc Hp. unfold flush_project. rewrite run_assoc, run_now, run_assoc, (run_update_unique projects).
  - rewrite run_assoc, (run_select projects). cbn [set_db st_db]. rewrite set_table_eq.
    change (run (match List.filter (λ p, p_id p =? id) (map (on_project id (f (st_clock s))) (st_db s projects : list Project)) with
                 | q :: _ => Ret q | [] => Throw (RuntimeError "Could not refresh instance") end ≫= k)
              (set_db (set_table projects (map (on_project id (f (st_clock s))) (st_db s projects : list Project)) (st_db s)) s)
            = run (k (f (st_clock s) p)) (set_db (set_table projects (map (on_project id (f (st_clock s))) (st_db s projects : list Project)) (st_db s)) s)).
    by rewrite (changed_found id (f (st_clock s)) p).
  - done.
  - apply constraints_unique. rewrite map_map. rewrite (map_ext _ (on_project id (f (st_clock s)))).
    + by apply changed_constraints.
    + intros a. unfold on_project. by destruct (p_id a =? id).
Qed.

Lemma filter_narrow {A} (q r : A → bool) (l : list A) x :
  List.filter q l = [x] → List.filter (λ y, q y && r y) l = if r x then [x] else [].
Proof. intros E. rewrite <- filter_filter, E. done. Qed.

(** Only the time of the last change is new. *)
Definition touched (now : Z) (p : Project) : Project :=
  mkProject (p_id p) (p_organization_id p) (p_name p) (p_description p) (p_metadata p) (p_is_archived p) (p_created_by p) (p_created_at p) now.

Lemma found_live p (l : list Project) :
  List.filter (λ q, p_id q =? p_id p) l = [p] →
  List.filter (live_project (p_organization_id p) (p_id p)) l = if p_is_archived p then [] else [p].
Proof.
  intros Hl. unfold live_project.
  rewrite (List.filter_ext _ (λ q, (p_id q =? p_id p) && ((p_organization_id q =? p_organization_id p) && negb (p_is_archived q))))
    by (intros q; by rewrite andb_assoc).
  rewrite (filter_narrow _ _ _ _ Hl), Z.eqb_refl. by destruct (p_is_archived p).
Qed.

(** What archiving leaves. *)
Definition archived_db (p : Project) (now : Z) (d : database) : database :=
  set_table project_pins (List.filter (λ x : ProjectPin, negb (pp_project_id x =? p_id p)) (d project_pins))
    (set_table projects (map (on_project (p_id p) (with_archived true now)) (d projects : list Project)) d).

Lemma run_archive_project p (s : state) :
  constraints_hold projects (st_db s projects) → List.filter (λ q, p_id q =? p_id p) (st_db s projects : list Project) = [p] →
  p_is_archived p = false →
  run (archive_project (p_organization_id p) (p_id p)) s = (inr tt, set_db (archived_db p (st_clock s) (st_db s)) s).
Proof.
  intros Hc Hp Ha. unfold archive_project, archive, Sessions.get_project. rewrite run_assoc, run_assoc, (run_select projects).
  change (row projects) with Project in *. rewrite (found_live p), Ha by done. cbn [scalar_one_or_none].
  rewrite run_ret_bind, Ha, run_assoc, (run_flush _ _ _ p) by done. rewrite run_ret_bind. unfold delete_for_project.
  by erewrite run_op by reflexivity.
Qed.

Lemma run_unarchive_project p (s : state) :
  constraints_hold projects (st_db s projects) → List.filter (λ q, p_id q =? p_id p) (st_db s projects : list Project) = [p] →
  p_is_archived p = true →
  run (unarchive_project (p_organization_id p) (p_id p)) s
  = (inr (response (with_archived false (st_clock s) p) false false (members_of (st_db s) p)),
     set_db (set_table projects (map (on_project (p_id p) (with_archived false (st_clock s))) (st_db s projects : list Project)) (st_db s)) s).
Proof.
  intros Hc Hp Ha. unfold unarchive_project, unarchive. rewrite run_assoc, (run_select projects).
  change (row projects) with Project in *. unfold project_of. rewrite (filter_narrow _ _ _ _ Hp), Z.eqb_refl. cbn [scalar_one_or_none].
  rewrite run_assoc, run_ret_bind, Ha, run_assoc, (run_flush _ _ _ p) by done. rewrite run_ret_bind. unfold count_members.
  by rewrite run_assoc, (run_select project_members).
Qed.

(** Archiving and restoring. A live project that is archived is found by no lookup of
    live projects; restored, it is what it was, with its members, under its name, but for
    the time of its last change and the pins, which are gone. Nothing else changes. *)
Theorem archive_round_trip o p (s : state) :
  constraints_hold projects (st_db s projects) → List.filter (λ q, p_id q =? p_id p) (st_db s projects : list Project) = [p] →
  p_organization_id p = o → p_is_archived p = false →
  ∃ s1 s2,
    run (archive_project o (p_id p)) s = (inr tt, s1) ∧ run (Sessions.get_project o (p_id p)) s1 = (inr None, s1)
    ∧ run (unarchive_project o (p_id p)) s1 = (inr (response (touched (st_clock s) p) false false (members_of (st_db s) p)), s2)
    ∧ st_db s2 = set_table project_pins (List.filter (λ x : ProjectPin, negb (pp_project_id x =? p_id p)) (st_db s project_pins))
                   (set_table projects (map (on_project (p_id p) (touched (st_clock s))) (st_db s projects : list Project)) (st_db s)).
Proof.
  intros Hc Hp <- Ha. eexists _, _. split; [by apply run_archive_project|]. set (now := st_clock s).
  set (s1 := set_db _ s). set (q := with_archived true now p).
  assert (Hq : List.filter (λ x, p_id x =? p_id q) (st_db s1 projects : list Project) = [q]) by (by apply changed_found).
  assert (Hc1 : constraints_hold projects (st_db s1 projects)) by by apply changed_constraints.
  split; [|split].
  - unfold Sessions.get_project. rewrite (run_select projects). change (row projects) with Project in *.
    change (p_organization_id p) with (p_organization_id q). change (p_id p) with (p_id q). by rewrite (found_live q).
  - exact (run_unarchive_project q s1 Hc1 Hq eq_refl).
  - transitivity (set_table projects (map (on_project (p_id p) (with_archived false now))
                                        (map (on_project (p_id p) (with_archived true now)) (st_db s projects : list Project)))
                    (archived_db p now (st_db s))); [done|].
    rewrite map_map. rewrite (map_ext_in _ (on_project (p_id p) (touched now))).
    + apply functional_extensionality_dep. by intros [].
    + intros x Hx%list_elem_of_In. unfold on_project. destruct (p_id x =? p_id p) eqn:E; cbn; rewrite E; [|done].
      assert (x ∈ List.filter (λ q, p_id q =? p_id p) (st_db s projects : list Project)) as Hx' by by apply filter_elem.
      rewrite Hp in Hx'. apply list_elem_of_singleton in Hx' as ->. unfold touched, with_archived. cbn. by rewrite Ha.
Qed.

(** * At a concrete organization *)

(** Rows in the order they are stored in. *)
Definition as_stored : RowOrder := {|
  order_projects := λ _ l, l;
  order_projects_perm := λ _ l, Permutation_refl l;
  order_members := λ _ l, l;
  order_members_perm := λ _ l, Permutation_refl l;
  order_pins := λ _ l, l;
  order_pins_perm := λ _ l, Permutation_refl l;
|}.

Definition alpha : Project := mkProject 2 1 "alpha" (Some "first"%string) [] false (Some 4) 10 10.
Definition beta : Project := mkProject 3 1 "beta" None [] true (Some 4) 11 12.
Definition member_row (i project user : uuid) (role : string) : ProjectMember := mkProjectMember i project user role 10.
(** A project with two owners and a member, who has pinned it, and an archived one. *)
Definition office_db : database :=
  set_table projects [alpha; beta]
    (set_table project_members [member_row 30 2 4 "owner"; member_row 31 2 5 "owner"; member_row 32 2 6 "member"]
       (set_table project_pins [mkProjectPin 40 6 2 1 15] (st_db empty_state))).
Definition office : state := mkState 100 ∅ office_db office_db None (λ n, Z.of_nat n + 1000) 0 [] ∅.

Lemma office_kept : kept office_db.
Proof.
  split_and!; [apply (bool_decide_unpack _); vm_compute; exact I..| |].
  - intros o u. cbn [office_db set_table]. etransitivity; [apply filter_length_le|]. vm_compute. lia.
  - intros x p Hx Hp E. cbn in Hx, Hp. apply list_elem_of_singleton in Hx as ->.
    apply elem_of_cons in Hp as [->|Hp]; [done|]. by apply list_elem_of_singleton in Hp as ->.
Qed.

Definition busy_day : list (Z * project_request) :=
  [(5, PinProject 1 4 2); (5, RemoveMember 2 4); (5, RemoveMember 2 5); (5, ArchiveProject 1 2); (5, UnarchiveProject 1 2)].

(** The last owner stays, and the pins go with the project. *)
Example busy_day_served :
  let r := run (@serve_projects as_stored busy_day) office in
  r.1 = inr [true; true; false; true; true] ∧ map pm_user_id (st_db r.2 project_members) = [5; 6] ∧ st_db r.2 project_pins = [].
Proof. by vm_compute. Qed.

Lemma projects_kept_witness :
  let s' := (run (@serve_projects as_stored busy_day) office).2 in
  st_db s' = st_committed s' ∧ kept (st_db s') ∧ ∀ p, owned p office_db → owned p (st_db s').
Proof. exact (@projects_kept as_stored busy_day office eq_refl office_kept). Defined.

Lemma listing_exact_witness :
  ∃ all, all ≡ₚ List.filter (λ p, visible 1 true p && joined (Some 6) office_db p) (office_db projects) ∧
    run (@list_projects as_stored 1 (Some 6) 20 0 false None true) office
    = (inr (map (listed 1 (Some 6) office_db) (take (Z.to_nat (Z.min 20 200)) (drop (Z.to_nat 0) all))), office).
Proof. apply (@listing_exact as_stored 1 (Some 6) 20 0 None true office); [lia|lia|reflexivity]. Defined.

Lemma archive_round_trip_witness :
  ∃ s1 s2,
    run (archive_project 1 2) office = (inr tt, s1) ∧ run (Sessions.get_project 1 2) s1 = (inr None, s1)
    ∧ run (unarchive_project 1 2) s1 = (inr (response (touched 100 alpha) false false 3), s2)
    ∧ st_db s2 = set_table project_pins []
                   (set_table projects (map (on_project 2 (touched 100)) [alpha; beta]) office_db).
Proof.
  apply (archive_round_trip 1 alpha office); reflexivity.
Defined.

(** The constraint on names covers archived projects, which the lookup by name skips. *)
Example archived_name_blocks_create :
  (run (get_by_name 1 "beta") office).1 = inr None
  ∧ (run (create_project 1 (Some 4) "beta" None []) office).1 = inl IntegrityError
  ∧ (run (update_project 1 2 (Some "beta"%string) None) office).1 = inl IntegrityError.
Proof. by vm_compute. Qed.

(** A member who is removed keeps the pin, and is shown the project by it. *)
Example pin_outlives_membership :
  let s1 := (run (@remove_member as_stored 2 6) office).2 in
  is_ok (run (@remove_member as_stored 2 6) office).1 = true
  ∧ match (run (@list_projects as_stored 1 (Some 6) 20 0 true None false) s1).1 with inr l => map pr_id l = [2] | inl _ => False end
  ∧ (run (@list_projects as_stored 1 (Some 6) 20 0 false None false) s1).1 = inr [].
Proof. by vm_compute. Qed.

(** Two owners removed at once: each request counts both. *)
Example last_owners_race :
  let r := run (gather [0; 1; 0; 1; 0; 1; 0; 1; 0; 1; 0; 1]%nat [@remove_member as_stored 2 4; @remove_member as_stored 2 5]) office in
  is_ok r.1 = true ∧ map pm_role (st_db r.2 project_members) = ["member"%string].
Proof. by vm_compute. Qed.
