(* ===== verification/Prompts.v ===== *)
(** Prompt templates: core/prompt_manifest.py with the manifest of services/worker/prompts,
    repositories/prompt_template_repository.py, services/prompt_template_service.py and
    their endpoints in routers/admin_organizations.py. *)
From S2P Require Import Prelude Errors Data Effects Cursor OpenBao.
Open Scope Z_scope.

(** * core/prompt_manifest.py *)

(** An entry of manifest.yaml. *)
Record entry := mkEntry {
  e_file : string;
  e_name : string;
  e_type : option string;
  e_description : option string;
  e_is_default_for_type : bool;
}.

(** [PromptManifest]: [by_name] and [by_type] index [templates]. *)
Section manifest.
Variable templates : list entry.

Definition by_name : gmap string entry := foldl (λ m t, <[e_name t := t]> m) ∅ templates.
Definition by_type (type : string) : list entry :=
  if (type =? "")%string then [] else List.filter (λ t, sql_eq (e_type t) (Some type)) templates.

Definition get_by_name (name : string) : option entry := by_name !! name.
Definition get_default_for_type (type : string) : option entry := List.find e_is_default_for_type (by_type type).
Definition get_default_names : list string := map e_name (List.filter e_is_default_for_type templates).
End manifest.

(** services/worker/prompts/manifest.yaml *)
Definition MANIFEST : list entry :=
  let shipped name type description default :=
    mkEntry (name +:+ ".jinja2") name (Some type) (Some description) default in
  [ shipped "classify_dialog_v1" "classification" "Classify dialog turns into predefined categories" true;
    shipped "extract_entities_v4" "entity_extraction" "Extract structured entities from dialog (v4 — current)" true;
    shipped "extract_entities_v3" "entity_extraction" "Legacy entity extraction v3" false;
    shipped "extract_entities_v1" "entity_extraction" "Legacy entity extraction v1" false;
    shipped "extract_facts_v4" "fact_extraction" "Extract factual statements from dialog (v4 — current)" true;
    shipped "extract_facts_v3" "fact_extraction" "Legacy fact extraction v3" false;
    shipped "extract_facts_v2" "fact_extraction" "Legacy fact extraction v2 (fact-only output)" false;
    shipped "extract_facts_v1" "fact_extraction" "Legacy fact extraction v1" false;
    shipped "extract_structured_v1" "structured_extraction" "Extract structured data using org-defined schemas" true;
    shipped "summarise_user_v1" "user_summary" "Generate user summary from episode history" true;
    shipped "compute_observations_v1" "observation_generation"
      "Generate natural-language description from graph-topology patterns" true;
    shipped "enrich_episode_v1" "enrich_episode"
      "Combined episode enrichment (classification + entities + facts + LLM-driven fact invalidations + structured) in a single LLM call"
      true ]%string.

(** The files beside the manifest, by name. *)
Class PromptFiles := { read_text : string → option string }.

Definition get_template_text `{PromptFiles} (file_name : string) : exn + string :=
  match read_text file_name with
  | Some text => inr text
  | None => inl (RuntimeError "Prompt file referenced in manifest not found")
  end.

(** * The repository *)

Definition in_org (org : uuid) (r : PromptTemplate) : bool := sql_eq (pt_organization_id r) (Some org).
Definition is_named (org : uuid) (name : string) (r : PromptTemplate) : bool :=
  in_org org r && (pt_template_name r =? name)%string.
Definition is_current (org : uuid) (name : string) (r : PromptTemplate) : bool := is_named org name r && pt_is_active r.
Definition is_type_default (org : uuid) (type : string) (r : PromptTemplate) : bool :=
  in_org org r && sql_eq (pt_type r) (Some type) && pt_is_default_for_type r.
Definition is_id (id : uuid) (r : PromptTemplate) : bool := pt_id r =? id.

(** The columns the statements set, and [onupdate] of [updated_at]. *)
Definition with_flags (active default : bool) (now : Z) (r : PromptTemplate) : PromptTemplate :=
  mkPromptTemplate (pt_id r) (pt_organization_id r) (pt_template_name r) (pt_template_text r) (pt_version r)
    (pt_description r) (pt_type r) default active now.
Definition with_body (text : string) (desc : option string) (now : Z) (r : PromptTemplate) : PromptTemplate :=
  mkPromptTemplate (pt_id r) (pt_organization_id r) (pt_template_name r) text (pt_version r) desc (pt_type r)
    (pt_is_default_for_type r) (pt_is_active r) now.
Definition retire (now : Z) : PromptTemplate → PromptTemplate := with_flags false false now.
Definition with_default (b : bool) (now : Z) (r : PromptTemplate) : PromptTemplate := with_flags (pt_is_active r) b now r.

Definition get_active (org : uuid) (name : string) : prog (option PromptTemplate) :=
  l ← call (Select prompt_templates (is_current org name)); scalar_one_or_none l.

Definition get_active_by_type (org : uuid) (type : string) : prog (option PromptTemplate) :=
  l ← call (Select prompt_templates (λ r, is_type_default org type r && pt_is_active r)); scalar_one_or_none l.

Definition get_active_text_by_type (org : uuid) (type : string) : prog (option string) :=
  l ← call (Select prompt_templates (λ r, is_type_default org type r && pt_is_active r));
  scalar_one_or_none (map pt_template_text l).

Definition get_version (org : uuid) (name : string) (version : Z) : prog (option PromptTemplate) :=
  l ← call (Select prompt_templates (λ r, is_named org name r && (pt_version r =? version))); scalar_one_or_none l.

(** [db.refresh]. *)
Definition refresh (id : uuid) : prog PromptTemplate :=
  l ← call (Select prompt_templates (is_id id));
  match l with r :: _ => Ret r | [] => Throw (DatabaseError "Could not refresh instance") end.

(** [db.flush] of one changed row. *)
Definition flush_row (id : uuid) (f : PromptTemplate → PromptTemplate) : prog unit :=
  n ← call (UpdateUnique prompt_templates (is_id id) f);
  if n =? 1 then Ret tt else Throw (DatabaseError "UPDATE statement on table 'prompt_templates' matched another number of rows").

Definition set_as_type_default (org : uuid) (name : string) : prog PromptTemplate :=
  template ← get_active org name;
  match template with
  | None => Throw (ValueError "Template not found for org")
  | Some template =>
      match pt_type template with
      | None => Throw (ValueError "Template has no type assigned")
      | Some type =>
          now ← call Now;
          _ ← call (Update prompt_templates (is_type_default org type) (with_default false now));
          _ ← flush_row (pt_id template) (with_default true now);
          refresh (pt_id template)
      end
  end.

(** [result.scalar()] of [max(version)], or 0. *)
Definition max_version (l : list PromptTemplate) : Z :=
  match map pt_version l with [] => 0 | v :: r => foldl Z.max v r end.

Definition add_template (org : uuid) (name text : string) (version : Z) (desc type : option string)
    (is_default_for_type : bool) : prog uuid :=
  id ← uuid4;
  now ← call Now;
  _ ← call (Insert prompt_templates (no_arbiter prompt_templates)
              [mkPromptTemplate id (Some org) name text version desc type is_default_for_type true now]);
  Ret id.

Definition was_default (old_active : option PromptTemplate) : bool :=
  match old_active with
  | Some r => pt_is_default_for_type r && negb (bool_decide (pt_type r = None))
  | None => false
  end.

(** Both [set_for_org] and [rollback], from the capture of the old version on. *)
Definition new_version (org : uuid) (name text : string) (desc type : option string) : prog PromptTemplate :=
  old_active ← get_active org name;
  let old_was_default := was_default old_active in
  now ← call Now;
  _ ← call (Update prompt_templates (is_current org name) (retire now));
  l ← call (Select prompt_templates (is_named org name));
  id ← add_template org name text (max_version l + 1) desc type old_was_default;
  refresh id.

Definition set_for_org (org : uuid) (name text : string) (desc template_type : option string) : prog PromptTemplate :=
  new_version org name text desc template_type.

Definition rollback (org : uuid) (name : string) (version : Z) : prog PromptTemplate :=
  target ← get_version org name version;
  match target with
  | None => Throw (ValueError "Version of template not found in org")
  | Some t => new_version org name (pt_template_text t) (pt_description t) (pt_type t)
  end.

Definition delete_for_org (org : uuid) (name : string) : prog unit :=
  _ ← call (Delete prompt_templates (is_named org name)); Ret tt.

Section repository.
Context `{PromptFiles} `{Repr} (templates : list entry).

Definition find_named (org : uuid) (name : string) : prog (option PromptTemplate) :=
  l ← call (Select prompt_templates (is_named org name)); scalar_one_or_none l.

Definition seed_one (org : uuid) (count : Z) (entry : entry) : prog Z :=
  if negb (e_is_default_for_type entry) then Ret count
  else
    let name := e_name entry in
    existing_tmpl ← find_named org name;
    text ← lift (get_template_text (e_file entry));
    match existing_tmpl with
    | Some t =>
        if pt_is_default_for_type t
           && (negb (pt_template_text t =? text)%string
               || negb (bool_decide (pt_description t = e_description entry)))
        then now ← call Now;
             _ ← flush_row (pt_id t) (with_body text (e_description entry) now);
             Ret (count + 1)
        else Ret count
    | None =>
        _ ← add_template org name text 1 (e_description entry) (e_type entry) (e_is_default_for_type entry);
        Ret (count + 1)
    end.

Definition seed_default_prompts (org : uuid) : prog Z := for_fold templates 0 (seed_one org).

Definition import_system_template (org : uuid) (template_name : string) : prog PromptTemplate :=
  match get_by_name templates template_name with
  | None =>
      Throw (ValueError ("No manifest entry found for template " +:+ py_repr template_name +:+ ". Available names: ["
                         +:+ String.concat ", " (map py_repr (map e_name templates)) +:+ "]"))
  | Some entry =>
      existing ← find_named org template_name;
      match existing with
      | Some _ => Throw (ValueError ("Template " +:+ py_repr template_name +:+ " already imported into this organisation"))
      | None =>
          text ← lift (get_template_text (e_file entry));
          id ← add_template org template_name text 1 (e_description entry) (e_type entry) (e_is_default_for_type entry);
          refresh id
      end
  end.
End repository.

(** Versions of a template, newest first. *)
Definition newest_first : list PromptTemplate → list PromptTemplate := Prelude.sort_by (λ a b, pt_version b <=? pt_version a).
Definition list_versions (org : uuid) (name : string) : prog (list PromptTemplate) :=
  l ← call (Select prompt_templates (is_named org name)); Ret (newest_first l).

(** [sorted] by a pair of strings. *)
Definition pair_leb (a b : string * string) : bool :=
  if (a.1 =? b.1)%string then String.leb a.2 b.2 else String.leb a.1 b.1.

(** The latest version of each name, once. *)
Fixpoint collapse (seen : list string) (l : list PromptTemplate) : list PromptTemplate :=
  match l with
  | [] => []
  | r :: l => if existsb (String.eqb (pt_template_name r)) seen then collapse seen l
              else r :: collapse (pt_template_name r :: seen) l
  end.

Definition by_name_and_version (a b : PromptTemplate) : bool :=
  if (pt_template_name a =? pt_template_name b)%string then pt_version b <=? pt_version a
  else String.leb (pt_template_name a) (pt_template_name b).

(** [str] of an aware [datetime]. *)
Definition datetime_str (us : Z) : string :=
  str_map (λ c, if Ascii.eqb c "T"%char then " "%char else c) (isoformat_utc us).

Definition _sort_key (req_sort : string) (r : PromptTemplate) : string * string :=
  if (req_sort =? "type")%string then (default EmptyString (pt_type r), pt_template_name r)
  else if (req_sort =? "created_at")%string then (datetime_str (pt_updated_at r), pt_template_name r)
  else (pt_template_name r, EmptyString).

Definition list_names (org : uuid) (sort : option SortSpec) : prog (list PromptTemplate) :=
  let spec := default (mkSortSpec None "asc") sort in
  let '(req_sort, req_dir) := effective spec "name" "asc" in
  if negb (existsb (String.eqb req_sort) ["name"; "created_at"; "type"]%string) then
    Throw (AppExc ValidationError "Invalid sort_by")
  else if negb (is_dir req_dir) then Throw (AppExc ValidationError "Invalid sort_dir")
  else
    rows ← call (Select prompt_templates (in_org org));
    let items := collapse [] (Prelude.sort_by by_name_and_version rows) in
    let ascending := Prelude.sort_by (λ a b, pair_leb (_sort_key req_sort a) (_sort_key req_sort b)) items in
    Ret (if (req_dir =? "desc")%string then rev ascending else ascending).

(** * services/prompt_template_service.py *)

Definition template_cache_key (org : uuid) (name : string) : string := "prompt_template:" +:+ uuid_str org +:+ ":" +:+ name.

(** A service is built with a Redis client, or without. *)
Section service.
Context `{PromptFiles} `{Repr} (templates : list entry) (has_redis : bool).

Definition _drop_cache (org : uuid) (name : string) : prog unit :=
  if negb has_redis then Ret tt
  else try_except (_ ← redis (ks_delete [template_cache_key org name]); Ret tt) is_exception (λ _, Ret tt).

Definition dropping {A} (org : uuid) (name : string) (write : prog A) : prog A :=
  a ← write; _ ← _drop_cache org name; Ret a.

Definition set_override (org : uuid) (name text : string) (desc template_type : option string) : prog PromptTemplate :=
  dropping org name (set_for_org org name text desc template_type).
Definition service_import (org : uuid) (name : string) : prog PromptTemplate :=
  dropping org name (import_system_template templates org name).
Definition service_set_default (org : uuid) (name : string) : prog PromptTemplate :=
  dropping org name (set_as_type_default org name).
Definition service_rollback (org : uuid) (name : string) (version : Z) : prog PromptTemplate :=
  dropping org name (rollback org name version).
Definition service_delete (org : uuid) (name : string) : prog unit := dropping org name (delete_for_org org name).

(** * The endpoints, for an authorized organization *)

Record PromptTemplateDetail := mkPromptTemplateDetail {
  td_name : string; td_version : Z; td_template_text : string; td_description : option string;
  td_type : option string; td_is_active : bool; td_is_default_for_type : bool; td_is_system_default : bool;
}.
Definition model_validate (r : PromptTemplate) : PromptTemplateDetail :=
  mkPromptTemplateDetail (pt_template_name r) (pt_version r) (pt_template_text r) (pt_description r) (pt_type r)
    (pt_is_active r) (pt_is_default_for_type r) (bool_decide (pt_organization_id r = None) && pt_is_active r).

Definition not_found : exn := HTTPException 404 "Prompt template not found".
Definition value_error_text (e : exn) : string :=
  match e with ValueError m => m | AppExc _ m => m | _ => EmptyString end.

Definition import_system_prompt (org : uuid) (name : string) : prog PromptTemplateDetail :=
  t ← try_except (service_import org name) is_value_error
        (λ e, if str_contains "already imported" (value_error_text e) then Throw (HTTPException 409 (value_error_text e))
              else Throw (HTTPException 404 (value_error_text e)));
  Ret (model_validate t).

Definition set_prompt_type_default (org : uuid) (name : string) : prog PromptTemplateDetail :=
  t ← try_except (service_set_default org name) is_value_error (λ e, Throw (HTTPException 404 (value_error_text e)));
  Ret (model_validate t).

Definition get_prompt_template (org : uuid) (name : string) : prog PromptTemplateDetail :=
  t ← get_active org name;
  match t with None => Throw not_found | Some t => Ret (model_validate t) end.

Definition list_prompt_template_versions (org : uuid) (name : string) : prog (Z * list PromptTemplateDetail) :=
  active ← get_active org name;
  match active with
  | None => Throw not_found
  | Some a => versions ← list_versions org name; Ret (pt_version a, map model_validate versions)
  end.

Definition set_prompt_template (org : uuid) (name text : string) (desc type : option string) : prog PromptTemplateDetail :=
  t ← set_override org name text desc type; Ret (model_validate t).

Definition rollback_prompt_template (org : uuid) (name : string) (version : Z) : prog PromptTemplateDetail :=
  t ← try_except (service_rollback org name version) is_value_error
        (λ e, Throw (HTTPException 404 (value_error_text e)));
  Ret (model_validate t).

Definition delete_prompt_template_override (org : uuid) (name : string) : prog unit :=
  active ← get_active org name;
  match active with
  | None => Throw (HTTPException 404 "No template found for this organisation.")
  | Some a =>
      if pt_is_default_for_type a then Throw (HTTPException 409 "Cannot delete the active default for its type.")
      else service_delete org name
  end.

(** The requests of an administrator that write, each in its own transaction. *)
Inductive prompt_request :=
| SetTemplate (name text : string) (desc type : option string)
| RollBack (name : string) (version : Z)
| SetDefault (name : string)
| Import (name : string)
| DeleteTemplate (name : string).

Definition handle (org : uuid) (q : prompt_request) : prog unit :=
  match q with
  | SetTemplate name text desc type => _ ← set_prompt_template org name text desc type; Ret tt
  | RollBack name version => _ ← rollback_prompt_template org name version; Ret tt
  | SetDefault name => _ ← set_prompt_type_default org name; Ret tt
  | Import name => _ ← import_system_prompt org name; Ret tt
  | DeleteTemplate name => delete_prompt_template_override org name
  end.

Definition serve_prompts (l : list (uuid * prompt_request)) : prog (list bool) :=
  attempts (map (λ q, (0, request (handle q.1 q.2))) l).
End service.

(** * Well-formed templates

    The indexes hold, a default is a current version, and every template that exists has
    one current version, its newest. *)
Record consistent (l : list PromptTemplate) : Prop := {
  co_ids : NoDup (map pt_id l);
  co_keys : ∀ a b, a ∈ l → b ∈ l → row_conflict prompt_templates a b = true → a = b;
  co_default : ∀ a, a ∈ l → pt_is_default_for_type a = true → pt_is_active a = true;
  co_newest : ∀ a b org name, a ∈ l → b ∈ l → is_current org name a = true → is_named org name b = true →
              pt_version b ≤ pt_version a;
  co_live : ∀ a org name, a ∈ l → is_named org name a = true → ∃ b, b ∈ l ∧ is_current org name b = true;
}.

Lemma in_org_spec org r : in_org org r = true ↔ pt_organization_id r = Some org.
Proof.
  unfold in_org, sql_eq. destruct (pt_organization_id r); [|done]. rewrite bool_decide_eq_true. intuition congruence.
Qed.

Lemma is_named_spec org name r :
  is_named org name r = true ↔ pt_organization_id r = Some org ∧ pt_template_name r = name.
Proof. unfold is_named. by rewrite andb_true_iff, in_org_spec, String.eqb_eq. Qed.

Lemma is_current_spec org name r :
  is_current org name r = true ↔ is_named org name r = true ∧ pt_is_active r = true.
Proof. apply andb_true_iff. Qed.

Lemma is_type_default_spec org type r :
  is_type_default org type r = true ↔
  pt_organization_id r = Some org ∧ pt_type r = Some type ∧ pt_is_default_for_type r = true.
Proof.
  unfold is_type_default. rewrite !andb_true_iff, in_org_spec. unfold sql_eq at 1.
  destruct (pt_type r) as [t|]; [|intuition congruence]. rewrite bool_decide_eq_true. intuition congruence.
Qed.

(** What the unique indexes forbid. *)
Lemma conflict_spec a b :
  row_conflict prompt_templates a b = true ↔
  pt_id a = pt_id b ∨
  (∃ org, pt_organization_id a = Some org ∧ pt_organization_id b = Some org ∧
     ((pt_template_name a = pt_template_name b ∧ pt_version a = pt_version b) ∨
      (∃ type, is_type_default org type a = true ∧ is_type_default org type b = true))).
Proof.
  cbn. unfold uq_prompt_templates. rewrite orb_true_iff, Z.eqb_eq, andb_true_iff, orb_true_iff, !andb_true_iff.
  rewrite String.eqb_eq, Z.eqb_eq. setoid_rewrite is_type_default_spec. unfold sql_eq.
  destruct (pt_organization_id a) as [o|], (pt_organization_id b) as [o'|]; rewrite ?bool_decide_eq_true;
    try (split; [intuition congruence|]; intros [?|(org & ? & ? & _)]; [by left|done]).
  split.
  - intros [?|[-> [?|[[? ?] Ht]]]]; [by left|right; exists o'; by auto|]. right. exists o'. split_and!; [done..|].
    right. destruct (pt_type a) as [t|], (pt_type b) as [t'|]; try done. apply bool_decide_eq_true in Ht as ->.
    by exists t'.
  - intros [?|(org & [= ->] & [= ->] & [?|(t & (_ & -> & ->) & (_ & -> & ->))])]; [by left|right; by auto|].
    right. split; [done|]. right. by rewrite bool_decide_true.
Qed.

Lemma one_current l org name a b :
  consistent l → a ∈ l → b ∈ l → is_current org name a = true → is_current org name b = true → a = b.
Proof.
  intros [_ K _ N _] Ha Hb Ca Cb. apply K; [done..|]. apply conflict_spec. right. exists org.
  pose proof (N a b org name Ha Hb Ca). pose proof (N b a org name Hb Ha Cb).
  apply is_current_spec in Ca as [Na _], Cb as [Nb _]. apply is_named_spec in Na as Na', Nb as Nb'.
  destruct Na', Nb'. split_and!; [done..|]. left. split; [congruence|]. specialize (H Nb). specialize (H0 Na). lia.
Qed.

Lemma one_default l org type a b :
  consistent l → a ∈ l → b ∈ l → is_type_default org type a = true → is_type_default org type b = true → a = b.
Proof.
  intros Hc Ha Hb Da Db. apply (co_keys _ Hc); [done..|]. apply conflict_spec. right. exists org.
  pose proof Da as (? & _)%is_type_default_spec. pose proof Db as (? & _)%is_type_default_spec.
  split_and!; [done..|]. right. by exists type.
Qed.

(** ** Rewriting rows

    A statement that keeps keys, names, versions and types and makes no version current
    or default. *)
Definition fades (f : PromptTemplate → PromptTemplate) : Prop := ∀ r,
  pt_id (f r) = pt_id r ∧ pt_organization_id (f r) = pt_organization_id r ∧
  pt_template_name (f r) = pt_template_name r ∧ pt_version (f r) = pt_version r ∧ pt_type (f r) = pt_type r ∧
  (pt_is_active (f r) = true → pt_is_active r = true) ∧
  (pt_is_default_for_type (f r) = true → pt_is_default_for_type r = true).

Lemma fades_named f org name r : fades f → is_named org name (f r) = is_named org name r.
Proof. intros Hf. destruct (Hf r) as (_ & Ho & Hn & _). unfold is_named, in_org. by rewrite Ho, Hn. Qed.

Lemma fades_default f org type r : fades f → is_type_default org type (f r) = true → is_type_default org type r = true.
Proof. intros Hf. destruct (Hf r) as (_ & Ho & _ & _ & Ht & _ & Hd). rewrite !is_type_default_spec, Ho, Ht. intuition congruence. Qed.

Lemma fades_conflict f a b :
  fades f → row_conflict prompt_templates (f a) (f b) = true → row_conflict prompt_templates a b = true.
Proof.
  intros Hf. rewrite !conflict_spec.
  destruct (Hf a) as (-> & -> & -> & -> & _), (Hf b) as (-> & -> & -> & -> & _).
  intros [?|(org & ? & ? & [?|(t & Ha & Hb)])]; [by left|right; exists org; by auto|].
  right. exists org. split_and!; [done..|]. right. exists t. eauto using fades_default.
Qed.

(** Every [if p r then f r else r] is such a rewriting if [f] is. *)
Lemma fades_if (p : PromptTemplate → bool) f : fades f → fades (λ r, if p r then f r else r).
Proof. intros Hf r. destruct (p r); [apply Hf|]. by split_and!. Qed.

Lemma retire_fades now : fades (retire now).
Proof. intros r. by split_and!. Qed.
Lemma undefault_fades now : fades (with_default false now).
Proof. intros r. by split_and!. Qed.
Lemma body_fades text desc now : fades (with_body text desc now).
Proof. intros r. by split_and!. Qed.
#[local] Hint Resolve fades_if retire_fades undefault_fades body_fades : zync.

Lemma conflict_sym a b : row_conflict prompt_templates a b = row_conflict prompt_templates b a.
Proof.
  assert (Hs : ∀ x y, row_conflict prompt_templates x y = true → row_conflict prompt_templates y x = true).
  { intros x y. rewrite !conflict_spec. intros [?|(org & ? & ? & [[? ?]|(t & ? & ?)])]; [by left| |];
      right; exists org; (split_and!; [done|done|]); [left; by split|right; by exists t]. }
  apply Bool.eq_iff_eq_true. split; apply Hs.
Qed.

Lemma max_version_le l r : r ∈ l → pt_version r ≤ max_version l.
Proof.
  assert (Hf : ∀ vs (v w : Z), w = v ∨ w ∈ vs → w ≤ foldl Z.max v vs).
  { induction vs as [|x vs IH]; intros v w; cbn.
    - intros [->|?%elem_of_nil]; [lia|done].
    - intros [->|[->|Hw]%elem_of_cons].
      + transitivity (Z.max v x); [lia|]. apply IH. by left.
      + transitivity (Z.max v x); [lia|]. apply IH. by left.
      + apply IH. by right. }
  intros Hr%(list_elem_of_fmap_2 pt_version). unfold max_version. change (pt_version <$> l) with (map pt_version l) in Hr.
  destruct (map pt_version l) as [|v vs]; [by apply elem_of_nil in Hr|]. apply Hf. by apply elem_of_cons in Hr.
Qed.

(** The old version is retired, the new one is the newest. *)
Definition retired (org : uuid) (name : string) (now : Z) (l : list PromptTemplate) : list PromptTemplate :=
  map (λ r, if is_current org name r then retire now r else r) l.

Lemma retired_elem org name now l a :
  a ∈ retired org name now l → ∃ b, b ∈ l ∧ a = (if is_current org name b then retire now b else b).
Proof. intros (b & -> & Hb)%list_elem_of_fmap. by exists b. Qed.

Lemma retired_current org name now l a org' name' :
  a ∈ retired org name now l → is_current org' name' a = true → a ∈ l ∧ is_current org name a = false.
Proof.
  intros (b & Hb & ->)%retired_elem [_ Ha]%is_current_spec. by destruct (is_current org name b) eqn:E.
Qed.

Lemma publish l org name now r :
  consistent l → is_current org name r = true →
  pt_version r = max_version (List.filter (is_named org name) (retired org name now l)) + 1 →
  (∀ x, x ∈ retired org name now l → row_conflict prompt_templates r x = false) →
  consistent (retired org name now l ++ [r]).
Proof.
  intros [I K D N L] Hr Hv Hx. pose proof (fades_if (is_current org name) _ (retire_fades now)) as F.
  apply is_current_spec in Hr as [Hn Ha]. split.
  - rewrite map_app. apply NoDup_app. split_and!; [| |apply NoDup_singleton].
    + unfold retired. rewrite map_map. erewrite map_ext; [exact I|]. intros a. apply (F a).
    + intros i (a & -> & A)%list_elem_of_fmap E%list_elem_of_singleton. specialize (Hx a A).
      apply Bool.not_true_iff_false in Hx. apply Hx, conflict_spec. by left.
  - intros a b [A| ->%list_elem_of_singleton]%elem_of_app [B| ->%list_elem_of_singleton]%elem_of_app Hc; [| | |done].
    + apply retired_elem in A as (a' & A & ->), B as (b' & B & ->).
      by rewrite (K a' b' A B (fades_conflict _ _ _ F Hc)).
    + rewrite conflict_sym, Hx in Hc; done.
    + rewrite Hx in Hc; done.
  - intros a [(a' & A & ->)%retired_elem| ->%list_elem_of_singleton]%elem_of_app; [|done].
    destruct (is_current org name a'); [done|]. by apply D.
  - intros a b org' name' [A| ->%list_elem_of_singleton]%elem_of_app B Ca Nb.
    + destruct (retired_current _ _ _ _ _ _ _ A Ca) as [A' Ea].
      apply elem_of_app in B as [(b' & B & ->)%retired_elem| ->%list_elem_of_singleton].
      * rewrite (fades_named _ _ _ _ F) in Nb. destruct (F b') as (_ & _ & _ & -> & _). eauto.
      * apply is_named_spec in Hn as [? ?], Nb as [? ?]. simplify_eq. congruence.
    + apply is_current_spec in Ca as [Nr _]. apply is_named_spec in Hn as [? ?], Nr as [? ?]. simplify_eq.
      apply elem_of_app in B as [B| ->%list_elem_of_singleton]; [|lia]. rewrite Hv.
      assert (pt_version b ≤ max_version (List.filter (is_named org (pt_template_name r)) (retired org (pt_template_name r) now l))); [|lia].
      apply max_version_le. by apply filter_elem.
  - intros a org' name' A Na.
    destruct (decide (is_named org' name' r = true)) as [Nr|Nr].
    { exists r. split; [apply elem_of_app; right; by apply list_elem_of_singleton|]. by apply is_current_spec. }
    apply elem_of_app in A as [(a' & A & ->)%retired_elem| ->%list_elem_of_singleton]; [|done].
    rewrite (fades_named _ _ _ _ F) in Na. destruct (L _ _ _ A Na) as (b & B & Cb). exists b. split; [|done].
    apply elem_of_app. left. apply list_elem_of_fmap. exists b. split; [|done].
    destruct (is_current org name b) eqn:E; [|done]. exfalso. apply Nr.
    apply is_current_spec in E as [E _], Cb as [Cb _]. apply is_named_spec in E as [? ?], Cb as [? ?], Hn as [? ?].
    apply is_named_spec. split; congruence.
Qed.

(** Rows keep their version and whether it is current. *)
Definition same_version (g : PromptTemplate → PromptTemplate) : Prop := ∀ r,
  pt_id (g r) = pt_id r ∧ pt_organization_id (g r) = pt_organization_id r ∧
  pt_template_name (g r) = pt_template_name r ∧ pt_version (g r) = pt_version r ∧ pt_is_active (g r) = pt_is_active r.

Lemma same_version_current g org name r :
  same_version g → is_named org name (g r) = is_named org name r ∧ is_current org name (g r) = is_current org name r.
Proof.
  intros Hg. destruct (Hg r) as (_ & Ho & Hn & _ & Ha). unfold is_current, is_named, in_org. by rewrite Ho, Hn, Ha.
Qed.

Lemma consistent_map g l :
  consistent l → same_version g → (∀ r, r ∈ l → pt_is_default_for_type (g r) = true → pt_is_active r = true) →
  (∀ a b org type, a ∈ l → b ∈ l → is_type_default org type (g a) = true → is_type_default org type (g b) = true → a = b) →
  consistent (map g l).
Proof.
  intros [I K D N L] Hg Hd Ht. split.
  - rewrite map_map. erewrite map_ext; [exact I|]. intros a. apply (Hg a).
  - intros a b (a' & -> & A)%list_elem_of_fmap (b' & -> & B)%list_elem_of_fmap Hc. cut (a' = b'); [by intros ->|].
    destruct (Hg a') as (Ia & Oa & Na & Va & _), (Hg b') as (Ib & Ob & Nb & Vb & _).
    apply conflict_spec in Hc as [Hi|(org & Hoa & Hob & [[? ?]|(t & ? & ?)])]; [| |by eapply Ht].
    + apply K; [done..|]. apply conflict_spec. left. congruence.
    + apply K; [done..|]. apply conflict_spec. right. exists org. rewrite <- Oa, <- Ob. split_and!; [done..|].
      left. split; congruence.
  - intros a (a' & -> & A)%list_elem_of_fmap Ha. destruct (Hg a') as (_ & _ & _ & _ & ->). by apply Hd.
  - intros a b org name (a' & -> & A)%list_elem_of_fmap (b' & -> & B)%list_elem_of_fmap.
    destruct (same_version_current g org name a' Hg) as [_ ->], (same_version_current g org name b' Hg) as [-> _].
    destruct (Hg a') as (_ & _ & _ & -> & _), (Hg b') as (_ & _ & _ & -> & _). by apply N.
  - intros a org name (a' & -> & A)%list_elem_of_fmap.
    destruct (same_version_current g org name a' Hg) as [-> _]. intros (b & B & Cb)%(L _ _ _ A).
    exists (g b). split; [by apply list_elem_of_fmap_2|]. by destruct (same_version_current g org name b Hg) as [_ ->].
Qed.

Lemma consistent_delete org name l :
  consistent l → consistent (List.filter (λ r, negb (is_named org name r)) l).
Proof.
  intros [I K D N L]. split; [by apply NoDup_map_filter|intros a b|intros a|intros a b o n|intros a o n];
    rewrite ?filter_elem; [naive_solver..|].
  intros [A Ha] Na. destruct (L _ _ _ A Na) as (b & B & Cb). exists b. rewrite filter_elem. split_and!; [done| |done].
  apply is_current_spec in Cb as [Cb _]. apply is_named_spec in Na as [Oa Ea], Cb as [Ob Eb].
  unfold is_named, in_org in *. congruence.
Qed.

(** * What the operations do *)

Abbreviation templates_of := (λ d : database, d prompt_templates).

(** Only the templates of a database change. *)
Definition writes (l : list PromptTemplate) (d d' : database) : Prop := d' = set_table prompt_templates l d.

Lemma scalar_one {A} (l : list A) (s : state) :
  (∃ o, l = option_list o ∧ run (scalar_one_or_none l) s = (inr o, s)) ∨
  run (scalar_one_or_none l) s = (inl MultipleResultsFound, s).
Proof. destruct l as [|x [|]]; [left; by exists None|left; by exists (Some x)|by right]. Qed.

Lemma run_scalar {A B} (l : list A) (f : option A → prog B) (s : state) :
  (∃ o, l = option_list o ∧ run (scalar_one_or_none l ≫= f) s = run (f o) s) ∨
  run (scalar_one_or_none l ≫= f) s = (inl MultipleResultsFound, s).
Proof.
  rewrite run_bind. destruct (scalar_one l s) as [(o & Ho & ->)| ->]; [left; by exists o|by right].
Qed.

(** What adding a row does: a fresh row after the stored ones, unless it conflicts. *)
Definition added (org : uuid) (name text : string) (version : Z) (desc type : option string) (b : bool)
    (d : database) (t : PromptTemplate) (d' : database) : Prop :=
  (∃ id now, t = mkPromptTemplate id (Some org) name text version desc type b true now) ∧
  (∀ x, x ∈ templates_of d → row_conflict prompt_templates t x = false) ∧ writes (templates_of d ++ [t]) d d'.

Lemma acts_add_template org name text version desc type b :
  acts (add_template org name text version desc type b)
    (λ d id d', ∃ t, pt_id t = id ∧ added org name text version desc type b d t d').
Proof.
  unfold add_template. eapply acts_weaken.
  - apply acts_seq; [apply acts_uuid4|intros id]. apply acts_seq; [by apply acts_call|intros now].
    apply acts_seq; [apply acts_insert|intros l; by apply (acts_ret id (λ d i d', i = id ∧ d' = d))].
  - intros d i d' (id & d1 & -> & now & d2 & Hd & l & d3 & [-> Hx] & -> & ->). cbn in Hd. subst d2.
    eexists. split; [|split_and!; [by eexists _, _|exact Hx|done]]. done.
Qed.

Lemma acts_refresh id :
  acts (refresh id) (λ d t d', d' = d ∧ ∃ l, List.filter (is_id id) (templates_of d) = t :: l).
Proof.
  unfold refresh. eapply acts_weaken.
  - apply acts_seq; [by apply acts_call|].
    instantiate (1 := λ l d t d', d' = d ∧ ∃ l', l = t :: l').
    intros [|r l]; [by apply acts_throw|]. apply acts_ret. by eauto.
  - intros d t d' (l & d1 & [-> ->] & -> & l' & Hl). by eauto.
Qed.

Lemma acts_add org name text version desc type b :
  acts (id ← add_template org name text version desc type b; refresh id) (added org name text version desc type b).
Proof.
  eapply acts_weaken; [apply acts_seq; [apply acts_add_template|apply acts_refresh]|].
  intros d t d' (id & d1 & (t' & <- & Ht & Hx & Hw) & -> & l & Hl). unfold writes in Hw. rewrite Hw in Hl.
  cbn beta in Hl. rewrite set_table_eq, List.filter_app in Hl.
  rewrite (filter_none (is_id (pt_id t'))) in Hl.
  - cbn in Hl. unfold is_id in Hl. rewrite Z.eqb_refl in Hl. by simplify_eq.
  - intros x Hin. unfold is_id. apply Z.eqb_neq. intros E. specialize (Hx x Hin).
    apply Bool.not_true_iff_false in Hx. apply Hx, conflict_spec. by left.
Qed.

(** A query for at most one template. *)
Lemma acts_one_template p :
  acts (l ← call (Select prompt_templates p); scalar_one_or_none l)
    (λ d o d', List.filter p (templates_of d) = option_list o ∧ d' = d).
Proof. exact (acts_one prompt_templates p). Qed.

Definition published (org : uuid) (name text : string) (desc type : option string) (d : database) (t : PromptTemplate)
    (d' : database) : Prop :=
  ∃ old now, List.filter (is_current org name) (templates_of d) = option_list old ∧
    let l := retired org name now (templates_of d) in
    added org name text (max_version (List.filter (is_named org name) l) + 1) desc type (was_default old)
      (set_table prompt_templates l d) t d'.

Lemma acts_new_version org name text desc type :
  acts (new_version org name text desc type) (published org name text desc type).
Proof.
  unfold new_version. eapply acts_weaken.
  - apply acts_seq; [apply acts_one_template|intros old]. apply acts_seq; [by apply acts_call|intros now].
    apply acts_seq; [by apply acts_call|intros n]. apply acts_seq; [by apply acts_call|intros l]. apply acts_add.
  - intros d t d' (old & d1 & [Ho ->] & now & d2 & Hd2 & n & d3 & [_ ->] & l & d4 & [-> ->] & Ht).
    cbn in Hd2. subst d2. rewrite set_table_eq in Ht. by exists old, now.
Qed.

(** ** Each operation keeps the templates well formed *)

Definition kept {A} (d : database) (_ : A) (d' : database) : Prop :=
  consistent (templates_of d) → consistent (templates_of d').
Definition sound {A} (p : prog A) : Prop := acts p kept.

Lemma sound_ret {A} (a : A) : sound (Ret a).
Proof. apply acts_ret. by unfold kept. Qed.
Lemma sound_throw {A} e : is_exception e = true → sound (Throw e : prog A).
Proof. apply acts_throw. Qed.
Lemma sound_bind {A B} (p : prog A) (f : A → prog B) : sound p → (∀ a, sound (f a)) → sound (p ≫= f).
Proof.
  intros Hp Hf. eapply acts_weaken; [exact (acts_seq _ _ _ (λ _, kept) Hp Hf)|].
  intros d b d' (a & d1 & H1 & H2). unfold kept in *. auto.
Qed.
Lemma sound_lift {A} (r : exn + A) : (∀ e, r = inl e → is_exception e = true) → sound (lift r).
Proof. destruct r; [|intros; apply sound_ret]. intros He. apply sound_throw. by apply He. Qed.
Lemma sound_one p : sound (l ← call (Select prompt_templates p); scalar_one_or_none l).
Proof. eapply acts_weaken; [apply acts_one_template|]. unfold kept. by intros d o d' [_ ->]. Qed.

Lemma new_version_sound org name text desc type : sound (new_version org name text desc type).
Proof.
  eapply acts_weaken; [apply acts_new_version|]. unfold kept. cbn.
  intros d t d' (old & now & Ho & (id & now' & ->) & Hx & ->) Hc. rewrite !set_table_eq in *.
  apply publish; [done| |done|done]. cbn. unfold is_current, is_named, in_org. cbn. unfold sql_eq.
  by rewrite bool_decide_true, String.eqb_refl.
Qed.

(** The rows once a template has become the default of its type. *)
Definition promoted (org : uuid) (type : string) (now : Z) (t r : PromptTemplate) : PromptTemplate :=
  let r' := if is_type_default org type r then with_default false now r else r in
  if is_id (pt_id t) r' then with_default true now r' else r'.

Lemma acts_set_default org name :
  acts (set_as_type_default org name) (λ d u d', ∃ type now t, t ∈ templates_of d ∧ is_current org name t = true ∧
    pt_type t = Some type ∧ writes (map (promoted org type now t) (templates_of d)) d d' ∧
    ∃ l, List.filter (is_id (pt_id t)) (templates_of d') = u :: l).
Proof.
  unfold set_as_type_default, flush_row, refresh.
  eapply acts_weaken.
  - apply acts_seq; [apply acts_one_template|].
    instantiate (1 := λ o d u d', ∃ type now t, o = Some t ∧ pt_type t = Some type ∧
      writes (map (promoted org type now t) (templates_of d)) d d' ∧
      ∃ l, List.filter (is_id (pt_id t)) (templates_of d') = u :: l).
    intros [t|]; [|by apply acts_throw]. destruct (pt_type t) as [type|] eqn:Et; [|by apply acts_throw].
    eapply acts_weaken.
    + apply acts_seq; [by apply acts_call|intros now]. apply acts_seq; [by apply acts_call|intros n].
      apply acts_seq; [|intros v; apply acts_seq; [by apply acts_call|]].
      * apply acts_seq; [by apply acts_call|intros k]. instantiate (1 := λ k d _ d', d' = d).
        cbn. destruct (k =? 1); [by apply acts_ret|by apply acts_throw].
      * instantiate (1 := λ l d u d', d' = d ∧ ∃ l', l = u :: l').
        intros [|r l]; [by apply acts_throw|]. apply acts_ret. by eauto.
    + cbn. intros d u d' (now & d1 & -> & n & d2 & [_ ->] & [] & d3 & (k & d4 & (_ & _ & ->) & ->) & l & d5 & [-> ->] & -> & l' & Hl).
      exists type, now, t. split_and!; [done|done| |by exists l'].
      unfold writes. by rewrite !set_table_eq, set_table_twice, map_map.
  - cbn. intros d u d' (o & d1 & [Hf ->] & type & now & t & -> & Et & Hw & Hl). exists type, now, t.
    by apply filter_single in Hf as [? ?].
Qed.

Section promotion.
Context (l : list PromptTemplate) (org : uuid) (name type : string) (now : Z) (t : PromptTemplate).
Context (Hc : consistent l) (Ht : t ∈ l) (Hcur : is_current org name t = true) (Et : pt_type t = Some type).

Lemma promoted_same : same_version (promoted org type now t).
Proof. intros r. unfold promoted. destruct (is_type_default org type r), (is_id (pt_id t) _); by split_and!. Qed.

Lemma by_id r : r ∈ l → pt_id r = pt_id t → r = t.
Proof. intros Hr E. apply (co_keys _ Hc); [done..|]. apply conflict_spec. by left. Qed.

(** The template is the default of its type, and what else is a default was one. *)
Lemma promoted_default o ty r :
  r ∈ l → is_type_default o ty (promoted org type now t r) = true ↔
  (r = t ∧ o = org ∧ ty = type) ∨ (r ≠ t ∧ is_type_default o ty r = true ∧ ¬ (o = org ∧ ty = type)).
Proof.
  intros Hr. apply is_current_spec in Hcur as [Hn _]. apply is_named_spec in Hn as [Ho _].
  unfold promoted, is_id. rewrite is_type_default_spec.
  destruct (Z.eqb_spec (pt_id r) (pt_id t)) as [E|E].
  - rewrite (by_id r Hr E). destruct (is_type_default org type t); cbn; rewrite Z.eqb_refl; cbn; intuition congruence.
  - assert (r ≠ t) by (intros ->; done).
    destruct (is_type_default org type r) eqn:D; cbn.
    + apply is_type_default_spec in D as (? & ? & ?). destruct (Z.eqb_spec (pt_id r) (pt_id t)); [done|]. cbn. split.
      * intros (_ & _ & [=]).
      * intros [[? _]|(_ & (? & ? & _)%is_type_default_spec & Hne)]; [done|]. exfalso. apply Hne. split; congruence.
    + destruct (Z.eqb_spec (pt_id r) (pt_id t)); [done|]. rewrite <- is_type_default_spec. split.
      * intros Hd. right. split_and!; [done..|]. intros [-> ->]. congruence.
      * by intros [[? _]|(_ & ? & _)].
Qed.

Lemma promoted_consistent : consistent (map (promoted org type now t) l).
Proof.
  apply consistent_map; [done|apply promoted_same| |].
  - intros r Hr. unfold promoted, is_id. destruct (is_type_default org type r); cbn;
      destruct (Z.eqb_spec (pt_id r) (pt_id t)) as [E|]; cbn; try done;
      try (intros _; rewrite (by_id r Hr E); by apply is_current_spec in Hcur as [_ ?]).
    by apply (co_default _ Hc).
  - intros a b o ty Ha Hb Da Db. apply promoted_default in Da; [|done]. apply promoted_default in Db; [|done].
    destruct Da as [(-> & Ho & Hty)|(_ & Da & Hne)], Db as [(-> & Ho' & Hty')|(_ & Db & Hne')]; [done| | |].
    + exfalso. by apply Hne'.
    + exfalso. by apply Hne.
    + by eapply one_default.
Qed.
End promotion.

Lemma set_as_type_default_sound org name : sound (set_as_type_default org name).
Proof.
  eapply acts_weaken; [apply acts_set_default|]. unfold kept. cbn.
  intros d u d' (type & now & t & Ht & Hcur & Et & -> & _) Hc. rewrite set_table_eq. by eapply promoted_consistent.
Qed.

Lemma delete_for_org_sound org name : sound (delete_for_org org name).
Proof.
  eapply acts_weaken; [apply acts_seq; [by apply acts_call|intros n; by apply (acts_ret tt (λ d _ d', d' = d))]|].
  intros d u d' (n & d1 & [_ ->] & ->). unfold kept. rewrite set_table_eq. apply consistent_delete.
Qed.

(** The first copy of a template. *)
Lemma add_first_sound org name text desc type b d t d' :
  List.filter (is_named org name) (templates_of d) = [] → added org name text 1 desc type b d t d' →
  consistent (templates_of d) → consistent (templates_of d').
Proof.
  cbn. intros Hf ((id & now & ->) & Hx & ->) Hc. rewrite set_table_eq.
  assert (E : retired org name now (d prompt_templates) = d prompt_templates).
  { unfold retired. rewrite <- (map_id (d prompt_templates)) at 2. apply map_ext_in. intros r Hr%list_elem_of_In.
    destruct (is_current org name r) eqn:Er; [|done]. apply is_current_spec in Er as [Er _].
    assert (r ∈ List.filter (is_named org name) (d prompt_templates)) as Hin by by apply filter_elem.
    rewrite Hf in Hin. by apply elem_of_nil in Hin. }
  rewrite <- E. apply publish; [done| |by rewrite E, Hf|by rewrite E].
  unfold is_current, is_named, in_org, sql_eq. cbn. by rewrite bool_decide_true, String.eqb_refl.
Qed.

(** The text of an existing default is replaced. *)
Lemma flush_body_sound id text desc now : sound (flush_row id (with_body text desc now)).
Proof.
  unfold flush_row. eapply acts_weaken.
  - apply acts_seq; [by apply acts_call|intros k]. instantiate (1 := λ k d _ d', d' = d).
    cbn. destruct (k =? 1); [by apply acts_ret|by apply acts_throw].
  - intros d u d' (k & d1 & (_ & _ & ->) & ->). unfold kept. rewrite set_table_eq. intros Hc.
    apply (consistent_map (λ r, if is_id id r then with_body text desc now r else r)); [done| | |].
    + intros r. destruct (is_id id r); by split_and!.
    + intros r Hr. destruct (is_id id r); apply (co_default _ Hc r Hr).
    + intros a b o ty Ha Hb Da Db. pose proof (fades_if (is_id id) _ (body_fades text desc now)) as F.
      apply (fades_default _ _ _ _ F) in Da, Db. by eapply one_default.
Qed.

Section sound.
Context `{PromptFiles} `{Repr} (templates : list entry) (has_redis : bool).

Lemma template_text_exception file e : get_template_text file = inl e → is_exception e = true.
Proof. unfold get_template_text. destruct (read_text file); [done|]. by intros [= <-]. Qed.

(** A template is added when no copy was found. *)
Lemma find_then_add org name {A} (k : option PromptTemplate → prog A) :
  (∀ o, acts (k o) (λ d a d', (o = None → List.filter (is_named org name) (templates_of d) = []) → kept d a d')) →
  sound (find_named org name ≫= k).
Proof.
  intros Hk. eapply acts_weaken; [apply acts_seq; [apply acts_one_template|exact Hk]|].
  cbn. intros d a d' (o & d1 & [Hf ->] & Hd). apply Hd. by intros ->.
Qed.

Lemma acts_text file {A} (k : string → prog A) R :
  (∀ text, acts (k text) R) → acts (text ← lift (get_template_text file); k text) R.
Proof.
  intros Hk. destruct (get_template_text file) as [e|text] eqn:E; [|apply Hk].
  apply acts_throw. by eapply template_text_exception.
Qed.

Lemma seed_one_sound org count entry : sound (seed_one org count entry).
Proof.
  unfold seed_one. destruct (negb (e_is_default_for_type entry)); [apply sound_ret|]. apply find_then_add.
  intros [t|]; apply acts_text; intros text.
  - eapply acts_weaken; [|intros d a d' Hk _; exact Hk].
    destruct (_ && _); [|apply sound_ret]. apply sound_bind; [|intros now].
    + eapply acts_weaken; [by apply acts_call|]. unfold kept. by intros d x d' ->.
    + apply sound_bind; [apply flush_body_sound|]. intros _. apply sound_ret.
  - eapply acts_weaken; [apply acts_seq; [apply acts_add_template|intros i]|].
    + by apply (acts_ret (count + 1) (λ d _ d', d' = d)).
    + intros d a d' (i & d1 & (t & _ & Ht) & ->) Hf. exact (add_first_sound _ _ _ _ _ _ _ _ _ (Hf eq_refl) Ht).
Qed.

Lemma seed_default_prompts_sound org : sound (seed_default_prompts templates org).
Proof.
  unfold seed_default_prompts. generalize 0. induction templates as [|e l IH]; intros n; [apply sound_ret|].
  cbn. apply sound_bind; [apply seed_one_sound|exact IH].
Qed.

Lemma import_sound org name : sound (import_system_template templates org name).
Proof.
  unfold import_system_template. destruct (get_by_name templates name) as [e|]; [|by apply sound_throw].
  apply find_then_add. intros [t|]; [by apply acts_throw|]. apply acts_text. intros text.
  eapply acts_weaken; [apply acts_add|]. intros d t d' Ht Hf. exact (add_first_sound _ _ _ _ _ _ _ _ _ (Hf eq_refl) Ht).
Qed.

Lemma drop_cache_acts org name : acts (_drop_cache has_redis org name) (λ d _ d', d' = d).
Proof.
  unfold _drop_cache. destruct has_redis; [|by apply acts_ret]. intros s. cbn [negb]. unfold try_except, redis.
  rewrite run_catch, run_bind, run_call. done.
Qed.

Lemma dropping_sound org name {A} (p : prog A) : sound p → sound (dropping has_redis org name p).
Proof.
  intros Hp. apply sound_bind; [exact Hp|]. intros a. apply sound_bind; [|intros _; apply sound_ret].
  eapply acts_weaken; [apply drop_cache_acts|]. unfold kept. by intros d x d' ->.
Qed.

Lemma reraise_sound {A} (p : prog A) sel h :
  sound p → (∀ e, ∃ e', h e = Throw e' ∧ is_exception e' = true) → sound (try_except p sel h).
Proof. apply acts_reraise. Qed.

Lemma handle_sound org q : sound (handle templates has_redis org q).
Proof.
  destruct q; unfold handle; try (apply sound_bind; [|intros; apply sound_ret]).
  - apply sound_bind; [apply dropping_sound, new_version_sound|intros; apply sound_ret].
  - apply sound_bind; [apply reraise_sound; [apply dropping_sound|by eauto]|intros; apply sound_ret].
    apply sound_bind; [apply sound_one|]. intros [t|]; [apply new_version_sound|by apply sound_throw].
  - apply sound_bind; [apply reraise_sound; [apply dropping_sound, set_as_type_default_sound|by eauto]|].
    intros; apply sound_ret.
  - apply sound_bind; [apply reraise_sound; [apply dropping_sound, import_sound|]|intros; apply sound_ret].
    intros e. destruct (str_contains _ _); by eauto.
  - apply sound_bind; [apply sound_one|]. intros [t|]; [|by apply sound_throw].
    destruct (pt_is_default_for_type t); [by apply sound_throw|apply dropping_sound, delete_for_org_sound].
Qed.
End sound.

(** * Reading well-formed templates *)

Lemma current_row l org name :
  consistent l → ∃ o, List.filter (is_current org name) l = option_list o ∧
    (o = None ↔ List.filter (is_named org name) l = []) ∧
    (∀ t r, o = Some t → r ∈ l → is_named org name r = true → pt_version r ≤ pt_version t).
Proof.
  intros Hc. destruct (filter_at_most pt_id (is_current org name) l) as [o Ho].
  { apply Hc. } { intros x y Hx Hy Px Py. by eapply one_current. }
  exists o. split; [done|]. split.
  - split.
    + intros ->. apply filter_none. intros r Hr. apply Bool.not_true_iff_false. intros Hn.
      destruct (co_live _ Hc r org name Hr Hn) as (b & Hb & Cb).
      assert (b ∈ List.filter (is_current org name) l) as Hin by by apply filter_elem.
      rewrite Ho in Hin. by apply elem_of_nil in Hin.
    + intros Hn. destruct o as [t|]; [|done]. apply filter_single in Ho as [Ht Ct].
      apply is_current_spec in Ct as [Ct _]. assert (t ∈ List.filter (is_named org name) l) as Hin by by apply filter_elem.
      rewrite Hn in Hin. by apply elem_of_nil in Hin.
  - intros t r -> Hr Hn. apply filter_single in Ho as [Ht Ct]. by eapply (co_newest _ Hc).
Qed.

Lemma default_row l org type :
  consistent l → ∃ o, List.filter (λ r, is_type_default org type r && pt_is_active r) l = option_list o.
Proof.
  intros Hc. apply (filter_at_most pt_id); [apply Hc|].
  intros x y Hx Hy [Px _]%andb_true_iff [Py _]%andb_true_iff. by eapply one_default.
Qed.

Lemma one_version l org name r :
  consistent l → r ∈ l → is_named org name r = true →
  List.filter (λ x, is_named org name x && (pt_version x =? pt_version r)) l = option_list (Some r).
Proof.
  intros Hc Hr Hn. apply (filter_found pt_id); [apply Hc|done|by rewrite Hn, Z.eqb_refl|].
  intros y Hy [Hny Ev%Z.eqb_eq]%andb_true_iff. apply (co_keys _ Hc); [done..|]. apply conflict_spec. right.
  apply is_named_spec in Hn as [? ?], Hny as [? ?]. exists org. split_and!; [done..|]. left. split; congruence.
Qed.

Lemma run_at_most_one p o (s : state) :
  List.filter p (st_db s prompt_templates) = option_list o →
  run (l ← call (Select prompt_templates p); scalar_one_or_none l) s = (inr o, s).
Proof. intros Hf. etransitivity; [apply (run_select prompt_templates)|]. cbn [row] in *. rewrite Hf. by destruct o. Qed.

(** * Operations that succeed *)

Definition template_row (s : state) (org : uuid) (name text : string) (version : Z) (desc type : option string)
    (b : bool) : PromptTemplate :=
  mkPromptTemplate (next_uuid s) (Some org) name text version desc type b true (st_clock s).

Lemma run_add org name text version desc type b (s : state) :
  let t := template_row s org name text version desc type b in
  (∀ x, x ∈ st_db s prompt_templates → row_conflict prompt_templates t x = false) →
  run (id ← add_template org name text version desc type b; refresh id) s =
    (inr t, set_db (set_table prompt_templates (st_db s prompt_templates ++ [t]) (st_db s)) (op_sem (Draw (2 ^ 128)) s).2).
Proof.
  cbn zeta. intros Hx. unfold add_template. rewrite !run_assoc, run_uuid4, run_assoc, run_now.
  change (st_clock (op_sem (Draw (2 ^ 128)) s).2) with (st_clock s).
  change (mkPromptTemplate _ _ _ _ _ _ _ _ _ _) with (template_row s org name text version desc type b).
  set (t := template_row _ _ _ _ _ _ _ _) in *. set (s1 := (op_sem (Draw (2 ^ 128)) s).2).
  change (st_db s) with (st_db s1) in *. rewrite run_assoc.
  rewrite (run_op _ _ _ [t] (set_db (set_table prompt_templates (st_db s1 prompt_templates ++ [t]) (st_db s1)) s1)).
  - rewrite run_ret_bind. unfold refresh. etransitivity; [apply (run_select prompt_templates)|].
    cbn [st_db set_db row]. rewrite set_table_eq. change (next_uuid s) with (pt_id t). cbn [row].
    rewrite List.filter_app, (filter_none (is_id (pt_id t)) (st_db s1 prompt_templates)).
    + cbn [app List.filter]. unfold is_id. by rewrite Z.eqb_refl.
    + intros x Hin. unfold is_id. apply Z.eqb_neq. intros E. specialize (Hx x Hin).
      apply Bool.not_true_iff_false in Hx. apply Hx, conflict_spec. by left.
  - unfold op_sem, check_rows. cbn [row_check insert_rows insert_check negb orb]. rewrite (existsb_none (no_arbiter _ _)) by done.
    by rewrite (existsb_none (row_conflict prompt_templates t)).
Qed.

Lemma run_new_version org name text desc type old (s : state) :
  let l := retired org name (st_clock s) (st_db s prompt_templates) in
  let t := template_row s org name text (max_version (List.filter (is_named org name) l) + 1) desc type (was_default old) in
  List.filter (is_current org name) (st_db s prompt_templates) = option_list old →
  (∀ x, x ∈ l → row_conflict prompt_templates t x = false) →
  ∃ s', run (new_version org name text desc type) s = (inr t, s') ∧
        st_db s' = set_table prompt_templates (l ++ [t]) (st_db s).
Proof.
  cbn zeta. intros Ho Hx. unfold new_version. rewrite run_bind.
  rewrite (run_at_most_one _ _ _ Ho : run (get_active org name) s = _). cbn beta iota.
  rewrite run_now, run_update by done. cbn beta. change (map _ _) with (retired org name (st_clock s) (st_db s prompt_templates)).
  set (l := retired _ _ _ _) in *. set (s1 := set_db _ s).
  assert (E1 : st_db s1 prompt_templates = l) by (cbn [s1 st_db set_db]; by rewrite set_table_eq).
  eexists. split.
  - etransitivity; [apply (run_select prompt_templates)|]. rewrite E1.
    apply (run_add _ _ _ _ _ _ _ s1). by rewrite E1.
  - cbn [st_db set_db]. rewrite E1. unfold s1. cbn [st_db set_db]. apply set_table_twice.
Qed.

Lemma run_refresh t (s : state) :
  NoDup (map pt_id (st_db s prompt_templates)) → t ∈ st_db s prompt_templates → run (refresh (pt_id t)) s = (inr t, s).
Proof.
  intros Hd Ht. etransitivity; [apply (run_select prompt_templates)|]. cbn [row] in *.
  rewrite (filter_unique pt_id (is_id (pt_id t)) _ t); try done; [apply Z.eqb_refl|]. by intros y ?%Z.eqb_eq.
Qed.

(** A statement that leaves the templates well formed meets no uniqueness constraint. *)
Lemma consistent_unique (p : PromptTemplate → bool) (f : PromptTemplate → PromptTemplate) l :
  consistent (map (λ r, if p r then f r else r) l) →
  unique_rows prompt_templates (map (λ r, if p r then (true, f r) else (false, r)) l) = true.
Proof.
  intros Hc. assert (E : map snd (map (λ r, if p r then (true, f r) else (false, r)) l) = map (λ r, if p r then f r else r) l).
  { rewrite map_map. apply map_ext. intros r. by destruct (p r). }
  apply (unique_rows_keys prompt_templates pt_id).
  - rewrite <- (map_map snd pt_id), E. apply Hc.
  - intros a b Ha Hb Hab. f_equal. apply (co_keys _ Hc); [..|done]; rewrite <- E; by apply list_elem_of_fmap_2.
Qed.

Lemma run_set_default org name type t (s : state) :
  consistent (st_db s prompt_templates) → t ∈ st_db s prompt_templates → is_current org name t = true →
  pt_type t = Some type →
  ∃ s', run (set_as_type_default org name) s = (inr (promoted org type (st_clock s) t t), s') ∧
        st_db s' = set_table prompt_templates (map (promoted org type (st_clock s) t) (st_db s prompt_templates)) (st_db s).
Proof.
  intros Hc Ht Hcur Et. unfold set_as_type_default. rewrite run_bind.
  assert (Hf : List.filter (is_current org name) (st_db s prompt_templates) = option_list (Some t)).
  { apply (filter_found pt_id); [apply Hc|done..|]. intros y Hy Cy. by eapply one_current. }
  rewrite (run_at_most_one _ _ _ Hf : run (get_active org name) s = _). cbn beta iota. rewrite Et.
  rewrite run_now, run_update by done. cbn beta. set (f := λ r, if is_type_default org type r then with_default false (st_clock s) r else r).
  set (l1 := map f (st_db s prompt_templates)). set (s1 := set_db _ s).
  assert (E1 : st_db s1 prompt_templates = l1) by (cbn [s1 st_db set_db]; by rewrite set_table_eq).
  assert (Hids : map pt_id l1 = map pt_id (st_db s prompt_templates)).
  { unfold l1. rewrite map_map. apply map_ext. intros r. unfold f. by destruct (is_type_default org type r). }
  rewrite run_bind. unfold flush_row. rewrite run_update_unique; [|done|].
  2: { cbn [row] in *. rewrite E1. apply consistent_unique. unfold l1. rewrite map_map.
       exact (promoted_consistent _ org name type (st_clock s) t Hc Ht Hcur Et). }
  cbn [row] in *. rewrite E1.
  rewrite (filter_unique pt_id (is_id (pt_id t)) l1 (f t)).
  - cbn [length Z.of_nat Z.eqb Pos.of_succ_nat Pos.eqb run]. set (s2 := set_db _ s1).
    assert (E2 : st_db s2 prompt_templates = map (promoted org type (st_clock s) t) (st_db s prompt_templates)).
    { cbn [s2 st_db set_db]. rewrite set_table_eq. unfold l1. rewrite map_map. done. }
    exists s2. split.
    + assert (Hp : pt_id (promoted org type (st_clock s) t t) = pt_id t) by apply promoted_same.
      transitivity (run (refresh (pt_id (promoted org type (st_clock s) t t))) s2); [by rewrite Hp|].
      apply run_refresh; rewrite E2.
      * rewrite map_map. erewrite map_ext; [apply Hc|]. intros r. apply promoted_same.
      * by apply list_elem_of_fmap_2.
    + cbn [s2 s1 st_db set_db]. rewrite set_table_twice. unfold l1. by rewrite map_map.
  - rewrite Hids. apply Hc.
  - by apply list_elem_of_fmap_2.
  - unfold is_id, f. destruct (is_type_default org type t); apply Z.eqb_refl.
  - intros y ->%Z.eqb_eq. unfold f. by destruct (is_type_default org type t).
Qed.

Lemma template_conflict org name desc type text (old : option PromptTemplate) (s : state) l0 :
  let l := retired org name (st_clock s) l0 in
  let t := template_row s org name text (max_version (List.filter (is_named org name) l) + 1) desc type (was_default old) in
  consistent l0 → List.filter (is_current org name) l0 = option_list old →
  (∀ r, r ∈ l0 → pt_id r ≠ next_uuid s) →
  (∀ r ty, was_default old = true → r ∈ l0 → type = Some ty → is_type_default org ty r = true → old = Some r) →
  ∀ x, x ∈ l → row_conflict prompt_templates t x = false.
Proof.
  cbn zeta. intros Hc Ho Hid Hty x Hx. apply Bool.not_true_iff_false.
  assert (Hmax : is_named org name x = true →
    pt_version x ≤ max_version (List.filter (is_named org name) (retired org name (st_clock s) l0))).
  { intros Hn. apply max_version_le. by apply filter_elem. }
  apply retired_elem in Hx as (a & Ha & ->). pose proof (fades_if (is_current org name) _ (retire_fades (st_clock s))) as F.
  intros [Hi|(o & [= <-] & Hox & [[En Ev]|(ty & Dt & Dx)])]%conflict_spec.
  - cbn in Hi. apply (Hid a Ha). rewrite Hi. symmetry. apply (F a).
  - cbn in En, Ev. assert (Hle := Hmax (proj2 (is_named_spec _ _ _) (conj Hox (eq_sym En)))). lia.
  - apply is_type_default_spec in Dt as (_ & Et & Db). cbn in Et, Db.
    pose proof Dx as Dx'. apply (fades_default _ _ _ _ F) in Dx'.
    assert (old = Some a) as -> by by eapply Hty.
    apply filter_single in Ho as [_ Ca]. apply is_type_default_spec in Dx as (_ & _ & Dx). by rewrite Ca in Dx.
Qed.

Lemma filter_of_map {A B} (p : B → bool) (f : A → B) l : List.filter p (map f l) = map f (List.filter (λ x, p (f x)) l).
Proof. induction l as [|x l IH]; [done|]. cbn. destruct (p (f x)); cbn; by rewrite IH. Qed.

(** The text of the default of a type. *)
Definition default_text (org : uuid) (type : string) (l : list PromptTemplate) : list string :=
  map pt_template_text (List.filter (λ r, is_type_default org type r && pt_is_active r) l).

Lemma run_default_text org type (s : state) :
  run (get_active_text_by_type org type) s =
    run (scalar_one_or_none (default_text org type (st_db s prompt_templates))) s.
Proof. apply (run_select prompt_templates). Qed.

Lemma promoted_active org type now t r : pt_is_active (promoted org type now t r) = pt_is_active r.
Proof. apply promoted_same. Qed.
Lemma promoted_text org type now t r : pt_template_text (promoted org type now t r) = pt_template_text r.
Proof. unfold promoted. by destruct (is_type_default org type r), (is_id (pt_id t) _). Qed.

(** The defaults of the other types stay. *)
Lemma promoted_others l org name type now t o ty :
  consistent l → t ∈ l → is_current org name t = true → pt_type t = Some type → (o, ty) ≠ (org, type) →
  default_text o ty (map (promoted org type now t) l) = default_text o ty l.
Proof.
  intros Hc Ht Hcur Et Hne. unfold default_text. rewrite filter_of_map, map_map.
  erewrite map_ext; [|intros r; apply promoted_text]. f_equal. apply filter_ext_in. intros r Hr%list_elem_of_In.
  rewrite promoted_active. f_equal. apply Bool.eq_iff_eq_true.
  rewrite (promoted_default l org name type now t Hc Ht Hcur Et o ty r Hr). split.
  - intros [(_ & -> & ->)|(_ & Hd & _)]; done.
  - intros Hd. right. split_and!; [|done|by intros [-> ->]]. intros ->. apply Hne.
    apply is_type_default_spec in Hd as (Ho & Hty & _). apply is_current_spec in Hcur as [Hn _].
    apply is_named_spec in Hn as [Ho' _]. congruence.
Qed.

Lemma promoted_self l org name type now t :
  consistent l → t ∈ l → is_current org name t = true → pt_type t = Some type →
  default_text org type (map (promoted org type now t) l) = [pt_template_text t].
Proof.
  intros Hc Ht Hcur Et. unfold default_text.
  rewrite (filter_found pt_id _ _ (promoted org type now t t)); [cbn; by rewrite promoted_text| | | |].
  - rewrite map_map. erewrite map_ext; [apply Hc|]. intros r. apply promoted_same.
  - by apply list_elem_of_fmap_2.
  - rewrite promoted_active. apply andb_true_iff. split; [|by apply is_current_spec in Hcur as [_ ?]].
    apply (promoted_default l org name type now t Hc Ht Hcur Et); [done|by left].
  - intros y (r & -> & Hr)%list_elem_of_fmap [Hd _]%andb_true_iff.
    apply (promoted_default l org name type now t Hc Ht Hcur Et) in Hd; [|done].
    destruct Hd as [(-> & _)|(_ & _ & Hne)]; [done|]. by destruct Hne.
Qed.

Section properties.
Context `{PromptFiles} `{Repr}.

(** C27. Whatever requests administrators send, served one after the other and each in
    its own transaction, a template keeps exactly one current version, its newest, the
    numbers of its versions stay distinct, and each type keeps at most one default, which
    is current: reading a template or the default of a type never fails. *)
Theorem templates_well_formed (templates : list entry) (has_redis : bool) (l : list (uuid * prompt_request)) (s : state) :
  consistent (st_db s prompt_templates) → st_db s = st_committed s →
  let s' := (run (serve_prompts templates has_redis l) s).2 in
  consistent (st_db s' prompt_templates) ∧ st_db s' = st_committed s' ∧
  ∀ org name type,
    (∃ o, run (get_active org name) s' = (inr o, s') ∧
       (o = None ↔ List.filter (is_named org name) (st_db s' prompt_templates) = []) ∧
       ∀ t r, o = Some t → r ∈ st_db s' prompt_templates → is_named org name r = true → pt_version r ≤ pt_version t) ∧
    ∃ text, run (get_active_text_by_type org type) s' = (inr text, s').
Proof.
  intros Hc Hs. cbn zeta.
  destruct (requests_keep (λ d, consistent (d prompt_templates))
    (map (λ q, (0, request (handle templates has_redis q.1 q.2))) l) s) as [Hs' Hc']; [|done|done|].
  { intros d p ([org q] & [= -> ->] & _)%list_elem_of_fmap. eexists. split; [done|]. apply handle_sound. }
  fold (serve_prompts templates has_redis l) in *. set (s' := (run (serve_prompts templates has_redis l) s).2) in *.
  split_and!; [done|done|]. intros org name type. split.
  - destruct (current_row _ org name Hc') as (o & Ho & Hr). exists o. split; [by apply run_at_most_one|exact Hr].
  - destruct (default_row _ org type Hc') as (o & Ho). exists (option_map pt_template_text o).
    etransitivity; [apply (run_select prompt_templates)|]. cbn [row]. rewrite Ho. by destruct o.
Qed.

(** Rolling a template back to one of its versions makes a new version, newer than
    every other, that carries the text, description and type of that version and becomes
    the current one; every earlier version can still be read with its text. *)
Theorem rollback_restores (org : uuid) (name : string) (old : PromptTemplate) (s : state) :
  let rows := st_db s prompt_templates in
  consistent rows → old ∈ rows → is_named org name old = true →
  (∀ r, r ∈ rows → pt_id r ≠ next_uuid s) →
  (∀ cur r ty, cur ∈ rows → is_current org name cur = true → pt_is_default_for_type cur = true →
     r ∈ rows → pt_type old = Some ty → is_type_default org ty r = true → cur = r) →
  ∃ t s', run (rollback org name (pt_version old)) s = (inr t, s') ∧
    pt_template_text t = pt_template_text old ∧ pt_description t = pt_description old ∧ pt_type t = pt_type old ∧
    run (get_active org name) s' = (inr (Some t), s') ∧
    ∀ r, r ∈ rows → is_named org name r = true → pt_version r < pt_version t ∧
      ∃ r', run (get_version org name (pt_version r)) s' = (inr (Some r'), s') ∧ pt_template_text r' = pt_template_text r.
Proof.
  cbn zeta. intros Hc Hold Hn Hid Hty. destruct (current_row _ org name Hc) as (cur & Hcur & _).
  set (l := retired org name (st_clock s) (st_db s prompt_templates)).
  set (t := template_row s org name (pt_template_text old) (max_version (List.filter (is_named org name) l) + 1)
              (pt_description old) (pt_type old) (was_default cur)).
  assert (Hx : ∀ x, x ∈ l → row_conflict prompt_templates t x = false).
  { apply (template_conflict org name); [done|done|done|]. intros r ty Hw Hr Et Hd. unfold was_default in Hw.
    destruct cur as [c|]; [|done]. apply filter_single in Hcur as [Hc1 Hc2]. apply andb_true_iff in Hw as [Hw _].
    by rewrite (Hty c r ty). }
  destruct (run_new_version org name (pt_template_text old) (pt_description old) (pt_type old) cur s Hcur Hx)
    as (s' & Hrun & Hdb). fold l t in Hrun, Hdb.
  assert (Hrows : st_db s' prompt_templates = l ++ [t]) by by rewrite Hdb, set_table_eq.
  assert (Hct : is_current org name t = true).
  { unfold is_current, is_named, in_org, sql_eq. cbn. by rewrite bool_decide_true, String.eqb_refl. }
  assert (Hc' : consistent (l ++ [t])) by by apply publish.
  exists t, s'. split_and!; [|done..| |].
  - unfold rollback. rewrite run_bind.
    assert (Hv : List.filter (λ r, is_named org name r && (pt_version r =? pt_version old)) (st_db s prompt_templates) = option_list (Some old)).
    { apply (one_version _ _ _ _ Hc Hold Hn). }
    by rewrite (run_at_most_one _ _ _ Hv : run (get_version org name (pt_version old)) s = _).
  - apply run_at_most_one. rewrite Hrows. apply (filter_found pt_id); [apply Hc'|apply elem_of_app; right; left|done|].
    intros y Hy Cy. eapply one_current; [exact Hc'|done| |done|done]. apply elem_of_app. right. left.
  - intros r Hr Hnr. set (r' := if is_current org name r then retire (st_clock s) r else r).
    assert (Hr' : r' ∈ l) by (apply list_elem_of_fmap; by exists r).
    pose proof (fades_if (is_current org name) _ (retire_fades (st_clock s))) as F.
    assert (Hn' : is_named org name r' = true) by (by rewrite <- Hnr; apply (fades_named _ org name r F)).
    assert (Ev : pt_version r' = pt_version r) by apply (F r). split.
    + assert (pt_version r' ≤ max_version (List.filter (is_named org name) l)); [|cbn; lia].
      apply max_version_le. by apply filter_elem.
    + exists r'. split; [|unfold r'; by destruct (is_current org name r)]. apply run_at_most_one. rewrite Hrows, <- Ev.
      apply one_version; [exact Hc'|apply elem_of_app; by left|done].
Qed.

(** Making a template the default of its type makes it the one whose text the
    workers get for that type; the defaults of the other types stay what they were. *)
Theorem default_resolves (org : uuid) (name type : string) (t : PromptTemplate) (s : state) :
  consistent (st_db s prompt_templates) → t ∈ st_db s prompt_templates → is_current org name t = true →
  pt_type t = Some type →
  ∃ u s', run (set_as_type_default org name) s = (inr u, s') ∧
    run (get_active_text_by_type org type) s' = (inr (Some (pt_template_text t)), s') ∧
    ∀ org' type', (org', type') ≠ (org, type) →
      (run (get_active_text_by_type org' type') s').1 = (run (get_active_text_by_type org' type') s).1.
Proof.
  intros Hc Ht Hcur Et. destruct (run_set_default org name type t s Hc Ht Hcur Et) as (s' & Hrun & Hdb).
  assert (Hrows : st_db s' prompt_templates = map (promoted org type (st_clock s) t) (st_db s prompt_templates))
    by by rewrite Hdb, set_table_eq.
  eexists _, s'. split; [exact Hrun|]. split.
  - by rewrite run_default_text, Hrows, (promoted_self _ org name).
  - intros o ty Hne. rewrite !run_default_text, Hrows, (promoted_others _ org name) by done.
    by destruct (default_text o ty _) as [|x [|]].
Qed.
End properties.

(** * Witnesses *)

(** Files whose text names them, and [repr] of a string without quotes. *)
#[local] Instance named_files : PromptFiles := {| read_text n := Some ("text of " +:+ n) |}.
#[local] Instance quoting : Repr := {| py_repr n := "'" +:+ n +:+ "'" |}.

(** The manifest has one default per type, and no name twice. *)
Example manifest_defaults :
  forallb (λ e, match e_type e with
                | Some ty => match get_default_for_type MANIFEST ty with
                             | Some d => eqb (e_is_default_for_type e) (e_name d =? e_name e)%string
                             | None => false
                             end
                | None => false
                end) MANIFEST = true
  ∧ NoDup (map e_name MANIFEST).
Proof. split; [by vm_compute|]. apply (bool_decide_unpack _). by vm_compute. Qed.

(** An organization that signed up: its seven defaults. *)
Definition signed_up : state := (run (_ ← seed_default_prompts MANIFEST 7; call Commit) empty_state).2.

Example seeded_defaults :
  (run (seed_default_prompts MANIFEST 7) empty_state).1 = inr 7 ∧
  (run (get_active_text_by_type 7 "fact_extraction") signed_up).1 = inr (Some "text of extract_facts_v4.jinja2"%string) ∧
  (run (list_names 7 None) signed_up).1
    = inr (Prelude.sort_by by_name_and_version (st_db signed_up prompt_templates)).
Proof. by vm_compute. Qed.

(** A version stored without a type takes the default flag with it: the type is left
    without a default, and the template can be neither made the default nor deleted. *)
Definition untyped : state :=
  (run (request (set_prompt_template true 7 "extract_facts_v4" "mine" None None)) signed_up).2.

Example untyped_version_loses_default :
  (run (get_active_text_by_type 7 "fact_extraction") untyped).1 = inr None ∧
  (run (set_prompt_type_default true 7 "extract_facts_v4") untyped).1
    = inl (HTTPException 404 "Template has no type assigned") ∧
  (run (delete_prompt_template_override true 7 "extract_facts_v4") untyped).1
    = inl (HTTPException 409 "Cannot delete the active default for its type.").
Proof. by vm_compute. Qed.

(** A template imported twice is a conflict; once it has two versions, the same request
    fails with an exception no handler expects. *)
Example import_after_two_versions :
  (run (import_system_prompt MANIFEST true 7 "extract_facts_v4") signed_up).1
    = inl (HTTPException 409 "Template 'extract_facts_v4' already imported into this organisation") ∧
  (run (import_system_prompt MANIFEST true 7 "extract_facts_v4") untyped).1 = inl MultipleResultsFound ∧
  (run (seed_default_prompts MANIFEST 7) untyped).1 = inl MultipleResultsFound.
Proof. by vm_compute. Qed.

Lemma signed_up_consistent : consistent (st_db signed_up prompt_templates) ∧ st_db signed_up = st_committed signed_up.
Proof.
  assert (Hn : (run (seed_default_prompts MANIFEST 7) empty_state).1 = inr 7) by by vm_compute.
  pose proof (seed_default_prompts_sound MANIFEST 7 empty_state) as Hs. unfold signed_up. rewrite run_bind.
  revert Hn Hs. generalize (run (seed_default_prompts MANIFEST 7) empty_state). intros [[e|n] s]; [by intros ?|].
  intros _ [Hs _]. split; [|done]. apply Hs. split; [constructor|..]; intros; by apply elem_of_nil in H.
Qed.

(** Two versions of a template, the second current and default. *)
Definition v1 : PromptTemplate :=
  mkPromptTemplate 100 (Some 7) "extract_facts_v4" "first" 1 None (Some "fact_extraction"%string) false false 0.
Definition v2 : PromptTemplate :=
  mkPromptTemplate 101 (Some 7) "extract_facts_v4" "second" 2 None (Some "fact_extraction"%string) true true 0.
Definition two_versions : state := set_db (set_table prompt_templates [v1; v2] (st_db empty_state)) empty_state.

Ltac each_version :=
  repeat match goal with
         | H : _ ∈ _ :: _ |- _ => apply elem_of_cons in H as [->|H]
         | H : _ ∈ [] |- _ => by apply elem_of_nil in H
         end.

Lemma two_versions_consistent : consistent [v1; v2].
Proof.
  split.
  - apply (bool_decide_unpack _). by vm_compute.
  - intros a b Ha Hb. each_version; by vm_compute.
  - intros a Ha. each_version; by vm_compute.
  - intros a b org name Ha Hb [Hn Hact]%is_current_spec _. each_version; cbn; try done; lia.
  - intros a org name Ha Hn. exists v2. split; [right; left|]. apply is_current_spec. split; [|done].
    by each_version.
Qed.

Lemma templates_well_formed_witness :
  let l := [(7, SetTemplate "extract_facts_v4" "mine" None (Some "fact_extraction")); (7, RollBack "extract_facts_v4" 1);
            (7, SetTemplate "other" "x" None (Some "fact_extraction")); (7, SetDefault "other"); (8, Import "extract_facts_v4");
            (7, DeleteTemplate "extract_facts_v4")]%string in
  (run (serve_prompts MANIFEST true l) signed_up).1 = inr [true; true; true; true; true; true] ∧
  let s' := (run (serve_prompts MANIFEST true l) signed_up).2 in
  consistent (st_db s' prompt_templates) ∧ st_db s' = st_committed s' ∧
  ∀ org name type,
    (∃ o, run (get_active org name) s' = (inr o, s') ∧
       (o = None ↔ List.filter (is_named org name) (st_db s' prompt_templates) = []) ∧
       ∀ t r, o = Some t → r ∈ st_db s' prompt_templates → is_named org name r = true → pt_version r ≤ pt_version t) ∧
    ∃ text, run (get_active_text_by_type org type) s' = (inr text, s').
Proof.
  cbn zeta. split; [by vm_compute|]. apply (templates_well_formed MANIFEST true _ signed_up); apply signed_up_consistent.
Defined.

Lemma rollback_restores_witness :
  ∃ t s', run (rollback 7 "extract_facts_v4" 1) two_versions = (inr t, s') ∧
    pt_template_text t = "first"%string ∧ pt_description t = None ∧ pt_type t = Some "fact_extraction"%string ∧
    run (get_active 7 "extract_facts_v4") s' = (inr (Some t), s') ∧
    ∀ r, r ∈ [v1; v2] → is_named 7 "extract_facts_v4" r = true → pt_version r < pt_version t ∧
      ∃ r', run (get_version 7 "extract_facts_v4" (pt_version r)) s' = (inr (Some r'), s') ∧ pt_template_text r' = pt_template_text r.
Proof.
  apply (rollback_restores 7 "extract_facts_v4" v1 two_versions).
  - exact two_versions_consistent.
  - left.
  - done.
  - intros r Hr. cbn in Hr. each_version; by vm_compute.
  - intros cur r ty Hcur Hc Hd Hr Ht Hdef. apply is_type_default_spec in Hdef as (_ & _ & Hdef).
    cbn in Hcur, Hr. each_version; done.
Defined.

Lemma default_resolves_witness :
  ∃ u s', run (set_as_type_default 7 "extract_facts_v4") two_versions = (inr u, s') ∧
    run (get_active_text_by_type 7 "fact_extraction") s' = (inr (Some "second"%string), s') ∧
    ∀ org' type', (org', type') ≠ (7, "fact_extraction"%string) →
      (run (get_active_text_by_type org' type') s').1 = (run (get_active_text_by_type org' type') two_versions).1.
Proof.
  apply (default_resolves 7 "extract_facts_v4" "fact_extraction" v2 two_versions);
    [exact two_versions_consistent|right; left|done|done].
Defined.
