(* ===== verification/Invites.v ===== *)
(** services/invite_service.py with repositories/organization_repository.py: an
    organization's invitations by mail, from the pending account to its first session. *)
From S2P Require Import Prelude Errors Data Effects Concurrent Cursor Rbac Tokens Session Users.
Open Scope Z_scope.

(** * repositories/organization_repository.py

    Which rows a session sees is modelled in [Rls]. *)

Definition org_row (org_id : uuid) (o : Organization) : bool := o_id o =? org_id.

Definition get_by_id (org_id : uuid) : prog (option Organization) :=
  l ← call (Select organizations (org_row org_id)); scalar_one_or_none l.

Definition joinable (o : Organization) : bool :=
  o_is_active o && (o_status o =? "approved")%string && negb (o_name o =? "SYSTEM")%string.

Definition get_by_code (code : string) : prog (option Organization) :=
  l ← call (Select organizations (λ o, (o_org_code o =? code)%string && joinable o)); scalar_one_or_none l.

Definition is_pending (org_id : uuid) (o : Organization) : bool := org_row org_id o && (o_status o =? "pending")%string.

Definition with_status (status : string) (o : Organization) : Organization :=
  mkOrganization (o_id o) (o_name o) (o_plan o) status (o_is_active o) (o_org_code o) (o_join_enabled o).
Definition with_code (code : string) (o : Organization) : Organization :=
  mkOrganization (o_id o) (o_name o) (o_plan o) (o_status o) (o_is_active o) code (o_join_enabled o).
Definition with_join_enabled (b : bool) (o : Organization) : Organization :=
  mkOrganization (o_id o) (o_name o) (o_plan o) (o_status o) (o_is_active o) (o_org_code o) b.

Definition approve_if_pending (org_id : uuid) : prog bool :=
  n ← call (Update organizations (is_pending org_id) (with_status "approved")); Ret (n =? 1).

Definition refresh (org_id : uuid) : prog Organization :=
  l ← call (Select organizations (org_row org_id));
  match l with o :: _ => Ret o | [] => Throw (DatabaseError "Could not refresh instance") end.

(** An attribute of a loaded row, flushed when it differs. *)
Definition flush_row (org_id : uuid) (same : bool) (f : Organization → Organization) : prog unit :=
  if same then Ret tt
  else
    n ← call (UpdateUnique organizations (org_row org_id) f);
    if n =? 1 then Ret tt
    else Throw (DatabaseError "UPDATE statement on table 'organizations' matched another number of rows").

Definition org_missing {A} (org_id : uuid) : prog A :=
  Throw (AppExc NotFoundError ("Organization " +:+ uuid_str org_id +:+ " not found.")).

Definition assign_org (org_id : uuid) (same : Organization → bool) (f : Organization → Organization) : prog Organization :=
  org ← get_by_id org_id;
  match org with
  | None => org_missing org_id
  | Some o => _ ← flush_row org_id (same o) f; refresh org_id
  end.

Definition set_status (org_id : uuid) (status : string) : prog Organization :=
  assign_org org_id (λ o, (o_status o =? status)%string) (with_status status).
Definition set_org_code (org_id : uuid) (code : string) : prog Organization :=
  assign_org org_id (λ o, (o_org_code o =? code)%string) (with_code code).
Definition set_join_enabled (org_id : uuid) (enabled : bool) : prog Organization :=
  assign_org org_id (λ o, Bool.eqb (o_join_enabled o) enabled) (with_join_enabled enabled).

(** * services/invite_service.py *)

(** core/config.py *)
Class Frontend := { FRONTEND_URL : string }.

Definition INVITE_EXPIRY_HOURS : Z := 72.
Definition expiry : Z := INVITE_EXPIRY_HOURS * 3600 * us_per_s.
Definition _GENERIC_INVITE_404 : string := "This invitation link is invalid or has expired.".
Definition invite_404 {A} : prog A := Throw (AppExc NotFoundError _GENERIC_INVITE_404).

(** [secrets.token_urlsafe(32)]. *)
Definition token_urlsafe_32 : prog string :=
  z ← call (Draw (256 ^ 32)); Ret (rstrip_by is_pad (b64encode (bytes_of 32 z))).

Record InviteResponse := mkInviteResponse { iv_id : uuid; iv_email : string; iv_name : string }.
Record InviteInfoResponse := mkInviteInfoResponse { ii_org_name : string; ii_email : string; ii_name : string }.

Section invites.
Context `{Hashlib} `{Jwt} `{Settings} `{Bcrypt} `{Frontend}.

Definition _hash_invite_token (raw : string) : string := sha256_hexdigest raw.

(** The texts are rendered by Jinja; the link is what matters of them. *)
Definition send_invite_email (org_name invitee_email raw_token : string) : prog unit :=
  call (Emit (EmailSent invitee_email ("You've been invited to " +:+ org_name)
                (FRONTEND_URL +:+ "/invite?token=" +:+ raw_token))).

Definition _is_expired (created_at : Z) : prog bool := now ← call Now; Ret (created_at <? now - expiry).

Section service.
Context (has_email_service : bool).

Definition invite_user (admin_user_id org_id : uuid) (email name : string) : prog InviteResponse :=
  existing ← find_user_by_email email;
  match existing with
  | Some _ => Throw (AppExc ConflictError "An account with this email already exists.")
  | None =>
      org ← get_by_id org_id;
      match org with
      | None => org_missing org_id
      | Some o =>
          admin ← get_by_uuid org_id admin_user_id;
          match admin with
          | None => Throw (AppExc NotFoundError ("Admin user " +:+ uuid_str admin_user_id +:+ " not found."))
          | Some _ =>
              raw_token ← token_urlsafe_32;
              user ← create org_id email (Some name) (Some email) None "member" None
                       (Some (_hash_invite_token raw_token)) (Some MEMBER_DEFAULT_PERMISSIONS);
              _ ← if has_email_service then send_invite_email (o_name o) email raw_token
                  else Throw (AppExc ExternalServiceError "Email service is not configured — cannot send invite.");
              Ret (mkInviteResponse (u_id user) email name)
          end
      end
  end.

Definition revoke_invite (org_id user_id : uuid) : prog unit :=
  deleted ← hard_delete_pending_user org_id user_id;
  if deleted =? 0 then Throw (AppExc NotFoundError "No pending invite for this user.") else Ret tt.

Definition get_invite_info (token : string) : prog InviteInfoResponse :=
  user ← find_user_by_invite_token (_hash_invite_token token);
  match user with
  | None => invite_404
  | Some u =>
      expired ← _is_expired (u_created_at u);
      if expired : bool then
        _ ← hard_delete_pending_user (u_organization_id u) (u_id u);
        _ ← call Commit;
        invite_404
      else
        org ← get_by_id (u_organization_id u);
        match org with
        | None => invite_404
        | Some o => Ret (mkInviteInfoResponse (o_name o) (default ""%string (u_email u)) (default ""%string (u_name u)))
        end
  end.

Definition accept_invite (token password : string) : prog TokenResponse :=
  _ ← _validate_password password;
  let token_hash := _hash_invite_token token in
  pw_hash ← hash_password password;
  now ← call Now;
  claimed ← claim_invite token_hash pw_hash (now - expiry);
  match claimed with
  | None =>
      stale ← find_user_by_invite_token token_hash;
      _ ← match stale with
          | Some u =>
              expired ← _is_expired (u_created_at u);
              if expired : bool then
                _ ← hard_delete_pending_user (u_organization_id u) (u_id u); call Commit
              else Ret tt
          | None => Ret tt
          end;
      invite_404
  | Some c => issue_tokens (u_id c) (u_organization_id c) (default ""%string (u_role c))
  end.
End service.
End invites.

(** * One winner per invitation *)

Section winner.
Context `{Hashlib} `{Jwt} `{Settings} `{Bcrypt} `{Frontend}.
Variable token : string.

Definition bears (u : User) : bool := bool_decide (u_invite_token_hash u = Some (_hash_invite_token token)).
Definition bearers (s : state) : list User := List.filter bears (st_db s users).

Definition single (s : state) : Prop := (length (bearers s) ≤ 1)%nat.
Definition open (s : state) : Prop := bearers s ≠ [].
Definition fewer (s s' : state) : Prop := (length (bearers s') ≤ length (bearers s))%nat.

Lemma fewer_gone s s' : fewer s s' → gone single open s s'.
Proof.
  unfold fewer, gone, single, open. intros Hl Hs. split; [lia|]. intros Ho E. rewrite E in Hl. cbn in Hl.
  destruct (bearers s'); [done|cbn in Hl; lia].
Qed.

Lemma gone_sleep s d : 0 ≤ d → gone single open s (op_sem (Sleep d) s).2.
Proof. intros _. apply fewer_gone. unfold fewer, bearers. cbn. lia. Qed.

Lemma bears_claimed ph u : bears (claimed_by ph u) = false.
Proof. unfold bears. by rewrite bool_decide_false. Qed.

Lemma filter_claimed (p : User → bool) ph (l : list User) :
  (length (List.filter bears (map (λ u, if p u then claimed_by ph u else u) l)) ≤ length (List.filter bears l))%nat.
Proof.
  induction l as [|u l IH]; [done|]. cbn. destruct (p u).
  - rewrite bears_claimed. destruct (bears u); cbn; lia.
  - destruct (bears u); cbn; lia.
Qed.

Lemma filter_deleted (p : User → bool) (l : list User) :
  (length (List.filter bears (List.filter (λ u, negb (p u)) l)) ≤ length (List.filter bears l))%nat.
Proof.
  induction l as [|u l IH]; [done|]. cbn. destruct (p u); cbn; destruct (bears u); cbn; lia.
Qed.

(** The calls of the flows: none adds a bearer of the token. *)
Lemma fewer_claim p ph s : fewer s (op_sem (UpdateReturning users p (claimed_by ph)) s).2.
Proof. unfold fewer, bearers. cbn. apply filter_claimed. Qed.
Lemma fewer_delete p s : fewer s (op_sem (Delete users p) s).2.
Proof. unfold fewer, bearers. cbn. apply filter_deleted. Qed.

Lemma steps_kept {X} (o : op X) : (∀ s, st_db (op_sem o s).2 users = st_db s users) → steps_in fewer (call o).
Proof. intros Ho. apply steps_in_call. intros s. unfold fewer, bearers. by rewrite Ho. Qed.

Lemma scalar_steps {A} (l : list A) : steps_in fewer (scalar_one_or_none l).
Proof. by destruct l as [|x [|]]. Qed.

Ltac stepping :=
  repeat first
    [ done
    | apply scalar_steps
    | apply steps_in_bind; [|intros ?]
    | apply steps_in_try; [|intros ?]
    | apply steps_kept; intros ?; cbn; done
    | apply steps_in_call; intros ?; first [apply fewer_claim | apply fewer_delete]
    | case_goal ].

Lemma issue_tokens_steps uid org role : steps_in fewer (issue_tokens uid org role).
Proof.
  unfold issue_tokens, set_tenant_context, get_user_by_id, create_jwt_token, token_hex_32, create_refresh_token, uuid4, scalar_one_or_none.
  stepping. apply steps_kept. intros s. unfold op_sem. cbn [check_rows row_check].
  destruct (insert_rows _ _ _ _) as [[? ?]|]; done.
Qed.

Lemma info_steps t : steps_in fewer (get_invite_info t).
Proof.
  unfold get_invite_info, find_user_by_invite_token, _is_expired, hard_delete_pending_user, get_by_id,
    scalar_one_or_none, invite_404. stepping.
Qed.

Lemma revoke_steps o u : steps_in fewer (revoke_invite o u).
Proof. unfold revoke_invite, hard_delete_pending_user. stepping. Qed.

Lemma accept_steps t password : steps_in fewer (accept_invite t password).
Proof.
  unfold accept_invite. apply steps_in_bind; [unfold _validate_password, weak; stepping|]. intros _.
  apply steps_in_bind; [unfold hash_password; destruct password; stepping|]. intros ph.
  apply steps_in_bind; [stepping|]. intros now.
  apply steps_in_bind; [unfold claim_invite; stepping|]. intros [c|]; [apply issue_tokens_steps|].
  unfold find_user_by_invite_token, _is_expired, hard_delete_pending_user. stepping.
Qed.

Lemma gone_steps {A} (p : prog A) : steps_in fewer p → steps_in (gone single open) p.
Proof. apply steps_in_weaken, fewer_gone. Qed.

(** A claim that found the invitation found the only one. *)
Lemma claim_takes ph cutoff s u l :
  single s → map (claimed_by ph) (List.filter (claimable (_hash_invite_token token) cutoff) (st_db s users)) = u :: l →
  open s ∧ ¬ open (op_sem (UpdateReturning users (claimable (_hash_invite_token token) cutoff) (claimed_by ph)) s).2.
Proof.
  unfold single, open, bearers. intros Hs E. set (p := claimable _ _) in *. cbn.
  assert (Hp : ∀ x, p x = true → bears x = true).
  { intros x. unfold p, claimable. rewrite !andb_true_iff. by intros [[? ?] ?]. }
  revert Hs E. generalize (st_db s users). intros rows. induction rows as [|x rows IH]; [done|]. cbn.
  destruct (p x) eqn:Ex.
  - rewrite (Hp x Ex). cbn. intros Hl _. split; [done|]. rewrite bears_claimed.
    assert (List.filter bears rows = []) as Hn by (destruct (List.filter bears rows); [done|cbn in Hl; lia]).
    assert (Hle := filter_claimed p ph rows). rewrite Hn in Hle. cbn in Hle.
    intros Hne. by apply Hne, length_zero_iff_nil, Nat.le_0_r.
  - destruct (bears x); cbn; intros Hl E; [|by apply IH].
    exfalso. assert (List.filter bears rows = []) as Hn by (destruct (List.filter bears rows); [done|cbn in Hl; lia]).
    destruct (List.filter p rows) as [|y r] eqn:Ey; [done|].
    assert (y ∈ List.filter p rows) as [Hy Hpy]%filter_elem by (rewrite Ey; left).
    assert (y ∈ List.filter bears rows) as Hb by (apply filter_elem; auto). rewrite Hn in Hb. by apply elem_of_nil in Hb.
Qed.

Lemma accept_claimant password : claimant single open (accept_invite token password).
Proof.
  unfold accept_invite. apply claimant_lost.
  { apply gone_steps. unfold _validate_password, weak. stepping. }
  intros _. apply claimant_lost.
  { apply gone_steps. unfold hash_password. destruct password; stepping. }
  intros ph. apply claimant_lost; [apply gone_steps; stepping|]. intros now s Hs.
  set (h := _hash_invite_token token). split; [apply fewer_gone, fewer_claim|]. unfold op_sem. cbn [check_rows row_check fst].
  set (rows := map _ _). destruct rows as [|u l] eqn:E; cbn [head].
  - left. change (claimant single open
      (stale ← find_user_by_invite_token h;
       _ ← match stale with
           | Some u => expired ← _is_expired (u_created_at u);
                       if expired : bool then
                         _ ← hard_delete_pending_user (u_organization_id u) (u_id u); call Commit
                       else Ret tt
           | None => Ret tt
           end;
       (invite_404 : prog TokenResponse))).
    apply claimant_lost; [apply gone_steps; unfold find_user_by_invite_token, scalar_one_or_none; stepping|].
    intros stale. apply claimant_lost; [|done]. apply gone_steps. unfold _is_expired, hard_delete_pending_user. stepping.
  - right. destruct (claim_takes ph (now - expiry) s u l Hs E) as [Ho Hn]. split_and!; [exact Ho|exact Hn|].
    apply gone_steps, issue_tokens_steps.
Qed.

End winner.

(** * Requests *)

(** What clients do with invitations. *)
Inductive invite_call :=
| Accept (token password : string)
| Info (token : string)
| Revoke (org_id user_id : uuid).

Definition handle_invite `{Hashlib} `{Jwt} `{Settings} `{Bcrypt} (q : invite_call) : prog (option TokenResponse) :=
  match q with
  | Accept token password => t ← accept_invite token password; Ret (Some t)
  | Info token => _ ← get_invite_info token; Ret None
  | Revoke org_id user_id => _ ← revoke_invite org_id user_id; Ret None
  end.

(** C30. Of the requests that accept one invitation, however they are interleaved with each
    other, with lookups of it and other invitations, and with revocations, at most one is
    answered with a session. *)
Theorem invite_one_winner `{Hashlib} `{Jwt} `{Settings} `{Bcrypt} (token : string) (qs : list invite_call) s ps' s'
    i j pi pj ti tj :
  single token s →
  psteps (map handle_invite qs, s) (ps', s') →
  qs !! i = Some (Accept token pi) → qs !! j = Some (Accept token pj) →
  ps' !! i = Some (Ret ti) → ps' !! j = Some (Ret tj) → i = j.
Proof.
  intros Hs Hst Hi Hj. set (C k := ∃ p, qs !! k = Some (Accept token p)).
  assert (Hdec : ∀ k, Decision (C k)).
  { intros k. unfold C. destruct (qs !! k) as [[t p|t|o u]|]; try (right; by intros [? [=]]).
    destruct (decide (t = token)) as [->|Hn]; [left; by exists p|]. right. intros [? [= ? _]]. done. }
  refine (one_winner (single token) (open token) (gone_sleep token) C Hdec _ ps' s s' i j ti tj Hs _ Hst
            (ex_intro _ pi Hi) (ex_intro _ pj Hj)).
  intros k p Hk. rewrite list_lookup_fmap in Hk. destruct (qs !! k) as [q|] eqn:Eq; [|done].
  injection Hk as <-. unfold C. rewrite Eq. split.
  - intros [pw [= ->]]. apply claimant_bind; [apply accept_claimant|done].
  - intros _. destruct q as [t p|t|o u]; apply gone_steps, steps_in_bind; try done;
      [apply accept_steps|apply info_steps|apply revoke_steps].
Qed.

(** * The 72 hours *)

Section window.
Context `{Hashlib} `{Jwt} `{Settings} `{Bcrypt} (token password : string) (u : User) (s : state).
Context (Hids : NoDup (map u_id (st_db s users))) (Hone : bearers token s = [u]) (Hlive : live u = true).
Let h := _hash_invite_token token.
Let accepted := claimed_by (hashpw password (st_entropy s (st_drawn s) mod 2 ^ 128)) u.

Lemma bearer_in : u ∈ st_db s users ∧ u_invite_token_hash u = Some h.
Proof. pose proof (filter_single _ _ _ Hone) as [Hin Hb]. split; [done|]. by apply bool_decide_eq_true in Hb. Qed.

Lemma bearer_only x : x ∈ st_db s users → bears token x = true → x = u.
Proof.
  intros Hx Hb. assert (x ∈ bearers token s) as Hin by (apply filter_elem; done).
  rewrite Hone in Hin. by apply list_elem_of_singleton in Hin.
Qed.

Lemma same_id x : x ∈ st_db s users → u_id x = u_id u → x = u.
Proof. intros Hx E. by apply (NoDup_map_inj u_id (st_db s users)); [..|apply bearer_in|]. Qed.

Lemma claimable_only cutoff x :
  x ∈ st_db s users → claimable h cutoff x = (u_id x =? u_id u) && (cutoff <=? u_created_at u).
Proof.
  intros Hx. unfold claimable. destruct (Z.eqb_spec (u_id x) (u_id u)) as [E|E].
  - rewrite (same_id x Hx E), (proj2 bearer_in), bool_decide_true, Hlive by done. done.
  - case_bool_decide as Hb; [|done]. destruct E. f_equal. apply bearer_only; [done|]. by apply bool_decide_true.
Qed.

(** What the claim does. *)
Lemma claim_run ph cutoff (t : state) :
  st_db t users = st_db s users →
  run (claim_invite h ph cutoff) t =
    if cutoff <=? u_created_at u then
      (inr (Some (claimed_by ph u)),
       set_db (set_table users (map (λ x, if u_id x =? u_id u then claimed_by ph x else x) (st_db s users)) (st_db t)) t)
    else (inr None, t).
Proof.
  intros Ht. unfold claim_invite. rewrite run_bind, run_call. cbn [exec state_world op_sem check_rows row_check].
  rewrite Ht. cbn beta iota.
  assert (Hm : map (λ x, if claimable h cutoff x then claimed_by ph x else x) (st_db s users)
             = map (λ x, if (u_id x =? u_id u) && (cutoff <=? u_created_at u) then claimed_by ph x else x) (st_db s users)).
  { apply map_ext_in. intros x Hx%list_elem_of_In. by rewrite (claimable_only cutoff x Hx). }
  assert (Hf : List.filter (claimable h cutoff) (st_db s users) = if cutoff <=? u_created_at u then [u] else []).
  { destruct (cutoff <=? u_created_at u) eqn:E.
    - apply (filter_found u_id); [done|apply bearer_in| |].
      + rewrite claimable_only by apply bearer_in. by rewrite Z.eqb_refl, E.
      + intros y Hy. rewrite claimable_only by done. intros [Hy' _]%andb_true_iff. apply same_id; [done|lia].
    - apply filter_none. intros x Hx. rewrite claimable_only by done. rewrite E. apply andb_false_r. }
  cbn [row] in *. rewrite Hf, Hm. destruct (cutoff <=? u_created_at u) eqn:E; cbn.
  - f_equal. f_equal. f_equal. apply map_ext. intros x. by rewrite andb_true_r.
  - rewrite (map_ext _ (λ x, x)), map_id; [|intros x; by rewrite andb_false_r].
    rewrite <- Ht, (set_table_id users). by destruct t.
Qed.
Hypothesis (Hpw : _validate_password password = Ret tt).

(** The rows once the invitation is accepted, and once it is cleaned away. *)
Definition accepted_rows : list User := map (λ x, if u_id x =? u_id u then accepted else x) (st_db s users).
Definition cleaned_rows : list User := List.filter (λ x, negb (u_id x =? u_id u)) (st_db s users).

Lemma accepted_map ph :
  ph = hashpw password (st_entropy s (st_drawn s) mod 2 ^ 128) →
  map (λ x, if u_id x =? u_id u then claimed_by ph x else x) (st_db s users) = accepted_rows.
Proof.
  intros ->. apply map_ext_in. intros x Hx%list_elem_of_In. destruct (Z.eqb_spec (u_id x) (u_id u)) as [E|]; [|done].
  by rewrite (same_id x Hx E).
Qed.

Lemma accept_run :
  run (accept_invite token password) s =
    run (claimed ← claim_invite h (hashpw password (st_entropy s (st_drawn s) mod 2 ^ 128)) (st_clock s - expiry);
         match claimed with
         | None =>
             stale ← find_user_by_invite_token h;
             _ ← match stale with
                 | Some u => expired ← _is_expired (u_created_at u);
                             if expired : bool then
                               _ ← hard_delete_pending_user (u_organization_id u) (u_id u); call Commit
                             else Ret tt
                 | None => Ret tt
                 end;
             invite_404
         | Some c => issue_tokens (u_id c) (u_organization_id c) (default ""%string (u_role c))
         end) (op_sem (Draw (2 ^ 128)) s).2.
Proof.
  unfold accept_invite. rewrite Hpw, run_ret_bind, run_bind, hash_password_run by by apply validated_nonempty.
  cbn beta iota zeta. by rewrite run_now.
Qed.

Lemma accept_in_time :
  fresh_token 1 s → st_clock s - expiry ≤ u_created_at u →
  ∃ s', run (accept_invite token password) s =
      (inr (issued (op_sem (Draw (2 ^ 128)) s).2 (u_id u) (u_organization_id u) (default ""%string (u_role u))
              (u_must_change_password u)), s') ∧
    st_db s' users = accepted_rows ∧ tokens_of s' = tokens_of s ++ [successor_row (op_sem (Draw (2 ^ 128)) s).2 (u_id u) (u_organization_id u)].
Proof.
  intros Hf Ht. rewrite accept_run, run_bind, claim_run by done. rewrite (proj2 (Z.leb_le _ _) Ht).
  cbn beta iota. rewrite accepted_map by done. set (s1 := (op_sem (Draw (2 ^ 128)) s).2).
  set (s2 := set_db _ s1). fold accepted.
  destruct (issue_tokens_run accepted (u_organization_id u) (default ""%string (u_role u)) s2) as (s' & Hr & Htok & _ & _ & Hu).
  - cbn [s2 st_db set_db]. rewrite (set_table_eq users). unfold accepted_rows. rewrite map_map.
    erewrite map_ext; [exact Hids|]. intros x. cbn. by destruct (Z.eqb_spec (u_id x) (u_id u)).
  - cbn [s2 st_db set_db]. rewrite (set_table_eq users). apply list_elem_of_fmap. exists u.
    rewrite Z.eqb_refl. split; [done|apply bearer_in].
  - cbn. pose proof Hlive as [_ Hd]%andb_true_iff. by apply negb_true_iff in Hd.
  - by apply (fresh_no_conflict 1 s).
  - exists s'. split; [exact Hr|]. split; [by rewrite Hu|]. by rewrite Htok.
Qed.

Lemma accept_late :
  u_created_at u < st_clock s - expiry →
  run (accept_invite token password) s =
    (inl (AppExc NotFoundError _GENERIC_INVITE_404),
     let d := set_table users cleaned_rows (st_db s) in
     (op_sem Commit (set_db d (op_sem (Draw (2 ^ 128)) s).2)).2).
Proof.
  intros Ht. rewrite accept_run, run_bind, claim_run by done.
  assert (E : (st_clock s - expiry <=? u_created_at u) = false) by lia. rewrite E. cbn beta iota.
  unfold find_user_by_invite_token. rewrite run_bind.
  assert (Hf : List.filter (λ x, bool_decide (u_invite_token_hash x = Some h) && live x) (st_db s users) = [u]).
  { apply (filter_found u_id); [done|apply bearer_in| |].
    - by rewrite (proj2 bearer_in), bool_decide_true, Hlive.
    - intros y Hy [Hb _]%andb_true_iff. by apply bearer_only. }
  set (s1 := (op_sem (Draw (2 ^ 128)) s).2).
  assert (Hs : run (l ← call (Select users (λ x, bool_decide (u_invite_token_hash x = Some h) && live x));
                    scalar_one_or_none l) s1 = (inr (Some u), s1)).
  { rewrite run_select. change (st_db s1) with (st_db s). cbn [Data.row] in *. by rewrite Hf. }
  rewrite Hs. cbn beta iota. rewrite run_bind. unfold _is_expired. rewrite run_bind, run_now. cbn [run].
  change (st_clock s1) with (st_clock s). rewrite (proj2 (Z.ltb_lt _ _) Ht).
  unfold hard_delete_pending_user. rewrite run_bind, run_call. cbn [exec state_world op_sem]. cbn beta iota.
  rewrite run_call. cbn [exec state_world op_sem]. cbn beta iota. unfold invite_404. cbn [run].
  assert (Hd : List.filter (λ x, negb (is_pending_invite (u_organization_id u) (u_id u) x)) (st_db s users) = cleaned_rows).
  { unfold cleaned_rows. apply filter_ext_in. intros x Hx%list_elem_of_In. f_equal. unfold is_pending_invite, is_user.
    destruct (Z.eqb_spec (u_id x) (u_id u)) as [E'|E']; [|done]. rewrite (same_id x Hx E').
    unfold in_org. rewrite Z.eqb_refl, (proj2 bearer_in), bool_decide_false by done.
    pose proof Hlive as [_ Hl]%andb_true_iff. by rewrite Hl. }
  change (st_db s1) with (st_db s). cbn [Data.row] in *. by rewrite Hd.
Qed.

Lemma no_bearer (t : state) : st_db t users = accepted_rows ∨ st_db t users = cleaned_rows → bearers token t = [].
Proof.
  intros Ht. apply filter_none. intros x Hx. apply Bool.not_true_iff_false. intros Hb.
  destruct Ht as [Ht|Ht]; rewrite Ht in Hx.
  - apply list_elem_of_fmap in Hx as (y & -> & Hy). destruct (Z.eqb_spec (u_id y) (u_id u)) as [E|E].
    + unfold accepted in Hb. by rewrite bears_claimed in Hb.
    + destruct E. f_equal. by apply bearer_only.
  - apply filter_elem in Hx as [Hx E]. apply negb_true_iff, Z.eqb_neq in E. destruct E. f_equal. by apply bearer_only.
Qed.
End window.

(** An invitation can be accepted for 72 hours: until then its account gets the
    password, a verified address and a session; afterwards the request answers 404, as
    for a link that never was, and the account is removed for good. Either way nobody
    bears the link any more. *)
Theorem invite_window `{Hashlib} `{Jwt} `{Settings} `{Bcrypt} (token password : string) (u : User) (s : state) :
  NoDup (map u_id (st_db s users)) → bearers token s = [u] → live u = true →
  _validate_password password = Ret tt → fresh_token 1 s →
  let r := run (request (accept_invite token password)) s in
  let accepted := claimed_by (hashpw password (st_entropy s (st_drawn s) mod 2 ^ 128)) u in
  st_db r.2 = st_committed r.2 ∧ bearers token r.2 = [] ∧
  (st_clock s - expiry ≤ u_created_at u →
     r.1 = inr (issued (op_sem (Draw (2 ^ 128)) s).2 (u_id u) (u_organization_id u) (default ""%string (u_role u))
                  (u_must_change_password u)) ∧
     st_db r.2 users = map (λ x, if u_id x =? u_id u then accepted else x) (st_db s users)) ∧
  (u_created_at u < st_clock s - expiry →
     r.1 = inl (AppExc NotFoundError _GENERIC_INVITE_404) ∧
     st_db r.2 users = List.filter (λ x, negb (u_id x =? u_id u)) (st_db s users)).
Proof.
  intros Hids Hone Hlive Hpw Hf. cbn zeta. rewrite run_request.
  destruct (decide (st_clock s - expiry ≤ u_created_at u)) as [Ht|Ht].
  - destruct (accept_in_time token password u s Hids Hone Hlive Hpw Hf Ht) as (s' & -> & Hu & _). cbn.
    split_and!; [done| |done|lia]. apply (no_bearer token password u s); auto.
  - rewrite (accept_late token password u s) by (done || lia). cbn.
    split_and!; [done| |lia|done].
    change (bearers token (set_db (set_table users (cleaned_rows u s) (st_db s)) s) = []).
    apply (no_bearer token password u s); auto.
Qed.

(** * Runs *)

Definition invitee : User :=
  mkUser 8 1 "b@x.io" (Some "B"%string) (Some "b@x.io"%string) (Some "member"%string) (Some MEMBER_DEFAULT_PERMISSIONS)
    None true false false false false (Some "#tok"%string) 0 [].
Definition inviter : User :=
  mkUser 7 1 "a@x.io" (Some "A"%string) (Some "a@x.io"%string) (Some "admin"%string) (Some [])
    (Some "$Secret123"%string) true false false true false None 0 [].
Definition acme : Organization := mkOrganization 1 "Acme" "free" "approved" true "K7M2Q9X4" true.
Definition org_state (org : Organization) (l : list User) (clock : Z) : state :=
  let d := set_table organizations [org] (set_table users l (st_db empty_state)) in
  mkState clock ∅ d d None (λ n, Z.of_nat n + 100) 0 [] ∅.
Definition invited (clock : Z) : state := org_state acme [inviter; invitee] clock.

#[local] Existing Instances hash_mark plain_jwt default_settings clear_bcrypt.
#[local] Instance local_frontend : Frontend := {| FRONTEND_URL := "http://localhost" |}.

Definition race : list invite_call := [Accept "tok" "Secret123"; Info "tok"; Accept "tok" "Other1234"].
Definition race_end : list (prog (option TokenResponse)) * state :=
  take_turns (concat (repeat [0; 1; 2]%nat 12)) (map handle_invite race) (invited 0).

(** The second request comes too late. *)
Example race_result :
  (∃ t, race_end.1 !! 0%nat = Some (Ret (Some t))) ∧
  race_end.1 !! 2%nat = Some (Throw (AppExc NotFoundError _GENERIC_INVITE_404)).
Proof. split; [eexists|]; vm_compute; reflexivity. Qed.

(** An invitation as it is sent, taken up before and after the 72 hours, and withdrawn. *)
Definition invite_then (d : Z) {A} (p : string → prog A) : prog A :=
  _ ← request (invite_user true 7 1 "b@x.io" "B");
  _ ← call (Sleep d);
  request (p (rstrip_by is_pad (b64encode (bytes_of 32 100)))).
Example invite_accepted :
  ∃ t s', run (invite_then 0 (λ token, accept_invite token "Secret123")) (org_state acme [inviter] 0) = (inr t, s') ∧
    map (λ u, (u_password_hash u, u_is_email_verified u, u_role u)) (List.filter (λ u, u_id u =? 101) (st_db s' users))
      = [(Some "$Secret123", true, Some "member")]%string.
Proof. eexists _, _. split; [vm_compute; reflexivity|]. by vm_compute. Qed.
Example invite_expired :
  let r := run (invite_then (expiry + 1) (λ token, accept_invite token "Secret123")) (org_state acme [inviter] 0) in
  r.1 = inl (AppExc NotFoundError _GENERIC_INVITE_404) ∧ st_committed r.2 users = [inviter].
Proof. by vm_compute. Qed.
Example invite_revoked :
  (run (invite_then 0 (λ token, _ ← revoke_invite 1 101; accept_invite token "Secret123")) (org_state acme [inviter] 0)).1
    = inl (AppExc NotFoundError _GENERIC_INVITE_404).
Proof. by vm_compute. Qed.

(** A member of the organization whose account was deleted: the address is free for
    another account, the external id is not. *)
Example deleted_member_reinvited :
  (run (invite_user true 7 1 "b@x.io" "B") (org_state acme [inviter; with_deleted invitee] 0)).1 = inl IntegrityError.
Proof. by vm_compute. Qed.

(** The invitation is good for a session whatever became of the organization. *)
Example rejected_org_invite :
  is_ok (run (accept_invite "tok" "Secret123") (org_state (with_status "rejected" acme) [inviter; invitee] 0)).1 = true.
Proof. by vm_compute. Qed.

Lemma invite_one_winner_witness :
  ∃ t, race_end.1 !! 0%nat = Some (Ret (Some t)) ∧
    ∀ j pj tj, race !! j = Some (Accept "tok" pj) → race_end.1 !! j = Some (Ret tj) → 0%nat = j.
Proof.
  eexists. split; [vm_compute; reflexivity|]. intros j pj tj Hj Hr.
  refine (invite_one_winner "tok" race (invited 0) race_end.1 race_end.2 0 j "Secret123" pj _ tj _ _ eq_refl Hj _ Hr);
    [vm_compute; lia| |vm_compute; reflexivity].
  rewrite <- (surjective_pairing race_end). apply take_turns_psteps.
Defined.

Lemma invite_window_witness :
  let r := run (request (accept_invite "tok" "Secret123")) (invited 0) in
  r.1 = inr (issued (op_sem (Draw (2 ^ 128)) (invited 0)).2 8 1 "member" false) ∧
  map u_password_hash (st_db r.2 users) = [Some "$Secret123"; Some "$Secret123"]%string.
Proof.
  cbn zeta. destruct (invite_window "tok" "Secret123" invitee (invited 0)) as (_ & _ & Hin & _);
    [by apply (bool_decide_unpack _); vm_compute|by vm_compute|done|by vm_compute|intros r Hr; by apply elem_of_nil in Hr|].
  destruct Hin as [H1 H2]; [by apply Z.leb_le; vm_compute|]. split; [exact H1|]. rewrite H2. by vm_compute.
Defined.
