(* ===== verification/Organizations.v ===== *)
(** How organizations come to be and whom they let in: core/org_codes.py,
    core/system_config.py, services/auth/registration.py, services/auth/org_join.py,
    services/org_request_service.py and services/organization_service.py. *)
From S2P Require Import Prelude Errors Data Effects Concurrent Cursor OpenBao Rbac Tokens Otp Session Users Invites Prompts.
Open Scope Z_scope.

(** * core/org_codes.py *)

Definition ORG_CODE_ALPHABET : string := "ABCDEFGHJKMNPQRSTUVWXYZ23456789".
Definition ORG_CODE_LENGTH : nat := 8.

(** [secrets.choice] of a character. *)
Definition choice (s : string) : prog ascii :=
  i ← call (Draw (str_len s)); Ret (default Ascii.zero (String.get (Z.to_nat i) s)).

Fixpoint choices (n : nat) (s : string) : prog string :=
  match n with O => Ret EmptyString | S k => c ← choice s; r ← choices k s; Ret (c ::: r) end.

Definition generate_org_code : prog string := choices ORG_CODE_LENGTH ORG_CODE_ALPHABET.

Definition normalize_org_code (code : string) : string := str_upper (str_strip code).

(** * core/system_config.py *)

Inductive OrgCreationPolicy := allow_all | reject_all | approvals.
Inductive ApprovalScope := in_app | public_signup | both.

(** [SystemConfigResponse]; the defaults of the other settings are carried along. *)
Record SystemConfig := mkSystemConfig {
  org_creation_policy : OrgCreationPolicy;
  approval_scope : ApprovalScope;
  sc_settings : list (string * json);
}.

(** Pydantic: the model built from keyword arguments, and its JSON. *)
Class SystemConfigSchema := {
  sc_validate : list (string * json) → exn + SystemConfig;
  model_validate_json : string → exn + SystemConfig;
  model_dump_json : SystemConfig → string;
}.

Definition SYSTEM_CONFIG_CACHE_TTL : Z := 300.
Definition CACHE_KEY : string := "system_config".
Definition SYSTEM_CONFIG_WHITELIST : list string :=
  ["org_creation_policy"; "approval_scope"; "llm_backend"; "llm_model"; "llm_temperature"; "llm_max_tokens";
   "graph_backend"; "graph_search_type"; "graph_max_traversal_depth"; "reranker_backend"; "reranker_model";
   "reranker_top_k"; "reranker_top_n"; "context_cache_ttl"]%string.

(** [{key: raw[key] for key in SYSTEM_CONFIG_WHITELIST if key in raw}]. *)
Definition whitelisted (raw : json) : exn + list (string * json) :=
  let indexed := λ found, if found : bool then inl (TypeError "indices must be integers or slices, not str") else inr [] in
  match raw with
  | JObj l => inr (omap (λ k, option_map (pair k) (obj_get k l)) SYSTEM_CONFIG_WHITELIST)
  | JList l => indexed (existsb (λ k, existsb (json_eqb (JStr k)) l) SYSTEM_CONFIG_WHITELIST)
  | JStr s => indexed (existsb (λ k, str_contains k s) SYSTEM_CONFIG_WHITELIST)
  | _ => inl (TypeError "argument of this type is not iterable")
  end.

Section system_config.
Context `{HttpServer} `{SystemConfigSchema}.
Context (has_redis : bool).

(** [bao_client] is the OpenBao client with its login. *)
Definition get_system_config (bao_client : option (OpenBaoClient * auth)) (skip_cache : bool) : prog SystemConfig :=
  match bao_client with
  | None => Throw (OpenBaoExc OpenBaoConnectionError "OpenBao client required for system config reads")
  | Some (bao, c) =>
      hit ← if skip_cache || negb has_redis then Ret None
            else try_except
                   (cached ← redis (ks_get CACHE_KEY);
                    match cached with
                    | None | Some EmptyString => Ret None
                    | Some raw => cfg ← lift (model_validate_json raw); Ret (Some cfg)
                    end) is_exception (λ _, Ret None);
      match hit with
      | Some cfg => Ret cfg
      | None =>
          raw ← with_auth c (read_system_config bao);
          fields ← lift (whitelisted raw);
          config ← lift (sc_validate fields);
          _ ← if skip_cache || negb has_redis then Ret tt
              else try_except (redis (ks_setex CACHE_KEY SYSTEM_CONFIG_CACHE_TTL (model_dump_json config)))
                     is_exception (λ _, Ret tt);
          Ret config
      end
  end.

(** The fields an update sets, over what is stored. *)
Definition merge_system (existing : list (string * json)) (kv : string * json) : list (string * json) :=
  match kv.2 with JNull => obj_del kv.1 existing | v => obj_set kv.1 v existing end.

Definition update_system_config (update_dict : list (string * json)) (bao : OpenBaoClient) (c : auth) : prog SystemConfig :=
  match List.filter (λ k, negb (bool_decide (k ∈ SYSTEM_CONFIG_WHITELIST))) (map fst update_dict) with
  | _ :: _ as unknown =>
      Throw (AppExc ValidationError ("These keys are not editable system config: "
                                     +:+ String.concat ", " (merge_sort str_le unknown) +:+ "."))
  | [] =>
      raw ← with_auth c (read_system_config bao);
      existing ← lift match raw with JObj l => inr l | _ => inl (TypeError "the secret is not an object") end;
      _ ← with_auth c (write_system_config bao (fold_left merge_system update_dict existing));
      _ ← if has_redis then try_except (_ ← redis (ks_delete [CACHE_KEY]); Ret tt) is_exception (λ _, Ret tt) else Ret tt;
      get_system_config (Some (bao, c)) true
  end.
End system_config.

(** * repositories/auth_repository.py: organizations and their first accounts *)

Definition create_organization (name plan status : string) : prog Organization :=
  id ← uuid4;
  code ← generate_org_code;
  _ ← set_tenant_context id;
  _ ← call (Insert organizations (no_arbiter organizations) [mkOrganization id name plan status true code true]);
  Invites.refresh id.

Definition create_dashboard_user (organization_id : uuid) (email : string) (password_hash name : option string)
    (role : string) (permissions : list string) : prog User :=
  create organization_id email name (Some email) None role password_hash None (Some permissions).

Definition RESERVED_NAME : string := "SYSTEM".
Definition _validate_org_name (name : string) : prog unit :=
  if (str_upper (str_strip name) =? RESERVED_NAME)%string then
    Throw (AppExc ValidationError ("Organization name '" +:+ name +:+ "' is reserved and cannot be used."))
  else Ret tt.

(** [email.split("@")[0]]. *)
Definition local_part (email : string) : string := (partition "@" email).1.1.

(** * services/auth/registration.py *)

Inductive SignupOutcome :=
| SignupResponse (message email : string)
| PendingOrgResponse (message : string).

Definition _signup_success_response (email : string) : SignupOutcome :=
  SignupResponse "Verification code sent to email. Use POST /v1/auth/verify-email to complete signup." email.

Definition disabled {A} : prog A := Throw (AppExc AuthorizationError "Registration is disabled").

(** A concurrent duplicate of the address won: the transaction is undone. *)
Definition on_duplicate {A} (p : prog A) (then_ : prog A) : prog A :=
  try_except p is_integrity (λ _, _ ← call Rollback; then_).

Section flows.
Context `{Hashlib} `{Jwt} `{Settings} `{Bcrypt} `{Frontend} `{HttpServer} `{SystemConfigSchema} `{PromptFiles} `{Repr}.
Context (templates : list entry) (bao_client : option (OpenBaoClient * auth)) (has_redis has_email_service : bool).

Definition create_pending_org_and_admin (organization_name admin_email admin_name : string) : prog SignupOutcome :=
  _ ← _validate_org_name organization_name;
  org ← create_organization organization_name "free" "pending";
  _ ← set_tenant_context (o_id org);
  _ ← create_dashboard_user (o_id org) admin_email None (Some admin_name) "admin" [];
  Ret (PendingOrgResponse "Your organization is pending approval. You will receive an email when it is approved.").

Definition create_live_admin_user (organization_id : uuid) (email : string) (name : option string) : prog unit :=
  _ ← set_tenant_context organization_id;
  _ ← create_dashboard_user organization_id email None name "admin" [];
  Ret tt.

(** The live path. *)
Definition create_live_account (email password organization_name : string) : prog unit :=
  org ← create_organization organization_name "free" "approved";
  _ ← set_tenant_context (o_id org);
  _ ← seed_default_prompts templates (o_id org);
  pw_hash ← hash_password password;
  _ ← create_dashboard_user (o_id org) email (Some pw_hash) (Some (local_part email)) "admin" [];
  generate_and_send email Otp.signup.

Definition signup_live (email password organization_name : string) : prog SignupOutcome :=
  _ ← _validate_password password;
  existing ← find_user_by_email email;
  match existing with
  | Some _ => Ret (_signup_success_response email)
  | None =>
      _ ← on_duplicate (create_live_account email password organization_name) (Ret tt);
      Ret (_signup_success_response email)
  end.

Definition signup_under (config : SystemConfig) (email password organization_name : string) : prog SignupOutcome :=
  match org_creation_policy config with
  | reject_all => disabled
  | policy =>
      _ ← _validate_org_name organization_name;
      match policy with
      | approvals =>
          match approval_scope config with
          | in_app => disabled
          | public_signup | both =>
              on_duplicate (create_pending_org_and_admin organization_name email (local_part email))
                (Ret (_signup_success_response email))
          end
      | _ => signup_live email password organization_name
      end
  end.

Definition signup (email password organization_name : string) : prog SignupOutcome :=
  config ← get_system_config has_redis bao_client false;
  signup_under config email password organization_name.

(** * services/auth/org_join.py *)

Definition join_org (email password org_code : string) : prog SignupOutcome :=
  org ← get_by_code (normalize_org_code org_code);
  match org with
  | None => Throw (AppExc ValidationError "Invalid organization code")
  | Some o =>
      if negb (o_join_enabled o) then
        Throw (AppExc AuthorizationError "This organization is not accepting new members")
      else
        _ ← set_tenant_context (o_id o);
        existing ← find_user_by_email email;
        match existing with
        | Some _ => Ret (_signup_success_response email)
        | None =>
            pw_hash ← hash_password password;
            _ ← on_duplicate
                  (_ ← create_dashboard_user (o_id o) email (Some pw_hash) (Some (local_part email)) "member"
                         MEMBER_DEFAULT_PERMISSIONS;
                   generate_and_send email Otp.signup)
                  (Ret tt);
            Ret (_signup_success_response email)
        end
  end.

Definition join_organization (email password org_code : string) : prog SignupOutcome :=
  config ← get_system_config has_redis bao_client false;
  match org_creation_policy config with
  | reject_all => disabled
  | _ => join_org email password org_code
  end.

Definition bad_verification_code {A} : prog A :=
  Throw (AppExc AuthenticationError "Invalid or expired verification code. Please request a new code.").

(** The namespace of the organization, if it is not there yet. *)
Definition bootstrap_namespace (org_id : uuid) : prog unit :=
  match bao_client with
  | None => Ret tt
  | Some (bao, c) => try_except (with_auth c (create_org_namespace bao org_id)) is_exception (λ _, Ret tt)
  end.

Definition verify_email (email otp : string) : prog TokenResponse :=
  user ← find_user_by_email email;
  match user with
  | None => bad_verification_code
  | Some u =>
      if negb (u_is_active u) || u_is_deleted u then bad_verification_code
      else
        _ ← set_tenant_context (u_organization_id u);
        verified ← verify email Otp.signup otp;
        if negb (verified : bool) then bad_verification_code
        else
          _ ← if u_is_email_verified u then Ret tt else (_ ← mark_email_verified (u_id u); Ret tt);
          _ ← bootstrap_namespace (u_organization_id u);
          issue_tokens (u_id u) (u_organization_id u) (default "member"%string (u_role u))
  end.

Definition resend_verification (email : string) : prog SignupOutcome :=
  let generic := SignupResponse "If an account exists with this email, a verification code has been sent." email in
  user ← find_user_by_email email;
  match user with
  | None => Ret generic
  | Some u => _ ← if u_is_email_verified u then Ret tt else generate_and_send email Otp.signup; Ret generic
  end.

(** * services/organization_service.py *)

(** config/defaults/org_config.yaml *)
Definition _load_org_defaults : list (string * json) :=
  [("llm_backend", JStr "openai"); ("openai_api_key", JStr ""); ("llm_model", JStr "gpt-4o-mini");
   ("llm_temperature", JFloat "0.0"); ("llm_max_tokens", JInt 4096); ("graph_backend", JStr "falkordb");
   ("graph_search_type", JStr "hybrid"); ("graph_max_traversal_depth", JInt 2); ("context_cache_ttl", JInt 300);
   ("audit_log_response_body", JBool false); ("reranker_backend", JNull); ("reranker_model", JStr "");
   ("reranker_top_k", JInt 50); ("reranker_top_n", JInt 10); ("cohere_api_key", JStr "")]%string.

(** The namespace and the defaults. *)
Definition bootstrap (org_id : uuid) : prog unit :=
  match bao_client with
  | None => Ret tt
  | Some (bao, c) =>
      with_auth c (_ ← create_org_namespace bao org_id; write_org_config bao org_id _load_org_defaults)
  end.

Definition create_live_organization (name plan : string) : prog Organization :=
  _ ← _validate_org_name name;
  org ← create_organization name plan "approved";
  _ ← seed_default_prompts templates (o_id org);
  _ ← call Commit;
  _ ← try_except (bootstrap (o_id org)) is_exception (λ _, Ret tt);
  Ret org.

Definition not_pending {A} (org_id : uuid) (o : Organization) : prog A :=
  Throw (AppExc ConflictError ("Organization " +:+ uuid_str org_id +:+ " is not pending (status=" +:+ py_repr (o_status o) +:+ ").")).

(** The organization as long as it is pending. *)
Definition pending_org (org_id : uuid) : prog Organization :=
  org ← get_by_id org_id;
  match org with
  | None => org_missing org_id
  | Some o => if (o_status o =? "pending")%string then Ret o else not_pending org_id o
  end.

Definition conflict {A} (msg : string) : prog A := Throw (AppExc ConflictError msg).

(** The row is read again after the claim, but the session keeps the object it loaded
    first, whose status is the one of then; the status set on it is written once more
    before the next statement. *)
Definition complete_approval (org_id : uuid) (o : Organization) (claimed : bool) : prog Organization :=
  again ← get_by_id org_id;
  match again with
  | None => org_missing org_id
  | Some _ =>
      if negb claimed then not_pending org_id o
      else
        _ ← Invites.flush_row org_id false (with_status "approved");
        pending_admin ← find_pending_admin_by_org org_id;
        match pending_admin with
        | None => conflict ("Organization " +:+ uuid_str org_id +:+ " has no pending admin user to approve.")
        | Some a =>
            match u_email a with
            | None => conflict ("Organization " +:+ uuid_str org_id +:+ "'s pending admin has no email.")
            | Some admin_email =>
                _ ← bootstrap org_id;
                raw_token ← token_urlsafe_32;
                _ ← set_invite_token org_id (u_id a) (_hash_invite_token raw_token);
                _ ← if has_email_service then send_invite_email (o_name o) admin_email raw_token
                    else conflict "Email service is not configured — cannot send the approval invite.";
                Ret (with_status "approved" o)
            end
        end
  end.

Definition approve_org (org_id : uuid) : prog Organization :=
  o ← pending_org org_id;
  claimed ← approve_if_pending org_id;
  complete_approval org_id o claimed.

Definition reject_org (org_id : uuid) : prog Organization :=
  o ← pending_org org_id;
  _ ← Invites.flush_row org_id false (with_status "rejected");
  Invites.refresh org_id.

Record OrgCodeInfo := mkOrgCodeInfo { oc_org_code : string; oc_join_enabled : bool }.
Definition code_info (o : Organization) : OrgCodeInfo := mkOrgCodeInfo (o_org_code o) (o_join_enabled o).

Definition get_org_code (org_id : uuid) : prog OrgCodeInfo :=
  org ← get_by_id org_id;
  match org with None => org_missing org_id | Some o => Ret (code_info o) end.
Definition toggle_join (org_id : uuid) (enabled : bool) : prog OrgCodeInfo :=
  o ← set_join_enabled org_id enabled; Ret (code_info o).
Definition regenerate_org_code (org_id : uuid) : prog OrgCodeInfo :=
  new_code ← generate_org_code; o ← set_org_code org_id new_code; Ret (code_info o).

(** * services/org_request_service.py *)

Record OrgRequestResponse := mkOrgRequestResponse {
  or_organization_name : string;
  or_admin_email : string;
  or_status : string;
}.

Definition taken {A} (admin_email : string) : prog A :=
  conflict ("An account with email '" +:+ admin_email
            +:+ "' already exists. Each organization requires a unique admin email.").

Definition _create_instantly (organization_name admin_email : string) (admin_name : option string) : prog OrgRequestResponse :=
  existing ← find_user_by_email admin_email;
  match existing with
  | Some _ => taken admin_email
  | None =>
      name ← on_duplicate
        (org ← create_live_organization organization_name "free";
         _ ← create_live_admin_user (o_id org) admin_email admin_name;
         _ ← generate_and_send admin_email Otp.signup;
         Ret (o_name org))
        (taken admin_email);
      Ret (mkOrgRequestResponse name admin_email "approved")
  end.

Definition _create_pending (organization_name admin_email : string) (admin_name : option string) : prog OrgRequestResponse :=
  existing ← find_user_by_email admin_email;
  match existing with
  | Some _ => taken admin_email
  | None =>
      let name := match admin_name with Some EmptyString | None => local_part admin_email | Some n => n end in
      _ ← on_duplicate (create_pending_org_and_admin organization_name admin_email name) (taken admin_email);
      Ret (mkOrgRequestResponse organization_name admin_email "pending")
  end.

Definition request_under (config : SystemConfig) (organization_name admin_email : string) (admin_name : option string) :
    prog OrgRequestResponse :=
  match org_creation_policy config with
  | reject_all => disabled
  | allow_all => _create_instantly organization_name admin_email admin_name
  | approvals =>
      match approval_scope config with
      | public_signup => Throw (AppExc AuthorizationError "New organization requests are not accepted at this time")
      | in_app | both => _create_pending organization_name admin_email admin_name
      end
  end.

Definition request_org_creation (organization_name admin_email : string) (admin_name : option string) :
    prog OrgRequestResponse :=
  config ← get_system_config has_redis bao_client false;
  request_under config organization_name admin_email admin_name.
End flows.

(** * What the flows write *)

Lemma find_user_by_email_reads email : reads_only (find_user_by_email email).
Proof. unfold find_user_by_email. reading. Qed.
Lemma get_by_code_reads code : reads_only (get_by_code code).
Proof. unfold get_by_code. reading. Qed.
Lemma set_tenant_context_reads o : reads_only (set_tenant_context o).
Proof. by apply reads_call. Qed.
Lemma choices_reads n s : reads_only (choices n s).
Proof. induction n as [|n IH]; cbn [choices]; unfold choice; reading. Qed.
Lemma validate_password_reads p : reads_only (_validate_password p).
Proof. unfold _validate_password, weak. reading. Qed.
Lemma validate_org_name_reads name : reads_only (_validate_org_name name).
Proof. unfold _validate_org_name. reading. Qed.

#[export] Hint Resolve find_user_by_email_reads get_by_code_reads set_tenant_context_reads choices_reads
  validate_password_reads validate_org_name_reads : zync.

Lemma generate_and_send_reads `{Hashlib} email purpose : reads_only (generate_and_send email purpose).
Proof.
  unfold generate_and_send. apply reads_bind.
  - unfold _check_rate_limits, check_cooldowns. apply reads_bind; [|intros _; reading]. cbn [for_each]. reading.
  - intros _. unfold _generate_otp, _send_otp_email. reading. unfold store_otp.
    repeat first [apply ks_bind_orderly; [auto with zync nocore|intros ?]|done].
Qed.

Lemma acts_validate_org_name name :
  acts (_validate_org_name name) (λ d _ d', str_upper (str_strip name) ≠ RESERVED_NAME ∧ d' = d).
Proof.
  unfold _validate_org_name. destruct (String.eqb_spec (str_upper (str_strip name)) RESERVED_NAME); [by apply acts_throw|by apply acts_ret].
Qed.

(** The new organization, and the new account. *)
Lemma acts_create_organization name plan status :
  acts (create_organization name plan status)
    (λ d o d', d' = set_table organizations (d organizations ++ [o]) d ∧
       ∃ id code, o = mkOrganization id name plan status true code true).
Proof.
  unfold create_organization. eapply acts_weaken.
  - apply acts_seq; [apply acts_uuid4|intros id]. apply acts_seq; [apply reads_acts, choices_reads|intros code].
    apply acts_seq; [apply reads_acts, set_tenant_context_reads|intros n]. apply acts_seq; [apply acts_insert|intros ins].
    apply acts_seq; [by apply acts_call|]. instantiate (1 := λ l d o d', d' = d ∧ ∃ l', l = o :: l').
    intros [|o l]; [by apply acts_throw|]. apply acts_ret. eauto.
  - intros d o d' (id & d1 & -> & code & d2 & -> & n & d3 & -> & ins & d4 & [-> Hc] & l & d5 & [-> ->] & -> & l' & Hl).
    rewrite (set_table_eq organizations) in Hl.
    assert (o = mkOrganization id name plan status true code true) as E; [|split; [by rewrite E|by eauto]].
    rewrite filter_inserted in Hl; [by injection Hl|intros x Hx|by unfold org_row; cbn; rewrite Z.eqb_refl].
    specialize (Hc x Hx). cbn in Hc. unfold org_row. rewrite Z.eqb_sym. by apply orb_false_iff in Hc as [Hc _].
Qed.

Lemma acts_create_dashboard_user org email ph name role perms :
  acts (create_dashboard_user org email ph name role perms)
    (λ d u d', d' = set_table users (rows d ++ [u]) d ∧ ∃ id now,
       u = mkUser id org email name (Some email) (Some role) (Some perms) ph true false false false false None now []).
Proof. apply acts_create. Qed.

Lemma hash_password_acts `{Bcrypt} p : acts (hash_password p) (λ d h d', d' = d ∧ ∃ salt, h = hashpw p salt).
Proof.
  unfold hash_password. destruct p as [|c p]; [by apply acts_throw|]. eapply acts_weaken.
  - apply acts_seq; [by apply acts_call|intros salt].
    by apply (acts_ret _ (λ d h d', d' = d ∧ h = hashpw (c ::: p) salt)).
  - intros d h d' (salt & d1 & -> & -> & ->). eauto.
Qed.

Lemma seed_touches `{PromptFiles} `{Repr} templates org :
  touches (λ t, bool_decide (t = prompt_templates)) (seed_default_prompts templates org).
Proof.
  apply touches_for_fold. intros n e. unfold seed_one. destruct (negb _); [by apply touches_reads, reads_ret|].
  apply touches_bind; [apply touches_reads; unfold find_named; reading|]. intros t.
  apply touches_bind.
  { apply touches_reads, reads_lift. unfold get_template_text. intros x. destruct (read_text _); [done|]. by intros [= <-]. }
  intros text. destruct t as [t|].
  - destruct (_ && _); [|by apply touches_reads, reads_ret].
    apply touches_bind; [by apply touches_reads, reads_call|intros now].
    apply touches_bind; [|intros _; by apply touches_reads, reads_ret]. unfold Prompts.flush_row.
    apply touches_bind; [by apply touches_call|intros k]. apply touches_reads. reading.
  - apply touches_bind; [|intros _; by apply touches_reads, reads_ret]. unfold add_template.
    apply touches_bind; [by apply touches_reads, reads_call|intros id].
    apply touches_bind; [by apply touches_reads, reads_call|intros now].
    apply touches_bind; [by apply touches_call|intros k]. by apply touches_reads, reads_ret.
Qed.

(** * Who may found an organization, and who may join one *)

Section policies.
Context `{Hashlib} `{Jwt} `{Settings} `{Bcrypt} `{Frontend} `{HttpServer} `{SystemConfigSchema} `{PromptFiles} `{Repr}.
Context (templates : list entry) (bao_client : option (OpenBaoClient * auth)) (has_redis : bool).

Lemma get_system_config_steps skip : steps_in same_tables (get_system_config has_redis bao_client skip).
Proof.
  unfold get_system_config. destruct bao_client as [[bao c]|]; [|done]. apply steps_in_bind; [unfold redis; stepping|].
  intros [cfg|]; [done|]. apply steps_in_bind; [apply with_auth_steps, read_system_config_steps, same_tables_kept|].
  intros raw. unfold redis. stepping.
Qed.

(** The accounts a flow leaves unchanged, prompt templates apart. *)
Definition same_accounts (d d' : database) : Prop := d' organizations = d organizations ∧ d' users = d users.

(** One new organization with one account, its administrator. *)
Definition founded (config : SystemConfig) (email password name : string) (d d' : database) : Prop :=
  ∃ o a, d' organizations = d organizations ++ [o] ∧ d' users = d users ++ [a] ∧
    o_name o = name ∧ str_upper (str_strip name) ≠ RESERVED_NAME ∧
    u_organization_id a = o_id o ∧ u_email a = Some email ∧ u_role a = Some "admin"%string ∧
    u_is_email_verified a = false ∧
    match org_creation_policy config with
    | reject_all => False
    | approvals => approval_scope config ≠ in_app ∧ o_status o = "pending"%string ∧ u_password_hash a = None
    | allow_all => _validate_password password = Ret tt ∧ o_status o = "approved"%string ∧
                   ∃ salt, u_password_hash a = Some (hashpw password salt)
    end.

Lemma create_pending_acts name email admin :
  acts (create_pending_org_and_admin name email admin) (λ d _ d', ∃ o a,
    d' organizations = d organizations ++ [o] ∧ d' users = d users ++ [a] ∧ o_name o = name ∧
    str_upper (str_strip name) ≠ RESERVED_NAME ∧ o_status o = "pending"%string ∧
    ∃ id now, a = mkUser id (o_id o) email (Some admin) (Some email) (Some "admin"%string) (Some []) None
                    true false false false false None now []).
Proof.
  unfold create_pending_org_and_admin. eapply acts_weaken.
  - apply acts_seq; [apply acts_validate_org_name|intros n]. apply acts_seq; [apply acts_create_organization|intros o].
    apply acts_seq; [apply reads_acts, set_tenant_context_reads|intros n']. apply acts_seq; [apply acts_create_dashboard_user|intros a].
    by apply (acts_ret _ (λ d _ d', d' = d)).
  - intros d v d' (n & d1 & [Hn ->] & o & d2 & [-> (id & code & Eo)] & n' & d3 & -> & a & d4 & [-> Ha] & ->).
    exists o, a. split; [reflexivity|]. split; [reflexivity|]. split; [by rewrite Eo|]. split; [exact Hn|].
    split; [by rewrite Eo|exact Ha].
Qed.

(** A check before the work. *)
Lemma begins_password {A} p (f : unit → prog A) R :
  (_validate_password p = Ret tt → begins (f tt) R) → begins (_validate_password p ≫= f) R.
Proof.
  intros Hf. assert (_validate_password p = Ret tt ∨ ∃ e, _validate_password p = Throw e ∧ is_exception e = true) as [E|(e & E & He)].
  - unfold _validate_password, weak. repeat case_match; eauto.
  - rewrite E. by apply Hf.
  - rewrite E. by apply begins_acts, acts_throw.
Qed.

Lemma begins_org_name {A} name (f : unit → prog A) R :
  (str_upper (str_strip name) ≠ RESERVED_NAME → begins (f tt) R) → begins (_validate_org_name name ≫= f) R.
Proof.
  intros Hf. unfold _validate_org_name. destruct (String.eqb_spec (str_upper (str_strip name)) RESERVED_NAME) as [|Hn].
  - by apply begins_acts, acts_throw.
  - by apply Hf.
Qed.

Lemma create_live_account_acts email password name :
  acts (create_live_account templates email password name)
    (λ d _ d', ∃ o a, d' organizations = d organizations ++ [o] ∧ d' users = d users ++ [a] ∧ o_name o = name ∧
       o_status o = "approved"%string ∧ ∃ id now salt, a = mkUser id (o_id o) email (Some (local_part email))
         (Some email) (Some "admin"%string) (Some []) (Some (hashpw password salt)) true false false false false None now []).
Proof.
  eapply acts_weaken.
  - apply acts_seq; [apply acts_create_organization|intros o].
    apply acts_seq; [apply reads_acts, set_tenant_context_reads|intros n].
    apply acts_seq; [apply seed_touches|intros k]. apply acts_seq; [apply hash_password_acts|intros ph].
    apply acts_seq; [apply acts_create_dashboard_user|intros a]. apply reads_acts, generate_and_send_reads.
  - intros d v d' (o & d1 & [-> (id & code & Eo)] & n & d2 & -> & k & d3 & Ht & ph & d4 & [-> (salt & ->)] & a & d5 & [-> (ui & now & Ha)] & ->).
    assert (Ho := Ht organizations ltac:(done)). assert (Hu := Ht users ltac:(done)).
    exists o, a. split; [exact Ho|]. split; [by rewrite (set_table_eq users); unfold rows; rewrite Hu|].
    split; [by rewrite Eo|]. split; [by rewrite Eo|]. by exists ui, now, salt.
Qed.

Lemma begins_same {A} (a : A) (R : database → database → Prop) :
  (∀ d, R d d) → begins (Ret a) (λ d _ d', R d d').
Proof. intros HR. by apply begins_acts, acts_ret. Qed.

Lemma signup_live_begins config email password name :
  org_creation_policy config = allow_all → str_upper (str_strip name) ≠ RESERVED_NAME →
  begins (signup_live templates email password name)
    (λ d _ d', same_accounts d d' ∨ founded config email password name d d').
Proof.
  intros Ep Hn. unfold signup_live. apply begins_password. intros Hpw.
  apply begins_reads; [auto with zync|]. intros [u|]; [by apply (begins_same _ (λ d d', same_accounts d d' ∨ _)); left|].
  apply begins_drop. unfold on_duplicate.
  eapply begins_weaken; [apply begins_undo; [apply create_live_account_acts|by apply (begins_same tt same_accounts)]|].
  intros d v d' [(o & a & Ho & Hu & E1 & E2 & id & now & salt & ->)|Hd]; [right|by left].
  exists o. eexists. split; [exact Ho|]. split; [exact Hu|]. rewrite Ep. cbn. eauto 20.
Qed.

Lemma signup_pending_begins config email password name :
  org_creation_policy config = approvals → approval_scope config ≠ in_app →
  begins (on_duplicate (create_pending_org_and_admin name email (local_part email)) (Ret (_signup_success_response email)))
    (λ d _ d', same_accounts d d' ∨ founded config email password name d d').
Proof.
  intros Ep Hs. unfold on_duplicate.
  eapply begins_weaken; [apply begins_undo; [apply create_pending_acts|by apply (begins_same _ same_accounts)]|].
  intros d v d' [(o & a & Ho & Hu & E1 & E2 & E3 & id & now & ->)|Hd]; [right|by left].
  exists o. eexists. split; [exact Ho|]. split; [exact Hu|]. rewrite Ep. cbn. eauto 20.
Qed.

Lemma signup_under_begins config email password name :
  begins (signup_under templates config email password name)
    (λ d _ d', same_accounts d d' ∨ founded config email password name d d').
Proof.
  unfold signup_under. destruct (org_creation_policy config) eqn:Ep; [|by apply begins_acts, acts_throw|];
    apply begins_org_name; intros Hn; [by apply signup_live_begins|].
  destruct (approval_scope config) eqn:Es; [by apply begins_acts, acts_throw|..]; apply signup_pending_begins; congruence.
Qed.

End policies.

(** C31. Signing up follows the operator's policy. Whatever happens, the request leaves the
    organizations and the accounts as they were, or it founds one organization, whose name
    is not the reserved one, with one account, its administrator: an approved one with
    a password where everybody may found one, a pending one without a password where
    organizations need approval and the approvals are for the public; nobody founds one
    where the policy is to reject. *)
Theorem signup_follows_policy `{Hashlib} `{Jwt} `{Settings} `{Bcrypt} `{Frontend} `{HttpServer} `{SystemConfigSchema}
    `{PromptFiles} `{Repr} (templates : list entry) (bao_client : option (OpenBaoClient * auth)) (has_redis : bool)
    (email password name : string) (s : state) :
  st_db s = st_committed s →
  let r := run (request (signup templates bao_client has_redis email password name)) s in
  st_db r.2 = st_committed r.2 ∧
  (same_accounts (st_db s) (st_db r.2) ∨
   ∃ config, (run (get_system_config has_redis bao_client false) s).1 = inr config ∧ is_ok r.1 = true ∧
     founded config email password name (st_db s) (st_db r.2)).
Proof.
  intros Hs. cbn zeta. unfold signup.
  destruct (request_reads (get_system_config has_redis bao_client false) (λ config, signup_under templates config email password name)
              _ s (get_system_config_steps bao_client has_redis false)
              (λ config, signup_under_begins templates config email password name) Hs) as [Hd Hr].
  split; [exact Hd|]. destruct Hr as [->|(config & b & Hc & Hb & [Hr|Hr])]; [by left|by left|].
  right. exists config. rewrite Hb. done.
Qed.

(** One new member of a joinable organization. *)
Definition member_joined `{Bcrypt} (config : SystemConfig) (email password org_code : string) (d d' : database) : Prop :=
  ∃ o u, o ∈ d organizations ∧ joinable o = true ∧ o_join_enabled o = true ∧ o_org_code o = normalize_org_code org_code ∧
    org_creation_policy config ≠ reject_all ∧ d' = set_table users (rows d ++ [u]) d ∧
    ∃ id now salt, u = mkUser id (o_id o) email (Some (local_part email)) (Some email) (Some "member"%string)
      (Some MEMBER_DEFAULT_PERMISSIONS) (Some (hashpw password salt)) true false false false false None now [].

Section joins.
Context `{Hashlib} `{Bcrypt}.

Lemma acts_get_by_code code :
  acts (get_by_code code) (λ d o d', d' = d ∧ ∀ x, o = Some x → x ∈ d organizations ∧ joinable x = true ∧ o_org_code x = code).
Proof.
  unfold get_by_code. eapply acts_weaken; [apply (acts_one organizations)|]. intros d o d' [Hf ->]. split; [done|]. intros x ->. cbn in Hf.
  apply filter_single in Hf as [Hx [Hc%String.eqb_eq Hj]%andb_true_iff]. done.
Qed.

(** What the members' account is made of; a failure leaves no trace. *)
Lemma join_member_begins o email ph resp (R : database → database → Prop) :
  (∀ d, R d d) →
  (∀ d id now, R d (set_table users (rows d ++ [mkUser id o email (Some (local_part email)) (Some email) (Some "member"%string)
      (Some MEMBER_DEFAULT_PERMISSIONS) (Some ph) true false false false false None now []]) d)) →
  begins (_ ← on_duplicate
            (_ ← create_dashboard_user o email (Some ph) (Some (local_part email)) "member" MEMBER_DEFAULT_PERMISSIONS;
             generate_and_send email Otp.signup) (Ret tt);
          Ret (resp : SignupOutcome)) (λ d _ d', R d d').
Proof.
  intros Hsame Hnew. apply begins_drop. unfold on_duplicate. eapply begins_weaken.
  - apply begins_undo; [|by apply (begins_same tt R)]. apply acts_seq; [apply acts_create_dashboard_user|intros u].
    apply reads_acts, generate_and_send_reads.
  - intros d v d' [(u & d1 & [-> (id & now & ->)] & ->)|Hd]; [apply Hnew|done].
Qed.

(** A program that looks something up, and what it found. *)
Lemma begins_looks {A B} (p : prog A) (f : A → prog B) (Q : database → A → Prop) R :
  acts p (λ d a d', d' = d ∧ Q d a) → (∀ a, begins (f a) (λ d b d', Q d a → R d b d')) → begins (p ≫= f) R.
Proof.
  intros Hp Hf s Hs. rewrite run_bind. specialize (Hp s). destruct (run p s) as [[e|a] s1]; [done|].
  destruct Hp as [[E HQ] Hc]. specialize (Hf a s1 ltac:(congruence)). destruct (run (f a) s1) as [[e|b] s2].
  - destruct Hf. split; congruence.
  - destruct Hf as [HR Hc']. rewrite E in HR. split; [by apply HR|congruence].
Qed.

Lemma join_org_begins config email password org_code :
  org_creation_policy config ≠ reject_all →
  begins (join_org email password org_code) (λ d _ d', d' = d ∨ member_joined config email password org_code d d').
Proof.
  intros Hpol. unfold join_org. eapply begins_looks; [apply acts_get_by_code|]. intros [o|]; [|by apply begins_acts, acts_throw].
  destruct (o_join_enabled o) eqn:Ej; [|by apply begins_acts, acts_throw]. cbn [negb].
  apply begins_reads; [auto with zync|]. intros _. apply begins_reads; [auto with zync|]. intros [u|]; [by apply begins_acts, acts_ret; left|].
  eapply begins_looks; [apply hash_password_acts|]. intros ph.
  apply (join_member_begins (o_id o) email ph _ (λ d d', (∃ salt, ph = hashpw password salt) →
    (∀ x, Some o = Some x → x ∈ d organizations ∧ joinable x = true ∧ o_org_code x = normalize_org_code org_code) →
    d' = d ∨ member_joined config email password org_code d d')); [by left|].
  intros d id now (salt & ->) Ho. right. destruct (Ho o eq_refl) as (Hin & Hj & Hc). exists o. eexists.
  split_and!; [exact Hin|exact Hj|exact Ej|exact Hc|exact Hpol|reflexivity|]. by exists id, now, salt.
Qed.
End joins.

(** Joining by code is sound: whatever happens, the request leaves the database as it
    was, or it adds one member, with the permissions of a member and no others, to an
    organization that is approved, active, not the system's own, accepts members and
    bears the code; nobody joins where the policy is to reject. *)
Theorem join_sound `{Hashlib} `{Bcrypt} `{HttpServer} `{SystemConfigSchema}
    (bao_client : option (OpenBaoClient * auth)) (has_redis : bool) (email password org_code : string) (s : state) :
  st_db s = st_committed s →
  let r := run (request (join_organization bao_client has_redis email password org_code)) s in
  st_db r.2 = st_committed r.2 ∧
  (st_db r.2 = st_db s ∨
   ∃ config, (run (get_system_config has_redis bao_client false) s).1 = inr config ∧
     member_joined config email password org_code (st_db s) (st_db r.2)).
Proof.
  intros Hs. cbn zeta. unfold join_organization.
  destruct (request_reads (get_system_config has_redis bao_client false)
              (λ config, match org_creation_policy config with reject_all => disabled | _ => join_org email password org_code end)
              (λ config d _ d', d' = d ∨ member_joined config email password org_code d d') s
              (get_system_config_steps bao_client has_redis false)) as [Hd Hr].
  - intros config. destruct (org_creation_policy config) eqn:Ep;
      [apply join_org_begins; congruence|by apply begins_acts, acts_throw|apply join_org_begins; congruence].
  - exact Hs.
  - split; [exact Hd|]. destruct Hr as [->|(config & b & Hc & _ & [->|Hr])]; [by left|by left|]. right. by exists config.
Qed.

(** * One approval per organization *)

Section approval.
Context `{Hashlib} `{Frontend} `{HttpServer} `{Repr}.
Context (bao_client : option (OpenBaoClient * auth)) (has_email_service : bool) (org_id : uuid).

Definition awaiting (s : state) : Prop := ∃ o, o ∈ st_db s organizations ∧ is_pending org_id o = true.
Definition settles (s s' : state) : Prop := awaiting s' → awaiting s.
Let anything (s : state) : Prop := True.

Lemma settles_kept : keeps_tables settles.
Proof. unfold settles, awaiting. by intros s s' [-> _]. Qed.

Lemma settles_gone s s' : settles s s' → gone anything awaiting s s'.
Proof. by split. Qed.

Lemma gone_wait s d : 0 ≤ d → gone anything awaiting s (op_sem (Sleep d) s).2.
Proof. intros _. by apply settles_gone, settles_kept. Qed.

(** Only a status of [pending] opens the question again. *)
Lemma settled_rows (p : Organization → bool) status l o :
  status ≠ "pending"%string → o ∈ map (λ r, if p r then with_status status r else r) l → is_pending org_id o = true →
  o ∈ l ∧ p o = false.
Proof.
  intros Hs Ho Hp. apply list_elem_of_fmap in Ho as (r & E & Hr). destruct (p r) eqn:Er; [|by subst].
  subst. apply andb_true_iff in Hp as [_ Hp%String.eqb_eq]. done.
Qed.

Lemma approve_settles s :
  settles s (op_sem (Update organizations (is_pending org_id) (with_status "approved")) s).2 ∧
  ¬ awaiting (op_sem (Update organizations (is_pending org_id) (with_status "approved")) s).2.
Proof.
  assert (Hn : ¬ awaiting (op_sem (Update organizations (is_pending org_id) (with_status "approved")) s).2).
  { intros (o & Ho & Hp). cbn [op_sem check_rows row_check snd st_db set_db] in Ho. rewrite (set_table_eq organizations) in Ho.
    apply settled_rows in Ho as [_ Ho]; [congruence|done|done]. }
  split; [intros Ha; by destruct (Hn Ha)|exact Hn].
Qed.

Lemma flush_settles id same status : status ≠ "pending"%string → steps_in settles (Invites.flush_row id same (with_status status)).
Proof.
  intros Hs. unfold Invites.flush_row. destruct same; [done|]. apply steps_in_bind; [|intros n; by destruct (n =? 1)].
  apply steps_in_call. intros s. unfold op_sem. cbn [check_rows row_check]. destruct (unique_rows _ _); [|by apply settles_kept].
  intros (o & Ho & Hp). cbn [snd st_db set_db] in Ho. rewrite (set_table_eq organizations) in Ho.
  apply settled_rows in Ho as [Ho _]; [by exists o|done|done].
Qed.

Lemma users_settle {X} (o : op X) : (∀ s, st_db (op_sem o s).2 organizations = st_db s organizations) → steps_in settles (call o).
Proof. intros Ho. apply steps_in_call. intros s. unfold settles, awaiting. by rewrite Ho. Qed.

Lemma invite_token_steps o u h : steps_in settles (set_invite_token o u h).
Proof.
  pose proof settles_kept. unfold set_invite_token, get_by_uuid, user_missing, Users.flush_row, Users.refresh. stepping.
  apply users_settle. intros s. unfold op_sem. cbn [check_rows row_check]. by destruct (unique_rows _ _).
Qed.

Lemma pending_org_steps o : steps_in settles (pending_org o).
Proof. pose proof settles_kept. unfold pending_org, get_by_id, org_missing, not_pending. stepping. Qed.

Lemma bootstrap_steps o : steps_in settles (bootstrap bao_client o).
Proof.
  unfold bootstrap. destruct bao_client as [[bao c]|]; [|done]. apply with_auth_steps.
  apply bao_steps_bind; [apply create_org_namespace_steps, settles_kept|]. intros _. apply write_org_config_steps, settles_kept.
Qed.

(** What follows the claim. *)
Lemma complete_steps o x claimed : steps_in settles (complete_approval bao_client has_email_service o x claimed).
Proof.
  pose proof settles_kept. unfold complete_approval. apply steps_in_bind; [unfold get_by_id; stepping|]. intros [y|]; [|done].
  destruct claimed; [|done]. cbn [negb]. apply steps_in_bind; [by apply flush_settles|]. intros _.
  unfold find_pending_admin_by_org. apply steps_in_bind; [stepping|]. intros [a|]; [|done].
  destruct (u_email a) as [m|]; [|done]. apply steps_in_bind; [apply bootstrap_steps|]. intros _.
  apply steps_in_bind; [unfold token_urlsafe_32; stepping|]. intros t. apply steps_in_bind; [apply invite_token_steps|].
  intros _. apply steps_in_bind; [|done]. unfold send_invite_email, conflict. stepping.
Qed.

Lemma reject_steps o : steps_in settles (reject_org o).
Proof.
  pose proof settles_kept. unfold reject_org. apply steps_in_bind; [apply pending_org_steps|]. intros x.
  apply steps_in_bind; [by apply flush_settles|]. intros _. unfold Invites.refresh. stepping.
Qed.

Lemma claim_approval_steps o : steps_in settles (approve_if_pending o).
Proof.
  apply steps_in_bind; [|done]. apply steps_in_call. intros s (x & Hx & Hp). cbn [op_sem check_rows row_check snd st_db set_db] in Hx.
  rewrite (set_table_eq organizations) in Hx. apply settled_rows in Hx as [Hx _]; [by exists x|done|done].
Qed.

Lemma approve_steps o : steps_in settles (approve_org bao_client has_email_service o).
Proof.
  apply steps_in_bind; [apply pending_org_steps|]. intros x. apply steps_in_bind; [apply claim_approval_steps|].
  intros claimed. apply complete_steps.
Qed.

Lemma gone_in {A} (p : prog A) : steps_in settles p → steps_in (gone anything awaiting) p.
Proof. apply steps_in_weaken, settles_gone. Qed.

Lemma approve_claimant : claimant anything awaiting (approve_org bao_client has_email_service org_id).
Proof.
  unfold approve_org. apply claimant_lost; [apply gone_in, pending_org_steps|]. intros o s _.
  destruct (approve_settles s) as [Hs Hn]. split; [by apply settles_gone|].
  set (n := Z.of_nat (length (List.filter (is_pending org_id) (st_db s organizations)))).
  change ((op_sem (Update organizations (is_pending org_id) (with_status "approved")) s).1) with (inr (A := exn) n).
  change (claimant anything awaiting (complete_approval bao_client has_email_service org_id o (n =? 1)) ∨
    awaiting s ∧ ¬ awaiting (op_sem (Update organizations (is_pending org_id) (with_status "approved")) s).2 ∧
    steps_in (gone anything awaiting) (complete_approval bao_client has_email_service org_id o (n =? 1))).
  destruct (n =? 1) eqn:En.
  - right. split; [|split; [exact Hn|apply gone_in, complete_steps]]. unfold awaiting.
    destruct (List.filter (is_pending org_id) (st_db s organizations)) as [|x l] eqn:E; [by subst n; cbn in En|].
    exists x. apply filter_elem. rewrite E. left.
  - left. unfold complete_approval. apply claimant_lost; [apply gone_in; pose proof settles_kept; unfold get_by_id; stepping|].
    by intros [y|].
Qed.
End approval.

(** What the operators do with organizations that wait. *)
Inductive approval_call := Approve (org_id : uuid) | Reject (org_id : uuid).

#[export] Instance approval_call_eq_dec : EqDecision approval_call.
Proof. solve_decision. Defined.

Definition handle_approval `{Hashlib} `{Frontend} `{HttpServer} `{Repr} (bao_client : option (OpenBaoClient * auth))
    (has_email_service : bool) (q : approval_call) : prog Organization :=
  match q with
  | Approve org_id => approve_org bao_client has_email_service org_id
  | Reject org_id => reject_org org_id
  end.

(** C32. Of the calls that approve one organization, however they are interleaved with each
    other and with approvals and rejections of any, at most one succeeds: one invitation
    is sent. *)
Theorem approve_one_winner `{Hashlib} `{Frontend} `{HttpServer} `{Repr} (bao_client : option (OpenBaoClient * auth))
    (has_email_service : bool) (org_id : uuid) (qs : list approval_call) s ps' s' i j a b :
  psteps (map (handle_approval bao_client has_email_service) qs, s) (ps', s') →
  qs !! i = Some (Approve org_id) → qs !! j = Some (Approve org_id) →
  ps' !! i = Some (Ret a) → ps' !! j = Some (Ret b) → i = j.
Proof.
  intros Hst Hi Hj.
  refine (one_winner (λ _, True) (awaiting org_id) (gone_wait org_id) (λ k, qs !! k = Some (Approve org_id)) (λ k, ltac:(apply _)) _ _ _ _ _ _ _ _ I _ Hst Hi Hj).
  intros k p Hk. rewrite list_lookup_fmap in Hk. destruct (qs !! k) as [q|]; [|done]. injection Hk as <-. split.
  - intros [= ->]. apply approve_claimant.
  - intros _. apply gone_in. destruct q; [apply approve_steps|apply reject_steps].
Qed.

(** * Runs *)

#[local] Existing Instances hash_mark plain_jwt default_settings clear_bcrypt local_frontend named_files quoting.

(** An OpenBao server that holds a policy, and remembers the keys written last. *)
Definition config_server (policy scope : string) : HttpServer := {|
  http_request := λ req r,
    if bool_decide (hq_path req = "/v1/config/data/system") then
      match hq_json req with
      | Some (JObj (("data", JObj l) :: _)) => (inr (mkHttpResponse 204 None "No Content"), <["keys"%string := (String.concat "," (map fst l))]> r)
      | _ => (inr (mkHttpResponse 200 (Some (JObj
                [("data", JObj [("data", JObj [("org_creation_policy", JStr policy); ("approval_scope", JStr scope);
                                               ("OZ_KEY", JStr "secret")]);
                                ("metadata", JObj [("version", JInt 1)])])]%string)) "OK"), r)
      end
    else (inr (mkHttpResponse 204 None "No Content"), r)
|}.

(** The response model, without the other settings. *)
#[local] Instance plain_config : SystemConfigSchema := {|
  sc_validate l := inr (mkSystemConfig
    match obj_get "org_creation_policy" l with
    | Some (JStr "reject_all") => reject_all | Some (JStr "approvals") => approvals | _ => allow_all end
    match obj_get "approval_scope" l with
    | Some (JStr "in_app") => in_app | Some (JStr "public_signup") => public_signup | _ => both end []);
  model_validate_json _ := inl (ValueError "invalid");
  model_dump_json _ := "{}"%string;
|}.

Definition bao_conn : option (OpenBaoClient * auth) := Some (a_client, signed_in).
Definition sign_up_at `{HttpServer} (name : string) : prog SignupOutcome :=
  request (signup MANIFEST bao_conn false "a@x.io" "Secret123" name).
Definition sign_up (policy scope name : string) : state → (exn + SignupOutcome) * state :=
  run (sign_up_at (H := config_server policy scope) name).
Definition accounts (s : state) : list (string * string) * list (option string * option string) :=
  (map (λ o, (o_name o, o_status o)) (st_committed s organizations),
   map (λ u, (u_email u, u_password_hash u)) (st_committed s users)).

Example founders :
  accounts (sign_up "allow_all" "both" "Acme" empty_state).2
    = ([("Acme", "approved")], [(Some "a@x.io", Some "$Secret123")])%string ∧
  accounts (sign_up "approvals" "both" "Acme" empty_state).2 = ([("Acme", "pending")], [(Some "a@x.io", None)])%string ∧
  (sign_up "approvals" "in_app" "Acme" empty_state).1 = inl (AppExc AuthorizationError "Registration is disabled") ∧
  (sign_up "reject_all" "both" "Acme" empty_state).1 = inl (AppExc AuthorizationError "Registration is disabled") ∧
  (sign_up "allow_all" "both" " System " empty_state).1
    = inl (AppExc ValidationError "Organization name ' System ' is reserved and cannot be used.").
Proof. by vm_compute. Qed.

(** The code last mailed. *)
Definition mailed (s : state) : string :=
  match List.filter (λ e, match e with EmailSent _ _ _ => true | _ => false end) (st_out s) with
  | EmailSent _ _ code :: _ => code
  | _ => EmptyString
  end.

#[local] Instance approving_server : HttpServer := config_server "approvals" "public_signup".
Definition applied : state := (sign_up "approvals" "public_signup" "Acme" empty_state).2.

(** The administrator of an organization that waits for its approval can ask for a code
    and verifies the address with it: the answer is a session. *)
Example session_without_approval :
  let s := (run (request (resend_verification "a@x.io")) applied).2 in
  let r := run (request (verify_email bao_conn "a@x.io" (mailed s))) s in
  is_ok r.1 = true ∧ map o_status (st_committed r.2 organizations) = ["pending"]%string ∧
  map u_is_email_verified (st_committed r.2 users) = [true].
Proof. by vm_compute. Qed.

(** Two approvals and a rejection, each having read the organization before the others
    wrote: one approval is answered; the other is told that the organization is not
    pending, with the status it read itself, pending; the rejection has the last word. *)
Definition waiting_org : Organization := with_status "pending" acme.
Definition waiting_admin : User :=
  mkUser 8 1 "b@x.io" (Some "B"%string) (Some "b@x.io"%string) (Some "admin"%string) (Some [])
    None true false false false false None 0 [].
Definition decisions : list approval_call := [Approve 1; Approve 1; Reject 1].
Definition waiting : state := org_state waiting_org [waiting_admin] 0.
Definition decided : list (prog Organization) * state :=
  take_turns ([0; 1; 2]%nat ++ concat (repeat [0; 1]%nat 200) ++ [2; 2; 2; 2]%nat) (map (handle_approval bao_conn true) decisions) waiting.

Example approval_race :
  decided.1 = [Ret (with_status "approved" waiting_org);
               Throw (AppExc ConflictError "Organization 00000000-0000-0000-0000-000000000001 is not pending (status='pending').");
               Ret (with_status "rejected" waiting_org)] ∧
  map o_status (st_db decided.2 organizations) = ["rejected"%string] ∧ length (st_out decided.2) = 1%nat ∧
  existsb (λ u, negb (bool_decide (u_invite_token_hash u = None))) (st_db decided.2 users) = true.
Proof. by vm_compute. Qed.

(** A new organization at once: if the administrator's account fails afterwards, here by the
    limit on codes, the organization stays, without an administrator. *)
Definition limited : state :=
  (run (redis (ks_setex (_cooldown_key "a@x.io" Otp.signup) 60 "1")) empty_state).2.
Example organization_without_admin :
  let r := run (request (_create_instantly MANIFEST bao_conn "Acme" "a@x.io" None)) limited in
  is_ok r.1 = false ∧ accounts r.2 = ([("Acme", "approved")], [])%string.
Proof. by vm_compute. Qed.

(** Its administrator has no password, and no way to one: no code is mailed for a reset, and
    a change of the password is refused. *)
Definition instant : state := (run (request (_create_instantly MANIFEST bao_conn "Acme" "a@x.io" None)) empty_state).2.
Example no_first_password :
  length (st_out instant) = 1%nat ∧
  length (st_out (run (Session.forgot_password "a@x.io") instant).2) = 1%nat ∧
  map (λ u, (run (Session.change_password (u_id u) "x" "Secret123") instant).1) (st_db instant users)
    = [inl (AppExc ValidationError "This account does not have a password set.")].
Proof. by vm_compute. Qed.

(** Joining with the address of an account of the organization that was deleted is answered
    as a success; there is no account and no code. *)
Definition former_member : User := with_deleted invitee.
Definition rejoined : (exn + SignupOutcome) * state :=
  run (request (join_org "b@x.io" "Secret123" " k7m2q9x4 ")) (org_state acme [former_member] 0).
Example former_member_joins :
  rejoined.1 = inr (_signup_success_response "b@x.io") ∧ st_committed rejoined.2 users = [former_member] ∧ st_out rejoined.2 = [].
Proof. by vm_compute. Qed.

(** Another address joins. *)
Example member_joins :
  map (λ u, (u_email u, u_role u, u_permissions u)) (st_committed (run (request (join_organization bao_conn false "c@x.io" "Secret123" " k7m2q9x4 ")) (org_state acme [] 0)).2 users)
    = [(Some "c@x.io"%string, Some "member"%string, Some MEMBER_DEFAULT_PERMISSIONS)].
Proof. by vm_compute. Qed.

(** The rules for passwords hold for those who sign up, not for those who join. *)
Example weak_password_joins :
  is_ok (run (signup_live MANIFEST "c@x.io" "aaaaaaaa" "Acme") empty_state).1 = false ∧
  map u_password_hash (st_committed (run (request (join_organization bao_conn false "c@x.io" "aaaaaaaa" "K7M2Q9X4")) (org_state acme [] 0)).2 users)
    = [Some "$aaaaaaaa"%string].
Proof. by vm_compute. Qed.

(** A setting cleared by an update is written back as it was. *)
Example null_keeps_setting :
  let r := run (update_system_config false [("approval_scope"%string, JNull)] a_client signed_in) empty_state in
  st_remote r.2 !! "keys"%string = Some "org_creation_policy,approval_scope,OZ_KEY"%string.
Proof. by vm_compute. Qed.

(** * Witnesses *)

Lemma signup_follows_policy_witness :
  let r := run (request (signup MANIFEST bao_conn false "a@x.io" "Secret123" "Acme")) empty_state in
  st_db r.2 = st_committed r.2 ∧
  (same_accounts (st_db empty_state) (st_db r.2) ∨
   ∃ config, (run (get_system_config false bao_conn false) empty_state).1 = inr config ∧ is_ok r.1 = true ∧
     founded config "a@x.io" "Secret123" "Acme" (st_db empty_state) (st_db r.2)).
Proof. apply (signup_follows_policy MANIFEST bao_conn false "a@x.io" "Secret123" "Acme" empty_state). reflexivity. Defined.

Lemma join_sound_witness :
  let s := org_state acme [] 0 in
  let r := run (request (join_organization bao_conn false "c@x.io" "Secret123" "K7M2Q9X4")) s in
  st_db r.2 = st_committed r.2 ∧
  (st_db r.2 = st_db s ∨
   ∃ config, (run (get_system_config false bao_conn false) s).1 = inr config ∧
     member_joined config "c@x.io" "Secret123" "K7M2Q9X4" (st_db s) (st_db r.2)).
Proof. apply (join_sound bao_conn false "c@x.io" "Secret123" "K7M2Q9X4" (org_state acme [] 0)). reflexivity. Defined.

Lemma approve_one_winner_witness :
  ∃ a, decided.1 !! 0%nat = Some (Ret a) ∧
    ∀ j b, decisions !! j = Some (Approve 1) → decided.1 !! j = Some (Ret b) → 0%nat = j.
Proof.
  eexists. split; [vm_compute; reflexivity|]. intros j b Hj Hb.
  refine (approve_one_winner bao_conn true 1 decisions waiting decided.1 decided.2 0 j _ b _ eq_refl Hj _ Hb);
    [|vm_compute; reflexivity].
  rewrite <- (surjective_pairing decided). apply take_turns_psteps.
Defined.
