(* ===== verification/Retrieval.v ===== *)
(** services/retrieval and packages/reranker: the five retrieval legs, reciprocal rank
    fusion of their results, recency ordering, the graph merge and the re-rankers. *)
From Stdlib Require Import SpecFloat.
From S2P Require Import Prelude Errors Data Effects.
Open Scope Z_scope.

(** * Doubles: binary64, and what Python does with them *)

Definition fadd : spec_float → spec_float → spec_float := SFadd 53 1024.
Definition fsub : spec_float → spec_float → spec_float := SFsub 53 1024.
Definition fdiv : spec_float → spec_float → spec_float := SFdiv 53 1024.
Definition of_int (z : Z) : spec_float := binary_normalize 53 1024 z 0 false.

Definition fge (a b : spec_float) : bool :=
  match SFcompare a b with Some Gt | Some Eq => true | _ => false end.

(** [sum] of floats, compensated since Python 3.12: the running sum and what was
    rounded away from it. *)
Definition sum_step (acc : spec_float * spec_float) (x : spec_float) : spec_float * spec_float :=
  let '(f, c) := acc in
  let t := fadd f x in
  (t, if fge (SFabs f) (SFabs x) then fadd c (fadd (fsub f t) x) else fadd c (fadd (fsub x t) f)).

Definition py_sum (l : list spec_float) : spec_float :=
  match l with
  | [] => of_int 0
  | x :: r =>
      let '(f, c) := fold_left sum_step r (x, of_int 0) in
      match c with S754_finite _ _ _ => fadd f c | _ => f end
  end.

(** [m * 2^e * scale] to the nearest integer, ties to even. *)
Definition round_scaled (scale : Z) (m : positive) (e : Z) : Z :=
  let n := Z.pos m * scale in
  if 0 <=? e then n * 2 ^ e
  else
    let d := 2 ^ (- e) in
    let q := n / d in
    let r := n mod d in
    if 2 * r <? d then q else if d <? 2 * r then q + 1 else if Z.even q then q else q + 1.

(** [round(x, 6)] of a finite double, in millionths. The double it becomes is the one
    nearest to that many millionths. *)
Definition round6 (x : spec_float) : Z :=
  match x with
  | S754_finite s m e => let v := round_scaled 1000000 m e in if s then - v else v
  | _ => 0
  end.

(** * Results

    A result is a dict; the fields the retrieval looks at are named here, the others are
    [it_rest]. Fused scores are in millionths. *)

(** [item.get("id")]: nothing (or a falsy value), a string, a UUID. *)
Inductive ident := NoId | StrId (s : string) | UuidId (u : uuid).

(** [item.get("created_at")]; instants are in microseconds since the epoch. *)
Inductive stamp :=
| NoStamp
| BoolStamp (b : bool)
| NumStamp (seconds : Z)
| AwareStamp (us : Z)
| NaiveStamp (us : Z)
| TextStamp (s : string)
| OtherStamp.

(** What the context adds to an episode for each of its blobs. *)
Record BlobLink := mkBlobLink {
  bl_id : uuid;
  bl_file_name : string;
  bl_mime_type : string;
  bl_file_size : Z;
  bl_download_url : option string;
}.

(** The other fields: text, numbers, instants in microseconds, and blobs. *)
Inductive value :=
| VNone
| VText (s : string)
| VInt (z : Z)
| VFloat (x : spec_float)
| VDate (us : Z)
| VUuid (u : uuid)
| VBlobs (l : list BlobLink).

Record item := mkItem {
  it_id : ident;
  it_created_at : stamp;
  it_content : option string;
  it_distance : option Z;
  it_rrf_score : option Z;
  it_reranker_score : option Z;
  it_rest : list (string * value);
}.

Definition set_rrf (score : Z) (i : item) : item :=
  mkItem (it_id i) (it_created_at i) (it_content i) (it_distance i) (Some score) (it_reranker_score i) (it_rest i).
Definition set_reranker (score : Z) (i : item) : item :=
  mkItem (it_id i) (it_created_at i) (it_content i) (it_distance i) (it_rrf_score i) (Some score) (it_rest i).

(** [str(item.get("id") or "")]; empty when there is no id. *)
Definition id_text (i : item) : string :=
  match it_id i with NoId => EmptyString | StrId s => s | UuidId u => uuid_str u end.

(** * Reciprocal rank fusion *)

Definition RRF_K : Z := 60.
Definition DEFAULT_RERANK_TOP_K : Z := 50.
Definition DEFAULT_RERANK_TOP_N : Z := 10.

(** [score_map] and [rank_map], in the order the ids were first met. *)
Record entry := mkEntry { en_id : string; en_item : item; en_ranks : list Z }.

Fixpoint note_rank (item_id : string) (i : item) (rank : Z) (maps : list entry) : list entry :=
  match maps with
  | [] => [mkEntry item_id i [rank]]
  | e :: r =>
      if (en_id e =? item_id)%string then mkEntry (en_id e) (en_item e) (en_ranks e ++ [rank]) :: r
      else e :: note_rank item_id i rank r
  end.

(** [for rank, item in enumerate(ranked_list, start=rank)]. *)
Fixpoint note_list (rank : Z) (l : list item) (maps : list entry) : list entry :=
  match l with
  | [] => maps
  | i :: r =>
      note_list (rank + 1) r
        (if (id_text i =? EmptyString)%string then maps else note_rank (id_text i) i rank maps)
  end.

Definition note_lists (ranked_lists : list (list item)) : list entry :=
  fold_left (λ maps l, note_list 1 l maps) ranked_lists [].

Definition rank_weight (r : Z) : spec_float := fdiv (of_int 1) (of_int (RRF_K + r)).
Definition rrf_score (ranks : list Z) : Z := round6 (py_sum (map rank_weight ranks)).

Definition scored (e : entry) : item := set_rrf (rrf_score (en_ranks e)) (en_item e).

(** [x.get("rrf_score", 0.0)], descending. *)
Definition by_rrf (a b : item) : bool := default 0 (it_rrf_score b) <=? default 0 (it_rrf_score a).

Definition _rrf_merge (ranked_lists : list (list item)) (top_n : Z) : list item :=
  slice_to top_n (sort_by by_rrf (map scored (note_lists ranked_lists))).

(** * Recency *)

Section recency.
Context `{Datetime}.

(** [value.replace("Z", "+00:00")]. *)
Fixpoint utc_offset (s : string) : string :=
  match s with
  | EmptyString => EmptyString
  | c ::: r => if Ascii.eqb c "Z" then "+00:00" +:+ utc_offset r else c ::: utc_offset r
  end.

(** In microseconds: the doubles of two instants less than 2^53 of them from the epoch
    (years 1684 to 2255) compare as the instants do. *)
Definition _to_epoch (v : stamp) : Z :=
  match v with
  | NoStamp | BoolStamp _ | OtherStamp => 0
  | NumStamp n => n * 1000000
  | AwareStamp us | NaiveStamp us => us
  | TextStamp s => match fromisoformat (utc_offset s) with inr us => us | inl _ => 0 end
  end.

Definition recency (i : item) : Z * string := (_to_epoch (it_created_at i), id_text i).

(** [reverse=True] over the pairs. *)
Definition by_recency (a b : item) : bool :=
  ((recency b).1 <? (recency a).1) ||
  (((recency a).1 =? (recency b).1) && String.leb (recency b).2 (recency a).2).

Definition _merge_and_sort (episode_vector fact_vector episode_bm25 fact_bm25 entity_results : list item)
    (limit rrf_top_n : Z) (sort : string) : list item * list item * list item :=
  let merged_episodes := _rrf_merge [episode_vector; episode_bm25] rrf_top_n in
  let merged_facts := _rrf_merge [fact_vector; fact_bm25] rrf_top_n in
  let entities := slice_to limit entity_results in
  if (sort =? "recent")%string then
    (sort_by by_recency merged_episodes, sort_by by_recency merged_facts, sort_by by_recency entities)
  else (merged_episodes, merged_facts, entities).
End recency.

(** * Re-rankers: packages/reranker *)

(** [CrossEncoderReranker.rerank]. *)
Definition reranker : Type := string → list item → Z → prog (list item).

Definition has_content (c : item) : bool :=
  match it_content c with Some t => negb (t =? EmptyString)%string | None => false end.
Definition content_of (c : item) : string := default EmptyString (it_content c).

(** [x.get("reranker_score", 0.0)], descending. *)
Definition by_reranker (a b : item) : bool :=
  default 0 (it_reranker_score b) <=? default 0 (it_reranker_score a).

(** [CrossEncoder.predict]: a score per pair. *)
Definition cross_encoder : Type := string → list string → exn + list spec_float.

(** The candidates with their scores, the next score being the head of [scores]. *)
Fixpoint attach_scores (scores : list spec_float) (candidates : list item) : prog (list item) :=
  match candidates with
  | [] => Ret []
  | c :: r =>
      if has_content c then
        match scores with
        | [] => Throw IndexError
        | x :: scores => rest ← attach_scores scores r; Ret (set_reranker (round6 x) c :: rest)
        end
      else rest ← attach_scores scores r; Ret (set_reranker 0 c :: rest)
  end.

(** sentence_transformers.py *)
Definition sentence_transformers_rerank (predict : cross_encoder) : reranker := λ query candidates top_n,
  if (length candidates =? 0)%nat then Ret []
  else
    let pairs := map content_of (List.filter has_content candidates) in
    if (length pairs =? 0)%nat then Ret (slice_to top_n (map (set_reranker 0) candidates))
    else
      scores ← lift (predict query pairs);
      scored ← attach_scores scores candidates;
      Ret (slice_to top_n (sort_by by_reranker scored)).

(** [cohere.Client.rerank]: the positions of the [top_n] best documents and their scores. *)
Definition cohere_client : Type := string → list string → Z → exn + list (Z * spec_float).

(** [{r.index: r.relevance_score for r in results}.get(i, 0.0)]: a later pair wins. *)
Definition index_score (results : list (Z * spec_float)) (i : Z) : Z :=
  match List.find (λ r, r.1 =? i) (rev results) with Some r => round6 r.2 | None => 0 end.

(** cohere.py *)
Definition cohere_rerank (client : cohere_client) : reranker := λ query candidates top_n,
  if (length candidates =? 0)%nat then Ret []
  else
    let documents := map content_of (List.filter has_content candidates) in
    if (length documents =? 0)%nat then Ret (slice_to top_n (map (set_reranker 0) candidates))
    else
      results ← lift (client query documents top_n);
      let scored := imap (λ i c, set_reranker (index_score results (Z.of_nat i)) c) candidates in
      Ret (slice_to top_n (sort_by by_reranker scored)).

(** * Graph traversal: lexical_graph_search.py *)

Definition MAX_BFS_RESULTS : nat := 50.

(** [backend.retrieve_graph(query, as_of)]; no list stands for an answer that is not a
    list, no item for an element that is not a dict. *)
Definition graph_backend : Type := string → option Z → prog (option (list (option item))).

Definition _safe_retrieve (b : graph_backend) (query : string) (as_of : option Z) : prog (list (option item)) :=
  try_except (r ← b query as_of; Ret (default [] r)) is_exception (λ _, Ret []).

(** The merge loop: [seen] and [merged]. *)
Fixpoint merge_graph (seen : list string) (results : list (option item)) : list item :=
  match results with
  | [] => []
  | Some i :: r =>
      if (id_text i =? EmptyString)%string then merge_graph seen r
      else if bool_decide (id_text i ∈ seen) then merge_graph seen r
      else i :: merge_graph (id_text i :: seen) r
  | None :: r => merge_graph seen r
  end.

(** [_distance], ascending; a missing distance is infinite. *)
Definition by_distance (a b : item) : bool :=
  match it_distance a, it_distance b with
  | Some x, Some y => x <=? y
  | _, None => true
  | None, Some _ => false
  end.

Definition _graph_bfs_search (backends : list graph_backend) (query : string) (query_time : option Z) :
    prog (list item) :=
  if (length backends =? 0)%nat then Ret []
  else
    results ← for_fold backends [] (λ acc b, r ← _safe_retrieve b query query_time; Ret (acc ++ r));
    Ret (take MAX_BFS_RESULTS (sort_by by_distance (merge_graph [] results))).

(** * The hybrid retriever: legs.py and __init__.py *)

Inductive leg := episode_vector | fact_vector | episode_bm25 | fact_bm25 | graph_bfs.

#[export] Instance leg_eq_dec : EqDecision leg.
Proof. solve_decision. Defined.

Definition all_legs : list leg := [episode_vector; fact_vector; episode_bm25; fact_bm25; graph_bfs].

(** What can be named in [failed_legs]. *)
Inductive failure := FailedLeg (l : leg) | FailedReranker.

#[export] Instance failure_eq_dec : EqDecision failure.
Proof. solve_decision. Defined.

(** The searches: the embedder of core/embeddings.py, the ranked statements PostgreSQL
    runs (pgvector distance, [ts_rank]) and the graph backends. *)
Class Search := {
  embedding : Type;
  dim : embedding → Z;
  embed_query : list string → prog (list embedding);
  vector_search_episodes : embedding → uuid → Z → prog (list item);
  vector_search_facts : embedding → uuid → Z → option Z → prog (list item);
  bm25_search_episodes : string → uuid → Z → prog (list item);
  bm25_search_facts : string → uuid → Z → option Z → prog (list item);
  graph_backends : uuid → list graph_backend;
}.

(** The session of each concurrent leg: it is opened and bound to the organization,
    rolled back, released and closed. It shares nothing with the request's session. *)
Class LegSession := {
  open_session : leg → prog unit;
  rollback_session : leg → prog unit;
  close_session : leg → prog unit;
}.

Definition CANONICAL_EMBED_DIM : Z := 768.

Definition leg_failed (e : exn) : bool :=
  match e with AppExc SearchLegFailedError _ => true | _ => false end.
Definition search_leg_failed : exn := AppExc SearchLegFailedError "Search leg failed".

Record SearchResult := mkSearchResult {
  sr_episodes : list item;
  sr_facts : list item;
  sr_entities : list item;
  sr_total_items : Z;
  sr_degraded : bool;
  sr_failed_legs : list failure;
}.

Section retriever.
Context `{Search} `{LegSession} `{Datetime}.

Definition _embed_query (query : string) : prog embedding :=
  try_except
    (vectors ← embed_query [query];
     match vectors with
     | v :: _ =>
         if dim v =? CANONICAL_EMBED_DIM then Ret v
         else Throw (AppExc ExternalServiceError "Embedding dimension mismatch")
     | [] => Throw search_leg_failed
     end)
    (λ e, is_exception e && negb (leg_failed e)) (λ _, Throw search_leg_failed).

(** [try: p finally: q]. *)
Definition finally {A} (p : prog A) (q : prog unit) : prog A :=
  r ← catch (a ← p; Ret (inr a)) (λ e, Ret (inl e)); _ ← q; lift r.

(** [_run_leg]: any failure but a cancellation becomes [SearchLegFailedError], after a
    rollback. Without a session factory the leg runs on the request's session. What
    opening, rolling back or closing the leg's own session raises is not wrapped. *)
Definition _run_leg (shared : bool) (l : leg) (run : prog (list item)) : prog (list item) :=
  if shared then
    try_except run (λ e, is_exception e && negb (leg_failed e))
      (λ _, _ ← call Rollback; Throw search_leg_failed)
  else
    _ ← open_session l;
    finally
      (try_except run is_exception
         (λ e, _ ← rollback_session l; Throw (if leg_failed e then e else search_leg_failed)))
      (close_session l).

(** What a leg runs; the vector legs have nothing to run without an embedding. *)
Definition leg_query (l : leg) (query : string) (emb : option embedding) (project_id : uuid)
    (limit : Z) (query_time : option Z) : option (prog (list item)) :=
  match l with
  | episode_vector => option_map (λ v, vector_search_episodes v project_id limit) emb
  | fact_vector => option_map (λ v, vector_search_facts v project_id limit query_time) emb
  | episode_bm25 => Some (bm25_search_episodes query project_id limit)
  | fact_bm25 => Some (bm25_search_facts query project_id limit query_time)
  | graph_bfs => Some (_graph_bfs_search (graph_backends project_id) query query_time)
  end.

(** The leg entry points. *)
Definition run_leg (shared : bool) (l : leg) (query : string) (emb : option embedding) (project_id : uuid)
    (limit : Z) (query_time : option Z) : prog (list item) :=
  match leg_query l query emb project_id limit query_time with
  | Some p => _run_leg shared l p
  | None => Ret []
  end.

(** [_safe_leg]: the results, and whether the leg failed. *)
Definition _safe_leg (run : prog (list item)) : prog (list item * bool) :=
  try_except (r ← run; Ret (r, false)) leg_failed (λ _, Ret ([], true)).

(** The legs run to their end in the order given: one after the other on the shared
    session, or concurrently on sessions of their own, in the order they end. *)
Definition run_legs (shared : bool) (order : list leg) (query : string) (emb : option embedding)
    (project_id : uuid) (limit : Z) (query_time : option Z) (failed : list failure) :
    prog ((leg → list item) * list failure) :=
  for_fold order (λ _, [], failed)
    (λ acc l,
       '(r, bad) ← _safe_leg (run_leg shared l query emb project_id limit query_time);
       Ret (λ l', if decide (l' = l) then r else acc.1 l',
            if bad : bool then acc.2 ++ [FailedLeg l] else acc.2)).

(** Reranks both lists unless the order asked for is recency; a failure keeps what has
    been reranked so far. *)
Definition _maybe_rerank (rr : option reranker) (top_n : Z) (query : string)
    (merged_episodes merged_facts : list item) (sort : string) (failed : list failure) :
    prog (list item * list item * list failure) :=
  match rr with
  | Some rerank =>
      if negb (sort =? "relevance")%string then Ret (merged_episodes, merged_facts, failed)
      else
        es ← try_except (es ← rerank query merged_episodes top_n; Ret (Some es)) is_exception (λ _, Ret None);
        match es with
        | None => Ret (merged_episodes, merged_facts, failed ++ [FailedReranker])
        | Some es =>
            fs ← try_except (fs ← rerank query merged_facts top_n; Ret (Some fs)) is_exception (λ _, Ret None);
            match fs with
            | None => Ret (es, merged_facts, failed ++ [FailedReranker])
            | Some fs => Ret (es, fs, failed)
            end
        end
  | None => Ret (merged_episodes, merged_facts, failed)
  end.

(** The organization's re-ranker, with [top_k] and [top_n]; [order] is [None] without a
    session factory. *)
Definition hybrid_search (rr : option reranker) (top_k top_n : Z) (order : option (list leg))
    (query : string) (project_id : uuid) (limit : Z) (query_time : option Z) (sort : string) : prog SearchResult :=
  let retrieval_limit := match rr with Some _ => Z.max limit top_k | None => limit end in
  '(emb, failed) ←
    try_except (v ← _embed_query query; Ret (Some v, [])) leg_failed
      (λ _, Ret (None, [FailedLeg episode_vector; FailedLeg fact_vector]));
  '(results, failed) ←
    run_legs (bool_decide (order = None)) (default all_legs order) query emb project_id retrieval_limit
      query_time failed;
  if forallb (λ l, bool_decide (FailedLeg l ∈ failed)) all_legs then Throw search_leg_failed
  else
    let rrf_top_n := match rr with Some _ => top_k | None => limit end in
    if negb ((sort =? "relevance")%string || (sort =? "recent")%string)
    then Throw (AppExc ValidationError "Invalid sort")
    else
      let '(merged_episodes, merged_facts, entities) :=
        _merge_and_sort (results episode_vector) (results fact_vector) (results episode_bm25)
          (results fact_bm25) (results graph_bfs) limit rrf_top_n sort in
      '(merged_episodes, merged_facts, failed) ←
        _maybe_rerank rr top_n query merged_episodes merged_facts sort failed;
      Ret (mkSearchResult merged_episodes merged_facts entities
             (Z.of_nat (length merged_episodes + length merged_facts + length entities))
             (negb (length failed =? 0)%nat) failed).
End retriever.

(** * Fusion: lemmas *)

(** A document of the lists, with its rank. *)
Fixpoint enumerate {A} (n : Z) (l : list A) : list (Z * A) :=
  match l with [] => [] | x :: r => (n, x) :: enumerate (n + 1) r end.

Definition ranked (ranked_lists : list (list item)) : list (Z * item) := concat (map (enumerate 1) ranked_lists).

Definition has_id (k : string) (p : Z * item) : bool := (id_text p.2 =? k)%string.

(** The ranks of a document in every list, and the first of its occurrences. *)
Definition ranks_of (k : string) (ps : list (Z * item)) : list Z := map fst (List.filter (has_id k) ps).
Definition first_of (k : string) (ps : list (Z * item)) : option (nat * (Z * item)) := list_find (has_id k) ps.
Definition first_pos (k : string) (ps : list (Z * item)) : nat := match first_of k ps with Some p => p.1 | None => 0%nat end.

Definition note (maps : list entry) (p : Z * item) : list entry :=
  if (id_text p.2 =? EmptyString)%string then maps else note_rank (id_text p.2) p.2 p.1 maps.

Lemma note_list_fold n l maps : note_list n l maps = fold_left note (enumerate n l) maps.
Proof. revert n maps; induction l as [|i l IH]; intros n maps; [done|]. cbn. by rewrite IH. Qed.

Lemma note_lists_fold ls : note_lists ls = fold_left note (ranked ls) [].
Proof.
  unfold note_lists, ranked. generalize (@nil entry) as maps.
  induction ls as [|l ls IH]; intros maps; [done|]. cbn. by rewrite IH, fold_left_app, note_list_fold.
Qed.

Definition add_rank (k : string) (r : Z) (e : entry) : entry :=
  if (en_id e =? k)%string then mkEntry (en_id e) (en_item e) (en_ranks e ++ [r]) else e.

Lemma add_rank_id k r e : en_id (add_rank k r e) = en_id e.
Proof. unfold add_rank. by destruct (en_id e =? k)%string. Qed.

Lemma add_rank_item k r e : en_item (add_rank k r e) = en_item e.
Proof. unfold add_rank. by destruct (en_id e =? k)%string. Qed.

Lemma add_rank_other k r maps : k ∉ map en_id maps → map (add_rank k r) maps = maps.
Proof.
  induction maps as [|e maps IH]; [done|]. cbn. rewrite not_elem_of_cons. intros [He Hm].
  rewrite IH by done. unfold add_rank. by rewrite (proj2 (String.eqb_neq _ _)).
Qed.

Lemma note_rank_known k i r maps :
  NoDup (map en_id maps) → k ∈ map en_id maps → note_rank k i r maps = map (add_rank k r) maps.
Proof.
  induction maps as [|e maps IH]; cbn; [by intros _ ?%elem_of_nil|].
  rewrite NoDup_cons. intros [Hn Hd] Hk. unfold add_rank at 1. destruct (String.eqb_spec (en_id e) k) as [<-|Hne].
  - by rewrite add_rank_other.
  - rewrite IH; [done|done|]. apply elem_of_cons in Hk as [->|]; done.
Qed.

Lemma note_rank_new k i r maps :
  k ∉ map en_id maps → note_rank k i r maps = maps ++ [mkEntry k i [r]].
Proof.
  induction maps as [|e maps IH]; [done|]. cbn. rewrite not_elem_of_cons. intros [He Hm].
  rewrite (proj2 (String.eqb_neq _ _)) by done. by rewrite IH.
Qed.

(** Earlier first occurrence. *)
Definition met_before (ps : list (Z * item)) (k k' : string) : Prop := (first_pos k ps < first_pos k' ps)%nat.

(** What the maps hold after the documents [ps]. *)
Record noted (ps : list (Z * item)) (maps : list entry) : Prop := {
  noted_ids : NoDup (map en_id maps);
  noted_all : ∀ k, k ∈ map en_id maps ↔ k ≠ EmptyString ∧ ∃ p, p ∈ ps ∧ id_text p.2 = k;
  noted_order : StronglySorted (met_before ps) (map en_id maps);
  noted_ranks : ∀ e, e ∈ maps → en_ranks e = ranks_of (en_id e) ps;
  noted_item : ∀ e, e ∈ maps → ∃ n r, first_of (en_id e) ps = Some (n, (r, en_item e));
}.

Lemma first_of_snoc k ps p n x : first_of k ps = Some (n, x) → first_of k (ps ++ [p]) = Some (n, x).
Proof. apply list_find_app_l. Qed.

Lemma first_of_last k ps p :
  (∀ q, q ∈ ps → id_text q.2 ≠ k) → id_text p.2 = k → first_of k (ps ++ [p]) = Some (length ps, p).
Proof.
  intros Hn Hp. unfold first_of. rewrite list_find_app_r.
  - cbn. rewrite decide_True; [done|]. unfold has_id. by rewrite Hp, String.eqb_refl.
  - apply list_find_None, Forall_forall. intros q Hq. unfold has_id.
    intros E%Is_true_true%String.eqb_eq. by apply (Hn q Hq).
Qed.

Lemma ranks_of_snoc k ps p :
  ranks_of k (ps ++ [p]) = ranks_of k ps ++ if (id_text p.2 =? k)%string then [p.1] else [].
Proof.
  unfold ranks_of. rewrite List.filter_app, map_app. cbn. unfold has_id at 2. by destruct (id_text p.2 =? k)%string.
Qed.

Section noted.
Context (ps : list (Z * item)) (maps : list entry) (N : noted ps maps).

Lemma noted_pos k : k ∈ map en_id maps → ∃ n x, first_of k ps = Some (n, x) ∧ (n < length ps)%nat.
Proof.
  intros (e & -> & He)%list_elem_of_fmap. destruct (noted_item _ _ N e He) as (n & r & E).
  exists n, (r, en_item e). split; [done|]. apply list_find_Some in E as (E & _).
  by apply lookup_lt_Some in E.
Qed.

Lemma noted_pos_snoc k p : k ∈ map en_id maps → first_pos k (ps ++ [p]) = first_pos k ps.
Proof.
  intros (n & x & E & _)%noted_pos. unfold first_pos. by rewrite (first_of_snoc _ _ _ _ _ E), E.
Qed.

Lemma noted_order_snoc p : StronglySorted (met_before (ps ++ [p])) (map en_id maps).
Proof.
  eapply sorted_weaken; [|apply N]. intros x y Hx Hy. unfold met_before. by rewrite !noted_pos_snoc.
Qed.

Lemma noted_item_snoc e p : e ∈ maps → ∃ n r, first_of (en_id e) (ps ++ [p]) = Some (n, (r, en_item e)).
Proof. intros He. destruct (noted_item _ _ N e He) as (n & r & E). exists n, r. by apply first_of_snoc. Qed.

(** A document without an id changes nothing. *)
Lemma noted_anonymous p : id_text p.2 = EmptyString → noted (ps ++ [p]) maps.
Proof.
  intros Hp. split; [apply N| |apply noted_order_snoc| |by intros e ?; apply noted_item_snoc].
  - intros k. rewrite (noted_all _ _ N). split; intros [Hk (q & Hq & E)]; (split; [done|]).
    + exists q. split; [by apply elem_of_app; left|done].
    + exists q. split; [|done]. apply elem_of_app in Hq as [|Hq]; [done|]. apply list_elem_of_singleton in Hq. congruence.
  - intros e He. rewrite ranks_of_snoc, Hp, (noted_ranks _ _ N e He).
    assert (en_id e ≠ EmptyString) by (apply (noted_all _ _ N); by apply list_elem_of_fmap_2).
    rewrite (proj2 (String.eqb_neq _ _)) by congruence. by rewrite app_nil_r.
Qed.

(** A known document gets one more rank. *)
Lemma noted_known p : id_text p.2 ∈ map en_id maps → noted (ps ++ [p]) (map (add_rank (id_text p.2) p.1) maps).
Proof.
  intros Hp. assert (map en_id (map (add_rank (id_text p.2) p.1) maps) = map en_id maps) as E.
  { rewrite map_map. apply map_ext. intros e. apply add_rank_id. }
  split; rewrite ?E; [apply N| |apply noted_order_snoc| |].
  - intros k. rewrite (noted_all _ _ N). split; intros [Hk (q & Hq & Eq)]; (split; [done|]).
    + exists q. split; [by apply elem_of_app; left|done].
    + apply elem_of_app in Hq as [|Hq]; [by exists q|]. apply list_elem_of_singleton in Hq as ->. subst k.
      by apply (noted_all _ _ N (id_text p.2)) in Hp as [_ ?].
  - intros e (e0 & -> & He)%list_elem_of_fmap. rewrite add_rank_id, ranks_of_snoc, <- (noted_ranks _ _ N e0 He).
    unfold add_rank. rewrite (String.eqb_sym (id_text p.2)). by destruct (_ =? _)%string; rewrite ?app_nil_r.
  - intros e (e0 & -> & He)%list_elem_of_fmap. rewrite add_rank_id, add_rank_item. by apply noted_item_snoc.
Qed.

(** A new document is added last. *)
Lemma noted_new p :
  id_text p.2 ≠ EmptyString → id_text p.2 ∉ map en_id maps →
  noted (ps ++ [p]) (maps ++ [mkEntry (id_text p.2) p.2 [p.1]]).
Proof.
  intros Hp Hn. assert (∀ q, q ∈ ps → id_text q.2 ≠ id_text p.2) as Hps.
  { intros q Hq E. apply Hn, (noted_all _ _ N). split; [done|]. by exists q. }
  split.
  - rewrite map_app. apply NoDup_app. split_and!; [apply N| |apply NoDup_singleton].
    intros k Hk Hk'. apply list_elem_of_singleton in Hk'. cbn in Hk'. congruence.
  - intros k. rewrite map_app, elem_of_app, (noted_all _ _ N). cbn. rewrite list_elem_of_singleton. split.
    + intros [[Hk (q & Hq & E)]| ->]; (split; [done|]).
      * exists q. split; [by apply elem_of_app; left|done].
      * exists p. split; [apply elem_of_app; right; left|done].
    + intros [Hk (q & [Hq|Hq]%elem_of_app & E)]; [left; split; [done|]; by exists q|].
      apply list_elem_of_singleton in Hq. right. congruence.
  - rewrite map_app. apply StronglySorted_app_2; [|apply noted_order_snoc|cbn; repeat constructor].
    intros k k' Hk Hk'. apply list_elem_of_singleton in Hk'. cbn in Hk'. subst k'. unfold met_before.
    rewrite noted_pos_snoc by done. destruct (noted_pos k Hk) as (n & x & E & Hlt). unfold first_pos.
    by rewrite E, first_of_last.
  - intros e. rewrite elem_of_app, list_elem_of_singleton. intros [He| ->]; rewrite ranks_of_snoc.
    + rewrite (proj2 (String.eqb_neq _ _)), app_nil_r; [by apply N|]. intros E. apply Hn. rewrite E.
      by apply list_elem_of_fmap_2.
    + cbn. rewrite String.eqb_refl. unfold ranks_of. rewrite filter_none; [done|].
      intros q Hq. unfold has_id. by apply String.eqb_neq, Hps.
  - intros e. rewrite elem_of_app, list_elem_of_singleton. intros [He| ->]; [by apply noted_item_snoc|].
    exists (length ps), p.1. cbn. rewrite first_of_last by done. by destruct p.
Qed.
End noted.

Lemma note_noted ps : noted ps (fold_left note ps []).
Proof.
  induction ps as [|p ps IH] using rev_ind.
  - split; try constructor; try by intros ? ?%elem_of_nil.
    + by intros ?%elem_of_nil.
    + by intros [_ (p & ?%elem_of_nil & _)].
  - rewrite fold_left_app. cbn. set (maps := fold_left note ps []) in *. unfold note.
    destruct (String.eqb_spec (id_text p.2) EmptyString) as [E|E]; [by apply noted_anonymous|].
    destruct (decide (id_text p.2 ∈ map en_id maps)) as [Hin|Hout].
    + rewrite note_rank_known; [by apply noted_known|apply IH|done].
    + rewrite note_rank_new by done. by apply noted_new.
Qed.

(** The order of the merged list: the higher score first, the first met among equals. *)
Definition score_of (k : string) (ps : list (Z * item)) : Z := rrf_score (ranks_of k ps).
Definition outranks (ps : list (Z * item)) (k k' : string) : Prop :=
  score_of k' ps < score_of k ps ∨ score_of k ps = score_of k' ps ∧ met_before ps k k'.

Lemma by_rrf_total a b : by_rrf a b = true ∨ by_rrf b a = true.
Proof. unfold by_rrf. lia. Qed.

Lemma by_rrf_trans a b c : by_rrf a b = true → by_rrf b c = true → by_rrf a c = true.
Proof. unfold by_rrf. lia. Qed.

Lemma scored_id e : id_text (scored e) = id_text (en_item e).
Proof. done. Qed.

Section merged.
Context (ls : list (list item)).

(** The merged list before it is cut. *)
Definition merged : list item := sort_by by_rrf (map scored (note_lists ls)).

Lemma note_lists_noted : noted (ranked ls) (note_lists ls).
Proof. rewrite note_lists_fold. apply note_noted. Qed.

Lemma entry_id e : e ∈ note_lists ls → id_text (en_item e) = en_id e.
Proof.
  intros He. destruct (noted_item _ _ note_lists_noted e He) as (n & r & E).
  apply list_find_Some in E as (_ & E & _). by apply Is_true_true, String.eqb_eq in E.
Qed.

Lemma merged_elem i : i ∈ merged → ∃ e, e ∈ note_lists ls ∧ i = scored e ∧ id_text i = en_id e ∧
  it_rrf_score i = Some (score_of (id_text i) (ranked ls)).
Proof.
  unfold merged. rewrite sort_by_perm. intros (e & -> & He)%list_elem_of_fmap. exists e.
  rewrite scored_id, entry_id by done. split_and!; [done|done|done|]. unfold score_of.
  by rewrite <- (noted_ranks _ _ note_lists_noted e He).
Qed.

Lemma entry_ids : map id_text (map scored (note_lists ls)) = map en_id (note_lists ls).
Proof.
  rewrite map_map. apply map_ext_in. intros e He%list_elem_of_In. by rewrite scored_id, entry_id.
Qed.

Lemma merged_ids : map id_text merged ≡ₚ map en_id (note_lists ls).
Proof. unfold merged. rewrite sort_by_perm. by rewrite entry_ids. Qed.

Lemma merged_order : StronglySorted (outranks (ranked ls)) (map id_text merged).
Proof.
  assert (StronglySorted (λ a b, met_before (ranked ls) (id_text a) (id_text b)) (map scored (note_lists ls))) as H.
  { assert (∀ l : list item, StronglySorted (met_before (ranked ls)) (map id_text l) →
      StronglySorted (λ a b, met_before (ranked ls) (id_text a) (id_text b)) l) as Hl.
    { induction l as [|x l IH]; [constructor|]. cbn. intros [Hs Hx]%StronglySorted_inv.
      constructor; [auto|]. rewrite Forall_forall in Hx. apply Forall_forall. intros y Hy.
      by apply Hx, list_elem_of_fmap_2. }
    apply Hl. rewrite entry_ids. apply note_lists_noted. }
  apply (sort_by_sorted by_rrf by_rrf_total by_rrf_trans) in H. fold merged in H.
  eapply (StronglySorted_fmap id_text (λ a b, outranks (ranked ls) (id_text a) (id_text b))); [done|].
  eapply sorted_weaken; [|exact H]. cbn beta. intros a b Ha Hb [Hab Hba].
  destruct (merged_elem a Ha) as (_ & _ & _ & _ & Ea), (merged_elem b Hb) as (_ & _ & _ & _ & Eb).
  unfold outranks, by_rrf in *. rewrite Ea, Eb in *. cbn in *.
  destruct (Z.ltb_spec (score_of (id_text b) (ranked ls)) (score_of (id_text a) (ranked ls))); [by left|].
  right. split; [lia|]. apply Hba. lia.
Qed.
End merged.

(** What [_rrf_merge] returns: the documents that have an id, each once, as it first
    occurs in the lists and with the fused score of all its ranks; in order of score,
    the first met among equals; cut to the [top_n] best. *)
Theorem rrf_merge_ranking (ranked_lists : list (list item)) (top_n : Z) :
  0 ≤ top_n →
  let r := _rrf_merge ranked_lists top_n in
  let ps := ranked ranked_lists in
  (∀ i, i ∈ r → id_text i ≠ EmptyString ∧
     ∃ n rank first, first_of (id_text i) ps = Some (n, (rank, first)) ∧
       i = set_rrf (rrf_score (ranks_of (id_text i) ps)) first) ∧
  NoDup (map id_text r) ∧
  StronglySorted (outranks ps) (map id_text r) ∧
  (Z.of_nat (length r) ≤ top_n) ∧
  ∀ p, p ∈ ps → id_text p.2 ≠ EmptyString →
    id_text p.2 ∈ map id_text r ∨
    Z.of_nat (length r) = top_n ∧ ∀ k, k ∈ map id_text r → outranks ps k (id_text p.2).
Proof.
  intros Hn r ps. unfold r, _rrf_merge, slice_to. destruct (Z.ltb_spec top_n 0); [lia|].
  fold (merged ranked_lists). set (m := merged ranked_lists). set (k := Z.to_nat top_n).
  assert (map id_text m = map id_text (take k m) ++ map id_text (drop k m)) as Em.
  { by rewrite <- map_app, take_drop. }
  pose proof (merged_order ranked_lists) as Ho. fold m ps in Ho. rewrite Em in Ho.
  assert (NoDup (map id_text m)) as Hd.
  { unfold m. rewrite merged_ids. apply note_lists_noted. }
  split_and!.
  - intros i Hi. assert (i ∈ m) as Him by (rewrite <- (take_drop k m); by apply elem_of_app; left).
    destruct (merged_elem _ _ Him) as (e & He & -> & Eid & Es). rewrite Eid. split.
    + apply (noted_all _ _ (note_lists_noted ranked_lists)). by apply list_elem_of_fmap_2.
    + destruct (noted_item _ _ (note_lists_noted ranked_lists) e He) as (n & rk & E).
      exists n, rk, (en_item e). split; [exact E|]. unfold scored. do 2 f_equal.
      by apply (noted_ranks _ _ (note_lists_noted ranked_lists)).
  - rewrite Em in Hd. by apply NoDup_app in Hd as (? & _).
  - by apply StronglySorted_app_1_l in Ho.
  - rewrite length_take. lia.
  - intros p Hp Hid. assert (id_text p.2 ∈ map id_text m) as Hin.
    { unfold m. rewrite merged_ids. apply (noted_all _ _ (note_lists_noted ranked_lists)). split; [done|]. by exists p. }
    rewrite Em in Hin. apply elem_of_app in Hin as [Hin|Hin]; [by left|]. right. split.
    + rewrite length_take. assert (drop k m ≠ []) as Hne by (intros E; rewrite E in Hin; by apply elem_of_nil in Hin).
      assert (k < length m)%nat by (destruct (decide (length m ≤ k)%nat); [by rewrite drop_ge in Hne|lia]). lia.
    + intros k' Hk'. by eapply (StronglySorted_app_1_elem_of _ _ _ _ _ Ho).
Qed.

(** * Dominance *)

(** The rank of a document in one list. *)
Definition rank_in (k : string) (l : list item) : option Z :=
  option_map (λ p, p.2.1) (list_find (has_id k) (enumerate 1 l)).

(** Ranked in [l] before any occurrence of [k']. *)
Definition beats (k k' : string) (l : list item) : Prop :=
  ∀ r', rank_in k' l = Some r' → ∃ r, rank_in k l = Some r ∧ r < r'.

(** [R] between consecutive elements. *)
Fixpoint chain {A} (R : A → A → bool) (l : list A) : bool :=
  match l with
  | x :: ((y :: _) as r) => R x y && chain R r
  | _ => true
  end.

Lemma chain_lookup {A} (R : A → A → bool) (l : list A) i j x y :
  (∀ a b c, R a b = true → R b c = true → R a c = true) →
  chain R l = true → (i < j)%nat → l !! i = Some x → l !! j = Some y → R x y = true.
Proof.
  intros Ht. revert i j x y; induction l as [|a l IH]; intros i j x y Hc Hij Hx Hy; [done|].
  assert (chain R l = true ∧ ∀ b, head l = Some b → R a b = true) as [Hl Ha].
  { destruct l as [|b l]; [done|]. apply andb_true_iff in Hc as [Hab Hc]. split; [done|]. by intros ? [= <-]. }
  destruct j as [|j]; [lia|]. cbn in Hy. destruct i as [|i]; [|by apply (IH i j); auto; lia].
  injection Hx as ->. destruct l as [|b l]; [done|]. destruct j as [|j].
  - injection Hy as ->. by apply Ha.
  - apply (Ht _ b); [by apply Ha|]. by apply (IH 0%nat (S j)); auto; lia.
Qed.

Definition gtb (x y : Z) : bool := y <? x.
Fixpoint all_gtb (l m : list Z) : bool :=
  match l, m with
  | [], [] => true
  | x :: l, y :: m => gtb x y && all_gtb l m
  | _, _ => false
  end.

Lemma gtb_trans a b c : gtb a b = true → gtb b c = true → gtb a c = true.
Proof. unfold gtb. lia. Qed.

Lemma all_gtb_trans a b c : all_gtb a b = true → all_gtb b c = true → all_gtb a c = true.
Proof.
  revert b c; induction a as [|x a IH]; intros [|y b] [|z c]; try done. cbn.
  rewrite !andb_true_iff. intros [? ?] [? ?]. split; [by eapply gtb_trans|by eapply IH].
Qed.

Lemma all_gtb_lookup l m j x y : all_gtb l m = true → l !! j = Some x → m !! j = Some y → y < x.
Proof.
  revert m j; induction l as [|a l IH]; intros [|b m] [|j]; try done; cbn; rewrite andb_true_iff;
    intros [Hab Hl]; [|by eauto].
  intros [= ->] [= ->]. unfold gtb in Hab. lia.
Qed.

(** The fused score of at most one rank in each of two lists, for ranks up to 50. *)
Definition cell (a b : option spec_float) : Z := round6 (py_sum (option_list a ++ option_list b)).
Definition weights : list (option spec_float) := map (λ r, Some (rank_weight r)) (seqZ 1 50) ++ [None].
Definition table (ws : list (option spec_float)) : list (list Z) := map (λ a, map (cell a) ws) ws.

(** It falls with every rank: adjacent ranks are compared, by computation. *)
Lemma table_falls : chain all_gtb (table weights) && forallb (chain gtb) (table weights) = true.
Proof. vm_compute. reflexivity. Qed.

Definition rank_index (o : option Z) : nat := match o with Some r => Z.to_nat (r - 1) | None => 50%nat end.
Definition small_rank (o : option Z) : Prop := match o with Some r => 1 ≤ r ≤ 50 | None => True end.

Lemma weights_lookup o : small_rank o → weights !! rank_index o = Some (option_map rank_weight o).
Proof.
  unfold weights. destruct o as [r|]; cbn [rank_index small_rank option_map]; intros H.
  - rewrite lookup_app_l by (rewrite length_map, length_seqZ; lia).
    rewrite (list_lookup_fmap (λ r, Some (rank_weight r))), lookup_seqZ_lt by lia. cbn. do 3 f_equal. lia.
  - rewrite lookup_app_r; rewrite length_map, length_seqZ; done.
Qed.

Lemma table_row a : small_rank a →
  table weights !! rank_index a = Some (map (cell (option_map rank_weight a)) weights).
Proof. intros H. unfold table. rewrite (list_lookup_fmap (λ a, map (cell a) weights)), weights_lookup by done. done. Qed.

Definition cell_at (a b : option Z) : Z := cell (option_map rank_weight a) (option_map rank_weight b).

Lemma row_entry a b : small_rank b →
  map (cell (option_map rank_weight a)) weights !! rank_index b = Some (cell_at a b).
Proof. intros H. by rewrite (list_lookup_fmap (cell _)), weights_lookup by done. Qed.

Lemma cell_falls_l a a' b : small_rank a → small_rank a' → small_rank b →
  (rank_index a < rank_index a')%nat → cell_at a' b < cell_at a b.
Proof.
  intros Ha Ha' Hb Hlt. pose proof table_falls as [Hc _]%andb_true_iff.
  eapply all_gtb_lookup; [|by apply row_entry..].
  by eapply (chain_lookup _ _ _ _ _ _ all_gtb_trans Hc Hlt); apply table_row.
Qed.

Lemma cell_falls_r a b b' : small_rank a → small_rank b → small_rank b' →
  (rank_index b < rank_index b')%nat → cell_at a b' < cell_at a b.
Proof.
  intros Ha Hb Hb' Hlt. pose proof table_falls as [_ Hc]%andb_true_iff.
  apply forallb_Forall_true in Hc. rewrite Forall_forall in Hc.
  specialize (Hc _ (list_elem_of_lookup_2 _ _ _ (table_row a Ha))).
  pose proof (chain_lookup _ _ _ _ _ _ gtb_trans Hc Hlt (row_entry a b Hb) (row_entry a b' Hb')) as H.
  unfold gtb in H. lia.
Qed.

Lemma enumerate_lookup {A} n (l : list A) j p :
  enumerate n l !! j = Some p → p.1 = n + Z.of_nat j ∧ l !! j = Some p.2.
Proof.
  revert n j; induction l as [|x l IH]; intros n [|j]; try done; cbn.
  - intros [= <-]. split; [cbn; lia|done].
  - intros [H1 H2]%IH. split; [lia|done].
Qed.

Lemma enumerate_snd {A} n (l : list A) : map snd (enumerate n l) = l.
Proof. revert n; induction l as [|x l IH]; intros n; [done|]. cbn. by rewrite IH. Qed.

Lemma rank_in_Some k l r :
  rank_in k l = Some r → ∃ j i, l !! j = Some i ∧ id_text i = k ∧ r = 1 + Z.of_nat j.
Proof.
  unfold rank_in. destruct (list_find _ _) as [[j [n i]]|] eqn:E; [|done]. cbn. intros [= <-].
  apply list_find_Some in E as (E & Ek & _). apply enumerate_lookup in E as [E1 E2]. cbn in *.
  exists j, i. split_and!; [done|by apply String.eqb_eq, Is_true_true|done].
Qed.

Lemma rank_in_small k l : (length l ≤ 50)%nat → small_rank (rank_in k l).
Proof.
  intros Hl. destruct (rank_in k l) as [r|] eqn:E; [|done].
  destruct (rank_in_Some _ _ _ E) as (j & i & Hj%lookup_lt_Some & _ & ->). cbn. lia.
Qed.

(** In a list without repetition a document has one rank at most. *)
Lemma ranks_once k n l :
  NoDup (map id_text l) →
  ranks_of k (enumerate n l) = option_list (option_map (λ p, p.2.1) (list_find (has_id k) (enumerate n l))).
Proof.
  revert n; induction l as [|i l IH]; intros n; [done|]. cbn [enumerate map]. rewrite NoDup_cons. intros [Hi Hl].
  unfold ranks_of in *. cbn. unfold has_id at 1. cbn [snd]. destruct (String.eqb_spec (id_text i) k) as [E|E].
  - rewrite decide_True by (unfold has_id; cbn; by rewrite E, String.eqb_refl). cbn. f_equal.
    rewrite filter_none; [done|]. intros p Hp. unfold has_id. apply String.eqb_neq. intros Ep.
    apply Hi. rewrite E, <- Ep, <- (enumerate_snd (n + 1) l), map_map. apply list_elem_of_fmap. by exists p.
  - rewrite decide_False by (unfold has_id; cbn; rewrite (proj2 (String.eqb_neq _ _)) by done; intros []).
    rewrite IH by done.
    by destruct (list_find _ _) as [[]|].
Qed.

Lemma score_of_pair k l1 l2 :
  NoDup (map id_text l1) → NoDup (map id_text l2) →
  score_of k (ranked [l1; l2]) = cell_at (rank_in k l1) (rank_in k l2).
Proof.
  intros H1 H2. unfold score_of, rrf_score, cell_at, cell, ranked. cbn [map concat]. rewrite app_nil_r.
  unfold ranks_of. rewrite List.filter_app, map_app.
  fold (ranks_of k (enumerate 1 l1)) (ranks_of k (enumerate 1 l2)). rewrite !ranks_once, map_app by done.
  fold (rank_in k l1) (rank_in k l2). by destruct (rank_in k l1), (rank_in k l2).
Qed.

Lemma rank_in_occurs k l p : p ∈ enumerate 1 l → id_text p.2 = k → is_Some (rank_in k l).
Proof.
  intros Hp Hk. unfold rank_in. destruct (list_find_elem_of (has_id k) _ _ Hp) as [x Ex].
  - unfold has_id. by rewrite Hk, String.eqb_refl.
  - rewrite Ex. by eexists.
Qed.

Lemma beats_index k k' l : (length l ≤ 50)%nat → beats k k' l →
  rank_index (rank_in k l) = rank_index (rank_in k' l) ∧ rank_in k l = rank_in k' l ∧ rank_in k' l = None ∨
  (rank_index (rank_in k l) < rank_index (rank_in k' l))%nat.
Proof.
  intros Hl Hb. pose proof (rank_in_small k l Hl) as Hs. pose proof (rank_in_small k' l Hl) as Hs'.
  destruct (rank_in k' l) as [r'|] eqn:E'; cbn in *.
  - destruct (Hb r' E') as (r & E & Hr). rewrite E in *. cbn in *. right. lia.
  - destruct (rank_in k l) as [r|]; cbn in *; [right; lia|by left].
Qed.

(** Better in both lists, better in the fusion. *)
Lemma dominance_score k k' l1 l2 :
  NoDup (map id_text l1) → NoDup (map id_text l2) → (length l1 ≤ 50)%nat → (length l2 ≤ 50)%nat →
  beats k k' l1 → beats k k' l2 → (is_Some (rank_in k' l1) ∨ is_Some (rank_in k' l2)) →
  score_of k' (ranked [l1; l2]) < score_of k (ranked [l1; l2]).
Proof.
  intros H1 H2 L1 L2 B1 B2 Hk'. rewrite !score_of_pair by done.
  pose proof (rank_in_small k l1 L1). pose proof (rank_in_small k' l1 L1).
  pose proof (rank_in_small k l2 L2). pose proof (rank_in_small k' l2 L2).
  destruct (beats_index k k' l1 L1 B1) as [(_ & E1 & N1)|I1], (beats_index k k' l2 L2 B2) as [(_ & E2 & N2)|I2].
  - destruct Hk' as [[? E]|[? E]]; congruence.
  - rewrite E1. by apply cell_falls_r.
  - rewrite E2. by apply cell_falls_l.
  - etrans; [by apply (cell_falls_r (rank_in k' l1) (rank_in k l2) (rank_in k' l2))|by apply cell_falls_l].
Qed.

(** Fusion respects agreement: a document that is ranked before another in each of
    the two lists that holds the other precedes it in the merged list, and is there
    whenever the other is. *)
Theorem rrf_dominance (l1 l2 : list item) (top_n : Z) (k k' : string) (j' : nat) :
  0 ≤ top_n → (length l1 ≤ 50)%nat → (length l2 ≤ 50)%nat →
  NoDup (map id_text l1) → NoDup (map id_text l2) → k ≠ EmptyString →
  beats k k' l1 → beats k k' l2 →
  let r := map id_text (_rrf_merge [l1; l2] top_n) in
  r !! j' = Some k' → ∃ j, (j < j')%nat ∧ r !! j = Some k.
Proof.
  intros Hn L1 L2 H1 H2 Hk B1 B2 r Hj'. unfold r, _rrf_merge, slice_to in *. destruct (Z.ltb_spec top_n 0); [lia|].
  fold (merged [l1; l2]) in *. set (m := merged [l1; l2]) in *. set (n := Z.to_nat top_n) in *.
  assert (map id_text (take n m) = take n (map id_text m)) as Et by (apply (fmap_take id_text)).
  rewrite Et in *. apply lookup_take_Some in Hj' as [Hj' Hlt].
  assert (∀ x, x ∈ map id_text m ↔ x ≠ EmptyString ∧ ∃ p, p ∈ ranked [l1; l2] ∧ id_text p.2 = x) as Hm.
  { intros x. unfold m. rewrite merged_ids. apply note_lists_noted. }
  assert (∀ x p, p ∈ ranked [l1; l2] → id_text p.2 = x → is_Some (rank_in x l1) ∨ is_Some (rank_in x l2)) as Hr.
  { intros x p. unfold ranked. cbn. rewrite app_nil_r. intros [Hp|Hp]%elem_of_app E; [left|right];
      by eapply rank_in_occurs. }
  assert (is_Some (rank_in k' l1) ∨ is_Some (rank_in k' l2)) as Hk'.
  { apply list_elem_of_lookup_2, Hm in Hj' as (_ & p & Hp & E). by eapply Hr. }
  pose proof (dominance_score k k' l1 l2 H1 H2 L1 L2 B1 B2 Hk') as Hs.
  assert (k ∈ map id_text m) as Hkm.
  { apply Hm. split; [done|]. unfold ranked. cbn. rewrite app_nil_r.
    assert (is_Some (rank_in k l1) ∨ is_Some (rank_in k l2)) as [[q E]|[q E]].
    { destruct Hk' as [[q' E]|[q' E]]; [destruct (B1 q' E) as (? & ? & _)|destruct (B2 q' E) as (? & ? & _)]; eauto. }
    all: unfold rank_in in E; destruct (list_find _ _) as [[j p]|] eqn:F; [|done].
    all: apply list_find_Some in F as (Fj & Fk & _); exists p; split; [|by apply String.eqb_eq, Is_true_true].
    all: apply elem_of_app; apply list_elem_of_lookup_2 in Fj; auto. }
  apply list_elem_of_lookup in Hkm as [j Hj]. exists j.
  pose proof (merged_order [l1; l2]) as Ho. fold m in Ho.
  assert (j < j')%nat as Hjj.
  { destruct (lt_eq_lt_dec j j') as [[|E]|Hgt]; [done| |].
    - subst j'. assert (k = k') by congruence. subst k'. lia.
    - assert (outranks (ranked [l1; l2]) k' k) as Hout.
      { rewrite <- (take_drop (S j') (map id_text m)) in Ho. eapply (StronglySorted_app_1_elem_of _ _ _ _ _ Ho).
        - apply list_elem_of_lookup. exists j'. apply lookup_take_Some. split; [done|lia].
        - apply list_elem_of_lookup. exists (j - S j')%nat. rewrite lookup_drop. rewrite <- Hj. f_equal. lia. }
      unfold outranks in Hout. lia. }
  split; [done|]. apply lookup_take_Some. split; [done|lia].
Qed.

(** * Degradation *)

Section degradation.
Context `{Search} `{LegSession} `{Datetime}.
Context (query : string) (project_id : uuid) (limit : Z) (query_time : option Z).
Context (vectors : exn + list embedding) (answer : leg → exn + list item).
Context (opened rolled closed : leg → exn + unit) (reranked : list item → exn + list item).

(** The embedding the search goes on with. *)
Definition embedded : option embedding :=
  match vectors with
  | inr (v :: _) => if dim v =? CANONICAL_EMBED_DIM then Some v else None
  | _ => None
  end.

Definition query_of (l : leg) : option (prog (list item)) := leg_query l query embedded project_id limit query_time.

(** What a leg finds, and whether it is named as failed. *)
Definition found (l : leg) : list item :=
  match query_of l, answer l with Some _, inr r => r | _, _ => [] end.
Definition failing (l : leg) : bool :=
  match query_of l with Some _ => negb (is_ok (answer l)) | None => true end.
Definition failing_itself (l : leg) : bool :=
  match query_of l with Some _ => negb (is_ok (answer l)) | None => false end.

(** What a leg on a session of its own lets out beside its result: the failure of the
    session, which is opened for a leg with something to run, rolled back when it
    failed, and closed. *)
Definition escape (shared : bool) (l : leg) : option exn :=
  if shared then None
  else match query_of l, opened l, closed l, answer l, rolled l with
       | None, _, _, _, _ => None
       | Some _, inl e, _, _, _ => Some e
       | Some _, inr _, inl e, _, _ => Some e
       | Some _, inr _, inr _, inl _, inl e => Some e
       | _, _, _, _, _ => None
       end.

(** The lists re-ranked, and whether the re-ranker failed: the episodes first, then the
    facts; a list it failed on and those after it stay as they were. *)
Definition reranking (asked : bool) (es fs : list item) : list item * list item * bool :=
  if asked then
    match reranked es with
    | inl _ => (es, fs, true)
    | inr es' => match reranked fs with inl _ => (es', fs, true) | inr fs' => (es', fs', false) end
    end
  else (es, fs, false).

(** The services answer, or fail with an ordinary exception, the same in every state. *)
Definition plain_answer {A} (r : exn + A) : Prop := match r with inl e => is_exception e = true | inr _ => True end.

Record services : Prop := {
  embedder_answers : ∀ s : state, run (embed_query [query]) s = (vectors, s);
  embedder_plain : plain_answer vectors;
  leg_answers : ∀ l p, query_of l = Some p → ∀ s : state, run p s = (answer l, s);
  leg_plain : ∀ l, plain_answer (answer l);
  sessions_answer : ∀ l (s : state), run (open_session l) s = (opened l, s) ∧
    run (rollback_session l) s = (rolled l, s) ∧ run (close_session l) s = (closed l, s);
  sessions_own : ∀ l e, e ∈ omap (λ r, match r with inl e => Some e | inr _ => None end) [opened l; rolled l; closed l] →
    leg_failed e = false;
}.
Context (SV : services).

Lemma run_embed (s : state) :
  run (try_except (v ← _embed_query query; Ret (Some v, [])) leg_failed
         (λ _, Ret (None, [FailedLeg episode_vector; FailedLeg fact_vector]))) s =
  (inr (embedded, if embedded is Some _ then [] else [FailedLeg episode_vector; FailedLeg fact_vector]), s).
Proof.
  unfold _embed_query, try_except. rewrite run_catch, run_bind, run_catch, run_bind, (embedder_answers SV).
  pose proof (embedder_plain SV) as Hp. unfold embedded. destruct vectors as [e|[|v vs]]; cbn in *.
  - rewrite Hp. cbn. by destruct (leg_failed e) eqn:E; cbn; rewrite ?E.
  - done.
  - by destruct (dim v =? CANONICAL_EMBED_DIM).
Qed.

(** A leg fails the search only by its session. *)
Lemma run_safe_leg shared l (s : state) :
  ∃ s', run (_safe_leg (run_leg shared l query embedded project_id limit query_time)) s =
    (match escape shared l with Some e => inl e | None => inr (found l, failing_itself l) end, s').
Proof.
  unfold _safe_leg, run_leg, found, failing_itself, escape, query_of.
  destruct (leg_query l query embedded project_id limit query_time) as [p|] eqn:E; [|destruct shared; by eexists].
  pose proof (leg_answers SV l p E) as Ha. pose proof (leg_plain SV l) as Hp.
  destruct (sessions_answer SV l s) as (Ho & Hr & Hc). pose proof (sessions_own SV l) as Hs.
  unfold _run_leg, finally, try_except. rewrite run_catch, run_bind. destruct shared.
  - rewrite run_catch, Ha. destruct (answer l) as [e|r]; cbn in *; [|by eexists].
    rewrite Hp. destruct (leg_failed e) eqn:El; cbn; rewrite ?El; by eexists.
  - rewrite run_bind, Ho. destruct (opened l) as [e|[]]; [rewrite (Hs e) by left; by eexists|].
    rewrite run_bind, run_catch, run_bind, run_catch, Ha. cbn in Hs.
    destruct (answer l) as [e|r]; cbn in *; [rewrite Hp, run_bind, Hr|].
    + destruct (rolled l) as [e'|[]], (closed l) as [e''|[]]; cbn in *; rewrite run_bind, Hc; cbn.
      * rewrite (Hs e'') by (right; left). by eexists.
      * rewrite (Hs e') by left. by eexists.
      * rewrite (Hs e'') by left. destruct (leg_failed e); by eexists.
      * destruct (leg_failed e) eqn:El; cbn; rewrite ?El; by eexists.
    + rewrite run_bind, Hc. destruct (closed l) as [e''|[]]; cbn in *; [|by eexists].
      rewrite (Hs e''); [by eexists|]. destruct (rolled l); cbn; [right; left|left].
Qed.

(** The legs run to their end when no session fails; else the first failure of a
    session is raised. *)
Lemma run_all_legs shared order failed res (s : state) :
  NoDup order →
  ∃ s' res', run (for_fold order (res, failed)
       (λ acc l,
          '(r, bad) ← _safe_leg (run_leg shared l query embedded project_id limit query_time);
          Ret (λ l', if decide (l' = l) then r else acc.1 l',
               if bad : bool then acc.2 ++ [FailedLeg l] else acc.2))) s =
    (match omap (escape shared) order with
     | e :: _ => inl e
     | [] => inr (res', failed ++ map FailedLeg (List.filter failing_itself order))
     end, s') ∧
    (∀ l, l ∈ order → res' l = found l) ∧ (∀ l, l ∉ order → res' l = res l).
Proof.
  revert failed res s; induction order as [|l order IH]; intros failed res s Hd.
  - exists s, res. cbn. rewrite app_nil_r. split_and!; [done| |done]. by intros l ?%elem_of_nil.
  - apply NoDup_cons in Hd as [Hl Hd]. cbn [for_fold]. rewrite run_bind, run_bind.
    destruct (run_safe_leg shared l s) as [s1 ->].
    destruct (IH (if failing_itself l then failed ++ [FailedLeg l] else failed)
      (λ l', if decide (l' = l) then found l else res l') s1 Hd) as (s' & res' & E & Hin & Hout).
    exists (if escape shared l is Some _ then s1 else s'), res'. split; [|split].
    + cbn [omap list_omap]. destruct (escape shared l) as [e|]; [done|]. cbn [run fst snd]. rewrite E. f_equal.
      destruct (omap _ _); [|done]. cbn. destruct (failing_itself l); [|done]. by rewrite <- app_assoc.
    + intros l' [->|Hl']%elem_of_cons; [|by apply Hin]. rewrite Hout by done. by rewrite decide_True.
    + intros l' [Hne Hl']%not_elem_of_cons. rewrite Hout by done. by rewrite decide_False.
Qed.

(** Every leg is run once, in some order when they run concurrently. *)
Definition complete (order : option (list leg)) : Prop := match order with Some o => o ≡ₚ all_legs | None => True end.

(** The re-ranker answers, or fails with an ordinary exception, the same in every state. *)
Definition rerank_answers (rr : option reranker) (top_n : Z) : Prop :=
  match rr with
  | None => True
  | Some rerank => ∀ c, plain_answer (reranked c) ∧ ∀ s : state, run (rerank query c top_n) s = (reranked c, s)
  end.

Definition rerank_asked (rr : option reranker) (sort : string) : bool :=
  match rr with Some _ => (sort =? "relevance")%string | None => false end.

(** What a failing re-ranker adds. *)
Definition reranker_named (bad : bool) : list failure := if bad then [FailedReranker] else [].

Lemma reranker_named_elem bad f : f ∈ reranker_named bad ↔ f = FailedReranker ∧ bad = true.
Proof. destruct bad; cbn; [rewrite list_elem_of_singleton|rewrite elem_of_nil]; naive_solver. Qed.

Lemma reranker_named_NoDup bad : NoDup (reranker_named bad).
Proof. destruct bad; apply (bool_decide_unpack _); exact I. Qed.

Lemma run_reranking rr top_n es fs sort failed (s : state) :
  rerank_answers rr top_n →
  run (_maybe_rerank rr top_n query es fs sort failed) s =
  (let '(es', fs', bad) := reranking (rerank_asked rr sort) es fs in inr (es', fs', failed ++ reranker_named bad), s).
Proof.
  intros Hrr. destruct rr as [rerank|]; cbn; [|by rewrite app_nil_r].
  destruct (sort =? "relevance")%string; cbn; [|by rewrite app_nil_r].
  destruct (Hrr es) as [Pe He], (Hrr fs) as [Pf Hf].
  unfold try_except. rewrite run_bind, run_catch, run_bind, He.
  destruct (reranked es) as [e|es']; cbn in *; [by rewrite Pe|].
  rewrite run_bind, run_catch, run_bind, Hf.
  destruct (reranked fs) as [e|fs']; cbn in *; [by rewrite Pf|]. by rewrite app_nil_r.
Qed.

(** The legs named before and by the fan-out. *)
Definition named (order : list leg) : list failure :=
  (if embedded is Some _ then [] else [FailedLeg episode_vector; FailedLeg fact_vector]) ++
  map FailedLeg (List.filter failing_itself order).

Lemma named_elem order f : order ≡ₚ all_legs → f ∈ named order ↔ ∃ l, f = FailedLeg l ∧ failing l = true.
Proof.
  clear SV. intros Ho. unfold named. rewrite elem_of_app, list_elem_of_fmap.
  assert (∀ l, l ∈ List.filter failing_itself order ↔ failing_itself l = true) as Hf.
  { intros l. rewrite filter_elem, Ho. split; [by intros []|]. intros Hl. split; [|done]. destruct l; set_solver. }
  setoid_rewrite Hf. unfold failing, failing_itself, query_of. destruct embedded as [v|]; cbn.
  - split; [intros [?%elem_of_nil|(l & -> & Hl)]; [done|exists l; split; [done|by destruct l]]|].
    intros (l & -> & Hl). right. exists l. split; [done|by destruct l].
  - split.
    + intros [Hl|(l & -> & Hl)]; [|exists l; split; [done|by destruct l]].
      apply elem_of_cons in Hl as [->|Hl]; [by exists episode_vector|].
      apply list_elem_of_singleton in Hl as ->. by exists fact_vector.
    + intros (l & -> & Hl). destruct l; cbn in *; [left; left|left; right; left|right..]; by eexists.
Qed.

Lemma named_leg order l : order ≡ₚ all_legs → bool_decide (FailedLeg l ∈ named order) = failing l.
Proof.
  intros Ho. destruct (failing l) eqn:E.
  - apply bool_decide_eq_true, named_elem; [done|]. by exists l.
  - apply bool_decide_eq_false. rewrite named_elem by done. intros (? & [= <-] & ?). congruence.
Qed.

Lemma named_NoDup order : order ≡ₚ all_legs → NoDup (named order).
Proof.
  intros Ho. unfold named. assert (NoDup order) as Hd by (rewrite Ho; apply (bool_decide_unpack _); exact I).
  apply NoDup_app. split_and!.
  - destruct embedded; apply (bool_decide_unpack _); exact I.
  - intros f Hf (l & -> & [_ Hl]%filter_elem)%list_elem_of_fmap. unfold failing_itself, query_of in Hl.
    destruct embedded; cbn in *; [by apply elem_of_nil in Hf|].
    apply elem_of_cons in Hf as [[= ->]|Hf]; [done|]. by apply list_elem_of_singleton in Hf as [= ->].
  - apply (NoDup_fmap_2_strong FailedLeg); [by intros ? ? _ _ [=]|].
    apply NoDup_ListNoDup, List.NoDup_filter, NoDup_ListNoDup, Hd.
Qed.
End degradation.

(** C17. A search degrades, it does not fail: whatever the embedder, the legs, their
    sessions, the re-ranker and the order in which concurrent legs end do, with one
    exception it raises only when all five legs failed (or the sort is unknown);
    otherwise it returns the fusion of what the other legs found, re-ranked as far as
    the re-ranker answers, with exactly the failed legs named, and the re-ranker if and
    only if it was asked and failed. The exception: when the session of a concurrent
    leg cannot be opened, rolled back or closed, the search raises the first such
    failure, however much the other legs found. *)
Theorem search_degrades `{Search, LegSession, Datetime} (query : string) (project_id : uuid) (limit : Z)
    (query_time : option Z) (vectors : exn + list embedding) (answer : leg → exn + list item)
    (opened rolled closed : leg → exn + unit) (reranked : list item → exn + list item)
    (rr : option reranker) (top_k top_n : Z) (order : option (list leg)) (sort : string) (s : state) :
  let pool := match rr with Some _ => top_k | None => limit end in
  let asked := match rr with Some _ => Z.max limit top_k | None => limit end in
  let found := found query project_id asked query_time vectors answer in
  let failing := failing query project_id asked query_time vectors answer in
  let escape := escape query project_id asked query_time vectors answer opened rolled closed (bool_decide (order = None)) in
  services query project_id asked query_time vectors answer opened rolled closed →
  complete order → rerank_answers query reranked rr top_n →
  let r := (run (hybrid_search rr top_k top_n order query project_id limit query_time sort) s).1 in
  match omap escape (default all_legs order) with
  | e :: _ => r = inl e
  | [] =>
      if forallb failing all_legs then r = inl search_leg_failed
      else if (sort =? "relevance")%string || (sort =? "recent")%string then
        let '(es, fs, ents) :=
          _merge_and_sort (found episode_vector) (found fact_vector) (found episode_bm25) (found fact_bm25)
            (found graph_bfs) limit pool sort in
        let '(es, fs, bad) := reranking reranked (rerank_asked rr sort) es fs in
        ∃ res, r = inr res ∧
          sr_episodes res = es ∧ sr_facts res = fs ∧ sr_entities res = ents ∧
          NoDup (sr_failed_legs res) ∧
          (∀ l, FailedLeg l ∈ sr_failed_legs res ↔ failing l = true) ∧
          (FailedReranker ∈ sr_failed_legs res ↔ bad = true) ∧
          sr_degraded res = bool_decide (sr_failed_legs res ≠ [])
      else r = inl (AppExc ValidationError "Invalid sort")
  end.
Proof.
  intros pool asked fnd flg esc SV Ho Hrr. cbv zeta. unfold hybrid_search. fold asked.
  rewrite run_bind, (run_embed _ _ _ _ _ _ _ _ _ SV), run_bind. unfold run_legs.
  assert (default all_legs order ≡ₚ all_legs) as Hord by (by destruct order).
  assert (NoDup (default all_legs order)) as Hnd by (rewrite Hord; apply (bool_decide_unpack _); exact I).
  destruct (run_all_legs _ _ _ _ _ _ _ _ _ SV (bool_decide (order = None)) _
    (if embedded vectors is Some _ then [] else [FailedLeg episode_vector; FailedLeg fact_vector])
    (λ _, []) s Hnd) as (s' & res & -> & Hin & _). fold esc.
  destruct (omap esc _) as [|e es0]; [|done].
  fold (named query project_id asked query_time vectors answer (default all_legs order)).
  set (nm := named query project_id asked query_time vectors answer (default all_legs order)).
  assert (∀ l, bool_decide (FailedLeg l ∈ nm) = flg l) as Hb by (intros l; by apply named_leg).
  assert (forallb (λ l, bool_decide (FailedLeg l ∈ nm)) all_legs = forallb flg all_legs) as ->.
  { cbn. by rewrite !Hb. }
  destruct (forallb flg all_legs); [done|].
  destruct ((sort =? "relevance")%string || (sort =? "recent")%string); [|done]. cbn [negb].
  assert (∀ l, res l = fnd l) as Hres by (intros l; apply Hin; rewrite Hord; destruct l; set_solver).
  rewrite !Hres. fold pool.
  destruct (_merge_and_sort _ _ _ _ _ _ _ _) as [[es fs] ents].
  rewrite run_bind, (run_reranking _ reranked) by done.
  destruct (reranking _ _ _ _) as [[es' fs'] bad].
  eexists. split; [done|]. cbn. split_and!; [done|done|done| | | |].
  - apply NoDup_app. split_and!; [by apply named_NoDup| |apply reranker_named_NoDup].
    intros f Hf (-> & _)%reranker_named_elem. apply named_elem in Hf as (? & ? & _); done.
  - intros l. rewrite elem_of_app, <- Hb, bool_decide_eq_true, reranker_named_elem. intuition congruence.
  - rewrite elem_of_app, reranker_named_elem. split; [|tauto].
    intros [Hf|]; [|tauto]. apply named_elem in Hf as (? & ? & _); done.
  - by destruct (nm ++ _).
Qed.

(** * What a reader might not expect *)

Definition doc (id : string) : item := mkItem (StrId id) NoStamp (Some id) None None None [].
Definition at_distance (d : Z) (i : item) : item :=
  mkItem (it_id i) (it_created_at i) (it_content i) (Some d) (it_rrf_score i) (it_reranker_score i) (it_rest i).

(** A document a list repeats collects every one of its ranks there. *)
Example repeated_document_outranks :
  map id_text (_rrf_merge [[doc "a"; doc "b"; doc "b"]] 10) = ["b"; "a"]%string.
Proof. vm_compute. reflexivity. Qed.

(** Of an entity two backends know, the first backend's distance is kept, not the lower. *)
Example first_backend_wins :
  let far : graph_backend := λ _ _, Ret (Some [Some (at_distance 3 (doc "e"))]) in
  let near : graph_backend := λ _ _, Ret (Some [Some (at_distance 1 (doc "e"))]) in
  (run (_graph_bfs_search [far; near] "q" None) empty_state).1 = inr [at_distance 3 (doc "e")].
Proof. vm_compute. reflexivity. Qed.

(** Cohere numbers the documents it was sent, which leave out candidates without content;
    the scores are read back by position among all candidates. The document about [b],
    scored best, gets nothing, and the candidate without content gets its score. *)
Example cohere_scores_misplaced :
  let half : spec_float := fdiv (of_int 1) (of_int 2) in
  let client : cohere_client := λ _ _ _, inr [(0, half)] in
  let predict : cross_encoder := λ _ _, inr [half] in
  let blank := mkItem (StrId "x") NoStamp None None None None [] in
  (run (cohere_rerank client "q" [blank; doc "b"] 1) empty_state).1 = inr [set_reranker 500000 blank] ∧
  (run (sentence_transformers_rerank predict "q" [blank; doc "b"] 1) empty_state).1
    = inr [set_reranker 500000 (doc "b")].
Proof. vm_compute. split; reflexivity. Qed.

(** A re-ranker that fails on the facts only leaves the episodes reranked and cut. *)
Example half_reranked :
  let rerank : reranker := λ _ c _, match c with
                                    | [_] => Throw (RuntimeError "down")
                                    | _ => Ret (take 1 (rev c))
                                    end in
  (run (_maybe_rerank (Some rerank) 1 "q" [doc "a"; doc "b"] [doc "f"] "relevance" []) empty_state).1
    = inr ([doc "b"], [doc "f"], [FailedReranker]).
Proof. vm_compute. reflexivity. Qed.

(** ** Witnesses *)

Definition two_lists : list (list item) := [[doc "a"; doc "b"; doc "c"]; [doc "b"; doc ""; doc "d"]].

Lemma rrf_merge_ranking_witness :
  let r := _rrf_merge two_lists 3 in
  let ps := ranked two_lists in
  (∀ i, i ∈ r → id_text i ≠ EmptyString ∧
     ∃ n rank first, first_of (id_text i) ps = Some (n, (rank, first)) ∧
       i = set_rrf (rrf_score (ranks_of (id_text i) ps)) first) ∧
  NoDup (map id_text r) ∧
  StronglySorted (outranks ps) (map id_text r) ∧
  (Z.of_nat (length r) ≤ 3) ∧
  ∀ p, p ∈ ps → id_text p.2 ≠ EmptyString →
    id_text p.2 ∈ map id_text r ∨
    Z.of_nat (length r) = 3 ∧ ∀ k, k ∈ map id_text r → outranks ps k (id_text p.2).
Proof. apply (rrf_merge_ranking two_lists 3). discriminate. Defined.

Lemma rrf_dominance_witness :
  ∃ j, (j < 1)%nat ∧
    map id_text (_rrf_merge [[doc "a"; doc "b"; doc "c"]; [doc "b"; doc "d"; doc "c"]] 3) !! j = Some "b"%string.
Proof.
  apply (rrf_dominance [doc "a"; doc "b"; doc "c"] [doc "b"; doc "d"; doc "c"] 3 "b" "c" 1).
  - discriminate.
  - apply (bool_decide_unpack _). vm_compute. exact I.
  - apply (bool_decide_unpack _). vm_compute. exact I.
  - apply (bool_decide_unpack _). vm_compute. exact I.
  - apply (bool_decide_unpack _). vm_compute. exact I.
  - discriminate.
  - intros r. vm_compute. intros [= <-]. exists 2. by split.
  - intros r. vm_compute. intros [= <-]. exists 1. by split.
  - vm_compute. reflexivity.
Defined.

(** The embedder is down, the fact index fails, the other legs find something. *)
Definition poor_search : Search := {|
  embedding := unit;
  dim := λ _, 768;
  embed_query := λ _, Throw (AppExc ExternalServiceError "down");
  vector_search_episodes := λ _ _ _, Ret [];
  vector_search_facts := λ _ _ _ _, Ret [];
  bm25_search_episodes := λ _ _ _, Ret [doc "a"; doc "b"];
  bm25_search_facts := λ _ _ _ _, Throw (DatabaseError "down");
  graph_backends := λ _, [λ _ _, Ret (Some [Some (doc "e")])];
|}.
(** The database refuses the sessions of the legs in [refused]. *)
Definition sessions_but (refused : list leg) : LegSession := {|
  open_session := λ l, if decide (l ∈ refused) then Throw (DatabaseError "too many clients") else Ret tt;
  rollback_session := λ _, Ret tt;
  close_session := λ _, Ret tt;
|}.
Definition ready_sessions : LegSession := sessions_but [].
Definition no_answer (l : leg) : exn + unit := inr tt.
Definition no_iso_dates : Datetime := {| fromisoformat := λ _, inl (ValueError "Invalid isoformat string") |}.
Definition broken_reranker : reranker := λ _ _ _, Throw (RuntimeError "no model").

Definition poor_answer (l : leg) : exn + list item :=
  match l with
  | episode_bm25 => inr [doc "a"; doc "b"]
  | fact_bm25 => inl (DatabaseError "down")
  | graph_bfs => inr [doc "e"]
  | _ => inr []
  end.

(** Four legs can answer, but the fifth finds no session: the search fails. *)
Example one_session_down :
  (run (hybrid_search (H := poor_search) (H0 := sessions_but [graph_bfs]) (H1 := no_iso_dates)
      None 50 10 (Some all_legs) "q" 1 20 None "relevance") empty_state).1 = inl (DatabaseError "too many clients") ∧
  is_ok (run (hybrid_search (H := poor_search) (H0 := ready_sessions) (H1 := no_iso_dates)
      None 50 10 (Some all_legs) "q" 1 20 None "relevance") empty_state).1 = true.
Proof. vm_compute. done. Qed.

Lemma search_degrades_witness :
  let found := found (H := poor_search) "q" 1 50 None (inl (AppExc ExternalServiceError "down")) poor_answer in
  let failing := failing (H := poor_search) "q" 1 50 None (inl (AppExc ExternalServiceError "down")) poor_answer in
  let escape := escape (H := poor_search) "q" 1 50 None (inl (AppExc ExternalServiceError "down")) poor_answer
    no_answer no_answer no_answer false in
  let r := (run (hybrid_search (H := poor_search) (H0 := ready_sessions) (H1 := no_iso_dates)
      (Some broken_reranker) 50 10 (Some (rev all_legs)) "q" 1 20 None "relevance") empty_state).1 in
  match omap escape (rev all_legs) with
  | e :: _ => r = inl e
  | [] =>
      if forallb failing all_legs then r = inl search_leg_failed
      else if ("relevance" =? "relevance")%string || ("relevance" =? "recent")%string then
        let '(es, fs, ents) :=
          _merge_and_sort (H := no_iso_dates) (found episode_vector) (found fact_vector) (found episode_bm25)
            (found fact_bm25) (found graph_bfs) 20 50 "relevance" in
        let '(es, fs, bad) :=
          reranking (λ _, inl (RuntimeError "no model")) (rerank_asked (Some broken_reranker) "relevance") es fs in
        ∃ res, r = inr res ∧
          sr_episodes res = es ∧ sr_facts res = fs ∧ sr_entities res = ents ∧
          NoDup (sr_failed_legs res) ∧
          (∀ l, FailedLeg l ∈ sr_failed_legs res ↔ failing l = true) ∧
          (FailedReranker ∈ sr_failed_legs res ↔ bad = true) ∧
          sr_degraded res = bool_decide (sr_failed_legs res ≠ [])
      else r = inl (AppExc ValidationError "Invalid sort")
  end.
Proof.
  apply (search_degrades (H := poor_search) (H0 := ready_sessions) (H1 := no_iso_dates) "q" 1 20 None
    (inl (AppExc ExternalServiceError "down")) poor_answer no_answer no_answer no_answer
    (λ _, inl (RuntimeError "no model")) (Some broken_reranker) 50 10
    (Some (rev all_legs)) "relevance" empty_state).
  - split.
    + reflexivity.
    + reflexivity.
    + intros [] p [= <-]; reflexivity.
    + intros []; exact I || reflexivity.
    + intros l s. split_and!; reflexivity.
    + intros l e He. by apply elem_of_nil in He.
  - exact (Permutation_sym (Permutation_rev all_legs)).
  - intros c. split; [reflexivity|]. intros s. reflexivity.
Defined.
