(* ===== verification/Authn.v ===== *)
(** middleware/auth.py, repositories/api_key_repository.py, services/api_key_service.py
    and the key helpers of utils/crypto.py: how a request is authenticated by a JWT or
    an API key, and the life of an API key. *)
From S2P Require Import Prelude Errors Data Effects Json Authz Tokens.
Open Scope Z_scope.

(** * utils/crypto.py *)

Definition base62_digit (d : Z) : ascii :=
  ascii_of_nat (Z.to_nat (if d <? 10 then 48 + d else if d <? 36 then 55 + d else 61 + d)).

(** [while num > 0]; the digits are collected least significant first and reversed. *)
Fixpoint base62_loop (fuel : nat) (num : Z) (result : string) : string :=
  match fuel with
  | O => result
  | S fuel => if 0 <? num then base62_loop fuel (num / 62) (base62_digit (num mod 62) ::: result) else result
  end.

(** A number has at most as many base62 digits as bits. *)
Definition base62_encode (num : Z) : exn + string :=
  if num <? 0 then inl (ValueError "Cannot encode negative integer")
  else if num =? 0 then inr "0"%string
  else inr (base62_loop (Z.to_nat (Z.log2 num + 1)) num EmptyString).

Definition generate_api_key (prefix : string) : prog string :=
  raw ← call (Draw (2 ^ 384)); encoded ← lift (base62_encode raw); Ret (prefix +:+ encoded).

(** [jwt.decode(token, secret)] at an instant: the payload, or [InvalidTokenError]. *)
Class JwtDecode := { jwt_decode : string → string → Z → option (list (string * json)) }.

(** What the client gets: the application's answer, or a problem response. *)
Inductive reply (A : Type) := Passed (a : A) | Problem (status : Z) (title : string).
Arguments Passed {A}.
Arguments Problem {A}.

Section authn.
Context `{Hashlib} `{JwtDecode} `{Settings} `{Datetime}.

Definition hash_api_key (raw_key : string) : prog (string * string) :=
  s ← call (Draw (16 ^ 32));
  let salt := hexn 32 s in
  Ret (sha256_hexdigest (salt +:+ raw_key), salt).

Definition verify_api_key (raw_key stored_hash salt : string) : bool :=
  (sha256_hexdigest (salt +:+ raw_key) =? stored_hash)%string.

Definition compute_lookup_hash (raw_key : string) : string := sha256_hexdigest raw_key.

Definition verify_jwt_token (token secret : string) : prog (list (string * json)) :=
  now ← call Now;
  match jwt_decode token secret now with
  | Some payload => Ret payload
  | None => Throw (AppExc AuthenticationError "Invalid token")
  end.

(** * repositories/api_key_repository.py

    The lookups of the middleware run under a scoped RLS bypass on a session of their
    own. *)

Definition get_by_lookup_hash (lookup_hash : string) : prog (option ApiKey) :=
  rows ← call (Select api_keys (λ k, (ak_lookup_hash k =? lookup_hash)%string && negb (ak_is_revoked k)));
  scalar_one_or_none rows.

Definition LAST_USED_WRITE_INTERVAL : Z := 5 * minutes_us.

Definition update_last_used (key_id : uuid) : prog unit :=
  now ← call Now;
  _ ← call (Update api_keys
              (λ k, (ak_id k =? key_id)
                    && match ak_last_used_at k with
                       | None => true
                       | Some t => t <? now - LAST_USED_WRITE_INTERVAL
                       end)
              (with_last_used (Some now)));
  Ret tt.

Definition api_key_create (organization_id : uuid) (lookup_hash key_hash salt prefix : string) (name : option string)
    (permissions : list string) (project_id : uuid) (created_by : option uuid) : prog ApiKey :=
  id ← uuid4;
  let k := mkApiKey id organization_id project_id created_by lookup_hash key_hash salt prefix name
             (match permissions with [] => ["project:read"; "project:write"]%string | l => l end)
             None None false in
  _ ← call (Insert api_keys (no_arbiter api_keys) [k]);
  Ret k.

(** The key of the organization (and project). *)
Definition api_key_scope (organization_id key_id : uuid) (project_id : option uuid) (k : ApiKey) : bool :=
  (ak_id k =? key_id) && (ak_organization_id k =? organization_id)
  && match project_id with Some p => ak_project_id k =? p | None => true end.

Definition api_key_get (organization_id key_id : uuid) (project_id : option uuid) : prog (option ApiKey) :=
  rows ← call (Select api_keys (api_key_scope organization_id key_id project_id));
  scalar_one_or_none rows.

Definition api_key_revoke (organization_id key_id : uuid) (project_id : option uuid) : prog (option ApiKey) :=
  found ← api_key_get organization_id key_id project_id;
  match found with
  | None => Ret None
  | Some k =>
      _ ← call (Update api_keys (λ r, ak_id r =? ak_id k) with_key_revoked);
      Ret (Some (with_key_revoked k))
  end.

(** * middleware/auth.py *)

Definition AUTH_CACHE_PREFIX : string := "auth:key:".
Definition AUTH_CACHE_TTL : Z := 300.
Definition AUTH_NEG_CACHE_PREFIX : string := "auth:neg:".
Definition AUTH_NEG_CACHE_TTL : Z := 60.
Definition AUTH_MISS_RATE_LIMIT_PREFIX : string := "auth:miss_ip:".
Definition AUTH_MISS_RATE_LIMIT : Z := 10.
Definition AUTH_MISS_RATE_WINDOW : Z := 60.
Definition SCHEMA_AUTH_HEADER : string := "Bearer".

Definition PUBLIC_ENDPOINTS : list string :=
  ["/health"; "/ready"; "/docs"; "/openapi.json"; "/redoc"; "/admin/org/config/defaults";
   "/v1/auth/signup"; "/v1/auth/join"; "/v1/auth/login"; "/v1/auth/refresh"; "/v1/auth/verify-email";
   "/v1/auth/resend-otp"; "/v1/auth/forgot-password"; "/v1/auth/reset-password"; "/v1/auth/login/otp/send";
   "/v1/auth/login/otp/verify"; "/v1/auth/mfa/verify"; "/v1/auth/registration-status"; "/v1/auth/invites"]%string.

Definition API_KEY_PREFIXES : list string := ["oz_live_"; "oz_test_"]%string.
Definition _PUBLIC_PATH_PREFIXES : list string := ["/docs"; "/v1/auth/invites"]%string.

Definition _is_public_path (path : string) : bool :=
  bool_decide (path ∈ PUBLIC_ENDPOINTS)
  || existsb (λ prefix, str_prefix (prefix +:+ "/") path) _PUBLIC_PATH_PREFIXES.

(** The ASGI scope: the client address is its first component. *)
Record Scope := mkScope {
  sc_type : string;
  sc_method : string;
  sc_path : string;
  sc_headers : list (string * string);
  sc_client : option string;
  sc_redis : bool;
  sc_db_factory : bool;
}.

(** [scope["state"]]. *)
Record AuthState := mkAuthState {
  as_org_id : json;
  as_user_id : json;
  as_role : json;
  as_auth_type : option string;
  as_api_key_permissions : json;
  as_api_key_project_id : json;
  as_api_key_id : json;
}.

Definition anonymous : AuthState := mkAuthState JNull JNull JNull None (JList []) JNull JNull.

Definition is_redis_error (e : exn) : bool := match e with RedisError _ => true | _ => false end.
Definition is_rate_limit_error (e : exn) : bool :=
  match e with AppExc RateLimitError _ => true | _ => false end.

(** A JSON [null] is read as no entry; an entry that does not parse is deleted. *)
Definition _lookup_key_in_redis (lookup_hash : string) : prog (option json) :=
  cached ← redis (ks_get (AUTH_CACHE_PREFIX +:+ lookup_hash));
  match cached with
  | None => Ret None
  | Some raw =>
      match loads raw with
      | Some JNull => Ret None
      | Some v => Ret (Some v)
      | None => _ ← redis (ks_delete [AUTH_CACHE_PREFIX +:+ lookup_hash]); Ret None
      end
  end.

Definition _cache_key_in_redis (lookup_hash : string) (data : json) : prog unit :=
  redis (ks_setex (AUTH_CACHE_PREFIX +:+ lookup_hash) AUTH_CACHE_TTL (dumps data)).

(** [cached.get(key)], and [cached[key]]. *)
Definition get_field (cached : json) (key : string) : exn + json :=
  match cached with
  | JObj d => inr (dict_get key d)
  | _ => inl (TypeError "no attribute get")
  end.
Definition get_item (cached : json) (key : string) : exn + json :=
  match cached with
  | JObj d => if bool_decide (key ∈ map fst d) then inr (dict_get key d) else inl (KeyError key)
  | _ => inl (TypeError "indices must be integers")
  end.

Definition _is_cached_key_expired (cached : json) : prog bool :=
  raw ← lift (get_field cached "expires_at");
  match raw with
  | JNull => Ret false
  | JStr s =>
      match fromisoformat s with
      | inl _ => Ret true
      | inr expires => now ← call Now; Ret (expires <? now)
      end
  | _ => Throw (TypeError "no attribute tzinfo")
  end.

Definition _check_negative_cache (lookup_hash : string) : prog bool :=
  redis (ks_exists (AUTH_NEG_CACHE_PREFIX +:+ lookup_hash)).

Definition _mark_negative_cache (lookup_hash : string) : prog unit :=
  redis (ks_setex (AUTH_NEG_CACHE_PREFIX +:+ lookup_hash) AUTH_NEG_CACHE_TTL "1").

Definition _check_auth_miss_rate_limit (client_ip : string) : prog unit :=
  let key := AUTH_MISS_RATE_LIMIT_PREFIX +:+ client_ip in
  count ← redis (ks_incr key);
  _ ← (if count =? 1 then _ ← redis (ks_expire key AUTH_MISS_RATE_WINDOW); Ret tt else Ret tt);
  if AUTH_MISS_RATE_LIMIT <? count then Throw (AppExc RateLimitError "Too many authentication attempts")
  else Ret tt.

(** [token.count(".") == 2]. *)
Fixpoint count_char (c : ascii) (s : string) : Z :=
  match s with EmptyString => 0 | a ::: r => (if Ascii.eqb a c then 1 else 0) + count_char c r end.
Definition _is_jwt_token (token : string) : bool := count_char "." token =? 2.

(** The state of a verified access token, or the problem it is answered with. *)
Definition _verify_jwt_and_set_state (path method token : string) : prog (reply AuthState) :=
  verified ← try_except (p ← verify_jwt_token token SECRET_KEY; Ret (Some p)) is_exception (λ _, Ret None);
  match verified with
  | None => Ret (Problem 401 "Invalid Token")
  | Some payload =>
      let user_id := dict_get "sub" payload in
      let org_id := dict_get "org_id" payload in
      let role := if bool_decide ("role"%string ∈ map fst payload) then dict_get "role" payload else JStr "member" in
      match dict_get "type" payload with
      | JStr t =>
          if negb (t =? "access")%string then Ret (Problem 401 "Invalid Token Type")
          else if negb (truthy user_id) || negb (truthy org_id) then Ret (Problem 401 "Invalid Token Claims")
          else if truthy (dict_get "mcp" payload)
                  && negb (bool_decide ((method, path) ∈ MUST_CHANGE_PASSWORD_EXEMPT_PATHS))
          then Ret (Problem 403 "Authorization Error")
          else Ret (Passed (mkAuthState org_id user_id role (Some "jwt"%string) (JList []) JNull JNull))
      | _ => Ret (Problem 401 "Invalid Token Type")
      end
  end.

(** ** The API key flow *)

Section app.
Context {A : Type} (app : AuthState → prog A).

Definition unavailable : reply A := Problem 503 "Service Unavailable".
Definition invalid_key : reply A := Problem 401 "Invalid API Key".

(** A step that may have answered the request already. *)
Definition or_else (step : prog (option (reply A))) (rest : prog (reply A)) : prog (reply A) :=
  r ← step; match r with Some r => Ret r | None => rest end.

(** The step is taken when Redis is configured, and its failure closes the door. *)
Definition guarded (configured : bool) (step : prog (option (reply A))) : prog (option (reply A)) :=
  if configured then try_except step is_redis_error (λ _, Ret (Some unavailable)) else Ret None.

Definition cached_state (cached : json) : exn + AuthState :=
  match get_item cached "org_id", get_item cached "permissions" with
  | inl e, _ => inl e
  | _, inl e => inl e
  | inr org_id, inr permissions =>
      let field key := match get_field cached key with inr v => v | inl _ => JNull end in
      inr (mkAuthState org_id (field "created_by") JNull (Some "api_key"%string) permissions
             (field "project_id") (field "api_key_id"))
  end.

(** The application itself runs inside this [try]. *)
Definition positive_cache (lookup_hash : string) : prog (option (reply A)) :=
  cached ← _lookup_key_in_redis lookup_hash;
  match cached with
  | None => Ret None
  | Some c =>
      expired ← _is_cached_key_expired c;
      if expired : bool then
        _ ← redis (ks_delete [AUTH_CACHE_PREFIX +:+ lookup_hash]);
        Ret (Some (Problem 401 "API Key Expired"))
      else
        st ← lift (cached_state c);
        a ← app st;
        Ret (Some (Passed a))
  end.

Definition negative_cache (lookup_hash : string) : prog (option (reply A)) :=
  known ← _check_negative_cache lookup_hash; Ret (if known : bool then Some invalid_key else None).

Definition miss_limit (client_ip : string) : prog (option (reply A)) :=
  try_except (_ ← _check_auth_miss_rate_limit client_ip; Ret None) is_rate_limit_error
    (λ _, Ret (Some (Problem 429 "Too Many Requests"))).

(** Best effort: a Redis failure is logged. *)
Definition best_effort (configured : bool) (p : prog unit) : prog unit :=
  if configured then try_except p is_redis_error (λ _, Ret tt) else Ret tt.

Definition opt_text (o : option string) : json := match o with Some s => JStr s | None => JNull end.

Definition key_state (k : ApiKey) : AuthState :=
  mkAuthState (JStr (uuid_str (ak_organization_id k))) (opt_text (option_map uuid_str (ak_created_by k))) JNull
    (Some "api_key"%string) (JList (map JStr (ak_permissions k))) (JStr (uuid_str (ak_project_id k)))
    (JStr (uuid_str (ak_id k))).

(** The cached payload; orjson writes it without blanks, and only [loads] reads it. *)
Definition key_payload (k : ApiKey) : json :=
  JObj [("org_id", JStr (uuid_str (ak_organization_id k)));
        ("permissions", JList (map JStr (ak_permissions k)));
        ("project_id", JStr (uuid_str (ak_project_id k)));
        ("created_by", opt_text (option_map uuid_str (ak_created_by k)));
        ("api_key_id", JStr (uuid_str (ak_id k)));
        ("expires_at", opt_text (option_map isoformat_naive (ak_expires_at k)))]%string.

(** A usage write that fails is rolled back with its session. *)
Definition touch_last_used (k : ApiKey) : prog unit :=
  try_except (_ ← update_last_used (ak_id k); call Commit) is_sqlalchemy_error
    (λ _, try_except (call Rollback) is_sqlalchemy_error (λ _, Ret tt)).

(** The key is not in the positive cache. *)
Definition database_flow (sc : Scope) (raw_key lookup_hash : string) : prog (reply A) :=
  if negb (sc_db_factory sc) then Ret (Problem 500 "Internal Server Error")
  else
    found ← try_except (k ← get_by_lookup_hash lookup_hash; Ret (Some k)) is_sqlalchemy_error (λ _, Ret None);
    match found with
    | None => Ret (Problem 500 "Internal Server Error")
    | Some None => _ ← best_effort (sc_redis sc) (_mark_negative_cache lookup_hash); Ret invalid_key
    | Some (Some k) =>
        if negb (verify_api_key raw_key (ak_key_hash k) (ak_salt k)) then Ret invalid_key
        else if ak_is_revoked k then Ret (Problem 401 "API Key Revoked")
        else
          now ← call Now;
          if match ak_expires_at k with Some e => e <? now | None => false end
          then Ret (Problem 401 "API Key Expired")
          else
            _ ← touch_last_used k;
            _ ← best_effort (sc_redis sc) (_cache_key_in_redis lookup_hash (key_payload k));
            a ← app (key_state k);
            Ret (Passed a)
    end.

Definition api_key_flow (sc : Scope) (raw_key : string) : prog (reply A) :=
  let lookup_hash := compute_lookup_hash raw_key in
  or_else (guarded (sc_redis sc) (positive_cache lookup_hash))
    (or_else (guarded (sc_redis sc) (negative_cache lookup_hash))
       (or_else (guarded (sc_redis sc) (miss_limit (default "unknown"%string (sc_client sc))))
          (database_flow sc raw_key lookup_hash))).

(** ** The middleware *)

Definition is_ascii (s : string) : bool := negb (str_exists (λ c, (128 <=? nat_of_ascii c)%nat) s).

(** The header dict: names are lowered, the last one of a name counts. *)
Definition header (name : string) (headers : list (string * string)) : option string :=
  option_map snd (List.find (λ h, (str_lower h.1 =? name)%string) (rev headers)).

Definition pass (st : AuthState) : prog (reply A) := a ← app st; Ret (Passed a).

(** The credential of the request: what follows [Bearer], blanks removed. *)
Definition credential (sc : Scope) : reply string :=
  match header "authorization" (sc_headers sc) with
  | None => Problem 401 "Authentication Required"
  | Some auth_header =>
      if negb (str_prefix SCHEMA_AUTH_HEADER auth_header) then Problem 401 "Invalid Authorization Scheme"
      else
        let raw_key := str_strip (str_drop (String.length SCHEMA_AUTH_HEADER) auth_header) in
        if (raw_key =? EmptyString)%string then Problem 401 "Empty Credentials" else Passed raw_key
  end.

(** Requests that need no credential. *)
Definition unauthenticated (sc : Scope) : bool :=
  (sc_method sc =? "OPTIONS")%string || (sc_path sc =? "/metrics")%string || _is_public_path (sc_path sc).

Definition looks_like_jwt (raw_key : string) : bool :=
  negb (existsb (λ p, str_prefix p raw_key) API_KEY_PREFIXES) && _is_jwt_token raw_key.

(** [AuthMiddleware.__call__]; [UnicodeDecodeError] is a [ValueError]. *)
Definition authenticate (sc : Scope) : prog (reply A) :=
  if negb (sc_type sc =? "http")%string then pass anonymous
  else if negb (forallb (λ h, is_ascii h.1 && is_ascii h.2) (sc_headers sc)) then
    Throw (ValueError "'ascii' codec can't decode byte")
  else if unauthenticated sc then pass anonymous
  else
    match credential sc with
    | Problem st title => Ret (Problem st title)
    | Passed raw_key =>
        if looks_like_jwt raw_key then
          r ← _verify_jwt_and_set_state (sc_path sc) (sc_method sc) raw_key;
          match r with
          | Problem st title => Ret (Problem st title)
          | Passed st => pass st
          end
        else api_key_flow sc raw_key
    end.
End app.

(** * services/api_key_service.py *)

Definition is_project_permission (p : string) : bool := str_prefix "project:" p.

(** [sorted(set(requested) & set(actor_permissions))]. *)
Definition capped (requested : list string) (actor : gset string) : list string :=
  sort_by String.leb (remove_dups (List.filter (λ p, bool_decide (p ∈ actor)) requested)).

(** The permissions the key gets. *)
Definition requested (permissions : option (list string)) (created_by : option uuid)
    (actor_permissions : option (gset string)) : list string :=
  let asked := match permissions with
               | Some (_ :: _ as l) => l
               | _ => ["project:read"; "project:write"]%string
               end in
  let requested := List.filter is_project_permission asked in
  match created_by, actor_permissions with
  | Some _, Some actor => capped requested actor
  | _, _ => requested
  end.

Definition create_project_key (organization_id project_id : uuid) (name : option string)
    (permissions : option (list string)) (created_by : option uuid) (actor_permissions : option (gset string)) :
    prog (ApiKey * string) :=
  raw_key ← generate_api_key "oz_live_";
  '(key_hash, salt) ← hash_api_key raw_key;
  let lookup_hash := compute_lookup_hash raw_key in
  match requested permissions created_by actor_permissions with
  | [] => Throw (AppExc ValidationError "API key must include at least one project:* permission")
  | granted =>
      k ← api_key_create organization_id lookup_hash key_hash salt "oz_live_" name granted project_id created_by;
      Ret (k, raw_key)
  end.

(** [redis] is whether the service has a client. *)
Definition _invalidate_auth_cache (has_redis : bool) (k : ApiKey) : prog unit :=
  if has_redis then
    try_except
      (_ ← redis (ks_delete [AUTH_CACHE_PREFIX +:+ ak_lookup_hash k; AUTH_NEG_CACHE_PREFIX +:+ ak_lookup_hash k]);
       Ret tt) is_exception (λ _, Ret tt)
  else Ret tt.

Definition revoke_project_key (has_redis : bool) (organization_id project_id key_id : uuid) : prog (option ApiKey) :=
  revoked ← api_key_revoke organization_id key_id (Some project_id);
  _ ← match revoked with Some k => _invalidate_auth_cache has_redis k | None => Ret tt end;
  Ret revoked.
End authn.

(** * Soundness: lemmas *)

(** An application that answers with the state it was given. *)
Abbreviation served := (λ st : AuthState, Ret st).

(** A call to Redis that was answered. *)
Lemma run_redis_inv {X} (c : KS X) (w : faulty) x w' :
  run (redis c) w = (inr x, w') →
  (c (st_clock (abs w)) (st_redis (abs w))).1 = inr x ∧
  abs w' = set_redis (c (st_clock (abs w)) (st_redis (abs w))).2 (abs w).
Proof.
  destruct w as [s pl]. unfold redis. rewrite run_call. cbn. destruct pl as [|[] pl]; cbn; by intros [= ? <-].
Qed.

Lemma run_try_inv {A} (p : prog A) sel h (w : faulty) a w' :
  run (try_except p sel h) w = (inr a, w') →
  run p w = (inr a, w') ∨ ∃ e w1, run p w = (inl e, w1) ∧ sel e = true ∧ run (h e) w1 = (inr a, w').
Proof.
  unfold try_except. rewrite run_catch. destruct (run p w) as [[e|b] w1] eqn:E.
  - destruct (sel e) eqn:Es; [|done]. intros H. right. by exists e, w1.
  - intros [= -> ->]. by left.
Qed.

Lemma run_lift_inv {A} (r : exn + A) (w : faulty) a w' : run (lift r) w = (inr a, w') → r = inr a ∧ w' = w.
Proof. destruct r; [done|]. by intros [= -> ->]. Qed.

(** Programs that leave the tables and the clock alone, whatever fails. *)
Definition calm {A} (p : prog A) : Prop :=
  ∀ w : faulty, st_db (abs (run p w).2) = st_db (abs w) ∧ st_clock (abs (run p w).2) = st_clock (abs w).

Lemma calm_ret {A} (a : A) : calm (Ret a).
Proof. done. Qed.

Lemma calm_throw {A} e : calm (Throw e : prog A).
Proof. done. Qed.

Lemma calm_bind {A B} (p : prog A) (f : A → prog B) : calm p → (∀ a, calm (f a)) → calm (p ≫= f).
Proof.
  intros Hp Hf w. rewrite run_bind. specialize (Hp w). destruct (run p w) as [[e|a] w1]; [exact Hp|].
  destruct (Hf a w1) as [-> ->]. exact Hp.
Qed.

Lemma calm_try {A} (p : prog A) sel h : calm p → (∀ e, calm (h e)) → calm (try_except p sel h).
Proof.
  intros Hp Hh w. unfold try_except. rewrite run_catch. specialize (Hp w).
  destruct (run p w) as [[e|a] w1]; [|exact Hp]. destruct (sel e); [|exact Hp].
  destruct (Hh e w1) as [-> ->]. exact Hp.
Qed.

Lemma calm_redis {X} (c : KS X) : calm (redis c).
Proof. intros [s pl]. unfold redis. rewrite run_call. cbn. by destruct pl as [|[] pl]. Qed.

Lemma calm_now : calm (call Now).
Proof. intros [s pl]. rewrite run_call. done. Qed.

Lemma calm_lift {A} (r : exn + A) : calm (lift r).
Proof. by destruct r. Qed.

Lemma calm_run {A} (p : prog A) (w : faulty) r w' :
  calm p → run p w = (r, w') → st_db (abs w') = st_db (abs w) ∧ st_clock (abs w') = st_clock (abs w).
Proof. intros Hp E. specialize (Hp w). by rewrite E in Hp. Qed.

Lemma untouched_run {A} k (p : prog A) (w : faulty) r w' :
  untouched k p → run p w = (r, w') → st_redis (abs w') !! k = st_redis (abs w) !! k.
Proof. intros Hp E. specialize (Hp w). by rewrite E in Hp. Qed.

#[export] Hint Resolve calm_ret calm_throw calm_bind calm_try calm_redis calm_now calm_lift : zync.

(** The key spaces of the middleware are disjoint. *)
Lemma auth_keys_apart a b :
  AUTH_CACHE_PREFIX +:+ a ≠ AUTH_NEG_CACHE_PREFIX +:+ b ∧
  AUTH_CACHE_PREFIX +:+ a ≠ AUTH_MISS_RATE_LIMIT_PREFIX +:+ b ∧
  AUTH_NEG_CACHE_PREFIX +:+ a ≠ AUTH_MISS_RATE_LIMIT_PREFIX +:+ b.
Proof. split_and!; intros E; inversion E. Qed.

Lemma untouched_get k k' : untouched k (redis (ks_get k')).
Proof. apply untouched_redis. intros now m. unfold ks_get. by repeat case_match. Qed.

Lemma untouched_delete k k' : k ≠ k' → untouched k (redis (ks_delete [k'])).
Proof. intros Hk. apply untouched_redis. intros now m. cbn. by rewrite lookup_delete_ne. Qed.

Lemma untouched_setex k k' ttl v : k ≠ k' → untouched k (redis (ks_setex k' ttl v)).
Proof.
  intros Hk. apply untouched_redis. intros now m. unfold ks_setex. destruct (ttl <=? 0); [done|].
  cbn. by rewrite lookup_insert_ne.
Qed.

Lemma untouched_exists k k' : untouched k (redis (ks_exists k')).
Proof. by apply untouched_redis. Qed.

Lemma untouched_call {X} k (o : op X) :
  match o with Redis _ => False | _ => True end → untouched k (call o).
Proof.
  intros Ho w. rewrite run_call. pose proof (exec_frame X o w) as F.
  destruct o; cbn [op_frame] in F; try done;
    first [by rewrite F|by destruct F as (F & _ & _); rewrite F].
Qed.

Lemma untouched_lift {A} k (r : exn + A) : untouched k (lift r).
Proof. by destruct r. Qed.

Section steps.
Context `{Hashlib} `{JwtDecode} `{Settings} `{Datetime}.

Lemma calm_lookup h : calm (_lookup_key_in_redis h).
Proof.
  unfold _lookup_key_in_redis. apply calm_bind; [apply calm_redis|]. intros [raw|]; [|done].
  destruct (loads raw) as [[]|]; auto with zync.
Qed.

Lemma calm_expired c : calm (_is_cached_key_expired c).
Proof.
  unfold _is_cached_key_expired. apply calm_bind; [apply calm_lift|]. intros []; auto with zync.
  destruct (fromisoformat s); auto with zync.
Qed.

(** Not the cached entry itself. *)
Lemma untouched_lookup k h : k ≠ AUTH_CACHE_PREFIX +:+ h → untouched k (_lookup_key_in_redis h).
Proof.
  intros Hk. unfold _lookup_key_in_redis. apply untouched_bind; [apply untouched_get|]. intros [raw|]; [|done].
  destruct (loads raw) as [[]|]; try done. apply untouched_bind; [by apply untouched_delete|done].
Qed.

Lemma untouched_expired k c : untouched k (_is_cached_key_expired c).
Proof.
  unfold _is_cached_key_expired. apply untouched_bind; [apply untouched_lift|]. intros []; try done.
  destruct (fromisoformat s); [done|]. apply untouched_bind; [by apply untouched_call|done].
Qed.

(** What lets a key through: an entry of the cache that has not expired, or a row. *)
Definition unexpired (now : Z) (c : json) : Prop :=
  match get_field c "expires_at" with
  | inr JNull => True
  | inr (JStr s) => ∃ e, fromisoformat s = inr e ∧ now ≤ e
  | _ => False
  end.

Definition entry_grants (now : Z) (m : keyspace) (h : string) (st : AuthState) : Prop :=
  ∃ text d c, find_key now (AUTH_CACHE_PREFIX +:+ h) m = Some (REntry (RStr text) d) ∧
    loads text = Some c ∧ unexpired now c ∧ cached_state c = inr st.

Definition row_grants (now : Z) (d : database) (raw_key : string) (st : AuthState) : Prop :=
  ∃ k, k ∈ d api_keys ∧ ak_lookup_hash k = compute_lookup_hash raw_key ∧ ak_is_revoked k = false ∧
    verify_api_key raw_key (ak_key_hash k) (ak_salt k) = true ∧
    (∀ e, ak_expires_at k = Some e → now ≤ e) ∧ st = key_state k.

Lemma lookup_Some h (w : faulty) c w' :
  run (_lookup_key_in_redis h) w = (inr (Some c), w') →
  ∃ text d, find_key (st_clock (abs w)) (AUTH_CACHE_PREFIX +:+ h) (st_redis (abs w)) = Some (REntry (RStr text) d) ∧
    loads text = Some c ∧ st_clock (abs w') = st_clock (abs w).
Proof.
  unfold _lookup_key_in_redis. intros ([raw|] & w1 & E & Er)%run_bind_ok; [|done].
  pose proof (calm_run _ _ _ _ (calm_redis _) E) as [_ Hc]. apply run_redis_inv in E as [E _].
  destruct (find_key _ _ _) as [[[text| |] d]|] eqn:F; unfold ks_get in E; rewrite F in E; try done.
  injection E as ->. exists raw, d. split; [done|].
  destruct (loads raw) as [v|]; [|by apply run_bind_ok in Er as (? & ? & ? & ?)].
  assert (Some v = Some c ∧ w' = w1) as [-> ->] by (destruct v; cbn in Er; by inversion Er). done.
Qed.

Lemma expired_false c (w : faulty) w' :
  run (_is_cached_key_expired c) w = (inr false, w') → unexpired (st_clock (abs w)) c.
Proof.
  unfold _is_cached_key_expired, unexpired. intros (raw & w1 & [-> ->]%run_lift_inv & E)%run_bind_ok.
  destruct raw; try done. destruct (fromisoformat s) as [?|e]; [done|].
  apply run_bind_ok in E as (now & w2 & En & E). rewrite run_call in En. cbn in En. injection En as <- <-.
  cbn in E. injection E as E _. exists e. split; [done|]. unfold abs, faulty_world in *. lia.
Qed.

Lemma positive_passed h (w : faulty) st w' :
  run (positive_cache served h) w = (inr (Some (Passed st)), w') →
  entry_grants (st_clock (abs w)) (st_redis (abs w)) h st.
Proof.
  unfold positive_cache. intros ([c|] & w1 & E & E1)%run_bind_ok; [|done].
  apply lookup_Some in E as (text & d & F & L & Hc). apply run_bind_ok in E1 as ([] & w2 & E1 & E2).
  - by apply run_bind_ok in E2 as (? & ? & _ & ?).
  - apply run_bind_ok in E2 as (st' & w3 & [Es ->]%run_lift_inv & E2). cbn in E2. injection E2 as -> _.
    exists text, d, c. split_and!; [done|done| |done]. rewrite <- Hc. by eapply expired_false.
Qed.

(** A positive cache that did not answer found nothing it could use. *)
Lemma positive_calm h : calm (positive_cache served h).
Proof.
  unfold positive_cache. apply calm_bind; [apply calm_lookup|]. intros [c|]; [|done].
  apply calm_bind; [apply calm_expired|]. intros []; auto with zync.
Qed.

Lemma positive_untouched k h : k ≠ AUTH_CACHE_PREFIX +:+ h → untouched k (positive_cache served h).
Proof.
  intros Hk. unfold positive_cache. apply untouched_bind; [by apply untouched_lookup|]. intros [c|]; [|done].
  apply untouched_bind; [apply untouched_expired|]. intros [].
  - apply untouched_bind; [by apply untouched_delete|done].
  - apply untouched_bind; [apply untouched_lift|done].
Qed.

Lemma guarded_inv {A} configured (step : prog (option (reply A))) (w : faulty) r w' :
  run (guarded configured step) w = (inr r, w') →
  (configured = false ∧ r = None ∧ w' = w) ∨ (configured = true ∧ run step w = (inr r, w')) ∨ r = Some unavailable.
Proof.
  unfold guarded. destruct configured; [|intros [= <- <-]; by left].
  intros [E|(e & w1 & _ & _ & E)]%run_try_inv; [by right; left|].
  cbn in E. injection E as <- _. by right; right.
Qed.

Lemma or_else_inv {A} (step : prog (option (reply A))) rest (w : faulty) r w' :
  run (or_else step rest) w = (inr r, w') →
  run step w = (inr (Some r), w') ∨ ∃ w1, run step w = (inr None, w1) ∧ run rest w1 = (inr r, w').
Proof.
  unfold or_else. intros ([r0|] & w1 & E & E1)%run_bind_ok.
  - cbn in E1. injection E1 as -> ->. by left.
  - right. by exists w1.
Qed.

Lemma negative_None {A} h (w : faulty) w' :
  run (negative_cache h : prog (option (reply A))) w = (inr None, w') →
  find_key (st_clock (abs w)) (AUTH_NEG_CACHE_PREFIX +:+ h) (st_redis (abs w)) = None ∧ abs w' = abs w.
Proof.
  unfold negative_cache, _check_negative_cache. intros (known & w1 & E & E1)%run_bind_ok.
  destruct known; [done|]. cbn in E1. injection E1 as <-. apply run_redis_inv in E as [E ->].
  unfold ks_exists in *. cbn in *. injection E as E. apply bool_decide_eq_false, eq_None_not_Some in E.
  split; [done|]. apply set_redis_id.
Qed.

(** The counter of an address, at most at the limit. *)
Definition under_limit (m : keyspace) (client_ip : string) : Prop :=
  ∃ n d, m !! (AUTH_MISS_RATE_LIMIT_PREFIX +:+ client_ip) = Some (REntry (RStr (str_of_Z n)) d) ∧
    n ≤ AUTH_MISS_RATE_LIMIT.

Lemma incr_counts k now m n :
  (ks_incr k now m).1 = inr n → ∃ d, (ks_incr k now m).2 !! k = Some (REntry (RStr (str_of_Z n)) d).
Proof.
  unfold ks_incr, ks_incrby. destruct (find_key now k m) as [[[s| |] d]|]; try done.
  - destruct (Z_of_str s); [|done]. cbn [fst snd]. intros [= <-]. exists d. by apply lookup_insert_eq.
  - cbn [fst snd]. intros [= <-]. eexists. by apply lookup_insert_eq.
Qed.

Lemma expire_keeps_value k ttl now m v d :
  0 < ttl → m !! k = Some (REntry v d) → ∃ d', (ks_expire k ttl now m).2 !! k = Some (REntry v d').
Proof.
  intros Ht Hm. unfold ks_expire, find_key. rewrite Hm. destruct (live now _); [|by exists d].
  destruct (Z.leb_spec ttl 0); [lia|]. eexists. cbn [fst snd re_value]. by apply lookup_insert_eq.
Qed.

Lemma miss_None {A} ip (w : faulty) w' :
  run (miss_limit ip : prog (option (reply A))) w = (inr None, w') → under_limit (st_redis (abs w')) ip.
Proof.
  unfold miss_limit. intros [E|(e & w1 & _ & _ & E)]%run_try_inv; [|done].
  apply run_bind_ok in E as ([] & w1 & E & E1). cbn in E1. injection E1 as <-.
  unfold _check_auth_miss_rate_limit in E. apply run_bind_ok in E as (n & w2 & E & E1).
  apply run_redis_inv in E as [E Ew2]. destruct (incr_counts _ _ _ _ E) as [d Hd].
  apply run_bind_ok in E1 as ([] & w3 & E1 & E2).
  destruct (Z.ltb_spec AUTH_MISS_RATE_LIMIT n); [done|]. cbn in E2. injection E2 as <-.
  assert (st_redis (abs w2) !! (AUTH_MISS_RATE_LIMIT_PREFIX +:+ ip) = Some (REntry (RStr (str_of_Z n)) d)) as Hw2.
  { rewrite Ew2. exact Hd. }
  destruct (n =? 1).
  - apply run_bind_ok in E1 as (b & w4 & [_ E1]%run_redis_inv & E2). cbn in E2. injection E2 as <-.
    rewrite E1. cbn. destruct (expire_keeps_value _ AUTH_MISS_RATE_WINDOW (st_clock (abs w2)) _ _ _ ltac:(done) Hw2)
      as [d' Hd']. by exists n, d'.
  - cbn in E1. injection E1 as <-. by exists n, d.
Qed.

Lemma touch_untouched k ak : untouched k (touch_last_used ak).
Proof.
  unfold touch_last_used, update_last_used. apply untouched_try.
  - apply untouched_bind; [|intros _; by apply untouched_call].
    apply untouched_bind; [by apply untouched_call|]. intros now.
    apply untouched_bind; [by apply untouched_call|done].
  - intros _. apply untouched_try; [by apply untouched_call|done].
Qed.

Lemma best_effort_untouched k configured p : untouched k p → untouched k (best_effort configured p).
Proof. intros Hp. unfold best_effort. destruct configured; [|done]. by apply untouched_try. Qed.

Lemma lookup_row h (w : faulty) k w' :
  run (get_by_lookup_hash h) w = (inr (Some k), w') →
  k ∈ st_db (abs w) api_keys ∧ ak_lookup_hash k = h ∧ ak_is_revoked k = false ∧ abs w' = abs w.
Proof.
  unfold get_by_lookup_hash. intros (rows & w1 & [-> Hw]%run_select_ok & [E ->]%scalar_ok)%run_bind_ok.
  assert (∀ l : list (row api_keys), l = [k] → k ∈ l) as Hl by (intros l ->; left).
  apply Hl, (filter_elem (A := row api_keys)) in E as [Hk Hp].
  apply andb_true_iff in Hp as [Hh%String.eqb_eq Hr%negb_true_iff]. by split_and!.
Qed.

Lemma database_passed sc raw_key h (w : faulty) st w' ip :
  h = compute_lookup_hash raw_key →
  run (database_flow served sc raw_key h) w = (inr (Passed st), w') →
  row_grants (st_clock (abs w)) (st_db (abs w)) raw_key st ∧
  st_redis (abs w') !! (AUTH_MISS_RATE_LIMIT_PREFIX +:+ ip) = st_redis (abs w) !! (AUTH_MISS_RATE_LIMIT_PREFIX +:+ ip).
Proof.
  intros -> E. unfold database_flow in E. destruct (negb (sc_db_factory sc)); [done|].
  apply run_bind_ok in E as (found & w1 & E & E1).
  destruct found as [[k|]|]; [|by apply run_bind_ok in E1 as (? & ? & _ & ?)|done].
  apply run_try_inv in E as [E|(? & ? & _ & _ & ?)]; [|done].
  apply run_bind_ok in E as (k' & w2 & E & E2). cbn in E2. injection E2 as -> ->.
  apply lookup_row in E as (Hk & Hh & Hr & Hw).
  destruct (verify_api_key raw_key (ak_key_hash k) (ak_salt k)) eqn:Hv; [|done]. cbn [negb] in E1. rewrite Hr in E1.
  apply run_bind_ok in E1 as (now & w3 & En & E1). rewrite run_call in En. cbn in En. injection En as <- <-.
  assert ((st_clock w1.1, w1.2) = (st_clock (abs w), w1.2)) as [= Hc] by (rewrite <- Hw; done).
  destruct (match ak_expires_at k with Some e => e <? st_clock w1.1 | None => false end) eqn:Hx; [done|].
  apply run_bind_ok in E1 as ([] & w4 & E2 & E1). apply run_bind_ok in E1 as ([] & w5 & E3 & E1).
  cbn in E1. injection E1 as <- <-. split.
  - exists k. split_and!; try done. intros e He. rewrite He in Hx. apply Z.ltb_ge in Hx.
    change (st_clock w.1 ≤ e). by rewrite <- Hc.
  - rewrite (untouched_run _ _ _ _ _ (best_effort_untouched _ _ _ (untouched_setex _ _ _ _
      (not_eq_sym (proj1 (proj2 (auth_keys_apart _ _)))))) E3).
    rewrite (untouched_run _ _ _ _ _ (touch_untouched _ _) E2). rewrite <- Hw. done.
Qed.

Lemma negative_answers {A} h (w : faulty) r w' :
  run (negative_cache h : prog (option (reply A))) w = (inr (Some r), w') → r = invalid_key.
Proof. unfold negative_cache. intros ([] & ? & _ & E)%run_bind_ok; cbn in E; by inversion E. Qed.

Lemma miss_answers {A} ip (w : faulty) r w' :
  run (miss_limit ip : prog (option (reply A))) w = (inr (Some r), w') → r = Problem 429 "Too Many Requests".
Proof.
  unfold miss_limit. intros [E|(? & ? & _ & _ & E)]%run_try_inv; [|cbn in E; by inversion E].
  by apply run_bind_ok in E as (? & ? & _ & E).
Qed.

Lemma miss_calm {A} ip : calm (miss_limit ip : prog (option (reply A))).
Proof.
  unfold miss_limit, _check_auth_miss_rate_limit. apply calm_try; [|done]. apply calm_bind; [|done].
  apply calm_bind; [apply calm_redis|]. intros n. apply calm_bind; [|intros _].
  - destruct (n =? 1); auto with zync.
  - destruct (_ <? n); auto with zync.
Qed.

Lemma guarded_calm {A} configured (step : prog (option (reply A))) (w : faulty) r w' :
  calm step → run (guarded configured step) w = (inr r, w') →
  st_db (abs w') = st_db (abs w) ∧ st_clock (abs w') = st_clock (abs w).
Proof.
  intros Hs E. eapply calm_run; [|exact E]. unfold guarded. destruct configured; [|done]. by apply calm_try.
Qed.

Lemma negative_calm {A} h : calm (negative_cache h : prog (option (reply A))).
Proof. unfold negative_cache. apply calm_bind; [apply calm_redis|done]. Qed.

Lemma guarded_untouched {A} k configured (step : prog (option (reply A))) :
  untouched k step → untouched k (guarded configured step).
Proof. intros Hs. unfold guarded. destruct configured; [|done]. by apply untouched_try. Qed.

Lemma key_flow_passed sc raw_key (w : faulty) st w' :
  run (api_key_flow served sc raw_key) w = (inr (Passed st), w') →
  let h := compute_lookup_hash raw_key in
  let ip := default "unknown"%string (sc_client sc) in
  (sc_redis sc = true ∧ entry_grants (st_clock (abs w)) (st_redis (abs w)) h st) ∨
  row_grants (st_clock (abs w)) (st_db (abs w)) raw_key st ∧
  (sc_redis sc = true →
     find_key (st_clock (abs w)) (AUTH_NEG_CACHE_PREFIX +:+ h) (st_redis (abs w)) = None ∧
     under_limit (st_redis (abs w')) ip).
Proof.
  intros E. cbv zeta. set (h := compute_lookup_hash raw_key). unfold api_key_flow in E. fold h in E.
  apply or_else_inv in E as [E|(w1 & E & E1)].
  { apply guarded_inv in E as [(_ & ? & _)|[[Hr E]|?]]; [done| |done]. left. split; [done|]. by eapply positive_passed. }
  destruct (guarded_calm _ _ _ _ _ (positive_calm h) E) as [Hd1 Hc1].
  pose proof (untouched_run _ _ _ _ _ (guarded_untouched _ _ _
    (positive_untouched _ h (not_eq_sym (proj1 (auth_keys_apart h h))))) E) as Hn1.
  apply or_else_inv in E1 as [E1|(w2 & E1 & E2)].
  { apply guarded_inv in E1 as [(_ & ? & _)|[[_ E1%negative_answers]|?]]; done. }
  destruct (guarded_calm _ _ _ _ _ (negative_calm h) E1) as [Hd2 Hc2].
  apply or_else_inv in E2 as [E2|(w3 & E2 & E3)].
  { apply guarded_inv in E2 as [(_ & ? & _)|[[_ E2%miss_answers]|?]]; done. }
  destruct (guarded_calm _ _ _ _ _ (miss_calm _) E2) as [Hd3 Hc3].
  destruct (database_passed _ _ _ _ _ _ (default "unknown"%string (sc_client sc)) eq_refl E3) as [Hrow Hm].
  rewrite Hd3, Hd2, Hd1, Hc3, Hc2, Hc1 in Hrow. right. split; [done|]. intros Hr. split.
  - apply guarded_inv in E1 as [(? & _)|[[_ [E1 _]%negative_None]|?]]; [congruence| |done].
    unfold find_key in *. by rewrite Hc1, Hn1 in E1.
  - apply guarded_inv in E2 as [(? & _)|[[_ E2%miss_None]|?]]; [congruence| |done].
    unfold under_limit. by rewrite Hm.
Qed.

(** What lets a JWT through. *)
Definition token_grants (now : Z) (sc : Scope) (token : string) (st : AuthState) : Prop :=
  ∃ payload, jwt_decode token SECRET_KEY now = Some payload ∧
    dict_get "type" payload = JStr "access" ∧
    truthy (dict_get "sub" payload) = true ∧ truthy (dict_get "org_id" payload) = true ∧
    (truthy (dict_get "mcp" payload) = true → (sc_method sc, sc_path sc) ∈ MUST_CHANGE_PASSWORD_EXEMPT_PATHS) ∧
    as_org_id st = dict_get "org_id" payload ∧ as_user_id st = dict_get "sub" payload ∧
    as_auth_type st = Some "jwt"%string ∧ as_api_key_permissions st = JList [].

Lemma jwt_passed sc token (w : faulty) st w' :
  run (_verify_jwt_and_set_state (sc_path sc) (sc_method sc) token) w = (inr (Passed st), w') →
  token_grants (st_clock (abs w)) sc token st.
Proof.
  unfold _verify_jwt_and_set_state. intros ([payload|] & w1 & E & E1)%run_bind_ok; [|done].
  apply run_try_inv in E as [E|(? & ? & _ & _ & ?)]; [|done].
  apply run_bind_ok in E as (p & w2 & E & E2). cbn in E2. injection E2 as -> ->.
  unfold verify_jwt_token in E. apply run_bind_ok in E as (now & w3 & En & E). rewrite run_call in En.
  cbn in En. injection En as <- <-.
  destruct (jwt_decode token SECRET_KEY _) as [p|] eqn:D; [|done]. cbn in E. injection E as <- _.
  destruct (dict_get "type" p) as [| | | |t| |] eqn:T; try done.
  destruct (String.eqb_spec t "access") as [->|]; [|done]. cbn [negb] in E1.
  destruct (truthy (dict_get "sub" p)) eqn:Hs; [|done]. destruct (truthy (dict_get "org_id" p)) eqn:Ho; [|done].
  cbn [negb orb] in E1. destruct (_ && _) eqn:M; [done|]. cbn in E1. injection E1 as <- _.
  exists p. split_and!; try done. intros Hm. rewrite Hm in M. by apply negb_false_iff, bool_decide_eq_true in M.
Qed.
End steps.

(** C18. No request reaches the application without a credential, whatever fails: unless
    its path is public, it carries an access token that verifies (and, while a password
    change is due, only on the exempt paths), or an API key that is in the cache and has
    not expired, or is stored, verifies against its salted hash, is neither revoked nor
    expired; then the key was not known to be wrong and its address was under the
    limit of misses, this one counted. The request's state is that of the credential. *)
Theorem authentication_sound `{Hashlib, JwtDecode, Settings, Datetime} (sc : Scope) (w w' : faulty) (st : AuthState) :
  run (authenticate (λ st, Ret st) sc) w = (inr (Passed st), w') →
  let now := st_clock (abs w) in
  (sc_type sc ≠ "http"%string ∨ unauthenticated sc = true) ∧ st = anonymous ∨
  ∃ raw_key, credential sc = Passed raw_key ∧
    (looks_like_jwt raw_key = true ∧ token_grants now sc raw_key st ∨
     looks_like_jwt raw_key = false ∧ sc_redis sc = true ∧
       entry_grants now (st_redis (abs w)) (compute_lookup_hash raw_key) st ∨
     looks_like_jwt raw_key = false ∧ row_grants now (st_db (abs w)) raw_key st ∧
       (sc_redis sc = true →
          find_key now (AUTH_NEG_CACHE_PREFIX +:+ compute_lookup_hash raw_key) (st_redis (abs w)) = None ∧
          under_limit (st_redis (abs w')) (default "unknown"%string (sc_client sc)))).
Proof.
  intros E now. unfold authenticate in E. destruct (String.eqb_spec (sc_type sc) "http") as [Ht|Ht]; cbn [negb] in E.
  2: { left. split; [by left|]. cbn in E. by inversion E. }
  destruct (negb (forallb _ (sc_headers sc))); [done|].
  destruct (unauthenticated sc); [left; split; [by right|]; cbn in E; by inversion E|].
  destruct (credential sc) as [raw_key|]; [|done]. right. exists raw_key. split; [done|].
  destruct (looks_like_jwt raw_key).
  - left. split; [done|]. apply run_bind_ok in E as ([st'|] & w1 & E & E1); [|done]. cbn in E1. injection E1 as <- <-.
    by apply jwt_passed in E.
  - right. apply key_flow_passed in E as [[? ?]|[? ?]]; [left|right]; by split_and!.
Qed.

(** * The life of a key: lemmas *)

(** Keys are printable: no blanks, ASCII only. *)
Lemma base62_digit_clean d : 0 ≤ d < 62 → is_space (base62_digit d) = false ∧ (128 <=? nat_of_ascii (base62_digit d))%nat = false.
Proof.
  intros H. assert (d ∈ seqZ 0 62) as Hin by (apply elem_of_seqZ; lia).
  assert (Forall (λ d, is_space (base62_digit d) = false ∧ (128 <=? nat_of_ascii (base62_digit d))%nat = false)
    (seqZ 0 62)) as Hall by (apply (bool_decide_unpack _); vm_compute; exact I).
  rewrite Forall_forall in Hall. by apply Hall.
Qed.

Definition plain_text (s : string) : Prop := str_exists is_space s = false ∧ is_ascii s = true.

Lemma plain_text_app s t : plain_text s → plain_text t → plain_text (s +:+ t).
Proof.
  unfold plain_text, is_ascii. rewrite !negb_true_iff, !str_exists_app. intros [-> ->] [-> ->]. done.
Qed.

Lemma base62_loop_plain fuel n r : 0 ≤ n → plain_text r → plain_text (base62_loop fuel n r).
Proof.
  revert n r; induction fuel as [|fuel IH]; intros n r Hn Hr; [done|]. cbn [base62_loop].
  destruct (0 <? n); [|done]. apply IH; [by apply Z.div_pos|].
  destruct (base62_digit_clean (n mod 62)) as [H1 H2]; [by apply Z.mod_pos_bound|].
  unfold plain_text, is_ascii in *. cbn [str_exists]. rewrite H1, H2. exact Hr.
Qed.

Lemma base62_plain n : 0 ≤ n → ∃ t, base62_encode n = inr t ∧ plain_text t.
Proof.
  intros Hn. unfold base62_encode. destruct (Z.ltb_spec n 0); [lia|].
  destruct (n =? 0); [by exists "0"%string|]. eexists. split; [done|]. by apply base62_loop_plain.
Qed.

Lemma plain_not_space t : plain_text t → str_strip t = t.
Proof. intros [Hs _]. by apply strip_by_id. Qed.

Section life.
Context `{Hashlib, JwtDecode, Settings, Datetime}.

(** A request to [path] that carries the key. *)
Definition key_request (method path : string) (client : option string) (raw_key : string) : Scope :=
  mkScope "http" method path [("Authorization", "Bearer " +:+ raw_key)]%string client true true.

Lemma plain_key_request method path client t :
  plain_text t → unauthenticated (key_request method path client "") = false →
  let raw_key := "oz_live_" +:+ t in
  ∀ A (app : AuthState → prog A),
  authenticate app (key_request method path client raw_key) = api_key_flow app (key_request method path client raw_key) raw_key.
Proof.
  intros Ht Hu raw_key A app. assert (plain_text raw_key) as Hr by (by apply (plain_text_app "oz_live_")).
  unfold authenticate. cbn [sc_type key_request String.eqb Ascii.eqb Bool.eqb negb].
  change (unauthenticated (key_request method path client raw_key)) with (unauthenticated (key_request method path client "")).
  rewrite Hu. assert (is_ascii ("Bearer " +:+ raw_key) = true) as Ha.
  { unfold is_ascii. rewrite str_exists_app.
    destruct Hr as [_ Hr]. unfold is_ascii in Hr. apply negb_true_iff in Hr. by rewrite Hr. }
  cbn [sc_headers key_request forallb fst snd]. rewrite Ha. cbn [negb andb].
  assert (credential (key_request method path client raw_key) = Passed raw_key) as ->.
  { unfold credential.
    change (header "authorization" (sc_headers (key_request method path client raw_key)))
      with (Some ("Bearer " +:+ raw_key)). cbv iota beta.
    change (str_prefix SCHEMA_AUTH_HEADER ("Bearer " +:+ raw_key)) with true. cbn [negb].
    change (str_drop (String.length SCHEMA_AUTH_HEADER) ("Bearer " +:+ raw_key)) with (" "%char ::: raw_key).
    assert (str_strip (" "%char ::: raw_key) = raw_key) as ->.
    { etrans; [|by apply plain_not_space]. done. }
    done. }
  done.
Qed.

(** The rows of the key, up to when it was last used. *)
Definition by_hash (h : string) (k : ApiKey) : bool := (ak_lookup_hash k =? h)%string && negb (ak_is_revoked k).
Definition one_row (k : ApiKey) (p : ApiKey → bool) (d : database) : Prop :=
  ∃ t, List.filter p (d api_keys) = [with_last_used t k].

(** A stored key that can be used: what Redis holds about it, and about the address,
    which has missed at most [n] times. *)
Record key_ready (s : state) (k : ApiKey) (raw_key client_ip : string) (n : Z) : Prop := {
  kr_hash : ak_lookup_hash k = compute_lookup_hash raw_key;
  kr_verifies : verify_api_key raw_key (ak_key_hash k) (ak_salt k) = true;
  kr_live : ak_is_revoked k = false;
  kr_forever : ak_expires_at k = None;
  kr_row : one_row k (by_hash (ak_lookup_hash k)) (st_db s);
  kr_scope : one_row k (api_key_scope (ak_organization_id k) (ak_id k) (Some (ak_project_id k))) (st_db s);
  kr_cache : st_redis s !! (AUTH_CACHE_PREFIX +:+ ak_lookup_hash k) = None ∨
    ∃ d, st_redis s !! (AUTH_CACHE_PREFIX +:+ ak_lookup_hash k) = Some (REntry (RStr (dumps (key_payload k))) d);
  kr_negative : st_redis s !! (AUTH_NEG_CACHE_PREFIX +:+ ak_lookup_hash k) = None;
  kr_misses : st_redis s !! (AUTH_MISS_RATE_LIMIT_PREFIX +:+ client_ip) = None ∨
    ∃ m d, st_redis s !! (AUTH_MISS_RATE_LIMIT_PREFIX +:+ client_ip) = Some (REntry (RStr (str_of_Z m)) d) ∧ m ≤ n;
}.

Lemma with_last_used_same t k :
  key_state (with_last_used t k) = key_state k ∧ key_payload (with_last_used t k) = key_payload k.
Proof. done. Qed.

Lemma payload_loads k : loads (dumps (key_payload k)) = Some (key_payload k).
Proof.
  apply loads_dumps. unfold key_payload. cbn [printable map fst forallb snd].
  rewrite bool_decide_true by (apply (bool_decide_unpack _); vm_compute; exact I).
  assert (∀ o, printable (opt_text o) = true) as Ho by (by intros []). rewrite !Ho.
  assert (forallb printable (map JStr (ak_permissions k)) = true) as ->; [|done].
  by induction (ak_permissions k).
Qed.

Lemma payload_state k : cached_state (key_payload k) = inr (key_state k).
Proof. unfold cached_state, get_item, get_field, key_payload. by rewrite !bool_decide_true by set_solver. Qed.

(** A cached key passes at once, and nothing changes. *)
Lemma run_cached k (s : state) :
  ak_expires_at k = None →
  (∃ d, find_key (st_clock s) (AUTH_CACHE_PREFIX +:+ ak_lookup_hash k) (st_redis s) =
        Some (REntry (RStr (dumps (key_payload k))) d)) →
  run (positive_cache served (ak_lookup_hash k)) s = (inr (Some (Passed (key_state k))), s).
Proof.
  intros He [d F]. unfold positive_cache, _lookup_key_in_redis. rewrite run_bind.
  pose proof (ks_get_str _ _ _ _ _ F) as G. redis_step G. rewrite payload_loads, set_redis_id.
  cbn [key_payload run]. rewrite run_bind. unfold _is_cached_key_expired.
  assert (get_field (key_payload k) "expires_at" = inr JNull) as Ef.
  { unfold get_field, key_payload. cbn. by rewrite He. }
  fold (key_payload k). rewrite Ef. cbn [lift]. rewrite run_ret_bind. cbn [run].
  rewrite payload_state. done.
Qed.

(** An uncached key is looked up. *)
Lemma run_uncached h (s : state) :
  find_key (st_clock s) (AUTH_CACHE_PREFIX +:+ h) (st_redis s) = None →
  run (positive_cache served h) s = (inr None, s).
Proof.
  intros F. unfold positive_cache, _lookup_key_in_redis. rewrite run_bind.
  pose proof (ks_get_none _ _ _ F) as G. redis_step G. cbn [run]. by rewrite set_redis_id.
Qed.

Lemma run_negative h (s : state) :
  find_key (st_clock s) (AUTH_NEG_CACHE_PREFIX +:+ h) (st_redis s) = None →
  run (negative_cache h : prog (option (reply AuthState))) s = (inr None, s).
Proof.
  intros F. unfold negative_cache, _check_negative_cache.
  assert (ks_exists (AUTH_NEG_CACHE_PREFIX +:+ h) (st_clock s) (st_redis s) = (inr false, st_redis s)) as G.
  { unfold ks_exists. rewrite F. done. }
  redis_step G. by rewrite set_redis_id.
Qed.

(** The miss is counted; the counter stays under the limit. *)
Lemma run_miss ip n (s : state) :
  n < AUTH_MISS_RATE_LIMIT →
  (find_key (st_clock s) (AUTH_MISS_RATE_LIMIT_PREFIX +:+ ip) (st_redis s) = None ∧ 0 ≤ n ∨
   ∃ m d, find_key (st_clock s) (AUTH_MISS_RATE_LIMIT_PREFIX +:+ ip) (st_redis s) = Some (REntry (RStr (str_of_Z m)) d) ∧ m ≤ n) →
  ∃ m d, run (miss_limit ip : prog (option (reply AuthState))) s =
    (inr None, set_redis (<[AUTH_MISS_RATE_LIMIT_PREFIX +:+ ip := REntry (RStr (str_of_Z m)) d]> (st_redis s)) s) ∧ m ≤ n + 1.
Proof.
  intros Hn Hm. unfold miss_limit, _check_auth_miss_rate_limit, try_except.
  set (key := AUTH_MISS_RATE_LIMIT_PREFIX +:+ ip) in *. rewrite run_catch, run_bind.
  assert (∃ m d, ks_incr key (st_clock s) (st_redis s) = (inr m, <[key := REntry (RStr (str_of_Z m)) d]> (st_redis s)) ∧ m ≤ n + 1)
    as (m & d & E & Hle).
  { destruct Hm as [[F H0']|(m & d & F & Hm)].
    - exists 1, None. split; [|lia]. unfold ks_incr, ks_incrby. by rewrite F.
    - exists (m + 1), d. split; [|lia]. by rewrite (ks_incr_str _ _ _ _ _ F). }
  redis_step E. destruct (Z.ltb_spec AUTH_MISS_RATE_LIMIT m); [lia|].
  destruct (m =? 1); [|by exists m, d].
  rewrite run_bind. cbn [mbind]. unfold redis. rewrite run_bind, run_call. cbn [exec state_world op_sem].
  unfold ks_expire. cbn [st_redis st_clock set_redis].
  destruct (find_key (st_clock s) key (<[key:=_]> (st_redis s))) as [e|] eqn:F; cbn [fst snd run set_redis]; [|by exists m, d].
  assert (e = REntry (RStr (str_of_Z m)) d) as ->.
  { unfold find_key in F. rewrite lookup_insert_eq in F. destruct (live _ _); by inversion F. }
  cbn [re_value]. eexists m, _. split; [|done]. unfold set_redis. cbn. by rewrite insert_insert_eq.
Qed.

(** Noting a use keeps the rows of the key. *)
Definition used (now : Z) (p : ApiKey → bool) (k : ApiKey) : ApiKey :=
  if p k then with_last_used (Some now) k else k.

Lemma used_one_row k q now p (d d' : database) :
  (∀ t r, q (with_last_used t r) = q r) → d' api_keys = map (used now p) (d api_keys) →
  one_row k q d → one_row k q d'.
Proof.
  intros Hq Hd [t Ht]. unfold one_row. rewrite Hd, filter_map_same, Ht.
  - cbn. unfold used. destruct (p _); [by exists (Some now)|by exists t].
  - intros x. unfold used. by destruct (p x).
Qed.

Lemma run_touch k (s : state) :
  ∃ s' p, run (touch_last_used k) s = (inr tt, s') ∧ st_redis s' = st_redis s ∧ st_clock s' = st_clock s ∧
    st_db s' api_keys = map (used (st_clock s) p) (st_db s api_keys).
Proof.
  unfold touch_last_used, update_last_used, try_except. rewrite run_catch, run_bind, run_bind, run_call.
  cbn [exec state_world op_sem]. rewrite run_bind, run_call. cbn [exec state_world op_sem check_rows row_check].
  cbn [run fst snd]. rewrite run_call. cbn [exec state_world op_sem].
  eexists _, _. split; [done|]. split_and!; [done|done|]. apply (set_table_eq api_keys).
Qed.

Lemma run_best_effort_setex key v (s : state) :
  run (best_effort true (redis (ks_setex key AUTH_CACHE_TTL v))) s =
  (inr tt, set_redis (<[key := REntry (RStr v) (Some (st_clock s + AUTH_CACHE_TTL * us_per_s))]> (st_redis s)) s).
Proof. done. Qed.

Lemma run_database sc k raw_key ip n (s : state) :
  sc_redis sc = true → sc_db_factory sc = true → key_ready s k raw_key ip n →
  ∃ s', run (database_flow served sc raw_key (ak_lookup_hash k)) s = (inr (Passed (key_state k)), s') ∧
    key_ready s' k raw_key ip n.
Proof.
  intros Hr Hf R. unfold database_flow. rewrite Hf, Hr. cbn [negb]. destruct (kr_row _ _ _ _ _ R) as [t Ht].
  rewrite run_bind. unfold try_except, get_by_lookup_hash. rewrite run_catch, run_bind, (run_select api_keys).
  change (List.filter (λ k0, (ak_lookup_hash k0 =? ak_lookup_hash k)%string && negb (ak_is_revoked k0)) (st_db s api_keys))
    with (List.filter (by_hash (ak_lookup_hash k)) (st_db s api_keys)). rewrite Ht. cbn [scalar_one_or_none run].
  cbn [ak_key_hash ak_salt ak_is_revoked ak_expires_at with_last_used].
  rewrite (kr_verifies _ _ _ _ _ R), (kr_live _ _ _ _ _ R), (kr_forever _ _ _ _ _ R). cbn [negb].
  rewrite run_bind, run_call. cbn [exec state_world op_sem]. rewrite run_bind.
  destruct (run_touch (with_last_used t k) s) as (s1 & p & E1 & Er & Ec & Ed).
  rewrite E1, run_bind. unfold _cache_key_in_redis. rewrite run_best_effort_setex. cbn [run].
  eexists. split; [done|]. destruct R as [? ? ? ? Rrow Rsc ? Rneg Rmiss]. split; try done; cbn [st_db st_redis set_redis].
  - by eapply used_one_row.
  - by eapply used_one_row.
  - right. eexists. by rewrite lookup_insert_eq.
  - rewrite lookup_insert_ne, Er; [done|apply auth_keys_apart].
  - rewrite lookup_insert_ne, Er; [done|apply auth_keys_apart].
Qed.

Lemma find_key_absent now k m : m !! k = None → find_key now k m = None.
Proof. unfold find_key. by intros ->. Qed.

Lemma find_key_cases now k m v d :
  m !! k = Some (REntry v d) → find_key now k m = None ∨ find_key now k m = Some (REntry v d).
Proof. unfold find_key. intros ->. destruct (live now _); auto. Qed.

(** The steps before the database when the positive cache holds nothing. *)
Lemma run_uncached_flow sc raw_key n rest (s : state) :
  let h := compute_lookup_hash raw_key in
  let ip := default "unknown"%string (sc_client sc) in
  sc_redis sc = true → 0 ≤ n → n < AUTH_MISS_RATE_LIMIT →
  find_key (st_clock s) (AUTH_CACHE_PREFIX +:+ h) (st_redis s) = None →
  st_redis s !! (AUTH_NEG_CACHE_PREFIX +:+ h) = None →
  (st_redis s !! (AUTH_MISS_RATE_LIMIT_PREFIX +:+ ip) = None ∨
   ∃ m d, st_redis s !! (AUTH_MISS_RATE_LIMIT_PREFIX +:+ ip) = Some (REntry (RStr (str_of_Z m)) d) ∧ m ≤ n) →
  ∃ m d, m ≤ n + 1 ∧
    run (or_else (guarded (sc_redis sc) (positive_cache served h))
           (or_else (guarded (sc_redis sc) (negative_cache h))
              (or_else (guarded (sc_redis sc) (miss_limit ip)) rest))) s =
    run rest (set_redis (<[AUTH_MISS_RATE_LIMIT_PREFIX +:+ ip := REntry (RStr (str_of_Z m)) d]> (st_redis s)) s).
Proof.
  intros h ip Hr H0' Hn Hc Hg Hm. rewrite Hr. unfold or_else, guarded, try_except.
  rewrite run_bind, run_catch, run_uncached by done. rewrite run_bind, run_catch, run_negative by (by apply find_key_absent).
  destruct (run_miss ip n s Hn) as (m & d & E & Hle).
  - destruct Hm as [Hm|(m & d & Hm & Hle)]; [left; by split; [apply find_key_absent|]|].
    destruct (find_key_cases (st_clock s) _ _ _ _ Hm) as [F|F]; [by left|right; by exists m, d].
  - exists m, d. split; [done|]. by rewrite run_bind, run_catch, E.
Qed.

(** The state after one more miss. *)
Lemma ready_missed s k raw_key ip n m d :
  key_ready s k raw_key ip n → m ≤ n + 1 →
  key_ready (set_redis (<[AUTH_MISS_RATE_LIMIT_PREFIX +:+ ip := REntry (RStr (str_of_Z m)) d]> (st_redis s)) s)
    k raw_key ip (n + 1).
Proof.
  intros [] Hm. destruct (auth_keys_apart (ak_lookup_hash k) ip) as (_ & Ha & Hb). split; try done; cbn [st_redis set_redis].
  - by rewrite lookup_insert_ne by done.
  - by rewrite lookup_insert_ne by done.
  - right. exists m, d. by rewrite lookup_insert_eq.
Qed.

(** The key is accepted, from the cache or from the database. *)
Lemma run_use k raw_key n method path client (s : state) :
  let ip := default "unknown"%string client in
  key_ready s k raw_key ip n → 0 ≤ n → n < AUTH_MISS_RATE_LIMIT →
  ∃ s', run (api_key_flow served (key_request method path client raw_key) raw_key) s = (inr (Passed (key_state k)), s') ∧
    key_ready s' k raw_key ip (n + 1).
Proof.
  intros ip R H0' Hn. assert (key_ready s k raw_key ip (n + 1)) as R1.
  { destruct R. split; try done. destruct kr_misses0 as [|(m & d & ? & ?)]; [by left|right; exists m, d; split; [done|lia]]. }
  unfold api_key_flow. rewrite <- (kr_hash _ _ _ _ _ R).
  assert (find_key (st_clock s) (AUTH_CACHE_PREFIX +:+ ak_lookup_hash k) (st_redis s) = None ∨
    ∃ d, find_key (st_clock s) (AUTH_CACHE_PREFIX +:+ ak_lookup_hash k) (st_redis s) =
      Some (REntry (RStr (dumps (key_payload k))) d)) as [Hc|Hc].
  { destruct (kr_cache _ _ _ _ _ R) as [Hc|[d Hc]]; [left; by apply find_key_absent|].
    destruct (find_key_cases (st_clock s) _ _ _ _ Hc) as [F|F]; [by left|right; by exists d]. }
  - destruct (run_uncached_flow (key_request method path client raw_key) raw_key n
      (database_flow served (key_request method path client raw_key) raw_key (ak_lookup_hash k)) s)
      as (m & d & Hm & E); try done; try (rewrite <- (kr_hash _ _ _ _ _ R)); try apply R; try done.
    rewrite <- (kr_hash _ _ _ _ _ R) in E. cbn [sc_redis key_request sc_client] in *. rewrite E.
    apply run_database; [done|done|]. by apply ready_missed.
  - exists s. split; [|done]. unfold or_else at 1, guarded, try_except. cbn [sc_redis key_request].
    rewrite run_bind, run_catch, run_cached; [done|apply R|done].
Qed.

(** Time passes. *)
Lemma ready_sleep s k raw_key ip n d : key_ready s k raw_key ip n → key_ready (op_sem (Sleep d) s).2 k raw_key ip n.
Proof. by intros []. Qed.

(** Revoking the key takes its row, and what Redis holds about it, away. *)
Lemma run_revoke k raw_key ip n (s : state) :
  key_ready s k raw_key ip n →
  ∃ s' r, run (revoke_project_key true (ak_organization_id k) (ak_project_id k) (ak_id k)) s = (inr (Some r), s') ∧
    List.filter (by_hash (ak_lookup_hash k)) (st_db s' api_keys) = [] ∧ st_clock s' = st_clock s ∧
    st_redis s' = delete (AUTH_NEG_CACHE_PREFIX +:+ ak_lookup_hash k)
                    (delete (AUTH_CACHE_PREFIX +:+ ak_lookup_hash k) (st_redis s)).
Proof.
  intros R. destruct (kr_scope _ _ _ _ _ R) as [t Ht], (kr_row _ _ _ _ _ R) as [t' Ht'].
  unfold revoke_project_key, api_key_revoke, api_key_get.
  rewrite run_bind, run_bind, (run_select api_keys).
  change (List.filter (A := row api_keys)) with (List.filter (A := ApiKey)). rewrite Ht. cbn [scalar_one_or_none run].
  rewrite run_bind, run_call. cbn [exec state_world op_sem check_rows row_check run].
  rewrite run_bind. unfold _invalidate_auth_cache, try_except. rewrite run_catch, run_bind. unfold redis at 1.
  rewrite run_call. cbn [exec state_world op_sem run].
  eexists _, _. split; [done|]. split_and!; [|done|done].
  change (st_db _ api_keys) with
    (map (λ r : ApiKey, if ak_id r =? ak_id k then with_key_revoked r else r) (st_db s api_keys)) at 1.
  apply filter_none. intros x (r & -> & Hr)%list_elem_of_fmap.
  destruct (Z.eqb_spec (ak_id r) (ak_id k)) as [E|E]; [unfold by_hash; cbn; by rewrite andb_false_r|].
  destruct (by_hash (ak_lookup_hash k) r) eqn:B; [|done].
  assert (r ∈ List.filter (by_hash (ak_lookup_hash k)) (st_db s api_keys)) as Hin by (by apply filter_elem).
  rewrite Ht' in Hin. apply list_elem_of_singleton in Hin as ->. done.
Qed.

(** A key without a row is refused. *)
Lemma run_refused raw_key n method path client (s : state) :
  let h := compute_lookup_hash raw_key in
  let ip := default "unknown"%string client in
  0 ≤ n → n < AUTH_MISS_RATE_LIMIT →
  List.filter (by_hash h) (st_db s api_keys) = [] →
  st_redis s !! (AUTH_CACHE_PREFIX +:+ h) = None → st_redis s !! (AUTH_NEG_CACHE_PREFIX +:+ h) = None →
  (st_redis s !! (AUTH_MISS_RATE_LIMIT_PREFIX +:+ ip) = None ∨
   ∃ m d, st_redis s !! (AUTH_MISS_RATE_LIMIT_PREFIX +:+ ip) = Some (REntry (RStr (str_of_Z m)) d) ∧ m ≤ n) →
  (run (api_key_flow served (key_request method path client raw_key) raw_key) s).1 = inr (Problem 401 "Invalid API Key").
Proof.
  intros h ip H0' Hn Hf Hc Hg Hm. subst ip.
  destruct (run_uncached_flow (key_request method path client raw_key) raw_key n
    (database_flow served (key_request method path client raw_key) raw_key h) s) as (m & d & _ & E);
    try done; [by apply find_key_absent|].
  cbn [sc_redis key_request sc_client] in E. unfold api_key_flow. cbn [sc_redis key_request sc_client].
  fold h in E |- *. rewrite E. unfold database_flow. cbn [sc_db_factory key_request negb]. rewrite run_bind. unfold try_except, get_by_lookup_hash.
  rewrite run_catch, run_bind, (run_select api_keys). cbn [st_db set_redis].
  change (List.filter (λ k0, (ak_lookup_hash k0 =? h)%string && negb (ak_is_revoked k0)) (st_db s api_keys))
    with (List.filter (by_hash h) (st_db s api_keys)). by rewrite Hf.
Qed.

(** The key text, its salt and its id, as the next draws decide. *)
Definition next_key_text (s : state) : string :=
  "oz_live_" +:+ match base62_encode (st_entropy s (st_drawn s) mod 2 ^ 384) with inr t => t | inl _ => EmptyString end.
Definition next_key_id (s : state) : uuid := drawn_uuid s (S (S (st_drawn s))).

(** The key is new, and neither it nor the address is known to Redis. *)
Definition fresh_key (s : state) (client_ip : string) : Prop :=
  let h := compute_lookup_hash (next_key_text s) in
  (∀ r : ApiKey, r ∈ st_db s api_keys → ak_lookup_hash r ≠ h ∧ ak_id r ≠ next_key_id s) ∧
  st_redis s !! (AUTH_CACHE_PREFIX +:+ h) = None ∧ st_redis s !! (AUTH_NEG_CACHE_PREFIX +:+ h) = None ∧
  st_redis s !! (AUTH_MISS_RATE_LIMIT_PREFIX +:+ client_ip) = None.

Lemma fresh_one_row k p l : (∀ r : ApiKey, r ∈ l → p r = false) → p k = true →
  ∃ t, List.filter p (l ++ [k]) = [with_last_used t k].
Proof.
  intros Hl Hk. exists (ak_last_used_at k). rewrite List.filter_app, filter_none by done. cbn. rewrite Hk. by destruct k.
Qed.

Lemma run_create org proj name perms created_by actor ip (s : state) :
  fresh_key s ip → requested perms created_by actor ≠ [] →
  ∃ k s', run (create_project_key org proj name perms created_by actor) s = (inr (k, next_key_text s), s') ∧
    key_ready s' k (next_key_text s) ip 0 ∧ ak_organization_id k = org ∧ ak_project_id k = proj ∧
    ak_created_by k = created_by ∧ ak_permissions k = requested perms created_by actor.
Proof.
  intros (Hrows & Hc & Hn & Hm) Hg. unfold create_project_key, generate_api_key, hash_api_key.
  rewrite run_bind, run_bind, run_call. cbn [exec state_world op_sem].
  destruct (base62_plain (st_entropy s (st_drawn s) mod 2 ^ 384)) as (t & Et & Ht); [by apply Z.mod_pos_bound|].
  unfold next_key_text in *. rewrite Et in *. cbn [lift]. rewrite run_ret_bind. cbn [run].
  rewrite run_bind, run_bind, run_call. cbn [exec state_world op_sem run st_entropy st_drawn].
  set (raw := "oz_live_" +:+ t) in *. set (salt := hexn 32 _). destruct (requested perms created_by actor) as [|g gs]; [done|].
  rewrite run_bind. unfold api_key_create. rewrite run_uuid4. cbn [run].
  rewrite run_insert_one; [|done|done|].
  - cbn [run]. eexists _, _. split; [done|]. split_and!; try done. cbn [ak_lookup_hash].
    split; try done; cbn [ak_id ak_organization_id ak_project_id ak_lookup_hash ak_key_hash ak_salt].
    + unfold verify_api_key. cbn. apply String.eqb_refl.
    + apply fresh_one_row; [|unfold by_hash; cbn; by rewrite String.eqb_refl].
      intros r Hr. destruct (Hrows r Hr) as [Hh _]. unfold by_hash. cbn. by rewrite (proj2 (String.eqb_neq _ _)).
    + apply fresh_one_row; [|unfold api_key_scope; cbn; by rewrite !Z.eqb_refl].
      intros r Hr. destruct (Hrows r Hr) as [_ Hi]. unfold api_key_scope. cbn.
      by rewrite (proj2 (Z.eqb_neq _ _)).
    + by left.
    + by left.
  - intros x Hx. destruct (Hrows x Hx) as [Hh Hi]. cbn.
    rewrite (proj2 (Z.eqb_neq _ _)) by (intros E; by apply Hi). by rewrite (proj2 (String.eqb_neq _ _)).
Qed.

(** The client waits, then sends the key. *)
Definition attempt (method path : string) (client : option string) (raw_key : string) (delay : Z) :
    prog (reply AuthState) :=
  _ ← call (Sleep delay); authenticate served (key_request method path client raw_key).

Fixpoint attempts_with (method path : string) (client : option string) (raw_key : string) (delays : list Z) :
    prog (list (reply AuthState)) :=
  match delays with
  | [] => Ret []
  | d :: r =>
      a ← attempt method path client raw_key d;
      rest ← attempts_with method path client raw_key r;
      Ret (a :: rest)
  end.

(** A key is created, used, revoked and tried once more. *)
Definition key_life (org proj : uuid) (name : option string) (perms : option (list string)) (created_by : option uuid)
    (actor : option (gset string)) (method path : string) (client : option string) (delays : list Z) (last : Z) :
    prog (ApiKey * list (reply AuthState) * option ApiKey * reply AuthState) :=
  '(k, raw_key) ← create_project_key org proj name perms created_by actor;
  answers ← attempts_with method path client raw_key delays;
  revoked ← revoke_project_key true org proj (ak_id k);
  final ← attempt method path client raw_key last;
  Ret (k, answers, revoked, final).

Lemma run_attempts method path client k t ip n delays (s : state) :
  let raw_key := "oz_live_" +:+ t in
  plain_text t → unauthenticated (key_request method path client "") = false →
  ip = default "unknown"%string client → 0 ≤ n → n + Z.of_nat (length delays) ≤ AUTH_MISS_RATE_LIMIT →
  key_ready s k raw_key ip n →
  ∃ s', run (attempts_with method path client raw_key delays) s =
      (inr (replicate (length delays) (Passed (key_state k))), s') ∧
    key_ready s' k raw_key ip (n + Z.of_nat (length delays)).
Proof.
  intros raw_key Ht Hu -> . revert n s; induction delays as [|d ds IH]; intros n s Hn Hl R.
  - exists s. split; [done|]. cbn. by rewrite Z.add_0_r.
  - cbn [length] in *. cbn [attempts_with]. unfold attempt at 1. rewrite run_bind, run_sleep. unfold raw_key at 1.
    rewrite plain_key_request by done. fold raw_key. destruct (run_use k raw_key n method path client _ (ready_sleep _ _ _ _ _ d R)) as (s1 & E & R1); [lia|lia|].
    rewrite E, run_bind. destruct (IH (n + 1) s1) as (s2 & E2 & R2); [lia|lia|done|]. rewrite E2. exists s2.
    split; [done|]. by replace (n + Z.of_nat (S (length ds))) with (n + 1 + Z.of_nat (length ds)) by lia.
Qed.
End life.

Lemma requested_project perms created_by actor p :
  p ∈ requested perms created_by actor →
  is_project_permission p = true ∧
  ∀ u a, created_by = Some u → actor = Some a → p ∈ a.
Proof.
  unfold requested. set (asked := match perms with Some (_ :: _ as l) => l | _ => _ end).
  assert (∀ a, p ∈ capped (List.filter is_project_permission asked) a → is_project_permission p = true ∧ p ∈ a) as Hc.
  { intros a. unfold capped. rewrite sort_by_perm, elem_of_remove_dups. intros [Hp Ha]%filter_elem.
    apply filter_elem in Hp as [_ Hp]. by apply bool_decide_eq_true in Ha. }
  destruct created_by as [u|], actor as [a|].
  1: { intros Hp. destruct (Hc a Hp). split; [done|]. by intros ? ? _ [= <-]. }
  all: intros [_ Hp]%filter_elem; split; [done|]; intros; done.
Qed.

(** C19. The life of an API key, one request after the other: a key created for a
    project is accepted, with the organization, project, creator and permissions it was
    created with, each of the fewer than ten times it is sent from one address (those
    are under the limit of the address however they are spaced, from the cache or from
    the database), and the first request after its revocation is refused. A request
    that overlaps the revocation is not covered (see [revoked_key_revived]). The key
    carries project permissions only, none that its creator lacks. *)
Theorem api_key_life `{Hashlib, JwtDecode, Settings, Datetime} (org proj : uuid) (name : option string)
    (perms : option (list string)) (created_by : option uuid) (actor : option (gset string))
    (method path : string) (client : option string) (delays : list Z) (last : Z) (s : state) :
  unauthenticated (key_request method path client "") = false →
  fresh_key s (default "unknown"%string client) →
  requested perms created_by actor ≠ [] →
  (length delays < 10)%nat →
  ∃ k revoked,
    (run (key_life org proj name perms created_by actor method path client delays last) s).1 =
      inr (k, replicate (length delays) (Passed (key_state k)), Some revoked, Problem 401 "Invalid API Key") ∧
    ak_organization_id k = org ∧ ak_project_id k = proj ∧ ak_created_by k = created_by ∧
    ak_permissions k = requested perms created_by actor ∧
    ∀ p, p ∈ ak_permissions k →
      is_project_permission p = true ∧ ∀ u a, created_by = Some u → actor = Some a → p ∈ a.
Proof.
  intros Hu Hf Hg Hl. set (ip := default "unknown"%string client) in *.
  destruct (run_create org proj name perms created_by actor ip s Hf Hg) as (k & s1 & E1 & R1 & Ho & Hp & Hc & Hpm).
  destruct (base62_plain (st_entropy s (st_drawn s) mod 2 ^ 384)) as (t & Et & Ht); [by apply Z.mod_pos_bound|].
  unfold next_key_text in *. rewrite Et in *.
  destruct (run_attempts method path client k t ip 0 delays s1 Ht Hu eq_refl) as (s2 & E2 & R2);
    [done|unfold AUTH_MISS_RATE_LIMIT; lia|done|].
  destruct (run_revoke _ _ _ _ _ R2) as (s3 & rv & E3 & Hrow & Hclk & Hred). rewrite Ho, Hp in E3.
  exists k, rv. split; [|split_and!; [done..|]; intros p; rewrite Hpm; apply requested_project].
  unfold key_life. rewrite run_bind, E1, run_bind, E2, run_bind, E3, run_bind.
  unfold attempt. rewrite run_sleep, plain_key_request by done.
  pose proof (run_refused ("oz_live_" +:+ t) (0 + Z.of_nat (length delays)) method path client (op_sem (Sleep last) s3).2) as E4.
  cbv zeta in E4. rewrite <- (kr_hash _ _ _ _ _ R2) in E4.
  destruct (auth_keys_apart (ak_lookup_hash k) ip) as (_ & Ha & Hb), (auth_keys_apart (ak_lookup_hash k) (ak_lookup_hash k)) as (Hab & _).
  destruct (run (api_key_flow _ _ _) _) as [r s4]; cbn [fst] in E4. rewrite E4; [done|lia|unfold AUTH_MISS_RATE_LIMIT; lia|done| | |].
  all: cbn [op_sem snd st_redis]; rewrite Hred.
  - by rewrite lookup_delete_ne, lookup_delete_eq by done.
  - by rewrite lookup_delete_eq.
  - rewrite !lookup_delete_ne by done. apply R2.
Qed.

(** * What a reader might not expect *)

Definition stored_key (h : string) : ApiKey :=
  mkApiKey 7 1 2 (Some 9) h h EmptyString "oz_live_" None ["project:read"%string] None None false.
Definition key_state_of (h : string) : state :=
  set_db (set_table api_keys [stored_key h] (st_db empty_state)) empty_state.

Definition same_hash : Hashlib := {| sha256_hexdigest := id |}.
Definition no_jwt : JwtDecode := {| jwt_decode := λ _ _ _, None |}.
Definition undated : Datetime := {| fromisoformat := λ _, inl (ValueError "Invalid isoformat string") |}.

(** A request that has read the row of a key before the key is revoked puts it back in
    the cache after the revocation has cleared it: the revoked key is accepted again. *)
Example revoked_key_revived :
  let sc := key_request "GET" "/v1/x" None "oz_live_k" in
  let auth := authenticate (H := same_hash) (H0 := no_jwt) (H1 := default_settings) (H2 := undated) (λ st, Ret st) sc in
  let revoke := _ ← revoke_project_key true 1 2 7; Ret (Problem 0 "revoked") in
  let turns := replicate 5 0%nat ++ replicate 3 1%nat ++ replicate 9 0%nat in
  let s := (take_turns turns [auth; revoke] (key_state_of "oz_live_k")).2 in
  map ak_is_revoked (st_db s api_keys) = [true] ∧
  (run auth s).1 = inr (Passed (key_state (stored_key "oz_live_k"))).
Proof. vm_compute. split; reflexivity. Qed.

(** An application that loses Redis is answered for as an authentication failure, when
    the key came from the cache: the application runs inside the [try]. *)
Example application_error_masked :
  let sc := key_request "GET" "/v1/x" None "oz_live_k" in
  let auth A := authenticate (A := A) (H := same_hash) (H0 := no_jwt) (H1 := default_settings) (H2 := undated) in
  let s := (run (auth AuthState (λ st, Ret st) sc) (key_state_of "oz_live_k")).2 in
  (run (auth unit (λ _, Throw (RedisError "down")) sc) s).1 = inr (Problem 503 "Service Unavailable") ∧
  (run (auth unit (λ _, Throw (RedisError "down")) sc) (key_state_of "oz_live_k")).1 = inl (RedisError "down").
Proof. vm_compute. split; reflexivity. Qed.

(** When the answer to EXPIRE is lost, the counter of the address never expires. *)
Example miss_counter_stuck :
  let limit : prog (option (reply unit)) := miss_limit "1.2.3.4" in
  match run (guarded true limit) ((empty_state, [false; true]) : faulty) with
  | (inr r, w) => r = Some unavailable ∧
      st_redis (abs w) !! (AUTH_MISS_RATE_LIMIT_PREFIX +:+ "1.2.3.4") = Some (REntry (RStr "1") None)
  | _ => False
  end.
Proof. vm_compute. split; reflexivity. Qed.

(** ** Witnesses *)

Definition key_scope : Scope := key_request "GET" "/v1/x" None "oz_live_k".
Definition key_world : faulty := (key_state_of "oz_live_k", []).

Lemma authentication_sound_witness :
  let w := key_world in
  let sc := key_scope in
  let st := key_state (stored_key "oz_live_k") in
  let w' := (run (authenticate (H := same_hash) (H0 := no_jwt) (H1 := default_settings) (H2 := undated)
                   (λ st, Ret st) sc) w).2 in
  let now := st_clock (abs w) in
  (sc_type sc ≠ "http"%string ∨ unauthenticated sc = true) ∧ st = anonymous ∨
  ∃ raw_key, credential sc = Passed raw_key ∧
    (looks_like_jwt raw_key = true ∧ token_grants (H0 := no_jwt) (H1 := default_settings) now sc raw_key st ∨
     looks_like_jwt raw_key = false ∧ sc_redis sc = true ∧
       entry_grants (H2 := undated) now (st_redis (abs w)) (compute_lookup_hash (H := same_hash) raw_key) st ∨
     looks_like_jwt raw_key = false ∧ row_grants (H := same_hash) now (st_db (abs w)) raw_key st ∧
       (sc_redis sc = true →
          find_key now (AUTH_NEG_CACHE_PREFIX +:+ compute_lookup_hash (H := same_hash) raw_key) (st_redis (abs w)) = None ∧
          under_limit (st_redis (abs w')) (default "unknown"%string (sc_client sc)))).
Proof.
  intros w sc st w'.
  apply (authentication_sound (H := same_hash) (H0 := no_jwt) (H1 := default_settings) (H2 := undated) sc w w' st).
  vm_compute. reflexivity.
Defined.

Lemma api_key_life_witness :
  let actor := Some (list_to_set ["project:read"; "members:write"]%string : gset string) in
  let perms := Some ["project:write"; "project:read"]%string in
  ∃ k revoked,
    (run (key_life (H := same_hash) (H0 := no_jwt) (H1 := default_settings) (H2 := undated)
            1 2 None perms (Some 9) actor "GET" "/v1/x" None [5; 400000000; 5] 5) empty_state).1 =
      inr (k, replicate (length [5; 400000000; 5]) (Passed (key_state k)), Some revoked, Problem 401 "Invalid API Key") ∧
    ak_organization_id k = 1 ∧ ak_project_id k = 2 ∧ ak_created_by k = Some 9 ∧
    ak_permissions k = requested perms (Some 9) actor ∧
    ∀ p, p ∈ ak_permissions k →
      is_project_permission p = true ∧ ∀ u a, Some 9 = Some u → actor = Some a → p ∈ a.
Proof.
  intros actor perms.
  apply (api_key_life (H := same_hash) (H0 := no_jwt) (H1 := default_settings) (H2 := undated)
    1 2 None perms (Some 9) actor "GET" "/v1/x" None [5; 400000000; 5] 5 empty_state).
  - reflexivity.
  - split; [intros r Hr; by apply elem_of_nil in Hr|]. repeat split; reflexivity.
  - vm_compute. discriminate.
  - apply (bool_decide_unpack _). vm_compute. exact I.
Defined.
