(* ===== verification/Formatter.v ===== *)
(** services/context_formatter.py: the text and the JSON form of retrieved results. *)
From Stdlib Require Import SpecFloat.
From S2P Require Import Prelude Errors Data Effects Retrieval.
Open Scope Z_scope.

(** * Texts

    The formatter writes characters beyond the first 256: a text is the list of its
    code points here. *)

Definition text : Type := list Z.

Definition codes (s : string) : text := map (λ c, Z.of_nat (nat_of_ascii c)) (String.list_ascii_of_string s).

(** A character UTF-8 can carry. *)
Definition char_ok (c : Z) : Prop := 0 ≤ c < 1114112.

(** [str.isspace]. *)
Definition text_space (c : Z) : bool :=
  ((9 <=? c) && (c <=? 13)) || ((28 <=? c) && (c <=? 32))
  || bool_decide (c ∈ [133; 160; 5760; 8232; 8233; 8239; 8287; 12288])
  || ((8192 <=? c) && (c <=? 8202)).

Fixpoint lstrip (t : text) : text :=
  match t with [] => [] | c :: r => if text_space c then lstrip r else t end.
Definition strip (t : text) : text := rev (lstrip (rev (lstrip t))).

(** [sep.join(parts)]. *)
Fixpoint join (sep : text) (parts : list text) : text :=
  match parts with
  | [] => []
  | [p] => p
  | p :: r => p ++ sep ++ join sep r
  end.

(** [t.split("\n")]. *)
Fixpoint split_lines (t : text) : list text :=
  match t with
  | [] => [[]]
  | c :: r =>
      if c =? 10 then [] :: split_lines r
      else match split_lines r with l :: ls => (c :: l) :: ls | [] => [[c]] end
  end.

Definition newline : text := [10].
Definition SEPARATOR : text := repeat 9472 72.
Definition MAX_CONTENT_CHARS : Z := 2000.
Definition em_dash : text := [32; 8212; 32].

(** ** Numbers *)

(** [f"{x:.<digits>f}"] of a double: its exact value, rounded half to even. *)
Definition fixed (digits : nat) (x : spec_float) : string :=
  let point v := str_of_Z (v / 10 ^ Z.of_nat digits) +:+ "." +:+ decn digits (v mod 10 ^ Z.of_nat digits) in
  let signed (s : bool) t := if s then "-" +:+ t else t in
  match x with
  | S754_nan => "nan"%string
  | S754_infinity s => signed s "inf"%string
  | S754_zero s => signed s (point 0)
  | S754_finite s m e => signed s (point (round_scaled (10 ^ Z.of_nat digits) m e))
  end.

(** The double nearest to a number of millionths. *)
Definition of_millionths (k : Z) : spec_float := fdiv (of_int k) (of_int 1000000).

(** [fromisoformat(text)] as the calendar date it prints; none on a [ValueError]. *)
Class IsoDate := { iso_date : string → option (Z * Z * Z) }.

(** [str(value)] of the values that are no text, number or [None]. *)
Class PyStr := { py_str_other : value → string }.

Section formatter.
Context `{IsoDate} `{PyStr}.

Definition get (key : string) (i : item) : option value :=
  option_map snd (List.find (λ f, (f.1 =? key)%string) (it_rest i)).

Definition py_str (v : value) : string :=
  match v with
  | VText s => s
  | VNone => "None"
  | VInt z => str_of_Z z
  | VUuid u => uuid_str u
  | v => py_str_other v
  end.

Definition truthy (v : value) : bool :=
  match v with
  | VNone => false
  | VText s => negb (s =? EmptyString)%string
  | VInt z => negb (z =? 0)
  | VFloat (S754_zero _) => false
  | VBlobs l => negb (length l =? 0)%nat
  | _ => true
  end.

(** A number to be printed with a format specification; text is refused. *)
Definition number (v : option value) : exn + option spec_float :=
  match v with
  | None | Some VNone => inr None
  | Some (VFloat x) => inr (Some x)
  | Some (VInt z) => inr (Some (of_int z))
  | Some (VText _) => inl (ValueError "Unknown format code 'f' for object of type 'str'")
  | Some _ => inl (TypeError "unsupported format string")
  end.

(** The re-ranker's score, the fused one, or the search's own. *)
Definition score_of (i : item) : exn + option spec_float :=
  match it_reranker_score i, it_rrf_score i with
  | Some k, _ => inr (Some (of_millionths k))
  | None, Some k => inr (Some (of_millionths k))
  | None, None => number (get "score" i)
  end.

Definition score_str (score : option spec_float) : text :=
  match score with Some x => codes (" [score=" +:+ fixed 4 x +:+ "]") | None => [] end.
Definition confidence_str (confidence : option spec_float) : text :=
  match confidence with Some x => codes (" (confidence=" +:+ fixed 2 x +:+ ")") | None => [] end.

(** [_parse_validity_date]: the date a value prints with [%Y-%m-%d]. *)
Definition _parse_validity_date (v : option value) : option (Z * Z * Z) :=
  match v with
  | Some (VDate us) => Some (civil_from_days (us / 86400000000))
  | Some (VText s) => iso_date (utc_offset s)
  | _ => None
  end.

Definition ymd (d : Z * Z * Z) : string := decn 4 d.1.1 +:+ "-" +:+ decn 2 d.1.2 +:+ "-" +:+ decn 2 d.2.

Definition _validity_suffix (fact : item) : text :=
  codes
    match _parse_validity_date (get "valid_from" fact), _parse_validity_date (get "valid_to" fact) with
    | Some a, Some b => " (valid: " +:+ ymd a +:+ " to " +:+ ymd b +:+ ")"
    | Some a, None => " (valid: from " +:+ ymd a +:+ ")"
    | None, Some b => " (valid: until " +:+ ymd b +:+ ")"
    | None, None => EmptyString
    end.

(** [item.get(key, missing)] in an f-string, and as an optional part. *)
Definition shown (key missing : string) (i : item) : text := codes (py_str (default (VText missing) (get key i))).
Definition if_truthy (key : string) (i : item) (f : string → text) : text :=
  match get key i with Some v => if truthy v then f (py_str v) else [] | None => [] end.

Definition content_text (i : item) : text := codes (default EmptyString (it_content i)).

Definition truncated (content : text) : text :=
  if MAX_CONTENT_CHARS <? Z.of_nat (length content)
  then take (Z.to_nat MAX_CONTENT_CHARS) content ++ codes "..."
  else content.

Definition numbered (n : Z) : text := codes ("  " +:+ str_of_Z n +:+ ". ").

Definition episode_lines (n : Z) (ep : item) : exn + list text :=
  match score_of ep with
  | inl e => inl e
  | inr score =>
      inr [numbered n ++ codes "[" ++ shown "role" "unknown" ep ++ codes "]" ++ score_str score;
           codes "    " ++ join (newline ++ codes "    ") (split_lines (truncated (content_text ep)));
           []]
  end.

Definition fact_lines (n : Z) (fact : item) : exn + list text :=
  match score_of fact, number (get "confidence" fact) with
  | _, inl e => inl e
  | inl e, _ => inl e
  | inr score, inr confidence =>
      inr [numbered n ++ content_text fact ++ _validity_suffix fact ++ confidence_str confidence
             ++ score_str score]
  end.

Definition entity_lines (n : Z) (entity : item) : exn + list text :=
  inr [numbered n ++ shown "name" "unknown" entity
         ++ if_truthy "type" entity (λ t, codes (" (" +:+ t +:+ ")"))
         ++ match it_distance entity with Some d => codes (" [distance=" +:+ str_of_Z d +:+ "]") | None => [] end
         ++ if_truthy "summary" entity (λ t, em_dash ++ codes t)].

Definition community_lines (n : Z) (community : item) : exn + list text :=
  inr [numbered n ++ shown "name" ("Community " +:+ str_of_Z n) community ++ codes ": "
         ++ shown "summary" EmptyString community].

(** [for i, x in enumerate(items, start=n)]. *)
Fixpoint lines (one : Z → item → exn + list text) (n : Z) (items : list item) : exn + list text :=
  match items with
  | [] => inr []
  | i :: r =>
      match one n i with
      | inl e => inl e
      | inr here => match lines one (n + 1) r with inl e => inl e | inr rest => inr (here ++ rest) end
      end
  end.

Definition section (title : string) (one : Z → item → exn + list text) (items : list item) : exn + list text :=
  match items with
  | [] => inr []
  | _ =>
      match lines one 1 items with
      | inl e => inl e
      | inr body =>
          inr (codes (title +:+ " (" +:+ str_of_Z (Z.of_nat (length items)) +:+ "):") :: SEPARATOR :: body ++ [[]])
      end
  end.

Definition no_context : text := codes "No context found.".

Definition format_text (episodes facts entities communities : list item) : exn + text :=
  match section "Recent Episodes" episode_lines episodes, section "Facts" fact_lines facts,
        section "Entities" entity_lines entities, section "Community Summaries" community_lines communities with
  | inl e, _, _, _ => inl e
  | _, inl e, _, _ => inl e
  | _, _, inl e, _ => inl e
  | _, _, _, inl e => inl e
  | inr a, inr b, inr c, inr d =>
      match strip (join newline (a ++ b ++ c ++ d)) with [] => inr no_context | t => inr t end
  end.

(** * JSON *)

(** [{k: v for k, v in item.items() if k in allowed}]. *)
Definition keep (allowed : list string) (i : item) : item :=
  let has k := bool_decide (k ∈ allowed) in
  mkItem (if has "id"%string then it_id i else NoId)
    (if has "created_at"%string then it_created_at i else NoStamp)
    (if has "content"%string then it_content i else None)
    (if has "distance"%string then it_distance i else None)
    (if has "rrf_score"%string then it_rrf_score i else None)
    (if has "reranker_score"%string then it_reranker_score i else None)
    (List.filter (λ f, has f.1) (it_rest i)).

Definition _clean_episodes : list item → list item :=
  map (keep ["id"; "role"; "content"; "created_at"; "blobs"]%string).
Definition _clean_facts : list item → list item :=
  map (keep ["id"; "content"; "subject"; "predicate"; "object"; "confidence"; "created_at"; "valid_from";
             "valid_to"; "invalid_at"]%string).
Definition _clean_entities : list item → list item := map (keep ["id"; "name"; "type"; "summary"]%string).
Definition _clean_communities : list item → list item := map (keep ["id"; "name"; "summary"]%string).

(** The four arrays of the object, by source. *)
Definition format_json (episodes facts entities communities : list item) : list (string * list item) :=
  [("episodes", _clean_episodes episodes); ("facts", _clean_facts facts);
   ("entities", _clean_entities entities); ("communities", _clean_communities communities)]%string.
End formatter.

(** * Every context can be encoded *)

Create HintDb text_ok.

Lemma codes_ok s : Forall char_ok (codes s).
Proof.
  unfold codes. apply Forall_forall. intros c (a & -> & _)%list_elem_of_fmap.
  pose proof (nat_ascii_bounded a). unfold char_ok. lia.
Qed.

Lemma app_ok t u : Forall char_ok t → Forall char_ok u → Forall char_ok (t ++ u).
Proof. intros. by apply Forall_app. Qed.

Lemma lstrip_ok t : Forall char_ok t → Forall char_ok (lstrip t).
Proof. induction 1 as [|c t Hc Ht IH]; [done|]. cbn. destruct (text_space c); [done|]. by apply Forall_cons. Qed.

Lemma strip_ok t : Forall char_ok t → Forall char_ok (strip t).
Proof. intros Ht. unfold strip. by apply Forall_rev, lstrip_ok, Forall_rev, lstrip_ok. Qed.

Lemma join_ok sep ps : Forall char_ok sep → Forall (Forall char_ok) ps → Forall char_ok (join sep ps).
Proof.
  intros Hs. induction 1 as [|p ps Hp Hps IH]; [done|]. cbn. destruct ps; [done|].
  by apply app_ok; [|apply app_ok].
Qed.

Lemma split_lines_ok t : Forall char_ok t → Forall (Forall char_ok) (split_lines t).
Proof.
  induction 1 as [|c t Hc Ht IH]; cbn; [by repeat constructor|]. destruct (c =? 10).
  - by constructor.
  - destruct (split_lines t) as [|l ls]; [apply Forall_singleton, Forall_singleton, Hc|].
    apply Forall_cons in IH as [Hl Hls]. by apply Forall_cons_2; [apply Forall_cons_2|].
Qed.

Lemma truncated_ok t : Forall char_ok t → Forall char_ok (truncated t).
Proof. intros Ht. unfold truncated. case_goal; [apply app_ok; [by apply Forall_take|apply codes_ok]|done]. Qed.

Lemma separator_ok : Forall char_ok SEPARATOR.
Proof. apply (bool_decide_unpack _). vm_compute. exact I. Qed.

Lemma em_dash_ok : Forall char_ok em_dash.
Proof. apply (bool_decide_unpack _). vm_compute. exact I. Qed.

Arguments codes : simpl never.
#[export] Hint Resolve codes_ok app_ok join_ok split_lines_ok truncated_ok separator_ok em_dash_ok : text_ok.

Lemma texts_ok t l : Forall char_ok t → Forall (Forall char_ok) l → Forall (Forall char_ok) (t :: l).
Proof. intros. by apply Forall_cons_2. Qed.
#[export] Hint Resolve Forall_nil_2 texts_ok : text_ok.

Section text_ok.
Context `{IsoDate} `{PyStr}.

Lemma if_truthy_ok key i f : (∀ t, Forall char_ok (f t)) → Forall char_ok (if_truthy key i f).
Proof. intros Hf. unfold if_truthy. repeat case_goal; auto with text_ok. Qed.

Lemma score_str_ok x : Forall char_ok (score_str x).
Proof. destruct x; cbn [score_str]; auto with text_ok. Qed.
Lemma confidence_str_ok x : Forall char_ok (confidence_str x).
Proof. destruct x; cbn [confidence_str]; auto with text_ok. Qed.
Hint Resolve if_truthy_ok score_str_ok confidence_str_ok : text_ok.

Definition lines_ok (one : Z → item → exn + list text) : Prop :=
  ∀ n i l, one n i = inr l → Forall (Forall char_ok) l.

Lemma newline_ok : Forall char_ok newline.
Proof. apply (bool_decide_unpack _). vm_compute. exact I. Qed.
Hint Resolve newline_ok : text_ok.

Lemma episode_lines_ok : lines_ok episode_lines.
Proof.
  intros n i l. unfold episode_lines. destruct (score_of i) as [|x]; [done|]. intros <-%(inj inr).
  unfold numbered, shown, content_text. auto 12 with text_ok.
Qed.

Lemma fact_lines_ok : lines_ok fact_lines.
Proof.
  intros n i l. unfold fact_lines. destruct (score_of i), (number (get "confidence" i)); try done. intros <-%(inj inr).
  unfold numbered, content_text, _validity_suffix. auto 10 with text_ok.
Qed.

Lemma entity_lines_ok : lines_ok entity_lines.
Proof.
  intros n i l <-%(inj inr). unfold numbered, shown.
  assert (∀ o, Forall char_ok match o with Some d => codes (" [distance=" +:+ str_of_Z d +:+ "]") | None => [] end)
    by (intros []; auto with text_ok).
  auto 12 with text_ok.
Qed.

Lemma community_lines_ok : lines_ok community_lines.
Proof. intros n i l <-%(inj inr). unfold numbered, shown. auto 10 with text_ok. Qed.

Lemma lines_all_ok one n items l : lines_ok one → lines one n items = inr l → Forall (Forall char_ok) l.
Proof.
  intros Ho. revert n l; induction items as [|i items IH]; intros n l; cbn; [by intros <-%(inj inr)|].
  destruct (one n i) as [|here] eqn:E; [done|]. destruct (lines one (n + 1) items) as [|rest] eqn:E'; [done|].
  intros <-%(inj inr). apply Forall_app. split; [by eapply Ho|by eapply IH].
Qed.

Lemma section_ok title one items l : lines_ok one → section title one items = inr l → Forall (Forall char_ok) l.
Proof.
  intros Ho. unfold section. destruct items as [|i items]; [by intros <-%(inj inr)|].
  destruct (lines one 1 (i :: items)) as [|body] eqn:E; [done|]. intros <-%(inj inr).
  apply texts_ok; [auto with text_ok|]. apply texts_ok; [auto with text_ok|].
  apply Forall_app. split; [by eapply lines_all_ok|]. auto with text_ok.
Qed.

Lemma format_text_ok episodes facts entities communities t :
  format_text episodes facts entities communities = inr t → Forall char_ok t.
Proof.
  unfold format_text.
  destruct (section "Recent Episodes" _ _) as [|a] eqn:Ea; [done|].
  destruct (section "Facts" _ _) as [|b] eqn:Eb; [done|].
  destruct (section "Entities" _ _) as [|c] eqn:Ec; [done|].
  destruct (section "Community Summaries" _ _) as [|d] eqn:Ed; [done|].
  assert (Forall char_ok (strip (join newline (a ++ b ++ c ++ d)))) as Hs.
  { apply strip_ok, join_ok; [apply newline_ok|].
    repeat (apply Forall_app; split);
      eauto using section_ok, episode_lines_ok, fact_lines_ok, entity_lines_ok, community_lines_ok. }
  destruct (strip _) as [|x r]; intros <-%(inj inr); [apply codes_ok|done].
Qed.
End text_ok.
