(* ===== verification/Context.v ===== *)
(** services/cache_service.py, services/context_service.py and
    repositories/episode_blob_repository.py: the Redis cache of assembled contexts, its
    generations, and the assembly around it. *)
From S2P Require Import Prelude Errors Data Effects Json Retrieval Formatter.
Open Scope Z_scope.

(** * UTF-8: how a text is written to Redis and read back *)

Definition utf8_char (c : Z) : list Z :=
  if c <? 128 then [c]
  else if c <? 2048 then [192 + c / 64; 128 + c mod 64]
  else if c <? 65536 then [224 + c / 4096; 128 + c / 64 mod 64; 128 + c mod 64]
  else [240 + c / 262144; 128 + c / 4096 mod 64; 128 + c / 64 mod 64; 128 + c mod 64].

Definition byte_string (l : list Z) : string :=
  String.string_of_list_ascii (map (λ b, ascii_of_nat (Z.to_nat b)) l).

Definition utf8 (t : text) : string := byte_string (flat_map utf8_char t).

Fixpoint utf8_bytes (l : list Z) : option text :=
  match l with
  | [] => Some []
  | a :: r =>
      if a <? 128 then option_map (cons a) (utf8_bytes r)
      else if a <? 224 then
        match r with
        | b :: r => option_map (cons ((a - 192) * 64 + (b - 128))) (utf8_bytes r)
        | _ => None
        end
      else if a <? 240 then
        match r with
        | b :: c :: r => option_map (cons ((a - 224) * 4096 + (b - 128) * 64 + (c - 128))) (utf8_bytes r)
        | _ => None
        end
      else
        match r with
        | b :: c :: d :: r =>
            option_map (cons ((a - 240) * 262144 + (b - 128) * 4096 + (c - 128) * 64 + (d - 128))) (utf8_bytes r)
        | _ => None
        end
  end.
Definition utf8_decode (s : string) : option text := utf8_bytes (codes s).

(** * services/cache_service.py *)

Definition STAMPEDE_LOCK_TTL : Z := 10.

Definition cache_unavailable {A} : prog A := Throw (AppExc CacheUnavailableError "Cache unavailable").

(** [SCAN cursor MATCH pattern COUNT n] and the glob it filters by: the documented
    guarantees. A command looks at the keyspace without changing it; the iteration that
    starts at 0 comes back to 0; it has then returned every matching key that was there
    all along, and only matching keys. *)
Class RedisScan := {
  glob_match : string → string → bool;
  scan : Z → string → Z → keyspace → Z * list string;
  scan_rank : Z → nat;
  glob_prefix p k : forallb (λ c, negb (str_mem c p)) ["*"; "?"; "["; "\"]%char = true →
    glob_match (p +:+ "*") k = str_prefix p k;
  scan_ends c p n m : (scan c p n m).1 = 0 ∨ (scan_rank (scan c p n m).1 < scan_rank c)%nat;
  scan_matches c p n m k : k ∈ (scan c p n m).2 → glob_match p k = true;
  (** The pages of an iteration, each over the keyspace of its moment. *)
  scan_covers : ∀ p n (pages : list (Z * keyspace)) k,
    (∀ i c m c' m', pages !! i = Some (c, m) → pages !! S i = Some (c', m') →
       (scan c p n m).1 = c' ∧ c' ≠ 0) →
    option_map fst (head pages) = Some 0 →
    (∀ c m, last pages = Some (c, m) → (scan c p n m).1 = 0) →
    glob_match p k = true → (∀ c m, (c, m) ∈ pages → is_Some (m !! k)) →
    ∃ c m, (c, m) ∈ pages ∧ k ∈ (scan c p n m).2;
}.

(** [orjson.dumps] of what the source hands it. *)
Class Orjson := {
  orjson_value : json → string;
  orjson_context : list (string * list item) → text;
  orjson_text c : Forall char_ok (orjson_context c);
}.

Section cache.
Context `{RedisScan} `{Orjson} `{Hashlib}.

(** [get]; the client decodes the stored bytes ([dec]). *)
Definition cache_get_as {A} (dec : string → option A) (key : string) : prog (option A) :=
  try_except
    (raw ← redis (ks_get key);
     match raw with
     | None => Ret None
     | Some s => match dec s with Some v => Ret (Some v) | None => Throw (ValueError "invalid start byte") end
     end) is_exception (λ _, cache_unavailable).
Definition cache_get : string → prog (option string) := cache_get_as Some.

(** [default_ttl] is the service's own. *)
Definition cache_set (default_ttl : Z) (key value : string) (ttl : option Z) : prog unit :=
  try_except (redis (ks_setex key (default default_ttl ttl) value)) is_exception (λ _, cache_unavailable).

Definition cache_delete (key : string) : prog bool :=
  try_except (deleted ← redis (ks_delete [key]); Ret (0 <? deleted)) is_exception (λ _, cache_unavailable).

(** A computed value: a string, or something that is cached as JSON. *)
Inductive computed := CText (s : string) | CValue (v : json).
Definition cached_form (v : computed) : string :=
  match v with CText s => s | CValue v => orjson_value v end.

(** The lock, or the value another request has cached in the meantime. *)
Definition stampede_lock (key lock_key : string) : prog (string + bool) :=
  try_except
    (acquired ← redis (ks_set_nx_ex lock_key "1" STAMPEDE_LOCK_TTL);
     if acquired : bool then Ret (inr true)
     else
       _ ← call (Sleep 100000);
       retried ← cache_get key;
       match retried with Some v => Ret (inl v) | None => Ret (inr false) end)
    is_exception (λ _, cache_unavailable).

Definition get_or_compute (default_ttl : Z) (key : string) (compute_fn : prog computed) (ttl : option Z)
    (enable_stampede_protection : bool) : prog computed :=
  cached ← cache_get key;
  match cached with
  | Some raw => Ret (CText raw)
  | None =>
      let lock_key := key +:+ ":lock" in
      locked ← (if enable_stampede_protection then stampede_lock key lock_key else Ret (inr false));
      match locked with
      | inl raw => Ret (CText raw)
      | inr acquired =>
          done ← catch
            (value ← compute_fn;
             _ ← cache_set default_ttl key (cached_form value) (Some (default default_ttl ttl));
             Ret (inr value)) (λ e, Ret (inl e));
          _ ← (if acquired : bool then
                 try_except (_ ← redis (ks_delete [lock_key]); Ret tt) is_exception
                   (λ _, if is_ok done then cache_unavailable else Ret tt)
               else Ret tt);
          lift done
      end
  end.

(** ** Keys *)

Definition build_context_cache_key (org_id project_id query : string) (as_of : option string)
    (sort format : string) (limit : Z) (version : string) : string :=
  let query_hash := String.substring 0 16 (sha256_hexdigest query) in
  "ctx:" +:+ org_id +:+ ":" +:+ project_id +:+ ":v" +:+ version
  +:+ match as_of with Some t => ":" +:+ t | None => EmptyString end
  +:+ (if (sort =? "relevance")%string then EmptyString else ":" +:+ sort)
  +:+ ":" +:+ format +:+ ":" +:+ str_of_Z limit +:+ ":" +:+ query_hash.

Definition build_user_cache_pattern (org_id user_id : string) : string :=
  "ctx:" +:+ org_id +:+ ":" +:+ user_id +:+ ":*".
Definition build_project_cache_pattern (org_id project_id : string) : string :=
  "ctx:" +:+ org_id +:+ ":" +:+ project_id +:+ ":*".
Definition build_context_version_key (org_id project_id : string) : string :=
  "ctxver:" +:+ org_id +:+ ":" +:+ project_id.

(** ** Invalidation *)

(** [while True: cursor, keys = scan(cursor); delete(keys); if cursor == 0: break]. *)
Fixpoint scan_delete (fuel : nat) (pattern : string) (cursor deleted : Z) : prog Z :=
  match fuel with
  | O => cache_unavailable
  | S fuel =>
      page ← redis (λ _ m, (inr (scan cursor pattern 100 m), m));
      deleted ← (if (length page.2 =? 0)%nat then Ret deleted
                 else n ← redis (ks_delete page.2); Ret (deleted + n));
      if page.1 =? 0 then Ret deleted else scan_delete fuel pattern page.1 deleted
  end.

(** The iteration ends before the fuel does, by [scan_ends]. *)
Definition purge (pattern : string) : prog Z :=
  try_except (scan_delete (S (scan_rank 0)) pattern 0 0) is_exception (λ _, cache_unavailable).

Definition invalidate_user_context (org_id user_id : string) : prog Z :=
  purge (build_user_cache_pattern org_id user_id).
Definition invalidate_project_context (org_id project_id : string) : prog Z :=
  purge (build_project_cache_pattern org_id project_id).

Definition get_context_version (org_id project_id : string) : prog string :=
  raw ← try_except (redis (ks_get (build_context_version_key org_id project_id))) is_exception
          (λ _, cache_unavailable);
  Ret (default "0"%string raw).

Definition bump_context_version (org_id project_id : string) : prog Z :=
  try_except (redis (ks_incr (build_context_version_key org_id project_id))) is_exception
    (λ _, cache_unavailable).

(** services/facts/post_commit_effects.py and services/memory/enqueue_tasks.py *)
Definition _purge_project_context (org_id project_id : uuid) : prog unit :=
  _ ← invalidate_project_context (uuid_str org_id) (uuid_str project_id);
  _ ← bump_context_version (uuid_str org_id) (uuid_str project_id);
  Ret tt.

Definition _invalidate_context_cache (org_id project_id : uuid) : prog unit :=
  _ ← redis (ks_incr (build_context_version_key (uuid_str org_id) (uuid_str project_id)));
  Ret tt.
End cache.

(** * repositories/episode_blob_repository.py *)

Definition by_index (a b : EpisodeBlob) : bool := eb_blob_index a <=? eb_blob_index b.

Definition get_by_episodes (episode_ids : list uuid) : prog (list EpisodeBlob) :=
  match episode_ids with
  | [] => Ret []
  | _ =>
      rows ← call (Select episode_blobs (λ b, bool_decide (eb_episode_id b ∈ episode_ids)));
      Ret (sort_by by_index rows)
  end.

(** The group of an episode in the dict the blobs are returned in. *)
Definition blobs_of (id : uuid) (blobs : list EpisodeBlob) : list EpisodeBlob :=
  List.filter (λ b, eb_episode_id b =? id) blobs.

(** * services/context_service.py *)

(** The presigned URLs of services/blob_storage_service.py; without a storage
    configuration there are none. *)
Class BlobStorage := { generate_download_url : option (string → prog string) }.

Fixpoint set_field (key : string) (v : value) (fields : list (string * value)) : list (string * value) :=
  match fields with
  | [] => [(key, v)]
  | f :: r => if (f.1 =? key)%string then (key, v) :: r else f :: set_field key v r
  end.

Definition with_blobs (l : list BlobLink) (i : item) : item :=
  mkItem (it_id i) (it_created_at i) (it_content i) (it_distance i) (it_rrf_score i) (it_reranker_score i)
    (set_field "blobs" (VBlobs l) (it_rest i)).

(** What the context of a request depends on. *)
Record Request := mkRequest {
  cr_query : string;
  cr_limit : Z;
  cr_format : string;
  cr_as_of : option Z;
  cr_sort : string;
}.

Record Assembled := mkAssembled {
  ac_context : text;
  ac_cache_hit : bool;
  ac_total_items : Z;
  ac_as_of : option Z;
}.

Section assembly.
Context `{BlobStorage}.

Definition blob_link (b : EpisodeBlob) : prog BlobLink :=
  let link url := mkBlobLink (eb_id b) (eb_file_name b) (eb_mime_type b) (eb_file_size b) url in
  match generate_download_url with
  | Some sign => url ← sign (eb_storage_key b); Ret (link (Some url))
  | None => Ret (link None)
  end.

Fixpoint blob_links (l : list EpisodeBlob) : prog (list BlobLink) :=
  match l with [] => Ret [] | b :: r => x ← blob_link b; xs ← blob_links r; Ret (x :: xs) end.

(** An id that is no UUID is skipped. *)
Definition attach_blobs (blobs : list EpisodeBlob) (ep : item) : prog item :=
  match uuid_parse (id_text ep) with
  | None => Ret ep
  | Some id =>
      match blobs_of id blobs with
      | [] => Ret ep
      | l => links ← blob_links l; Ret (with_blobs links ep)
      end
  end.

Fixpoint attach_all (blobs : list EpisodeBlob) (episodes : list item) : prog (list item) :=
  match episodes with
  | [] => Ret []
  | ep :: r => x ← attach_blobs blobs ep; xs ← attach_all blobs r; Ret (x :: xs)
  end.

Definition load_blobs (episodes : list item) : prog (list item) :=
  match episodes with
  | [] => Ret []
  | _ =>
      blobs ← get_by_episodes (omap (λ ep, uuid_parse (id_text ep)) episodes);
      attach_all blobs episodes
  end.
End assembly.

Section service.
Context `{Orjson} `{Hashlib} `{IsoDate} `{PyStr} `{BlobStorage}.

Definition formatted (format : string) (episodes : list item) (r : SearchResult) : exn + text :=
  if (format =? "json")%string then inr (orjson_context (format_json episodes (sr_facts r) (sr_entities r) []))
  else format_text episodes (sr_facts r) (sr_entities r) [].

Definition context_key (org_id project_id : uuid) (r : Request) (version : string) : string :=
  build_context_cache_key (uuid_str org_id) (uuid_str project_id) (cr_query r)
    (option_map isoformat_utc (cr_as_of r)) (cr_sort r) (cr_format r) (cr_limit r) version.

(** A cache that does not answer is a miss. *)
Definition or_miss {A} (p : prog A) (miss : A) : prog A :=
  try_except p (λ e, match e with AppExc CacheUnavailableError _ => true | _ => false end) (λ _, Ret miss).

(** [ContextService.assemble]: [cache] is the cache's TTL, when there is a cache, and
    [search] the retriever's [hybrid_search] for this request. *)
Definition assemble (cache : option Z) (search : prog SearchResult) (org_id project_id : uuid) (r : Request) :
    prog Assembled :=
  '(key, cached) ← match cache with
    | None => Ret (None, None)
    | Some _ =>
        version ← or_miss (get_context_version (uuid_str org_id) (uuid_str project_id)) "0"%string;
        let key := context_key org_id project_id r version in
        cached ← or_miss (cache_get_as utf8_decode key) None;
        Ret (Some key, cached)
    end;
  match cached with
  | Some t => Ret (mkAssembled t true 0 (cr_as_of r))
  | None =>
      results ← search;
      episodes ← load_blobs (sr_episodes results);
      context_str ← lift (formatted (cr_format r) episodes results);
      _ ← match cache, key with
          | Some ttl, Some key => or_miss (cache_set ttl key (utf8 context_str) None) tt
          | _, _ => Ret tt
          end;
      Ret (mkAssembled context_str false (sr_total_items results) (cr_as_of r))
  end.
End service.
