(* ===== verification/Ingest.v ===== *)
(** services/memory/: ingest of a batch of messages, from the idempotency check and the
    claim over redaction and the numbered rows to the commit and the tasks that are queued
    after it. *)
From Stdlib Require Import QArith.
From S2P Require Import Prelude Errors Data Effects Concurrent Json Secrets OpenBao Idempotency Webhooks Pii OrgConfig Blobs Sessions Context.
Open Scope Z_scope.

(** * schemas/memory.py *)

Record Message := mkMessage {
  m_role : string;
  m_content : string;
  m_created_at : option Z;
  m_metadata : list (string * json);
  m_blobs : list BlobMetadata;
}.

(** What Pydantic accepts: the pattern of the role and the length of the content, in
    characters and in bytes of UTF-8. The validator of the content runs before [blobs] is
    there, so that an empty content is refused whatever is attached. *)
Definition message_valid (m : Message) : bool :=
  bool_decide (m_role m ∈ ["user"; "assistant"; "system"; "tool"]%string)
  && (str_len (m_content m) <=? 65536) && negb (m_content m =? "")%string
  && (str_len (Cursor.utf8_encode (m_content m)) <=? 65536).

Definition blob_json (b : BlobMetadata) : json :=
  JObj [("blob_id", JInt (Z.of_nat (bm_blob_id b))); ("mime_type", JStr (bm_mime_type b)); ("file_name", JStr (bm_file_name b))]%string.

(** [m.model_dump()]; the batch's hash reads no time. *)
Definition model_dump (m : Message) : Idempotency.message :=
  [("role", JStr (m_role m)); ("content", JStr (m_content m));
   ("created_at", match m_created_at m with Some t => JStr (isoformat_utc t) | None => JNull end);
   ("metadata", JObj (m_metadata m)); ("blobs", JList (map blob_json (m_blobs m)))]%string.

Record IngestMemoryResponse := mkIngestMemoryResponse {
  ir_job_id : option string;
  ir_episode_count : Z;
  ir_blob_count : Z;
  ir_status : string;
  ir_message : string;
}.
Definition response_json (r : IngestMemoryResponse) : json :=
  JObj [("job_id", match ir_job_id r with Some j => JStr j | None => JNull end); ("episode_count", JInt (ir_episode_count r));
        ("blob_count", JInt (ir_blob_count r)); ("status", JStr (ir_status r)); ("message", JStr (ir_message r))]%string.

(** The response made of a stored one; Pydantic refuses other types. *)
Class IngestSchema := { parse_response : json → exn + IngestMemoryResponse }.

Definition replayed (r : Idempotency.IngestMemoryResponse) : IngestMemoryResponse :=
  mkIngestMemoryResponse (im_job_id r) (im_episode_count r) 0 "accepted" (im_message r).

(** * services/memory/episode_write.py and repositories/episode_repository.py *)

(** An entry of [episode_dicts]. *)
Record EpisodeDict := mkEpisodeDict {
  ed_role : string;
  ed_content : string;
  ed_metadata : list (string * json);
  ed_created_at : option Z;
}.
Definition dict_of (m : Message) : EpisodeDict := mkEpisodeDict (m_role m) (m_content m) (m_metadata m) (m_created_at m).
Definition with_content (content : string) (e : EpisodeDict) : EpisodeDict :=
  mkEpisodeDict (ed_role e) content (ed_metadata e) (ed_created_at e).

Fixpoint episode_rows (at_ : Place) (now seq : Z) (messages : list EpisodeDict) : prog (list Episode) :=
  match messages with
  | [] => Ret []
  | m :: r =>
      id ← uuid4;
      rest ← episode_rows at_ now (seq + 1) r;
      Ret (mkEpisode id (pl_org at_) (pl_project at_) (pl_session at_) seq 0 false (pl_created_by at_) (ed_role m) (ed_content m)
             (JObj (ed_metadata m)) (default now (ed_created_at m)) :: rest)
  end.

Definition batch_create (at_ : Place) (messages : list EpisodeDict) (start_seq : Z) : prog (list Episode) :=
  match messages with
  | [] => Ret []
  | _ =>
      now ← call Now;
      rows ← episode_rows at_ now start_seq messages;
      call (Insert episodes (no_arbiter episodes) rows)
  end.

Definition _lock_and_insert (at_ : Place) (episode_dicts : list EpisodeDict) : prog (list Episode) :=
  _ ← Sessions.get_by_id_for_update (pl_session at_);
  start_seq ← get_next_sequence (pl_session at_);
  try_except (batch_create at_ episode_dicts start_seq) is_integrity
    (λ _, Throw (AppExc ConflictError "Sequence conflict during ingest — retry the request")).

(** * services/memory/pii_redaction.py *)

(** [str] of an organization's mode and the rest of the dict the code passes on. *)
Definition pii_dict (c : OrgConfigBase) : PIIConfig :=
  match pii_mode c with
  | None => mkPIIConfig (Some "mask"%string) None None None
  | Some mode => mkPIIConfig (Some mode) (pii_enabled_types c) (pii_min_confidence c) (pii_sensitivity c)
  end.
Definition masking (c : PIIConfig) : PIIConfig :=
  mkPIIConfig (Some "mask"%string) (cf_enabled_types c) (cf_min_confidence c) (cf_sensitivity c).

Definition pii_unavailable : exn := AppExc PIIUnavailableError "pii_unavailable".
Definition is_validation_error (e : exn) : bool :=
  match e with AppExc k _ => app_isinstance k ValidationError | _ => false end.
Definition is_pii_unavailable (e : exn) : bool :=
  match e with AppExc k _ => app_isinstance k PIIUnavailableError | _ => false end.

Section redaction.
Context `{HttpServer} `{OrgConfigSchema} `{Spacy} `{Repr}.

(** [bao_client] is the service's client, or the one it makes for the call. *)
Definition _get_org_pii_config (org_id : uuid) (bao_client : OpenBaoClient * auth) : prog PIIConfig :=
  org_cfg ← try_except (get_org_config org_id false (Some bao_client) false) is_exception (λ _, Throw pii_unavailable);
  Ret (pii_dict org_cfg).

(** The text of [process_message]'s answer. *)
Definition processed (self : PIIService) (content : string) : exn + string :=
  match process_message self content with inl e => inl e | inr (text, _, _) => inr text end.

Definition redact_content (pii_service mask_service : PIIService) (content : string) : exn + string :=
  let tried := match processed pii_service content with
               | inl e => if is_validation_error e then processed mask_service content else inl e
               | inr text => inr text
               end in
  match tried with
  | inr text => inr text
  | inl e => if is_pii_unavailable e then inl e else if is_exception e then inl pii_unavailable else inl e
  end.

(** Every content is redacted or nothing is; the coroutines of [gather] only compute. *)
Fixpoint redact_all (pii_service mask_service : PIIService) (l : list EpisodeDict) : exn + list EpisodeDict :=
  match l with
  | [] => inr []
  | e :: r =>
      match redact_content pii_service mask_service (ed_content e), redact_all pii_service mask_service r with
      | inr text, inr r' => inr (with_content text e :: r')
      | inl x, _ => inl x
      | _, inl x => inl x
      end
  end.

Definition redacted (c : PIIConfig) (l : list EpisodeDict) : exn + list EpisodeDict :=
  if (default "mask" (cf_mode c) =? "off")%string then inr l
  else match new_PIIService c with
       | inl e => inl e
       | inr pii_service =>
           match new_PIIService (masking c) with
           | inl e => inl e
           | inr mask_service => redact_all pii_service mask_service l
           end
       end.

Definition _redact_episodes (org_id : uuid) (bao_client : OpenBaoClient * auth) (episode_dicts : list EpisodeDict) :
    prog (list EpisodeDict) :=
  pii_config_raw ← _get_org_pii_config org_id bao_client;
  lift (redacted pii_config_raw episode_dicts).
End redaction.

(** * services/memory/per_episode.py and enqueue_tasks.py *)

Definition _ENQUEUE_DEDUP_TTL_SEC : Z := 7 * 24 * 3600.
Definition dedup_key (task_name episode_id : string) : string := "memory:enqueued:" +:+ task_name +:+ ":" +:+ episode_id.

(** What every job of an episode carries. *)
Record JobContext := mkJobContext {
  jc_job_id : string;
  jc_org_id : string;
  jc_project_id : string;
  jc_session_id : string;
  jc_trace_id : string;
  jc_high : string;
  jc_low : string;
}.

Definition enrichment_job (task_name qname episode_id : string) (x : JobContext) (extra : list string) : event :=
  Effect task_name ([qname; episode_id; jc_org_id x; jc_project_id x; jc_trace_id x] ++ extra).

(** [_RELEASE_LUA]: the key goes if it still holds our token. *)
Definition release_script (key token : string) : KS Z :=
  ks_bind (ks_get key) (λ held, if bool_decide (held = Some token) then ks_delete [key] else ks_ret 0).

(** One round of the loop; it tells whether the task was queued. *)
Definition enqueue_task (x : JobContext) (episode_id : string) (t : string * string * list string) : prog bool :=
  let '(task_name, qname, extra) := t in
  claimed ← redis (ks_set_nx_ex (dedup_key task_name episode_id) (jc_job_id x) _ENQUEUE_DEDUP_TTL_SEC);
  if negb claimed then Ret false
  else
    try_except (_ ← call (Emit (enrichment_job task_name qname episode_id x extra)); Ret true) is_exception
      (λ e, _ ← try_except (_ ← redis (release_script (dedup_key task_name episode_id) (jc_job_id x)); Ret tt) is_exception (λ _, Ret tt);
            Throw e).

Definition tasks (x : JobContext) (role : string) : list (string * string * list string) :=
  [("enrich_episode", jc_high x, [jc_session_id x; role]); ("embed_episode", jc_high x, []);
   ("link_entities_to_episode", jc_low x, [role])]%string.

Definition _enqueue_one_episode (x : JobContext) (episode_id role : string) : prog unit :=
  for_each (tasks x role) (λ t, _ ← enqueue_task x episode_id t; Ret tt).

Section enqueue.
Context `{Deployment}.
(** [arq]: the queue's pool is there; [turns]: how the coroutines are scheduled. *)
Definition _enqueue_arq_tasks (arq : bool) (turns : list nat) (trace_id : string) (job_id org_id project_id session_id : string)
    (episodes : list Episode) : prog unit :=
  if negb arq then Throw (RuntimeError "ARQ pool has not been initialised")
  else
    qname_high ← lift (get_queue_name ENVIRONMENT "high");
    qname_low ← lift (get_queue_name ENVIRONMENT "low");
    _ ← gather turns (map (λ e, _enqueue_one_episode (mkJobContext job_id org_id project_id session_id trace_id qname_high qname_low)
                                  (uuid_str (ep_id e)) (ep_role e)) episodes);
    Ret tt.
End enqueue.

(** * services/memory/ingest.py *)

Section ingest.
Context `{Hashlib} `{Idempotency.Orjson} `{Deployment} `{HttpServer} `{OrgConfigSchema} `{Spacy} `{Repr} `{S3} `{BlobSettings} `{PySet}
        `{Hmac} `{IngestSchema}.
(** The service's OpenBao client, and the one made for a call where there is none; its
    webhooks; whether the queue's pool is there; the request's trace and how the event loop
    schedules the coroutines. *)
Context (bao_client : option (OpenBaoClient * auth)) (temporary : OpenBaoClient * auth)
        (webhooks : option (option TransitManager * bool)) (arq : bool) (trace_id : string) (turns : nat → list nat).

Definition _resolve_session (organization_id project_id : uuid) (session_external_id : string) : prog Session :=
  found ← Sessions.get_by_external_id organization_id project_id session_external_id;
  found ← match found with
          | Some s => Ret (Some s)
          | None =>
              match uuid_parse session_external_id with
              | Some parsed => get_by_uuid organization_id parsed (Some project_id)
              | None => Ret None
              end
          end;
  match found with
  | Some s => Ret s
  | None => Throw (AppExc NotFoundError ("Session '" +:+ session_external_id +:+ "' not found in project " +:+ uuid_str project_id))
  end.

(** What is stored in one transaction, up to the commit. *)
Definition store_batch (at_ : Place) (messages : list Message) (uploaded_blobs : list UploadFile) :
    prog (list Episode * list EpisodeBlob) :=
  episode_dicts ← _redact_episodes (pl_org at_) (default temporary bao_client) (map dict_of messages);
  episodes ← _lock_and_insert at_ episode_dicts;
  blob_records ← match uploaded_blobs with
                 | _ :: _ => _process_blobs bao_client at_ (map ep_id episodes) (map m_blobs messages) uploaded_blobs
                 | [] =>
                     if existsb (λ m, match m_blobs m with [] => false | _ => true end) messages then
                       Throw (AppExc ValidationError "messages reference blobs but no files were uploaded")
                     else Ret []
                 end;
  Ret (episodes, blob_records).

(** The handlers of the block: the keys are those of a step that had returned. *)
Definition undo {A} (org_id : uuid) (uploaded_keys : list string) (b : Batch) (e : exn) : prog A :=
  _ ← call Rollback;
  _ ← _compensate_blob_uploads bao_client org_id uploaded_keys;
  _ ← release_content_hash b;
  Throw e.

Definition non_empty (s : string) : bool := negb (s =? "")%string.
Definition uploaded_keys (blob_records : list EpisodeBlob) : list string := List.filter non_empty (map eb_storage_key blob_records).

Definition accepted (job_id : uuid) (episodes : list Episode) (blob_records : list EpisodeBlob) : IngestMemoryResponse :=
  mkIngestMemoryResponse (Some (uuid_str job_id)) (Z.of_nat (length episodes)) (Z.of_nat (length blob_records)) "accepted"
    "Messages accepted for processing".

Definition event_payload (job_id : uuid) (at_ : Place) (episodes : list Episode) : json :=
  JObj [("org_id", JStr (uuid_str (pl_org at_))); ("project_id", JStr (uuid_str (pl_project at_)));
        ("session_id", JStr (uuid_str (pl_session at_))); ("episode_count", JInt (Z.of_nat (length episodes)));
        ("job_id", JStr (uuid_str job_id))]%string.

(** [try: ... except Exception: log]. *)
Definition best_effort (p : prog unit) : prog unit := try_except p is_exception (λ _, Ret tt).

Definition _finalize_ingest (job_id : uuid) (at_ : Place) (episodes : list Episode) (blob_records : list EpisodeBlob)
    (idempotency_key body_hash : option string) : prog IngestMemoryResponse :=
  _ ← best_effort (_enqueue_arq_tasks arq (turns 0%nat) trace_id (uuid_str job_id) (uuid_str (pl_org at_)) (uuid_str (pl_project at_))
                     (uuid_str (pl_session at_)) episodes);
  _ ← match blob_records with
      | [] => Ret tt
      | _ => _enqueue_blob_extraction_tasks arq (turns 1%nat) trace_id blob_records (pl_org at_) (pl_project at_)
      end;
  let response := accepted job_id episodes blob_records in
  _ ← match idempotency_key with
      | Some key => best_effort (store_idempotency_key key (default EmptyString body_hash) (response_json response) (uuid_str (pl_org at_)))
      | None => Ret tt
      end;
  _ ← best_effort (_invalidate_context_cache (pl_org at_) (pl_project at_));
  _ ← notify webhooks (turns 2%nat) (pl_org at_) "ingest.batch.completed" (event_payload job_id at_ episodes);
  _ ← notify webhooks (turns 3%nat) (pl_org at_) "message.added" (event_payload job_id at_ episodes);
  Ret response.

Definition project_404 (project_id : uuid) : exn := AppExc NotFoundError ("Project " +:+ uuid_str project_id +:+ " not found").

Definition batch_of (org_id created_by session_id : uuid) (messages : list Message) : Batch :=
  mkBatch (uuid_str org_id) (uuid_str created_by) (uuid_str session_id) (map model_dump messages).

(** From the claim on. *)
Definition ingest_claimed (at_ : Place) (messages : list Message) (uploaded_blobs : list UploadFile)
    (idempotency_key body_hash : option string) : prog IngestMemoryResponse :=
  let b := batch_of (pl_org at_) (pl_created_by at_) (pl_session at_) messages in
  '(job_id, replay) ← _claim_batch b (pl_session at_) (pl_project at_);
  match replay with
  | Some r => Ret (replayed r)
  | None =>
      stored ← catch (store_batch at_ messages uploaded_blobs) (undo (pl_org at_) [] b);
      _ ← catch (call Commit) (undo (pl_org at_) (uploaded_keys stored.2) b);
      _finalize_ingest job_id at_ stored.1 stored.2 idempotency_key body_hash
  end.

Definition ingest (org_id project_id created_by : uuid) (session_external_id : string) (messages : list Message)
    (uploaded_blobs : list UploadFile) (idempotency_key body_hash : option string) : prog IngestMemoryResponse :=
  project ← get_project org_id project_id;
  match project with
  | None => Throw (project_404 project_id)
  | Some _ =>
      replay ← match idempotency_key with
               | Some key => _check_idempotency_key key (default EmptyString body_hash) (uuid_str org_id)
               | None => Ret None
               end;
      match replay with
      | Some stored => lift (parse_response stored)
      | None =>
          s ← _resolve_session org_id project_id session_external_id;
          ingest_claimed (mkPlace org_id project_id (se_id s) created_by) messages uploaded_blobs idempotency_key body_hash
      end
  end.
End ingest.

(** * What a step of ingest does to the tables *)

(** The claim of a batch writes its own table only. *)
Lemma claim_touches `{Hashlib} `{Idempotency.Orjson} `{Deployment} sid pid h j :
  touches (λ t, bool_decide (t = ingest_dedup)) (insert_or_none pid sid h j).
Proof.
  unfold insert_or_none. apply touches_bind; [by apply touches_reads, reads_call|]. intros now.
  apply touches_bind; [by apply touches_call|]. intros _. apply touches_bind; [by apply touches_call|].
  intros [|x [|]]; apply touches_reads; [apply reads_ret..|by apply reads_throw].
Qed.

Lemma claim_script_orderly key payload ttl : ks_orderly (claim_script key payload ttl).
Proof.
  apply ks_bind_orderly; [auto with zync|]. intros [e|]; [done|]. apply ks_bind_orderly.
  - intros now m e. unfold ks_set_nx_ex. repeat case_match; by intros [= <-].
  - intros [|]; [done|]. by apply ks_bind_orderly; [auto with zync|].
Qed.

Lemma claim_begins `{Hashlib} `{Idempotency.Orjson} `{Deployment} b sid pid :
  begins (_claim_batch b sid pid) (λ d _ d', ∀ t, t ≠ ingest_dedup → d' t = d t).
Proof.
  assert (Hreads : ∀ prior : prog (uuid * option Idempotency.IngestMemoryResponse), reads_only prior →
    acts prior (λ d _ d', ∀ t, t ≠ ingest_dedup → d' t = d t)).
  { intros p Hp. eapply acts_weaken; [by apply reads_acts|]. by intros d a d' ->. }
  unfold _claim_batch. apply begins_reads; [unfold check_content_hash; reading|]. intros _.
  apply begins_reads; [by apply reads_call|]. intros j.
  apply begins_reads; [unfold claim_content_hash; apply reads_bind; [apply reads_redis, claim_script_orderly|reading]|]. intros claim.
  destruct (negb (won claim)).
  { apply begins_acts, Hreads. destruct (winner claim) as [w|]; [|by apply reads_throw]. destruct (_decode_claim_payload w _). apply reads_ret. }
  intros s Hs. rewrite run_bind. unfold try_except. rewrite run_catch, run_bind.
  pose proof (claim_touches sid pid (batch_hash b) j s) as Hi.
  assert (Hlose : reads_only (prior ← get_job_id pid sid (batch_hash b); r ← _loser_response b prior; Ret (j, Some r))).
  { unfold get_job_id, _loser_response, release_content_hash. reading. }
  destruct (run (insert_or_none pid sid (batch_hash b) j) s) as [[e|c] s1].
  - destruct Hi as [He Hc]. destruct (is_integrity e); [|done]. cbn [run]. rewrite run_bind, run_call. cbn [exec state_world op_sem].
    pose proof (Hreads _ Hlose (mkState (st_clock s1) (st_redis s1) (st_committed s1) (st_committed s1) (st_tenant s1)
      (st_entropy s1) (st_drawn s1) (st_out s1) (st_remote s1))) as Hr. cbn [st_db st_committed] in Hr. rewrite Hc, <- Hs in *.
    destruct (run _ _) as [[e'|x] s2]; cbn in *; [tauto|]. tauto.
  - destruct Hi as [Hd Hc]. cbn [run]. assert (∀ t, t ≠ ingest_dedup → st_db s1 t = st_db s t) as Hd'.
    { intros t Ht. apply Hd. by apply bool_decide_false. }
    destruct c; [cbn; split; [exact Hd'|done]|].
    pose proof (Hreads _ Hlose s1) as Hr. destruct (run _ s1) as [[e'|x] s2]; cbn in *; destruct Hr as [Hr Hc2]; (split; [|congruence]); [done|].
    intros t Ht. by rewrite Hr, Hd'.
Qed.

(** The row of a message. *)
Definition row_of_dict (at_ : Place) (m : EpisodeDict) (e : Episode) : Prop :=
  ep_organization_id e = pl_org at_ ∧ ep_project_id e = pl_project at_ ∧ ep_session_id e = pl_session at_
  ∧ ep_user_id e = pl_created_by at_ ∧ ep_role e = ed_role m ∧ ep_content e = ed_content m
  ∧ ep_metadata e = JObj (ed_metadata m) ∧ (∀ t, ed_created_at m = Some t → ep_created_at e = t)
  ∧ ep_enrichment_status e = 0 ∧ ep_is_deleted e = false.

(** The rows of a batch, numbered without a gap from [start]. *)
Definition rows_of (at_ : Place) (start : Z) (messages : list EpisodeDict) (l : list Episode) : Prop :=
  Forall2 (row_of_dict at_) messages l ∧ map ep_sequence_number l = seqZ start (Z.of_nat (length messages)).

Lemma works_rows at_ now start messages :
  works (episode_rows at_ now start messages) (λ d l d', d' = d ∧ rows_of at_ start messages l).
Proof.
  revert start; induction messages as [|m r IH]; intros start; [by apply works_ret|]. cbn [episode_rows].
  apply works_then; [unfold uuid4; stepping|]. intros id. eapply works_weaken; [apply works_last, IH|].
  cbn beta. intros d l d' (rest & -> & -> & Hf & Hn). split; [done|]. split.
  - constructor; [|done]. split_and!; try done. by intros t Ht; cbn; rewrite Ht.
  - rewrite map_cons, Hn. cbn [ep_sequence_number length]. rewrite (seqZ_cons start) by lia. f_equal. f_equal; lia.
Qed.

Lemma works_batch_create at_ messages start :
  works (batch_create at_ messages start) (λ d l d', rows_of at_ start messages l ∧ appended episodes l d d').
Proof.
  unfold batch_create. destruct messages as [|m r]; [apply works_ret; intros d; split; [by split|apply appended_nil]|].
  apply works_then; [stepping|]. intros now. eapply works_bind; [apply works_rows|intros rows; exact (works_insert episodes rows)|].
  cbn. by intros d rows d1 l d2 [-> Hr] [-> Ha].
Qed.

(** The live rows of a session. *)
Definition rows_in (session_id : uuid) (d : database) : list Episode := List.filter (live_of session_id) (d episodes).

Lemma works_lock_and_insert at_ messages :
  works (_lock_and_insert at_ messages)
    (λ d l d', rows_of at_ (next_sequence (rows_in (pl_session at_) d)) messages l ∧ appended episodes l d d').
Proof.
  unfold _lock_and_insert. apply works_then; [unfold Sessions.get_by_id_for_update; stepping|]. intros _.
  eapply (works_bind _ _ (λ d n d', d' = d ∧ n = next_sequence (rows_in (pl_session at_) d))).
  - unfold get_next_sequence. eapply works_bind; [apply works_acts; by apply acts_call|intros l; by apply (works_ret _ (λ d n d', d' = d ∧ n = next_sequence l))|].
    cbn. by intros d l d1 n d2 [-> ->] [-> ->].
  - intros start. apply (works_reraise _ _ (λ _, _)), works_batch_create.
  - cbn. by intros d start d1 l d2 [-> ->].
Qed.

Lemma rows_length at_ start messages l : rows_of at_ start messages l → length l = length messages.
Proof. intros [Hf _]. symmetry. by eapply Forall2_length. Qed.

Section storing.
Context `{HttpServer} `{OrgConfigSchema} `{Spacy} `{Repr}.

(** The texts that are stored: what the organization's policy makes of the messages. *)
Definition redacted_as (org_id : uuid) (bao_client : OpenBaoClient * auth) (messages stored : list EpisodeDict) : Prop :=
  ∃ c, returned (_get_org_pii_config org_id bao_client) c ∧ redacted c messages = inr stored.

Lemma works_redact org_id bao_client messages :
  works (_redact_episodes org_id bao_client messages) (λ d l d', d' = d ∧ redacted_as org_id bao_client messages l).
Proof.
  unfold _redact_episodes. eapply works_bind.
  - apply works_returned, works_steps. unfold _get_org_pii_config. apply steps_in_bind; [|done].
    apply steps_in_try; [apply get_org_config_steps, same_tables_kept|done].
  - intros c. instantiate (1 := λ c d l d', d' = d ∧ redacted c messages = inr l). cbn beta.
    intros s. destruct (redacted c messages) as [e|l]; [by split|]. split; [done|]. by intros l' [= <-].
  - cbn. intros d c d1 l d2 [-> Hc] [-> Hl]. split; [done|]. by exists c.
Qed.
End storing.

Section atomicity.
Context `{Hashlib} `{Idempotency.Orjson} `{Deployment} `{HttpServer} `{OrgConfigSchema} `{Spacy} `{Repr} `{S3} `{BlobSettings} `{PySet}
        `{Hmac} `{IngestSchema}.
Context (bao_client : option (OpenBaoClient * auth)) (temporary : OpenBaoClient * auth)
        (webhooks : option (option TransitManager * bool)) (arq : bool) (trace_id : string) (turns : nat → list nat).

(** The rows of the files the messages refer to, one for each reference, in order. *)
Definition files_stored (at_ : Place) (messages : list Message) (files : list UploadFile) (l : list Episode)
    (records : list EpisodeBlob) : Prop :=
  ∃ config, (records ≠ [] → returned (_resolve_storage_config (pl_org at_) bao_client) config)
    ∧ Forall2 (attached config at_ files) (references (attachments (map ep_id l) (map m_blobs messages))) records.

(** A stored batch: the redacted messages as rows of the session, numbered from the next
    free number on, and a row for every file they refer to. *)
Definition batch_stored (at_ : Place) (messages : list Message) (files : list UploadFile) (d : database)
    (l : list Episode) (records : list EpisodeBlob) : Prop :=
  (∃ dicts, redacted_as (pl_org at_) (default temporary bao_client) (map dict_of messages) dicts
     ∧ rows_of at_ (next_sequence (rows_in (pl_session at_) d)) dicts l)
  ∧ files_stored at_ messages files l records.

Lemma no_attachments {ids : list uuid} (messages : list Message) :
  existsb (λ m, match m_blobs m with [] => false | _ => true end) messages = false → attachments ids (map m_blobs messages) = [].
Proof.
  intros Eb. apply filter_none. intros [i bs] Hx. apply list_elem_of_In, in_combine_r, in_map_iff in Hx as (m & <- & Hm).
  cbn. destruct (m_blobs m) as [|b bs] eqn:Em; [done|].
  assert (existsb (λ m, match m_blobs m with [] => false | _ => true end) messages = true) as E; [|congruence].
  apply existsb_exists. exists m. by rewrite Em.
Qed.

(** The files of a batch whose rows are there. *)
Definition blob_step (at_ : Place) (messages : list Message) (files : list UploadFile) (l : list Episode) : prog (list EpisodeBlob) :=
  match files with
  | _ :: _ => _process_blobs bao_client at_ (map ep_id l) (map m_blobs messages) files
  | [] =>
      if existsb (λ m, match m_blobs m with [] => false | _ => true end) messages then
        Throw (AppExc ValidationError "messages reference blobs but no files were uploaded")
      else Ret []
  end.

Lemma works_blob_step at_ messages files l :
  works (blob_step at_ messages files l)
    (λ d records d', files_stored at_ messages files l records ∧ appended episode_blobs records d d').
Proof.
  destruct files as [|f0 fs]; cbn [blob_step].
  - destruct (existsb _ messages) eqn:Eb; [apply works_throw|]. apply works_ret. intros d. split; [|apply appended_nil].
    exists default_storage. split; [done|]. by rewrite no_attachments.
  - eapply works_weaken; [apply works_process_blobs|]. cbn beta. intros d records d' (config & Hc & Hf & Ha).
    split; [|done]. exists config. split; [|done]. intros Hr. apply Hc. intros E. rewrite E in Hf. by apply Forall2_nil_inv_l in Hf.
Qed.

Lemma works_store at_ messages files :
  works (store_batch bao_client temporary at_ messages files)
    (λ d x d', batch_stored at_ messages files d x.1 x.2
       ∧ ∃ d1, appended episodes x.1 d d1 ∧ appended episode_blobs x.2 d1 d').
Proof.
  unfold store_batch.
  eapply (works_bind _ _ _ (λ dicts d x d',
    rows_of at_ (next_sequence (rows_in (pl_session at_) d)) dicts x.1 ∧ files_stored at_ messages files x.1 x.2
    ∧ ∃ d1, appended episodes x.1 d d1 ∧ appended episode_blobs x.2 d1 d')); [apply works_redact|intros dicts|].
  - eapply works_bind; [apply works_lock_and_insert|intros l; apply (works_last _ (pair l)), works_blob_step|].
    cbn beta. intros d l d1 x d2 [Hr Ha] (records & -> & Hf & Hb). eauto.
  - cbn beta. intros d dicts d1 x d2 [-> Hd] (Hr & Hf & Ha). split; [|done]. split; [by exists dicts|done].
Qed.

(** ** A batch that fails *)

(** Nothing is committed, and of the work that is not, the tables outside [T] have none
    unless they had some before. *)
Definition uncommitted (T : table → bool) (s s' : state) : Prop :=
  st_committed s' = st_committed s ∧
  ((∀ t, T t = false → st_db s t = st_committed s t) → ∀ t, T t = false → st_db s' t = st_committed s' t).

#[local] Instance uncommitted_preorder T : PreOrder (uncommitted T).
Proof. split; [done|]. intros s1 s2 s3 [E1 Hu1] [E2 Hu2]. split; [congruence|]. auto. Qed.

Lemma uncommitted_kept T : keeps_tables (uncommitted T).
Proof. intros s s' [Hd Hc]. split; [done|]. by rewrite Hd, Hc. Qed.

Lemma uncommitted_rollback T : steps_in (uncommitted T) (call Rollback).
Proof. by apply steps_in_call. Qed.

Lemma orderly_commits {X} (o : op X) (s : state) : orderly o → st_committed (op_sem o s).2 = st_committed s.
Proof. intros Ho. destruct o; cbn in *; repeat case_match; done. Qed.

(** A statement on a table of [T]. *)
Lemma uncommitted_write {X} T (o : op X) :
  orderly o → (∀ t, op_writes o t = true → T t = true) → steps_in (uncommitted T) (call o).
Proof.
  intros Ho HT. assert (∀ s, st_committed (op_sem o s).2 = st_committed s) as Hc by (intros s; by apply orderly_commits).
  apply steps_in_call. intros s. split; [apply Hc|]. intros Hs t Ht. rewrite Hc, <- Hs by done.
  destruct (steps_writes T o Ho HT) as [Hw _]. by apply Hw.
Qed.

Definition any_table (t : table) : bool := true.
Abbreviation commits_nothing := (uncommitted any_table).

Lemma undo_steps {A} org keys b e : steps_in commits_nothing (undo (A := A) bao_client org keys b e).
Proof.
  pose proof (uncommitted_kept any_table) as HR.
  unfold undo. apply steps_in_bind; [apply uncommitted_rollback|]. intros _.
  apply steps_in_bind; [by apply compensate_steps|]. intros _. apply steps_in_bind; [|done].
  unfold release_content_hash. stepping.
Qed.

Lemma undo_raises {A} org keys b e : never_ret (undo (A := A) bao_client org keys b e).
Proof. unfold undo. do 3 (apply never_ret_bind; intros _). done. Qed.

Lemma never_ret_run {W} `{World W} {A} (p : prog A) (w : W) : never_ret p → ∃ e, (run p w).1 = inl e.
Proof. revert w; induction p as [a|e|X o k IH]; intros w Hp; [done|by exists e|]. apply IH, Hp. Qed.

(** What a handler that only cleans up leaves of a step. *)
Lemma run_undone {A} (p : prog A) org keys b R (s : state) :
  works p R →
  let r := run (catch p (undo bao_client org keys b)) s in
  st_committed r.2 = st_committed s ∧ ∀ a, r.1 = inr a → R (st_db s) a (st_db r.2).
Proof.
  intros Hp. cbn zeta. rewrite run_catch. destruct (Hp s) as [Hc HR].
  destruct (run p s) as [[e|a] s1]; cbn [fst snd] in *; [|done].
  destruct (never_ret_run (undo (A := A) bao_client org keys b e) s1 (undo_raises org keys b e)) as [e' He'].
  split; [|intros a Ha; congruence]. rewrite <- Hc. exact (proj1 (steps_in_run commits_nothing _ s1 (undo_steps org keys b e))).
Qed.

(** ** What follows the commit *)

(** Whatever fails, and whenever, the program returns something in [Ψ]. *)
Definition total {A} (Ψ : A → Prop) (p : prog A) : Prop := ∀ w : faulty, ∃ a, (run p w).1 = inr a ∧ Ψ a.

Lemma total_ret {A} (Ψ : A → Prop) a : Ψ a → total Ψ (Ret a).
Proof. intros Ha w. by exists a. Qed.
Lemma total_bind {A B} (p : prog A) (f : A → prog B) Φ Ψ : total Φ p → (∀ a, Φ a → total Ψ (f a)) → total Ψ (p ≫= f).
Proof.
  intros Hp Hf w. rewrite run_bind. destruct (Hp w) as (a & Ha & HΦ). destruct (run p w) as [r w1]. cbn in Ha. subst r.
  by apply Hf.
Qed.
Lemma total_harmless {A} (p : prog A) h Ψ : tame Ψ p → (∀ e, total Ψ (h e)) → total Ψ (try_except p is_exception h).
Proof.
  intros Hp Hh w. rewrite plain_total by by eapply tame_plain. pose proof (tame_run p Ψ w Hp) as Hr.
  destruct (run p w) as [[e|a] w1]; cbn in Hr; [apply Hh|]. by exists a.
Qed.
Lemma total_best_effort p : harmless p → total (λ _, True) (best_effort p).
Proof. intros Hp. apply total_harmless; [exact Hp|]. intros e. by apply total_ret. Qed.

Lemma harmless_redis {X} (c : KS X) : ks_orderly c → harmless (redis c).
Proof. intros Hc. apply tame_call. intros s e. apply Hc. Qed.

Lemma harmless_queue q : harmless (lift (get_queue_name ENVIRONMENT q)).
Proof. apply tame_lift. unfold get_queue_name. intros e. case_match; by intros [= <-]. Qed.

Lemma set_nx_orderly k v ttl : ks_orderly (ks_set_nx_ex k v ttl).
Proof. intros now m e. unfold ks_set_nx_ex. repeat case_match; by intros [= <-]. Qed.

Lemma harmless_enqueue_task x id t : harmless (enqueue_task x id t).
Proof.
  destruct t as [[task qname] extra]. eapply tame_bind; [apply harmless_redis, set_nx_orderly|]. intros claimed _.
  destruct claimed; [|done]. cbn [negb]. apply tame_try; [eapply tame_bind; [by apply tame_ordinary|done]|]. intros e He.
  eapply tame_bind with (Ψ := λ _, True); [|intros _ _; exact He]. apply tame_try; [|done].
  eapply tame_bind; [apply harmless_redis|done]. apply ks_bind_orderly; [auto with zync|]. intros held. case_match; auto with zync. done.
Qed.

Lemma harmless_enqueue_arq ts jid oid pid sid l : harmless (_enqueue_arq_tasks arq ts trace_id jid oid pid sid l).
Proof.
  unfold _enqueue_arq_tasks. destruct (negb arq); [done|]. eapply tame_bind; [apply harmless_queue|]. intros high _.
  eapply tame_bind; [apply harmless_queue|]. intros low _. eapply tame_bind with (Ψ := λ _, True); [|done].
  apply tame_gather, Forall_fmap, Forall_forall. intros e _. unfold compose, _enqueue_one_episode, tasks. cbn [for_each].
  do 3 (eapply tame_bind with (Ψ := λ _, True); [eapply tame_bind; [apply harmless_enqueue_task|done]|intros _ _]). done.
Qed.

(** What is asked of the encryption of webhook secrets. *)
Context (fine : ∀ t pool, webhooks = Some (Some t, pool) → ordinary_manager t ∧ silent_manager t).

Lemma total_notify ts o ev payload : total (λ _, True) (notify webhooks ts o ev payload).
Proof.
  unfold notify. destruct webhooks as [[t pool]|]; [|by apply total_ret].
  apply (total_bind _ _ (λ _, True)); [|by intros; apply total_ret]. apply total_harmless; [|by intros; apply total_ret].
  eapply tame_bind; [apply harmless_fan_out|done]. intros t' ->. by destruct (fine t' pool eq_refl).
Qed.

Lemma total_extraction ts l o p : total (λ _, True) (_enqueue_blob_extraction_tasks arq ts trace_id l o p).
Proof.
  apply total_harmless; [|by intros; apply total_ret]. destruct (negb arq); [done|].
  eapply tame_bind; [apply harmless_queue|]. intros q _. eapply tame_bind with (Ψ := λ _, True); [|done].
  apply tame_gather, Forall_fmap, Forall_forall. intros b _. by apply tame_ordinary.
Qed.

(** What follows the commit answers, whatever fails. *)
Lemma total_finalize job at_ l records key h :
  total (λ r, r = accepted job l records) (_finalize_ingest webhooks arq trace_id turns job at_ l records key h).
Proof.
  unfold _finalize_ingest.
  apply (total_bind _ _ (λ _, True)); [apply total_best_effort, harmless_enqueue_arq|intros _ _].
  apply (total_bind _ _ (λ _, True)); [destruct records; [by apply total_ret|apply total_extraction]|intros _ _].
  apply (total_bind _ _ (λ _, True)).
  { destruct key as [k|]; [|by apply total_ret]. apply total_best_effort. unfold store_idempotency_key.
    eapply tame_bind; [by apply tame_ordinary|]. intros now _. apply harmless_redis. auto with zync. }
  intros _ _. apply (total_bind _ _ (λ _, True)).
  { apply total_best_effort. unfold _invalidate_context_cache. eapply tame_bind; [apply harmless_redis; auto with zync|done]. }
  intros _ _. do 2 (apply (total_bind _ _ (λ _, True)); [apply total_notify|intros _ _]). by apply total_ret.
Qed.

(** It writes the signing secrets of webhooks at most, and commits nothing. *)
Definition endpoints_only (t : table) : bool := bool_decide (t = webhook_endpoints).
Definition endpoint_step (s s' : state) : Prop := writes_in endpoints_only s s' ∧ st_committed s' = st_committed s.

#[local] Instance endpoint_step_preorder : PreOrder endpoint_step.
Proof. split; [by split|]. intros s1 s2 s3 [W1 C1] [W2 C2]. split; [by etrans|congruence]. Qed.

Lemma endpoint_step_kept : keeps_tables endpoint_step.
Proof. intros s s' Hs. split; [by apply writes_in_kept|]. apply Hs. Qed.

Lemma endpoint_step_call {X} (o : op X) :
  orderly o → (∀ t, op_writes o t = true → t = webhook_endpoints) → steps_in endpoint_step (call o).
Proof.
  intros Ho HT. apply steps_in_call. intros s. split; [|by apply orderly_commits].
  destruct (steps_writes endpoints_only o Ho) as [Hw _]; [|apply Hw]. intros t Ht. by apply bool_decide_true, HT.
Qed.

Lemma notify_writes ts o ev payload : steps_in endpoint_step (notify webhooks ts o ev payload).
Proof.
  unfold notify. destruct webhooks as [[t pool]|]; [|done]. apply steps_in_bind; [|done].
  apply emit_writes; [apply endpoint_step_kept|intros X; apply endpoint_step_call|].
  intros t' ->. by destruct (fine t' pool eq_refl).
Qed.

Lemma finalize_writes job at_ l records key h :
  steps_in endpoint_step (_finalize_ingest webhooks arq trace_id turns job at_ l records key h).
Proof.
  pose proof endpoint_step_kept as HR. unfold _finalize_ingest, best_effort.
  apply steps_in_bind; [|intros _; apply steps_in_bind; [|intros _; apply steps_in_bind; [|intros _; apply steps_in_bind; [|intros _]]]].
  - apply steps_in_try; [|done]. unfold _enqueue_arq_tasks. destruct (negb arq); [done|].
    do 2 (apply steps_in_bind; [stepping|intros ?]). apply steps_in_bind; [|done].
    apply steps_in_gather, Forall_fmap, Forall_forall. intros e _.
    unfold compose, _enqueue_one_episode, tasks, enqueue_task. cbn [for_each]. stepping.
  - destruct records as [|b bs]; [done|]. apply steps_in_try; [|done]. destruct (negb arq); [done|].
    apply steps_in_bind; [stepping|]. intros q. apply steps_in_bind; [|done].
    apply steps_in_gather, Forall_fmap, Forall_forall. intros x _. unfold compose. by apply steps_read.
  - destruct key as [k|]; [|done]. unfold store_idempotency_key. stepping.
  - unfold _invalidate_context_cache. stepping.
  - do 2 (apply steps_in_bind; [apply notify_writes|intros _]). done.
Qed.

(** ** The whole request *)

(** From a state without uncommitted work: a run that fails has committed nothing, and
    one that returns relates the databases by [R]. *)
Definition commits {A} (p : prog A) (R : database → A → database → Prop) : Prop :=
  ∀ s : state, st_db s = st_committed s →
    match run p s with
    | (inl _, s') => st_committed s' = st_committed s
    | (inr a, s') => R (st_db s) a (st_db s')
    end.

Lemma commits_then {A B} (p : prog A) (f : A → prog B) (Φ : database → A → Prop) R :
  works p (λ d a d', d' = d ∧ Φ d a) → (∀ a, commits (f a) (λ d b d', Φ d a → R d b d')) → commits (p ≫= f) R.
Proof.
  intros Hp Hf s Hs. rewrite run_bind. destruct (Hp s) as [Hc HR]. destruct (run p s) as [[e|a] s1]; cbn [fst snd] in *; [done|].
  destruct (HR a eq_refl) as [Hd HΦ]. specialize (Hf a s1 ltac:(congruence)).
  destruct (run (f a) s1) as [[e|b] s2]; [congruence|]. rewrite Hd in Hf. by apply Hf.
Qed.

Lemma commits_request {A} (p : prog A) R (s : state) :
  commits p R → st_db s = st_committed s →
  let r := run (request p) s in
  (∃ e, r.1 = inl e ∧ st_committed r.2 = st_committed s)
  ∨ ∃ a, r.1 = inr a ∧ st_db r.2 = st_committed r.2 ∧ R (st_committed s) a (st_committed r.2).
Proof.
  intros Hp Hs. cbn zeta. rewrite run_request, <- Hs. specialize (Hp s Hs).
  destruct (run p s) as [[e|a] s1]; [left|right; by exists a]. exists e. destruct (is_exception e); cbn; (split; [done|congruence]).
Qed.

(** What a batch may become: the answer of an earlier request with its content, or rows. *)
Definition claimed_or_stored (at_ : Place) (messages : list Message) (files : list UploadFile) (d : database)
    (resp : IngestMemoryResponse) (d' : database) : Prop :=
  (∃ j r, returned (_claim_batch (batch_of (pl_org at_) (pl_created_by at_) (pl_session at_) messages) (pl_session at_) (pl_project at_)) (j, Some r)
     ∧ resp = replayed r ∧ ∀ t, t ≠ ingest_dedup → d' t = d t)
  ∨ ∃ j l records, resp = accepted j l records ∧ batch_stored at_ messages files d l records
     ∧ d' episodes = d episodes ++ l ∧ d' episode_blobs = d episode_blobs ++ records
     ∧ ∀ t, t ∉ [episodes; episode_blobs; ingest_dedup; webhook_endpoints] → d' t = d t.

Lemma claimed_commits at_ messages files key h :
  commits (ingest_claimed bao_client temporary webhooks arq trace_id turns at_ messages files key h)
    (claimed_or_stored at_ messages files).
Proof.
  intros s Hs. unfold ingest_claimed. set (b := batch_of _ _ _ _). rewrite run_bind.
  pose proof (claim_begins b (pl_session at_) (pl_project at_) s Hs) as Hc.
  destruct (run (_claim_batch b _ _) s) as [[e|[j [r|]]] s1] eqn:Ec; [by destruct Hc| |].
  { destruct Hc as [Hd _]. left. exists j, r. split_and!; [by exists s, s1|done|exact Hd]. }
  destruct Hc as [Hd Hc]. rewrite run_bind.
  pose proof (run_undone _ (pl_org at_) [] b _ s1 (works_store at_ messages files)) as [Hc2 HR]. cbn zeta in Hc2, HR.
  destruct (run (catch (store_batch _ _ _ _ _) _) s1) as [[e|[l records]] s2]; cbn [fst snd] in *; [congruence|].
  destruct (HR _ eq_refl) as [Hst (d1 & [He He'] & [Hb Hb'])]. cbn [fst snd] in *. rewrite run_bind, run_catch, run_call.
  cbn [exec state_world op_sem]. set (s3 := mkState _ _ _ _ _ _ _ _ _).
  destruct (total_finalize j at_ l records key h (s3, [])) as (resp & Hresp & ->).
  pose proof (proj1 (run_steady (_finalize_ingest webhooks arq trace_id turns j at_ l records key h) ((s3, []) : faulty) eq_refl)) as Hrun.
  cbn [abs faulty_world fst] in Hrun. rewrite Hresp in Hrun.
  pose proof (steps_in_run _ _ s3 (finalize_writes j at_ l records key h)) as [Hw _].
  destruct (run (_finalize_ingest _ _ _ _ _ _ _ _ _ _) s3) as [x s4]. cbn [fst snd] in *. subst x.
  assert (Hkeep : ∀ t, t ≠ webhook_endpoints → st_db s4 t = st_db s2 t) by (intros t Ht; by apply Hw, bool_decide_false).
  right. exists j, l, records. split; [done|]. split; [|split_and!].
  - destruct Hst as [(dicts & Hred & Hrows) Hfiles]. split; [|done]. exists dicts. split; [done|].
    unfold rows_in in *. by rewrite <- (Hd episodes).
  - by rewrite Hkeep, Hb', He, Hd.
  - by rewrite Hkeep, Hb, He', Hd.
  - intros t Ht. rewrite !not_elem_of_cons in Ht. destruct Ht as (H1' & H2' & H3' & H4' & _).
    by rewrite Hkeep, Hb', He', Hd.
Qed.

Definition session_of (project_id : uuid) (d : database) (se : Session) : Prop :=
  se ∈ d sessions ∧ se_project_id se = project_id ∧ se_is_deleted se = false.

Lemma filter_only {A} (p : A → bool) l x : List.filter p l = option_list (Some x) → x ∈ l ∧ p x = true.
Proof. intros E. assert (In x (List.filter p l)) as [Hx Hp]%filter_In by (rewrite E; by left). by rewrite list_elem_of_In. Qed.

Lemma works_joined org (p : Session → bool) :
  works (joined_session org p) (λ d o d', d' = d ∧ ∀ se, o = Some se → se ∈ d sessions ∧ p se = true ∧ se_is_deleted se = false).
Proof.
  unfold joined_session, project_ids. apply works_then; [stepping|]. intros ids.
  eapply works_weaken; [apply works_acts, (acts_one sessions)|]. cbn beta. intros d o d' [Ho ->]. split; [done|]. intros se ->.
  apply filter_only in Ho as [Hin Hp]. apply andb_true_iff in Hp as [Hp _]. apply andb_true_iff in Hp as [Hp Hdel].
  split_and!; [done|done|by apply negb_true_iff].
Qed.

Lemma works_resolve o p x :
  works (_resolve_session o p x) (λ d se d', d' = d ∧ session_of p d se).
Proof.
  unfold _resolve_session.
  eapply (works_bind _ _ _ (λ found d se d', d' = d ∧ ((∀ y, found = Some y → session_of p d y) → session_of p d se))); [apply works_joined| |].
  - intros found. eapply (works_bind _ _ (λ d se' d', d' = d ∧ ((∀ y, found = Some y → session_of p d y) → ∀ y, se' = Some y → session_of p d y))
      (λ found d se d', d' = d ∧ found = Some se)).
    + destruct found as [y|]; [by apply works_ret|]. destruct (uuid_parse x) as [u|]; [|by apply works_ret].
      eapply works_weaken; [apply works_joined|]. cbn beta. intros d se d' [-> Hse]. split; [done|]. intros _ y Hy.
      destruct (Hse y Hy) as (Hin & Hp & Hdel). split_and!; [done| |done]. apply andb_true_iff in Hp as [_ Hp]. cbn in Hp. lia.
    + intros [se|]; [by apply works_ret|apply works_throw].
    + cbn beta. intros d found' d1 se d2 [-> Hf] [-> ->]. split; [done|]. intros Hy. by apply Hf.
  - cbn beta. intros d found d1 se d2 [-> Hf] [-> Hse]. split; [done|]. apply Hse. intros y Hy.
    destruct (Hf y Hy) as (Hin & Hp & Hdel). split_and!; [done| |done]. apply andb_true_iff in Hp as [Hp _]. lia.
Qed.

(** What an ingest that answers has done. *)
Definition ingested (org_id project_id created_by : uuid) (messages : list Message) (files : list UploadFile)
    (key h : option string) (d : database) (resp : IngestMemoryResponse) (d' : database) : Prop :=
  (∃ p, p ∈ d projects ∧ live_project org_id project_id p = true) ∧
  ((∃ k stored, key = Some k ∧ returned (_check_idempotency_key k (default EmptyString h) (uuid_str org_id)) (Some stored)
      ∧ parse_response stored = inr resp ∧ d' = d)
   ∨ ∃ se, session_of project_id d se
      ∧ claimed_or_stored (mkPlace org_id project_id (se_id se) created_by) messages files d resp d').

Lemma works_check_key k h org :
  works (_check_idempotency_key k h org) (λ d o d', d' = d ∧ returned (_check_idempotency_key k h org) o).
Proof. apply works_returned, works_steps. unfold _check_idempotency_key, check_idempotency_key. stepping. Qed.

Lemma ingest_commits org_id project_id created_by x messages files key h :
  commits (ingest bao_client temporary webhooks arq trace_id turns org_id project_id created_by x messages files key h)
    (ingested org_id project_id created_by messages files key h).
Proof.
  unfold ingest.
  apply (commits_then _ _ (λ d o, ∀ p, o = Some p → p ∈ d projects ∧ live_project org_id project_id p = true)).
  { eapply works_weaken; [apply works_acts, (acts_one projects)|]. cbn beta. intros d o d' [Ho ->]. split; [done|]. intros p ->.
    by apply filter_only in Ho. }
  intros [p|]; [|by intros s _].
  apply (commits_then _ _ (λ d o, ∀ stored, o = Some stored → ∃ k, key = Some k
    ∧ returned (_check_idempotency_key k (default EmptyString h) (uuid_str org_id)) (Some stored))).
  { destruct key as [k|]; [|by apply works_ret]. eapply works_weaken; [apply works_check_key|]. cbn beta. intros d o d' [-> Ho].
    split; [done|]. intros stored ->. by exists k. }
  intros [stored|].
  - intros s Hs. destruct (parse_response stored) as [e|resp] eqn:Ep; [done|]. cbn [lift run]. intros Hk Hp.
    split; [exists p; auto|]. left. destruct (Hk _ eq_refl) as (k & -> & Hr). by exists k, stored.
  - apply (commits_then _ _ (session_of project_id)); [apply works_resolve|]. intros se s Hs.
    pose proof (claimed_commits (mkPlace org_id project_id (se_id se) created_by) messages files key h s Hs) as Hc.
    destruct (run (ingest_claimed _ _ _ _ _ _ _ _ _ _ _) s) as [[e|resp] s1]; [done|]. intros Hse _ Hp.
    split; [exists p; auto|]. right. by exists se.
Qed.

(** ** When services fail

    What a run in a world where calls may fail can have committed. *)

#[local] Instance same_tables_preorder : PreOrder same_tables.
Proof. split; [done|]. intros s1 s2 s3 [D1 C1] [D2 C2]. split; congruence. Qed.

Lemma read_steps : (∀ o p, steps_in same_tables (get_project o p)) ∧
  (∀ k h o, steps_in same_tables (_check_idempotency_key k h o)) ∧
  ∀ o p x, steps_in same_tables (_resolve_session o p x).
Proof.
  split_and!; intros.
  - unfold get_project. stepping.
  - unfold _check_idempotency_key, check_idempotency_key. stepping.
  - unfold _resolve_session, Sessions.get_by_external_id, get_by_uuid, joined_session, project_ids. stepping.
Qed.

Definition dedup_only (t : table) : bool := bool_decide (t = ingest_dedup).

Lemma claim_uncommitted b sid pid : steps_in (uncommitted dedup_only) (_claim_batch b sid pid).
Proof.
  pose proof (uncommitted_kept dedup_only). unfold _claim_batch, insert_or_none.
  unfold check_content_hash, claim_content_hash, get_job_id, _loser_response, release_content_hash, uuid4.
  stepping; try apply uncommitted_rollback; by apply uncommitted_write.
Qed.

Lemma upload_steps config at_ id slots metas : steps_in commits_nothing (upload_blobs config at_ id slots metas).
Proof.
  pose proof (uncommitted_kept any_table). unfold upload_blobs. destruct (_ <? _); [done|].
  apply steps_in_bind.
  - induction metas as [|m metas IH]; [done|]. cbn [upload_each]. apply steps_in_bind; [|intros b; by apply steps_in_bind].
    unfold upload_one, upload, uuid4. stepping.
  - intros [|b bs]; [done|]. by apply uncommitted_write.
Qed.

Lemma process_steps at_ ids blobs files : steps_in commits_nothing (_process_blobs bao_client at_ ids blobs files).
Proof.
  unfold _process_blobs. destruct (attachments ids blobs) as [|x xs]; [done|].
  apply steps_in_bind; [by apply resolve_steps, uncommitted_kept|]. intros config. apply steps_in_bind; [|done].
  apply steps_in_for_fold. intros [c rs] y. unfold one_episode. apply steps_in_bind.
  - apply steps_in_for_fold. intros [slots c'] bid. pose proof (uncommitted_kept any_table). unfold fill_slot. stepping.
  - intros filled. apply steps_in_bind; [apply upload_steps|done].
Qed.

Lemma store_steps at_ messages files : steps_in commits_nothing (store_batch bao_client temporary at_ messages files).
Proof.
  pose proof (uncommitted_kept any_table) as HR. unfold store_batch, _redact_episodes, _get_org_pii_config.
  apply steps_in_bind; [|intros dicts; apply steps_in_bind; [|intros l; apply steps_in_bind; [|done]]].
  - apply steps_in_bind; [|intros c; apply steps_lift]. apply steps_in_bind; [|done].
    apply steps_in_try; [by apply get_org_config_steps|done].
  - unfold _lock_and_insert, Sessions.get_by_id_for_update, get_next_sequence.
    apply steps_in_bind; [stepping|]. intros _. apply steps_in_bind; [stepping|]. intros start.
    apply steps_in_try; [|done]. destruct dicts as [|m ms]; [done|]. unfold batch_create.
    apply steps_in_bind; [stepping|]. intros now. apply steps_in_bind; [|intros rows; by apply uncommitted_write].
    generalize (m :: ms). clear m ms. intros ms. revert start.
    induction ms as [|m ms IH]; intros start; [done|]. cbn [episode_rows]. unfold uuid4.
    apply steps_in_bind; [stepping|]. intros id. apply steps_in_bind; [apply IH|done].
  - destruct files; [|apply process_steps]. case_goal; done.
Qed.

(** [d'] holds what one run of [store_batch] made of [d], all of it; the secrets of
    webhooks and the claims aside. It is what was answered, or a later statement failed. *)
Definition whole_batch (org_id project_id created_by : uuid) (x : string) (messages : list Message) (files : list UploadFile)
    (d : database) (r : exn + IngestMemoryResponse) (d' : database) : Prop :=
  ∃ se (w0 w0' w1 w2 : faulty) l records,
    run (_resolve_session org_id project_id x) w0 = (inr se, w0') ∧ st_db (abs w0) = d ∧
    run (store_batch bao_client temporary (mkPlace org_id project_id (se_id se) created_by) messages files) w1 = (inr (l, records), w2) ∧
    (∀ t, t ≠ ingest_dedup → st_db (abs w1) t = d t) ∧ (∀ t, t ≠ webhook_endpoints → d' t = st_db (abs w2) t) ∧
    ((∃ j, r = inr (accepted j l records)) ∨ r = inl (DatabaseError "down")).

(** Nothing was committed, and what was not is a claim at most. *)
Definition nothing_kept (d : database) (r : exn + IngestMemoryResponse) (s : state) : Prop :=
  st_committed s = d ∧
  ∀ resp, r = inr resp → st_db s = d ∨ (∃ m, resp = replayed m) ∧ ∀ t, t ≠ ingest_dedup → st_db s t = d t.

(** A step that fails is undone; what was caught had returned. *)
Lemma caught_faulty {A} (p : prog A) org keys b (w : faulty) :
  steps_in commits_nothing p →
  let r := run (catch p (undo bao_client org keys b)) w in
  st_committed (abs r.2) = st_committed (abs w) ∧ (is_ok r.1 = true → run p w = r).
Proof.
  intros Hp. cbn zeta. rewrite run_catch. pose proof (steps_in_faulty _ p w Hp) as [Hc _].
  destruct (run p w) as [[e|a] w1]; cbn [snd] in *; [|done].
  pose proof (steps_in_faulty _ _ w1 (undo_steps (A := A) org keys b e)) as [Hu _].
  destruct (never_ret_run (undo (A := A) bao_client org keys b e) w1 (undo_raises org keys b e)) as [e' He'].
  split; [congruence|]. by rewrite He'.
Qed.

(** A commit takes effect or fails without one. *)
Lemma commit_faulty (w : faulty) :
  match (exec Commit w).1 with
  | inr _ => abs (exec Commit w).2 = (op_sem Commit (abs w)).2
  | inl e => e = DatabaseError "down" ∧ abs (exec Commit w).2 = abs w
  end.
Proof. by destruct w as [s [|[] pl]]. Qed.

(** From the claim on, in a world where calls may fail. *)
Lemma faulty_claimed org_id project_id created_by se messages files key h (w : faulty) d :
  st_db (abs w) = d → st_committed (abs w) = d →
  let at_ := mkPlace org_id project_id (se_id se) created_by in
  let r := run (ingest_claimed bao_client temporary webhooks arq trace_id turns at_ messages files key h) w in
  nothing_kept d r.1 (abs r.2)
  ∨ ∃ (w1 w2 : faulty) l records j,
      run (store_batch bao_client temporary at_ messages files) w1 = (inr (l, records), w2)
      ∧ (∀ t, t ≠ ingest_dedup → st_db (abs w1) t = d t) ∧ st_committed (abs r.2) = st_db (abs w2)
      ∧ (∀ t, t ≠ webhook_endpoints → st_db (abs r.2) t = st_db (abs w2) t) ∧ r.1 = inr (accepted j l records).
Proof.
  intros Hd Hc at_. cbn zeta. unfold ingest_claimed. set (b := batch_of _ _ _ _). rewrite run_bind.
  pose proof (steps_in_faulty _ _ w (claim_uncommitted b (pl_session at_) (pl_project at_))) as [Hc1 Hd1].
  destruct (run (_claim_batch b _ _) w) as [[e|[j [m|]]] w1]; cbn [snd] in *.
  - left. split; [exact (eq_trans Hc1 Hc)|done].
  - left. split; [exact (eq_trans Hc1 Hc)|]. intros resp [= <-]. right. split; [by exists m|]. intros t Ht. cbn.
    rewrite Hd1; [by rewrite Hc1, Hc|by rewrite Hd, Hc|by apply bool_decide_false].
  - assert (∀ t, t ≠ ingest_dedup → st_db (abs w1) t = d t) as Ht1.
    { intros t Ht. rewrite Hd1; [by rewrite Hc1, Hc|by rewrite Hd, Hc|by apply bool_decide_false]. }
    rewrite run_bind. pose proof (caught_faulty _ (pl_org at_) [] b w1 (store_steps at_ messages files)) as [Hc2 Hok]. cbn zeta in Hc2, Hok.
    destruct (run (catch (store_batch _ _ _ _ _) _) w1) as [[e|[l records]] w2]; cbn [fst snd] in *; [left; split; [exact (eq_trans Hc2 (eq_trans Hc1 Hc))|done]|].
    specialize (Hok eq_refl). rewrite run_bind.
    rewrite run_catch, run_call. pose proof (commit_faulty w2) as Hcom.
    destruct (exec Commit w2) as [[e|[]] w3]; cbn [fst snd] in Hcom.
    2:{
      pose proof (steps_in_faulty _ _ w3 (finalize_writes j at_ l records key h)) as [Hw Hk].
      destruct (total_finalize j at_ l records key h w3) as (resp & Hresp & ->).
      destruct (run (_finalize_ingest _ _ _ _ _ _ _ _ _ _) w3) as [y w4]. cbn [fst snd] in *. subst y. right.
      exists w1, w2, l, records, j. rewrite Hcom in Hk, Hw. split_and!; [done|done|exact Hk| |done].
      intros t Ht. cbn [snd]. rewrite Hw by (by apply bool_decide_false). done. }
    left. pose proof (steps_in_faulty _ _ w3 (undo_steps (A := unit) (pl_org at_) (uploaded_keys records) b e)) as [Hu _].
    destruct (never_ret_run (undo (A := unit) bao_client (pl_org at_) (uploaded_keys records) b e) w3 (undo_raises _ _ _ _)) as [e' He'].
    destruct (run (undo _ _ _ _ _) w3) as [y w4]. cbn [fst snd] in *. subst y. split; [|done]. cbn [snd].
    destruct Hcom as [_ Hcom]. rewrite Hu, Hcom. exact (eq_trans Hc2 (eq_trans Hc1 Hc)).
Qed.

(** What a request that may meet failures leaves of the tables [d]: itself, a claim of
    its content when it was answered with the answer of an earlier one, or the whole of
    its batch. *)
Definition kept_whole (org_id project_id created_by : uuid) (x : string) (messages : list Message) (files : list UploadFile)
    (d : database) (r : exn + IngestMemoryResponse) (d' : database) : Prop :=
  d' = d
  ∨ (∃ m, r = inr (replayed m)) ∧ (∀ t, t ≠ ingest_dedup → d' t = d t)
  ∨ whole_batch org_id project_id created_by x messages files d r d'.

Lemma rollback_faulty {A} (w : faulty) :
  let r := run (_ ← call Rollback; Throw (DatabaseError "down") : prog A) w in
  r.1 = inl (DatabaseError "down") ∧ st_committed (abs r.2) = st_committed (abs w).
Proof. by destruct w as [s [|[] pl]]. Qed.

(** The handler: what it has committed, and what the closing commit adds to it. *)
Lemma faulty_ingest org_id project_id created_by x messages files key h (w : faulty) d :
  st_db (abs w) = d → st_committed (abs w) = d →
  let r := run (ingest bao_client temporary webhooks arq trace_id turns org_id project_id created_by x messages files key h) w in
  nothing_kept d r.1 (abs r.2)
  ∨ (∃ resp, r.1 = inr resp) ∧ ∀ d', d' = st_committed (abs r.2) ∨ d' = st_db (abs r.2) →
      ∀ r', r' = r.1 ∨ r' = inl (DatabaseError "down") → whole_batch org_id project_id created_by x messages files d r' d'.
Proof.
  intros Hd Hc. cbn zeta. destruct read_steps as (Hp & Hk & Hs).
  assert (∀ w' : faulty, same_tables (abs w) (abs w') → st_db (abs w') = d ∧ st_committed (abs w') = d) as Hsame
    by (intros w' [E1 E2]; split; congruence).
  assert (∀ (w' : faulty) e, same_tables (abs w) (abs w') → nothing_kept d (inl e) (abs w')) as Hfail
    by (intros w' e Hw; split; [by apply Hsame|done]).
  unfold ingest. rewrite run_bind. pose proof (steps_in_faulty _ _ w (Hp org_id project_id)) as H1'.
  destruct (run (get_project _ _) w) as [[e|[p|]] w1]; cbn [snd] in *; [left; by apply Hfail| |left; by apply Hfail].
  rewrite run_bind. set (check := match key with Some _ => _ | None => _ end).
  assert (steps_in same_tables check) as Hcheck by (unfold check; destruct key; [apply Hk|done]).
  pose proof (steps_in_faulty _ _ w1 Hcheck) as H2'. destruct (run check w1) as [[e|[stored|]] w2]; cbn [snd] in *.
  - left. apply Hfail. by etrans.
  - left. assert (same_tables (abs w) (abs w2)) as Hw by by etrans.
    destruct (parse_response stored) as [e|resp]; cbn; [by apply Hfail|]. split; [by apply Hsame|]. intros ? _. left. by apply Hsame.
  - rewrite run_bind. pose proof (steps_in_faulty _ _ w2 (Hs org_id project_id x)) as H3'.
    destruct (run (_resolve_session _ _ _) w2) as [[e|se] w3] eqn:Ese; cbn [snd] in *; [left; apply Hfail; by do 2 (etrans; [done|])|].
    destruct (Hsame w3) as [Hd3 Hc3]; [by do 2 (etrans; [done|])|]. destruct (Hsame w2) as [Hd2 _]; [by etrans|].
    destruct (faulty_claimed org_id project_id created_by se messages files key h w3 d Hd3 Hc3)
      as [Hn|(w4 & w5 & l & records & j & Hst & Hin & Hc5 & Hd5 & Hr)]; [by left|right]. cbn zeta in *.
    split; [by eexists|]. intros d' Hd' r' Hr'. exists se, w2, w3, w4, w5, l, records. split_and!; [done..| |].
    + intros t Ht. destruct Hd' as [-> | ->]; [by rewrite Hc5|by apply Hd5].
    + destruct Hr' as [-> | ->]; [left; by exists j|by right].
Qed.

Lemma faulty_request org_id project_id created_by x messages files key h (w : faulty) d :
  st_db (abs w) = d → st_committed (abs w) = d →
  let r := run (request (ingest bao_client temporary webhooks arq trace_id turns org_id project_id created_by x messages files key h)) w in
  kept_whole org_id project_id created_by x messages files d r.1 (st_committed (abs r.2)).
Proof.
  intros Hd Hc. cbn zeta. rewrite run_request. unfold kept_whole.
  pose proof (faulty_ingest org_id project_id created_by x messages files key h w d Hd Hc) as Hi. cbn zeta in Hi.
  destruct (run (ingest _ _ _ _ _ _ _ _ _ _ _ _ _ _) w) as [[e|resp] w1]; cbn [fst snd] in Hi.
  - destruct Hi as [[Hc1 _]|[[? [=]] _]]. left. destruct (is_exception e); [|done].
    rewrite <- Hc1. by destruct w1 as [s1 [|[] pl]].
  - pose proof (commit_faulty w1) as Hcom. cbn zeta. destruct (exec Commit w1) as [[e|[]] w2]; cbn [fst snd] in *.
    + destruct Hcom as [-> Hcom]. cbn [is_exception].
      destruct (rollback_faulty (A := IngestMemoryResponse) w2) as [Hr Hroll]. cbn zeta in Hr, Hroll. rewrite Hr, Hroll, Hcom.
      destruct Hi as [[Hc1 _]|[_ Hw]]; [by left|]. right. right. apply Hw; [by left|by right].
    + rewrite Hcom. cbn [op_sem snd st_committed]. destruct Hi as [[Hc1 Hn]|[_ Hw]].
      * destruct (Hn resp eq_refl) as [Hd1|[[m ->] Hd1]]; [by left|right; left]. split; [by exists m|done].
      * right. right. apply Hw; [by right|by left].
Qed.

End atomicity.

(** The client of OpenBao is fine for webhooks. *)
Lemma transit_fine `{TransitServer} self c : ordinary_manager (transit_manager self c) ∧ silent_manager (transit_manager self c).
Proof.
  split; intros i x; (split; [|]).
  - apply (encrypt_harmless (t := transit_manager self c)).
  - apply (decrypt_harmless (t := transit_manager self c)).
  - by apply with_auth_steps, encrypt_webhook_secret_steps, same_tables_kept.
  - by apply with_auth_steps, decrypt_webhook_secret_steps, same_tables_kept.
Qed.

(** ** At a concrete request *)

(** A pipeline that finds no entity. *)
Definition no_entities : Spacy := {| nlp_ents := λ _, inr [] |}.
Definition no_replays : IngestSchema := {| parse_response := λ _, inl (ValueError "no response") |}.

(** A live session with one message. *)
Definition one_session : database :=
  set_table sessions [mkSession 3 1 2 4 "chat-7" [] true false None 0 0]
    (set_table projects [mkProject 2 1 "support" None [] false None 0 0]
       (set_table episodes [mkEpisode 9 1 2 3 6 0 false 4 "user" "hello" (JObj []) 0] (st_db empty_state))).
Definition chat_state : state :=
  mkState 0 ∅ one_session one_session None (λ n, Z.of_nat n + 100) 0 [] ∅.

Definition two_chats : list Message :=
  [mkMessage "user" "write to jane@x.org" None [] [pdf 0 "a.pdf"]; mkMessage "assistant" "sent" None [] []].
Definition ingest_two (files : list UploadFile) : prog IngestMemoryResponse :=
  @ingest marked_hash json_codec production nothing_stored no_schema no_entities quoted bucket_store usual_limits in_order
    marked_hmac no_replays (Some (a_client, signed_in)) (a_client, signed_in) (Some (Some marked_transit, true)) true "trace"
    (λ _, []) 1 2 4 "chat-7" two_chats files (Some "key-1"%string) (Some "hash"%string).
Definition one_file : list UploadFile := [mkUploadFile (Some "a.pdf"%string) "first file"].

(** The connection is lost at the commit that closes the request: three episodes stand,
    and the client is told that it failed. *)
Definition lost_at (n : nat) : faulty := (chat_state, replicate n false ++ [true]).

Example closing_commit_fails :
  let r := run (request (ingest_two one_file)) (lost_at 37) in
  r.1 = inl (DatabaseError "down") ∧ length (st_committed (abs r.2) episodes) = 3%nat.
Proof. by vm_compute. Qed.

(** Of the losses of a single call only this one fails a request that keeps its batch. *)
Example single_losses :
  forallb (λ n, let r := run (request (ingest_two one_file)) (lost_at n) in
                (length (st_committed (abs r.2) episodes) =? if is_ok r.1 || (n =? 37)%nat then 3 else 1)%nat) (seq 0 40) = true.
Proof. by vm_compute. Qed.


(** The hash of a batch names the files but not their bytes, so that another file under
    the same name is not stored. *)
Example other_file_is_replayed :
  let s1 := (run (request (ingest_two one_file)) chat_state).2 in
  let r := run (request (@ingest marked_hash json_codec production nothing_stored no_schema no_entities quoted bucket_store usual_limits
                           in_order marked_hmac no_replays (Some (a_client, signed_in)) (a_client, signed_in) None true "trace"
                           (λ _, []) 1 2 4 "chat-7" two_chats [mkUploadFile (Some "a.pdf") "another file"] None None)) s1 in
  match r.1 with
  | inr resp => ir_message resp = already_ingested ∧ ir_blob_count resp = 0 ∧ map eb_file_size (st_db r.2 episode_blobs) = [10]
  | inl _ => False
  end%string.
Proof. by vm_compute. Qed.

(** Files that are referred to but not sent are refused, and nothing is kept. *)
Example files_not_sent :
  let r := run (request (ingest_two [])) chat_state in
  r.1 = inl (AppExc ValidationError "messages reference blobs but no files were uploaded")
  ∧ length (st_committed r.2 episodes) = 1%nat ∧ st_committed r.2 ingest_dedup = [] ∧ find_key 0 (content_key (batch_of 1 4 3 two_chats)
      (H := marked_hash) (H0 := json_codec) (H1 := production)) (st_redis r.2) = None.
Proof. by vm_compute. Qed.

(** A content of attachments only is refused before they are looked at. *)
Example attachment_needs_text : message_valid (mkMessage "user" "" None [] [pdf 0 "a.pdf"]) = false.
Proof. done. Qed.
