(* ===== verification/Sweeps.v ===== *)
(** services/memory/project_wipe.py and workers/tasks/cleanup_orphan_blobs.py: the wipe of
    a project's memory, and the collection of the files of deleted episodes. *)
From S2P Require Import Prelude Errors Data Effects Concurrent Retry Json Cursor OpenBao Idempotency OrgConfig Blobs Sessions Ingest.
Open Scope Z_scope.

(** * The repositories *)

Definition with_deleted (e : Episode) : Episode :=
  mkEpisode (ep_id e) (ep_organization_id e) (ep_project_id e) (ep_session_id e) (ep_sequence_number e) (ep_enrichment_status e)
    true (ep_user_id e) (ep_role e) (ep_content e) (ep_metadata e) (ep_created_at e).

Definition episode_of_project (project_id organization_id : uuid) (e : Episode) : bool :=
  (ep_project_id e =? project_id) && (ep_organization_id e =? organization_id) && negb (ep_is_deleted e).
Definition soft_delete_episodes (project_id organization_id : uuid) : prog Z :=
  call (Update episodes (episode_of_project project_id organization_id) with_deleted).

(** The column [updated_at] takes the same time. *)
Definition fact_of_project (project_id organization_id : uuid) (f : Fact) : bool :=
  (f_project_id f =? project_id) && (f_organization_id f =? organization_id) && bool_decide (f_invalid_at f = None).
Definition soft_delete_facts (project_id organization_id : uuid) : prog Z :=
  now ← call Now;
  call (Update facts (fact_of_project project_id organization_id) (with_invalid_at now)).

(** [ORDER BY id LIMIT limit], from a row on. *)
Definition id_le (a b : EpisodeBlob) : bool := eb_id a <=? eb_id b.
Definition past (project_id : uuid) (last_id : option uuid) (b : EpisodeBlob) : bool :=
  (eb_project_id b =? project_id) && match last_id with Some i => i <? eb_id b | None => true end.
Definition get_by_project_after (project_id : uuid) (last_id : option uuid) (limit : nat) : prog (list EpisodeBlob) :=
  l ← call (Select episode_blobs (past project_id last_id)); Ret (take limit (Prelude.sort_by id_le l)).

Definition get_by_episode (episode_id : uuid) : prog (list EpisodeBlob) :=
  l ← call (Select episode_blobs (λ b, eb_episode_id b =? episode_id)); Ret (Prelude.sort_by Context.by_index l).

(** The join is one statement; without ORDER BY, any [limit] of the rows. *)
Definition get_orphaned_blobs (organization_id : uuid) (limit : nat) : prog (list EpisodeBlob) :=
  eps ← call (Select episodes ep_is_deleted);
  l ← call (Select episode_blobs (λ b, (eb_organization_id b =? organization_id) && bool_decide (eb_episode_id b ∈ map ep_id eps)));
  Ret (take limit l).

(** [DELETE ... RETURNING]. *)
Definition delete_by_ids (blob_ids : list uuid) : prog (list EpisodeBlob) :=
  match blob_ids with
  | [] => Ret []
  | _ =>
      l ← call (Select episode_blobs (λ b, bool_decide (eb_id b ∈ blob_ids)));
      _ ← call (Delete episode_blobs (λ b, bool_decide (eb_id b ∈ blob_ids)));
      Ret l
  end.

(** * services/memory/project_wipe.py *)

Definition SWEEP_PAGE : nat := 500.
Definition not_confirmed : exn := AppExc ValidationError "confirm does not match project_id — memory wipe rejected".

Section wipe.
Context `{S3} `{HttpServer} `{OrgConfigSchema}.

(** [while True: ...]: the pages whose objects are gone, as their number of blobs; [None]
    when the fuel is used up. [turns]: how the deletions of a page are scheduled. *)
Fixpoint sweep (fuel : nat) (turns : nat → list nat) (config : BlobStorageConfig) (project_id : uuid) (last_id : option uuid)
    (blobs_deleted : Z) : prog (option Z) :=
  match fuel with
  | O => Ret None
  | S fuel =>
      page ← get_by_project_after project_id last_id SWEEP_PAGE;
      match last page with
      | None => Ret (Some blobs_deleted)
      | Some b =>
          ok ← try_except (_ ← delete_blobs (turns fuel) config page; Ret true) is_exception (λ _, Ret false);
          if ok : bool then sweep fuel turns config project_id (Some (eb_id b)) (blobs_deleted + Z.of_nat (length page))
          else Ret (Some blobs_deleted)
      end
  end.

(** The audit entry that follows is left out. *)
Definition delete_project_memory (fuel : nat) (turns : nat → list nat) (bao_client : option (OpenBaoClient * auth))
    (org_id project_id : uuid) (confirm : string) : prog (Z * Z * option Z) :=
  if negb (confirm =? uuid_str project_id)%string then Throw not_confirmed
  else
    project ← get_project org_id project_id;
    match project with
    | None => Throw (project_404 project_id)
    | Some _ =>
        episodes_deleted ← soft_delete_episodes project_id org_id;
        facts_deleted ← soft_delete_facts project_id org_id;
        _ ← call Commit;
        storage_config ← _resolve_storage_config org_id bao_client;
        blobs_deleted ← sweep fuel turns storage_config project_id None 0;
        Ret (episodes_deleted, facts_deleted, blobs_deleted)
    end.

(** * workers/tasks/cleanup_orphan_blobs.py *)

(** The client of the worker, or the one made for the call; what cannot be read is
    replaced by the defaults. *)
Definition gc_storage_config (bao_client : OpenBaoClient * auth) (org_id : uuid) : prog BlobStorageConfig :=
  try_except (org_cfg ← get_org_config org_id false (Some bao_client) false; Ret (override default_storage (to_blob_storage_config org_cfg)))
    is_exception (λ _, Ret default_storage).

Definition UUID (s : string) : prog uuid :=
  match uuid_parse s with Some u => Ret u | None => Throw (ValueError "badly formed hexadecimal UUID string") end.

(** [if episode_id:] also leaves out the empty text. *)
Definition to_collect (episode_id : option string) (batch_size : nat) (org : uuid) : prog (list EpisodeBlob) :=
  match episode_id with
  | Some (String _ _ as e) => id ← UUID e; get_by_episode id
  | _ => get_orphaned_blobs org batch_size
  end.

(** [rls.set_bypass_rls(db, False); rls.set_tenant_context(db, org)] is one binding here;
    the policies are not applied to what is read under it. *)
Definition _cleanup_for_org (turns : list nat) (bao_client : OpenBaoClient * auth) (episode_id : option string) (batch_size : nat)
    (org_uuid : uuid) : prog Z :=
  _ ← call (SetTenant (Some org_uuid));
  try_except
    (blobs ← to_collect episode_id batch_size org_uuid;
     match blobs with
     | [] => Ret 0
     | _ =>
         storage_config ← gc_storage_config bao_client org_uuid;
         _ ← delete_blobs turns storage_config blobs;
         deleted ← delete_by_ids (map eb_id blobs);
         _ ← call Commit;
         Ret (Z.of_nat (length deleted))
     end) is_exception (λ e, _ ← call Rollback; Throw e).

Inductive CleanupResult :=
| Cleaned (n : Z)
| Summary (status : string) (orgs_processed orgs_failed blobs_cleaned : Z).

(** One organization of the cron's loop: the failed ones are noted. *)
Definition cleanup_one (turns : list nat) (bao_client : OpenBaoClient * auth) (episode_id : option string) (batch_size : nat)
    (acc : list uuid * Z) (org : uuid) : prog (list uuid * Z) :=
  try_except (n ← _cleanup_for_org turns bao_client episode_id batch_size org; Ret (acc.1, acc.2 + n)) is_exception
    (λ _, Ret (acc.1 ++ [org], acc.2)).

(** The discovery runs with the policies bypassed. *)
Definition cleanup_attempt (turns : list nat) (bao_client : OpenBaoClient * auth) (org_id : option string) (episode_id : option string)
    (batch_size : nat) : prog CleanupResult :=
  match org_id with
  | Some o => u ← UUID o; n ← _cleanup_for_org turns bao_client episode_id batch_size u; Ret (Cleaned n)
  | None =>
      orgs ← call (Select organizations (λ _, true));
      match orgs with
      | [] => Ret (Summary "skipped" 0 0 0)
      | _ =>
          done_ ← for_fold (map o_id orgs) ([], 0) (cleanup_one turns bao_client episode_id batch_size);
          if (length done_.1 =? length orgs)%nat then
            Throw (RuntimeError ("All " +:+ str_of_Z (Z.of_nat (length orgs)) +:+ " orgs failed: "
                                 +:+ String.concat ", " (map uuid_str done_.1)))
          else Ret (Summary (match done_.1 with [] => "completed" | _ => "partial" end) (Z.of_nat (length orgs))
                     (Z.of_nat (length done_.1)) done_.2)
      end
  end.

Definition cleanup_orphan_blobs (turns : list nat) (bao_client : OpenBaoClient * auth) (org_id episode_id : option string) (batch_size : nat) :
    prog (option CleanupResult) :=
  with_retry 2 (2 * us_per_s) DEFAULT_MAX_DELAY false (λ _, true) (cleanup_attempt turns bao_client org_id episode_id batch_size).
End wipe.

(** * What is gone from the store *)

(** What is asked of the object store: a deletion that succeeds removes its object, and
    deletions bring nothing back. *)
Class S3Laws `{S3} := {
  s3_has : BlobStorageConfig → string → remote → bool;
  s3_deletes c k r : (s3_delete c k r).1 = inr tt → s3_has c k (s3_delete c k r).2 = false;
  s3_vanish c k c' k' r : s3_has c' k' r = false → s3_has c' k' (s3_delete c k r).2 = false;
  s3_ordinary c k r e : (s3_delete c k r).1 = inl e → is_exception e = true;
}.

Section gone.
Context `{S3Laws}.

Definition gone (config : BlobStorageConfig) (b : EpisodeBlob) (s : state) : Prop := s3_has config (eb_storage_key b) (st_remote s) = false.

Definition vanishing (s s' : state) : Prop :=
  same_tables s s' ∧ ∀ c k, s3_has c k (st_remote s) = false → s3_has c k (st_remote s') = false.
#[local] Instance vanishing_preorder : PreOrder vanishing.
Proof.
  split; [intros s; by split|]. intros s1 s2 s3 [[Hd Hc] Hv] [[Hd' Hc'] Hv']. split; [split; congruence|]. auto.
Qed.

Lemma vanishing_delete config key s : vanishing s (op_sem (Remote (s3_delete config key)) s).2.
Proof. split; [done|]. intros c k Hk. cbn. by apply s3_vanish. Qed.

Lemma rely_delete config key s :
  rely vanishing s (delete config key) (λ _ s', s3_has config key (st_remote s') = false).
Proof.
  unfold delete. apply rely_try; [apply _| |intros e s' _; exact I]. apply rely_last. intros s' Hs'. split; [apply vanishing_delete|].
  intros [] s1 Hx [_ Hv]. apply Hv. cbn in *. by apply s3_deletes.
Qed.

Lemma rely_delete_blobs turns config blobs s :
  rely vanishing s (delete_blobs turns config blobs) (λ _ s', ∀ b, b ∈ blobs → gone config b s').
Proof.
  unfold delete_blobs. destruct blobs as [|b0 bs]; [intros s' _ b Hb; by apply elem_of_nil in Hb|].
  remember (b0 :: bs) as blobs eqn:E. clear E. eapply rely_bind; [apply _| |].
  - apply (rely_gather _ (λ i _ s', ∀ b, blobs !! i = Some b → gone config b s')). intros i p Hp.
    apply list_lookup_fmap_Some in Hp as (b & -> & Hb). eapply rely_weaken; [apply _|apply rely_delete|].
    intros [] s' _ Hg b' Hb'. by replace b' with b by congruence.
  - intros l s' Hs' Hl. apply rely_ret. intros s1 Hs1 b [i Hi]%list_elem_of_lookup. destruct (Hl s1 Hs1) as [Hlen Hg].
    rewrite length_map in Hlen. destruct (lookup_lt_is_Some_2 l i) as [a Ha]; [rewrite Hlen; by eapply lookup_lt_Some|]. by apply (Hg i a).
Qed.

(** What a deletion of a list of files comes to, on its own. *)
Lemma run_delete_blobs turns config blobs (s : state) :
  let r := run (delete_blobs turns config blobs) s in
  same_tables s r.2 ∧ (∀ c b, gone c b s → gone c b r.2) ∧ (is_ok r.1 = true → ∀ b, b ∈ blobs → gone config b r.2).
Proof.
  cbn zeta. destruct (rely_run vanishing _ _ _ (rely_delete_blobs turns config blobs s)) as [[Hs Hv] Hg].
  split_and!; [done|intros c b; apply Hv|]. destruct (run _ s).1 as [e|u] eqn:E; [done|]. intros _. by apply (Hg u).
Qed.

Lemma harmless_delete_blobs turns config blobs : harmless (delete_blobs turns config blobs).
Proof.
  unfold delete_blobs. destruct blobs as [|b bs]; [done|]. eapply tame_bind with (Ψ := λ _, True); [|done].
  apply tame_gather, Forall_fmap, Forall_forall. intros x _. apply tame_try; [|done]. apply tame_call.
  intros s e. cbn. apply s3_ordinary.
Qed.

(** The store takes every deletion of the files. *)
Definition deletable (config : BlobStorageConfig) (blobs : list EpisodeBlob) : Prop :=
  ∀ b r, b ∈ blobs → (s3_delete config (eb_storage_key b) r).1 = inr tt.

Lemma deletable_deleted turns config blobs (s : state) :
  deletable config blobs → is_ok (run (delete_blobs turns config blobs) s).1 = true.
Proof.
  intros Hd. assert (surely (λ _, True) (delete_blobs turns config blobs)) as Hs.
  { unfold delete_blobs. destruct blobs as [|b bs]; [done|]. eapply surely_bind; [|done].
    apply (surely_gather (λ _, True)), Forall_fmap, Forall_forall. intros x Hx. apply surely_catch. intros s0. cbn.
    by rewrite Hd. }
  by destruct (surely_run _ _ s Hs) as (a & -> & _).
Qed.
End gone.

(** * The pages of a sweep *)

Section pages.
Context (rows : list EpisodeBlob) (project_id : uuid) (ids_unique : NoDup (map eb_id rows)).

(** The files of the project in the order of their ids. *)
Definition in_order_of_id : list EpisodeBlob := Prelude.sort_by id_le (List.filter (past project_id None) rows).

Definition by_id (a b : EpisodeBlob) : Prop := eb_id a ≤ eb_id b.

Lemma id_sorted l : StronglySorted by_id (Prelude.sort_by id_le l).
Proof.
  assert (StronglySorted (λ _ _, True) l) as Hl.
  { induction l as [|x l IH]; constructor; [done|]. by apply Forall_forall. }
  apply (sort_by_sorted id_le) in Hl.
  - eapply sorted_weaken; [|exact Hl]. intros a b _ _ [Hab _]. unfold id_le, by_id in *. lia.
  - intros x y. unfold id_le. lia.
  - intros x y z. unfold id_le. lia.
Qed.

Lemma in_order_elem b : b ∈ in_order_of_id → b ∈ rows ∧ eb_project_id b = project_id.
Proof. unfold in_order_of_id. rewrite sort_by_perm. intros [Hb Hp]%filter_elem. split; [done|]. apply andb_true_iff in Hp as [Hp _]. lia. Qed.

Lemma in_order_ids : NoDup (map eb_id in_order_of_id).
Proof. unfold in_order_of_id. rewrite (Permutation_map eb_id (sort_by_perm id_le _)). by apply NoDup_map_filter. Qed.

(** What lies past the row at [k] is the rest. *)
Lemma past_row l k b :
  StronglySorted by_id l → NoDup (map eb_id l) → l !! k = Some b → List.filter (λ x, eb_id b <? eb_id x) l = drop (S k) l.
Proof.
  revert k; induction l as [|x l IH]; intros k Hs Hd Hk; [done|]. apply StronglySorted_inv in Hs as [Hs Hx].
  cbn in Hd. apply NoDup_cons in Hd as [Hn Hd]. rewrite Forall_forall in Hx.
  assert (Hne : ∀ y, y ∈ l → eb_id x < eb_id y).
  { intros y Hy. specialize (Hx y Hy). unfold by_id in Hx. enough (eb_id x ≠ eb_id y) by lia. intros E. apply Hn. rewrite E. by apply list_elem_of_fmap_2. }
  cbn [List.filter drop]. destruct k as [|k].
  - injection Hk as ->. rewrite Z.ltb_irrefl, drop_0. apply filter_all. intros y Hy. specialize (Hne y Hy). lia.
  - cbn in Hk. pose proof (list_elem_of_lookup_2 _ _ _ Hk) as Hb. specialize (Hne b Hb).
    replace (eb_id b <? eb_id x) with false by lia. by apply IH.
Qed.

Lemma next_page k b :
  in_order_of_id !! k = Some b → Prelude.sort_by id_le (List.filter (past project_id (Some (eb_id b))) rows) = drop (S k) in_order_of_id.
Proof.
  intros Hk. rewrite <- (past_row in_order_of_id k b (id_sorted _) in_order_ids Hk).
  assert (List.filter (past project_id (Some (eb_id b))) rows
          = List.filter (λ x, eb_id b <? eb_id x) (List.filter (past project_id None) rows)) as ->.
  { rewrite filter_filter. apply List.filter_ext. intros x. unfold past. by rewrite andb_true_r. }
  unfold in_order_of_id. apply (StronglySorted_unique_strong by_id).
  - intros x y Hx Hy Hxy Hyx. rewrite sort_by_perm in Hx. apply filter_elem in Hx as [Hx _]. apply filter_elem in Hx as [Hx _].
    apply filter_elem in Hy as [Hy _]. rewrite sort_by_perm in Hy. apply filter_elem in Hy as [Hy _].
    apply (NoDup_map_inj eb_id rows); [done..|]. unfold by_id in *. lia.
  - apply id_sorted.
  - apply filter_sorted, id_sorted.
  - rewrite sort_by_perm. apply filter_perm. symmetry. apply sort_by_perm.
Qed.
End pages.

Lemma take_of_take {A} n (l : list A) : take (length (take n l)) l = take n l.
Proof. rewrite length_take. destruct (decide (n ≤ length l)%nat); [by rewrite Nat.min_l by lia|]. by rewrite !take_ge by lia. Qed.

Section sweeping.
Context `{S3Laws} (rows : list EpisodeBlob) (project_id : uuid) (ids_unique : NoDup (map eb_id rows)).
Abbreviation files := (in_order_of_id rows project_id).

(** The sweep stands after the first [k] files. *)
Definition stands_at (k : nat) (last_id : option uuid) : Prop :=
  (k = 0%nat ∧ last_id = None) ∨ ∃ j b, k = S j ∧ files !! j = Some b ∧ last_id = Some (eb_id b).

Lemma run_next_page k last_id (s : state) :
  st_db s episode_blobs = rows → stands_at k last_id →
  run (get_by_project_after project_id last_id SWEEP_PAGE) s = (inr (take SWEEP_PAGE (drop k files)), s).
Proof.
  intros Hrows Hk. unfold get_by_project_after. rewrite (run_select episode_blobs). cbn [run]. do 2 f_equal.
  change (row episode_blobs) with EpisodeBlob in *. rewrite Hrows.
  destruct Hk as [[-> ->]|(j & b & -> & Hj & ->)]; [by rewrite drop_0|]. by rewrite (next_page rows project_id ids_unique j b).
Qed.

Lemma run_sweep fuel turns config last_id acc k (s : state) :
  st_db s episode_blobs = rows → stands_at k last_id → (length files - k < fuel)%nat →
  let r := run (sweep fuel turns config project_id last_id acc) s in
  same_tables s r.2 ∧ (∀ c b, gone c b s → gone c b r.2)
  ∧ ∃ n : nat, r.1 = inr (Some (acc + Z.of_nat n)) ∧ (∀ b, b ∈ take n (drop k files) → gone config b r.2)
      ∧ (n ≤ length files - k)%nat ∧ (deletable config (take SWEEP_PAGE (drop (k + n) files)) → n = length files - k)%nat.
Proof.
  revert last_id acc k s; induction fuel as [|fuel IH]; intros last_id acc k s Hrows Hk Hf; [lia|]. cbn zeta. cbn [sweep].
  rewrite run_bind, (run_next_page k) by done. set (page := take SWEEP_PAGE (drop k files)).
  destruct (last page) as [b|] eqn:El.
  2:{ cbn [run fst snd]. split; [done|]. split; [done|]. exists 0%nat. rewrite Z.add_0_r. split; [done|].
      split; [intros b Hb; rewrite take_0 in Hb; by apply elem_of_nil in Hb|]. split; [lia|]. intros _.
      apply last_None in El. apply (f_equal length) in El. unfold page in El. rewrite length_take, length_drop in El.
      cbn [length] in El. unfold SWEEP_PAGE in El. lia. }
  unfold try_except. rewrite run_bind, run_catch, run_bind.
  pose proof (run_delete_blobs (turns fuel) config page s) as (Hs & Hv & Hg). cbn zeta in *.
  pose proof (tame_run _ _ ((s, []) : faulty) (harmless_delete_blobs (turns fuel) config page)) as Ht.
  pose proof (proj1 (run_steady (delete_blobs (turns fuel) config page) ((s, []) : faulty) eq_refl)) as Hrun.
  rewrite Hrun in Ht. cbn [abs faulty_world fst] in Ht.
  destruct (run (delete_blobs (turns fuel) config page) s) as [[e|[]] s1] eqn:Edel; cbn [fst snd run] in *.
  - rewrite Ht. cbn [run fst snd]. split; [done|]. split; [done|]. exists 0%nat. rewrite Z.add_0_r. split; [done|].
    split; [intros x Hx; rewrite take_0 in Hx; by apply elem_of_nil in Hx|]. split; [lia|]. rewrite Nat.add_0_r.
    intros Hd%(deletable_deleted (turns fuel) _ _ s). fold page in Hd. rewrite Edel in Hd. done.
  - assert (page ≠ []) as Hne by (intros E; by rewrite E in El).
    assert (Hlen : length page = Nat.min SWEEP_PAGE (length files - k)) by (unfold page; rewrite length_take, length_drop; done).
    assert (0 < length page)%nat as Hpos by (destruct page; [done|cbn; lia]).
    assert (stands_at (k + length page) (Some (eb_id b))) as Hk'.
    { right. exists (k + length page - 1)%nat, b. split_and!; [lia| |done].
      rewrite last_lookup in El. rewrite <- El.
      replace (k + length page - 1)%nat with (k + Nat.pred (length page))%nat by lia. rewrite <- lookup_drop. symmetry.
      apply (lookup_take_lt (drop k files)). lia. }
    destruct (IH (Some (eb_id b)) (acc + Z.of_nat (length page)) (k + length page)%nat s1) as (Hs' & Hv' & n & Hn & Hg' & Hle & Hall);
      [by rewrite (proj1 Hs)|done|lia|].
    destruct (run (sweep fuel _ _ _ _ _) s1) as [x s2]. cbn [fst snd] in *. subst x.
    split; [destruct Hs, Hs'; split; congruence|]. split; [auto|].
    exists (length page + n)%nat. split; [do 2 f_equal; lia|].
    split; [|split; [lia|rewrite Nat.add_assoc; intros Hd; specialize (Hall Hd); lia]]. intros x Hx.
    assert (take (length page + n) (drop k files) = page ++ take n (drop (k + length page) files)) as E.
    { rewrite <- take_take_drop, drop_drop. f_equal. apply take_of_take. }
    rewrite E in Hx. apply elem_of_app in Hx as [Hx|Hx]; [|by apply Hg']. apply Hv'. by apply Hg.
Qed.
End sweeping.

(** * A project's memory is wiped *)

Section wiping.
Context `{S3Laws} `{HttpServer} `{OrgConfigSchema}.

(** What a wipe leaves of the tables. *)
Definition wiped (project_id organization_id : uuid) (now : Z) (d d' : database) : Prop :=
  d' episodes = map (λ e, if episode_of_project project_id organization_id e then with_deleted e else e) (d episodes)
  ∧ d' facts = map (λ f, if fact_of_project project_id organization_id f then with_invalid_at now f else f) (d facts)
  ∧ ∀ t, t ≠ episodes → t ≠ facts → d' t = d t.

Lemma facts_checked p o now (l : list Fact) : check_rows facts (map (with_invalid_at now) (List.filter (fact_of_project p o) l)) = true.
Proof. unfold check_rows. cbn. apply forallb_forall. intros f. rewrite in_map_iff. by intros (x & <- & _). Qed.

Lemma run_wipe {A} p o (f : Z → Z → prog A) (s : state) :
  ∃ d, wiped p o (st_clock s) (st_db s) d ∧
    run (n ← soft_delete_episodes p o; m ← soft_delete_facts p o; _ ← call Commit; f n m) s
    = run (f (Z.of_nat (length (List.filter (episode_of_project p o) (st_db s episodes))))
             (Z.of_nat (length (List.filter (fact_of_project p o) (st_db s facts)))))
        (mkState (st_clock s) (st_redis s) d d (st_tenant s) (st_entropy s) (st_drawn s) (st_out s) (st_remote s)).
Proof.
  set (d1 := set_table episodes (map (λ e : Episode, if episode_of_project p o e then with_deleted e else e) (st_db s episodes)) (st_db s)).
  exists (set_table facts (map (λ f : Fact, if fact_of_project p o f then with_invalid_at (st_clock s) f else f) (st_db s facts)) d1). split.
  - split_and!; [done|by rewrite set_table_eq|]. intros t He Hf. unfold d1. by rewrite !set_table_ne.
  - unfold soft_delete_episodes. rewrite (run_update episodes) by done. fold d1. unfold soft_delete_facts. rewrite run_assoc, run_now.
    erewrite run_op; [|cbn [op_sem]; rewrite facts_checked; reflexivity]. by erewrite run_op by reflexivity.
Qed.

(** C39. The wipe of a project. Without the project's id as confirmation, or without a live
    project, nothing changes. Otherwise every episode of the project is deleted and every
    fact invalidated, no other row is touched, and that is committed before the store of
    files is turned to: it holds whatever the store answers, the request's error included.
    The rows of the files stay, for the collector. The sweep of the objects ends: a first
    part of them, in the order of the ids of their rows, is gone, and it is all of them
    unless the store can refuse a deletion of the page that follows that part. *)
Theorem wipe_clears_project fuel turns bao_client o p confirm (s : state) :
  st_db s = st_committed s → NoDup (map eb_id (st_db s episode_blobs)) →
  (length (in_order_of_id (st_db s episode_blobs) p) < fuel)%nat →
  let r := run (request (delete_project_memory fuel turns bao_client o p confirm)) s in
  if (confirm =? uuid_str p)%string && (length (List.filter (live_project o p) (st_db s projects)) =? 1)%nat then
    wiped p o (st_clock s) (st_committed s) (st_committed r.2)
    ∧ ∀ n m swept, r.1 = inr (n, m, swept) →
        n = Z.of_nat (length (List.filter (episode_of_project p o) (st_db s episodes)))
        ∧ m = Z.of_nat (length (List.filter (fact_of_project p o) (st_db s facts)))
        ∧ ∃ config k, returned (_resolve_storage_config o bao_client) config ∧ swept = Some (Z.of_nat k)
            ∧ (∀ b, b ∈ take k (in_order_of_id (st_db s episode_blobs) p) → gone config b r.2)
            ∧ (deletable config (take SWEEP_PAGE (drop k (in_order_of_id (st_db s episode_blobs) p))) →
               k = length (in_order_of_id (st_db s episode_blobs) p))
  else (∃ e, r.1 = inl e) ∧ st_committed r.2 = st_committed s.
Proof.
  intros Hs Hd Hf. cbn zeta. destruct (confirm =? uuid_str p)%string eqn:Ec.
  2:{ rewrite run_request. unfold delete_project_memory. rewrite Ec. split; [by eexists|done]. }
  destruct (length (List.filter (live_project o p) (st_db s projects)) =? 1)%nat eqn:El; cbn [andb].
  - rewrite run_request. unfold delete_project_memory, get_project. rewrite Ec. cbn [negb]. rewrite run_assoc, (run_select projects). change (row projects) with Project in *.
    apply Nat.eqb_eq in El. destruct (List.filter (live_project o p) (st_db s projects)) as [|x [|]]; [done| |done].
    cbn [scalar_one_or_none]. rewrite run_ret_bind.
    destruct (run_wipe p o (λ n m, config ← _resolve_storage_config o bao_client; k ← sweep fuel turns config p None 0; Ret (n, m, k)) s)
      as (d & Hw & ->). set (s1 := mkState _ _ _ _ _ _ _ _ _).
    set (ne := Z.of_nat _). set (nf := Z.of_nat _). rewrite run_bind.
    pose proof (steps_run _ s1 (resolve_steps same_tables o bao_client same_tables_kept)) as [Hd2 Hc2]. cbn in Hd2, Hc2.
    destruct (run (_resolve_storage_config o bao_client) s1) as [[e|config] s2] eqn:Er; cbn [fst snd] in *.
    + split; [|by intros n m swept; destruct (is_exception e)]. assert (st_committed s2 = d) as <- by done.
      rewrite <- Hs. destruct (is_exception e); [by cbn|done].
    + rewrite run_bind. pose proof Hw as (_ & _ & Hother).
      assert (Hb : d episode_blobs = st_db s episode_blobs) by by apply Hother.
      destruct (run_sweep (st_db s episode_blobs) p Hd fuel turns config None 0 0 s2) as (Hs3 & _ & k & Hk & Hg & _ & Hall);
        [by rewrite Hd2|by left|lia|].
      destruct (run (sweep fuel turns config p None 0) s2) as [x2 s3]. cbn [fst snd] in *. subst x2. cbn [run exec state_world op_sem fst snd st_committed].
      split; [by rewrite <- Hs, (proj1 Hs3), Hd2|]. intros n m swept [= <- <- <-]. split; [done|]. split; [done|].
      exists config, k. split; [by exists s1, s2|]. split; [done|].
      rewrite drop_0 in Hg. split; [exact Hg|]. intros Hdel. rewrite (Hall Hdel). lia.
  - rewrite run_request. unfold delete_project_memory, get_project. rewrite Ec. cbn [negb]. rewrite run_assoc, (run_select projects). change (row projects) with Project in *.
    destruct (List.filter (live_project o p) (st_db s projects)) as [|x [|]]; try discriminate El; cbn; (split; [by eexists|done]).
Qed.
End wiping.

(** * The files of deleted episodes are collected *)

Section collecting.
Context `{S3Laws} `{HttpServer} `{OrgConfigSchema} (turns : list nat) (bao_client : OpenBaoClient * auth).

(** The files a run for an organization may take. *)
Definition collectable (episode_id : option string) (org : uuid) (d : database) (b : EpisodeBlob) : Prop :=
  b ∈ d episode_blobs ∧
  match episode_id with
  | Some (String _ _ as e) => uuid_parse e = Some (eb_episode_id b)
  | _ => eb_organization_id b = org ∧ ∃ e, e ∈ d episodes ∧ ep_id e = eb_episode_id b ∧ ep_is_deleted e = true
  end.

Lemma works_to_collect episode_id batch_size org :
  works (to_collect episode_id batch_size org) (λ d l d', d' = d ∧ Forall (collectable episode_id org d) l).
Proof.
  assert (Horphans : works (get_orphaned_blobs org batch_size)
            (λ d l d', d' = d ∧ Forall (λ b, b ∈ d episode_blobs ∧ eb_organization_id b = org
                                          ∧ ∃ e, e ∈ d episodes ∧ ep_id e = eb_episode_id b ∧ ep_is_deleted e = true) l)).
  { unfold get_orphaned_blobs. eapply (works_bind _ _ (λ d eps d', eps = List.filter ep_is_deleted (d episodes) ∧ d' = d)).
    - apply works_acts, (acts_call (Select episodes ep_is_deleted)). done.
    - intros eps. apply (works_last (call (Select episode_blobs _)) (take batch_size)). apply works_acts. by apply acts_call.
    - cbn. intros d eps d1 l d' [-> ->] (rows & -> & -> & ->). split; [done|]. apply Forall_forall. intros b Hb%elem_of_take.
      destruct Hb as (i & Hb%list_elem_of_lookup_2 & _). apply filter_elem in Hb as [Hb Hp]. split; [done|].
      apply andb_true_iff in Hp as [Ho Hp%bool_decide_eq_true]. split; [lia|]. apply list_elem_of_fmap in Hp as (e & He & Hin).
      apply filter_elem in Hin as [Hin Hdel]. by exists e. }
  destruct episode_id as [[|c e]|]; [exact Horphans| |exact Horphans].
  change (works (id ← UUID (String c e); get_by_episode id)
            (λ d l d', d' = d ∧ Forall (λ b, b ∈ d episode_blobs ∧ uuid_parse (String c e) = Some (eb_episode_id b)) l)).
  unfold UUID. destruct (uuid_parse (String c e)) as [u|]; [|apply works_throw]. change (Ret u ≫= get_by_episode) with (get_by_episode u).
  unfold get_by_episode. eapply works_weaken; [apply (works_last (call (Select episode_blobs _)) (Prelude.sort_by Context.by_index)); apply works_acts; by apply acts_call|].
  cbn. intros d l d' (rows & -> & -> & ->). split; [done|]. apply Forall_forall. intros b. rewrite sort_by_perm. intros [Hb Hp]%filter_elem.
  split; [done|]. f_equal. lia.
Qed.

Lemma gc_config_steps org : steps_in same_tables (gc_storage_config bao_client org).
Proof. unfold gc_storage_config. apply steps_in_try; [|done]. apply steps_in_bind; [apply get_org_config_steps, same_tables_kept|done]. Qed.

(** The configuration a collection that begins in [s] deletes by: the organization's own
    over the defaults, or the defaults alone when it cannot be read. *)
Definition gc_config (org : uuid) (s : state) : BlobStorageConfig :=
  match (run (get_org_config org false (Some bao_client) false) (op_sem (SetTenant (Some org)) s).2).1 with
  | inr org_cfg => override default_storage (to_blob_storage_config org_cfg)
  | inl _ => default_storage
  end.

Lemma run_gc_config org (s s' : state) config :
  run (gc_storage_config bao_client org) (op_sem (SetTenant (Some org)) s).2 = (inr config, s') → config = gc_config org s.
Proof.
  unfold gc_storage_config, gc_config, try_except. rewrite run_catch, run_bind.
  destruct (run (get_org_config org false (Some bao_client) false) _) as [[e|cfg] s1]; cbn [run fst].
  - destruct (is_exception e); [|done]. by intros [= <- _].
  - by intros [= <- _].
Qed.

(** Finding the files reads only. *)
Lemma run_to_collect episode_id batch_size org (s : state) : (run (to_collect episode_id batch_size org) s).2 = s.
Proof.
  assert (∀ id, (run (get_by_episode id) s).2 = s) as He by (intros id; unfold get_by_episode; by rewrite (run_select episode_blobs)).
  assert ((run (get_orphaned_blobs org batch_size) s).2 = s) as Ho
    by (unfold get_orphaned_blobs; by rewrite (run_select episodes), (run_select episode_blobs)).
  destruct episode_id as [[|c e]|]; [exact Ho| |exact Ho].
  change (to_collect (Some (String c e)) batch_size org) with (id ← UUID (String c e); get_by_episode id).
  unfold UUID. destruct (uuid_parse (String c e)); [apply He|done].
Qed.

Lemma run_delete_by_ids {A} ids (f : list EpisodeBlob → prog A) (s : state) :
  ids ≠ [] →
  run (delete_by_ids ids ≫= f) s
  = run (f (List.filter (λ b : EpisodeBlob, bool_decide (eb_id b ∈ ids)) (st_db s episode_blobs)))
      (set_db (set_table episode_blobs (List.filter (λ b : EpisodeBlob, negb (bool_decide (eb_id b ∈ ids))) (st_db s episode_blobs)) (st_db s)) s).
Proof. by destruct ids. Qed.

(** C38. A collection for one organization, one request after the other, either fails and
    commits nothing, or it has removed rows of files it may take, of deleted episodes of
    the organization or of the episode it was given, and no other row of any table; and
    when a row goes its object is gone from the bucket the collection deletes by: that of
    the organization's own configuration, or the default one when that cannot be read,
    where the object may never have been (see [unreadable_config_leaks]). The policies of
    row-level security are not applied to the rows it reads. *)
Theorem rows_go_after_objects episode_id batch_size org (s : state) :
  st_db s = st_committed s → NoDup (map eb_id (st_db s episode_blobs)) →
  let r := run (_cleanup_for_org turns bao_client episode_id batch_size org) s in
  ((∃ e, r.1 = inl e) ∧ st_committed r.2 = st_committed s)
  ∨ ∃ removed, r.1 = inr (Z.of_nat (length removed))
      ∧ Forall (collectable episode_id org (st_committed s)) removed
      ∧ (∀ b, b ∈ st_committed r.2 episode_blobs ↔ b ∈ st_committed s episode_blobs ∧ b ∉ removed)
      ∧ (∀ t, t ≠ episode_blobs → st_committed r.2 t = st_committed s t)
      ∧ ∀ b, b ∈ removed → gone (gc_config org s) b r.2.
Proof.
  intros Hs Hd. cbn zeta. unfold _cleanup_for_org. erewrite run_op by reflexivity.
  set (s0 := mkState _ _ _ _ _ _ _ _ _). unfold try_except. rewrite run_catch, run_bind.
  assert (Hraise : ∀ e (s' : state), st_committed s' = st_committed s →
    let r := run (if is_exception e then _ ← call Rollback; Throw e else Throw e : prog Z) s' in
    (∃ e', r.1 = inl e') ∧ st_committed r.2 = st_committed s).
  { intros e s' Hc. destruct (is_exception e); cbn; (split; [by eexists|done]). }
  pose proof (works_to_collect episode_id batch_size org s0) as [Hc1 HR].
  pose proof (run_to_collect episode_id batch_size org s0) as Hsame.
  destruct (run (to_collect episode_id batch_size org) s0) as [[e|blobs] s1]; cbn [fst snd] in *; [left; by apply Hraise|].
  destruct (HR _ eq_refl) as [Hd1 Hcol]. change (st_db s0) with (st_db s) in *. change (st_committed s0) with (st_committed s) in *.
  destruct blobs as [|b0 bs].
  { right. exists []. cbn [run fst snd]. rewrite Hc1. split_and!; [done|done| |done|by intros b ?%elem_of_nil].
    intros b. split; [|tauto]. intros Hb. split; [done|by apply not_elem_of_nil]. }
  remember (b0 :: bs) as blobs eqn:Eb. rewrite run_bind.
  pose proof (steps_run _ s1 (gc_config_steps org)) as [Hd2 Hc2].
  destruct (run (gc_storage_config bao_client org) s1) as [[e|config] s2] eqn:Eg; cbn [fst snd] in *; [left; apply Hraise; congruence|].
  rewrite run_bind. pose proof (run_delete_blobs turns config blobs s2) as (Hs3 & _ & Hg). cbn zeta in *. destruct Hs3 as [Hd3 Hc3].
  destruct (run (delete_blobs turns config blobs) s2) as [[e|u] s3]; cbn [fst snd] in *; [left; apply Hraise; congruence|].
  assert (Hrows : st_db s3 episode_blobs = st_db s episode_blobs) by by rewrite Hd3, Hd2, Hd1.
  rewrite run_delete_by_ids by (by rewrite Eb). set (removed := List.filter _ _). right. exists removed.
  erewrite run_op by reflexivity. cbn [run exec state_world op_sem set_db fst snd st_committed st_db st_remote]. rewrite <- Hs.
  assert (Hin : ∀ b, b ∈ st_db s episode_blobs → eb_id b ∈ map eb_id blobs → b ∈ blobs).
  { intros b Hb (b' & Hb' & Hin)%list_elem_of_fmap. rewrite Forall_forall in Hcol. destruct (Hcol b' Hin) as [Hb1 _].
    by rewrite (NoDup_map_inj eb_id (st_db s episode_blobs) b b'). }
  assert (Hrem : ∀ b, b ∈ removed → b ∈ st_db s episode_blobs ∧ b ∈ blobs).
  { intros b [Hb Hp%bool_decide_eq_true]%filter_elem. rewrite <- Hrows. split; [done|]. apply Hin; [by rewrite <- Hrows|done]. }
  split_and!; [done| | | |].
  - apply Forall_forall. intros b [_ Hb]%Hrem. rewrite Forall_forall in Hcol. auto.
  - intros b. rewrite set_table_eq. unfold removed. rewrite Hrows. rewrite !filter_elem, negb_true_iff, bool_decide_eq_false, bool_decide_eq_true. tauto.
  - intros t Ht. rewrite set_table_ne by done. by rewrite Hd3, Hd2, Hd1.
  - intros b [_ Hb]%Hrem. rewrite Hsame in Eg. rewrite <- (run_gc_config org s s2 config Eg). by apply (Hg eq_refl).
Qed.
End collecting.

(** ** At a concrete store *)

#[program] Definition bucket_laws : @S3Laws bucket_store := {|
  s3_has := λ config key r, bool_decide (is_Some (r !! (bucket_name config +:+ "/" +:+ key)));
|}.
Next Obligation. intros c k r _. cbn [s3_delete bucket_store snd]. apply bool_decide_false. intros [x Hx]. by apply lookup_delete_Some in Hx as [? _]. Qed.
Next Obligation.
  intros c k c' k' r Hr. cbn [s3_delete bucket_store snd] in *. apply bool_decide_eq_false in Hr. apply bool_decide_false. intros [x Hx]. apply Hr.
  apply lookup_delete_Some in Hx as [_ Hx]. by exists x.
Qed.
Next Obligation. intros c k r e. done. Qed.

Definition blob_row (i e : uuid) (key : string) : EpisodeBlob := mkEpisodeBlob i 1 2 3 e key "a.pdf" "application/pdf" 10 0 4 "hash".
Definition object_at (bucket key : string) : string := bucket +:+ "/" +:+ key.
(** A live episode with a file and a fact, and a deleted one with a file. *)
Definition two_files_db : database :=
  set_table episode_blobs [blob_row 21 9 "k9"; blob_row 20 8 "k8"]
    (set_table episodes [mkEpisode 9 1 2 3 1 0 false 4 "user" "hello" (JObj []) 0; mkEpisode 8 1 2 3 0 0 true 4 "user" "hi" (JObj []) 0]
       one_session).
Definition store_state (bucket : string) : state :=
  mkState 5 ∅ two_files_db two_files_db None (λ n, Z.of_nat n + 100) 0 []
    (<[object_at bucket "k9" := "one"%string]> (<[object_at bucket "k8" := "two"%string]> ∅)).

Definition wipe_two (confirm : string) : prog (Z * Z * option Z) :=
  @delete_project_memory bucket_store nothing_stored no_schema 3 (λ _, []) (Some (a_client, signed_in)) 1 2 confirm.

Lemma distinct_files bucket : NoDup (map eb_id (st_db (store_state bucket) episode_blobs)).
Proof. repeat constructor; set_solver. Qed.

Lemma wipe_clears_project_witness :
  ∃ r, r = run (request (wipe_two (uuid_str 2))) (store_state "openzync-blobs") ∧ r.1 = inr (1, 0, Some 2)
    ∧ map ep_is_deleted (st_committed r.2 episodes) = [true; true] ∧ map_to_list (st_remote r.2) = []
    ∧ wiped 2 1 5 two_files_db (st_committed r.2)
    ∧ ∃ config, ∀ b, b ∈ take 2 (in_order_of_id (st_db (store_state "openzync-blobs") episode_blobs) 2) → @gone bucket_store bucket_laws config b r.2.
Proof.
  eexists. split; [reflexivity|]. split; [by vm_compute|]. split; [by vm_compute|]. split; [by vm_compute|].
  pose proof (@wipe_clears_project bucket_store bucket_laws nothing_stored no_schema 3 (λ _, []) (Some (a_client, signed_in)) 1 2 (uuid_str 2)
                (store_state "openzync-blobs") eq_refl (distinct_files _) ltac:(vm_compute; lia)) as Hw.
  cbn zeta in Hw. assert ((uuid_str 2 =? uuid_str 2)%string && (length (List.filter (live_project 1 2) (st_db (store_state "openzync-blobs") projects)) =? 1)%nat = true) as E
    by by vm_compute.
  rewrite E in Hw. destruct Hw as [Hw Hr]. split; [exact Hw|].
  destruct (Hr 1 0 (Some 2) ltac:(by vm_compute)) as (_ & _ & config & k & _ & [= Hk] & Hg & _). exists config.
  replace k with 2%nat in Hg by lia. exact Hg.
Defined.

Definition collect (server : HttpServer) (episode_id : option string) : prog Z :=
  @_cleanup_for_org bucket_store server no_schema [] (a_client, signed_in) episode_id 100 1.

Lemma rows_go_after_objects_witness :
  ∃ r, r = run (collect nothing_stored None) (store_state "openzync-blobs") ∧ r.1 = inr 1
    ∧ map fst (map_to_list (st_remote r.2)) = ["openzync-blobs/k9"%string] ∧ map eb_id (st_committed r.2 episode_blobs) = [21]
    ∧ ∃ removed, r.1 = inr (Z.of_nat (length removed)) ∧ Forall (collectable None 1 two_files_db) removed
        ∧ ∀ b, b ∈ removed → @gone bucket_store bucket_laws
            (@gc_config nothing_stored no_schema (a_client, signed_in) 1 (store_state "openzync-blobs")) b r.2.
Proof.
  eexists. split; [reflexivity|]. split; [by vm_compute|]. split; [by vm_compute|]. split; [by vm_compute|].
  destruct (@rows_go_after_objects bucket_store bucket_laws nothing_stored no_schema [] (a_client, signed_in) None 100 1
              (store_state "openzync-blobs") eq_refl (distinct_files _)) as [[[e He] _]|(removed & Hr & Hc & _ & _ & Hg)].
  - exfalso. assert (is_ok (run (collect nothing_stored None) (store_state "openzync-blobs")).1 = true) as Hok by by vm_compute.
    unfold collect in Hok. rewrite He in Hok. discriminate Hok.
  - exists removed. split; [exact Hr|]. split; [exact Hc|exact Hg].
Defined.

(** A configuration that cannot be read is replaced by the defaults: the row goes and the
    object stays in the organization's own bucket, where nothing will look for it again. *)
Definition refusing_server : HttpServer := {| http_request := λ req r, (inr (mkHttpResponse 403 None "denied"), r) |}.
Example unreadable_config_leaks :
  let r := run (collect refusing_server None) (store_state "acme") in
  r.1 = inr 1 ∧ map eb_id (st_committed r.2 episode_blobs) = [21]
  ∧ map fst (map_to_list (st_remote r.2)) = ["acme/k9"; "acme/k8"]%string.
Proof. by vm_compute. Qed.

(** The wipe refuses to go on there, after the rows are committed. *)
Example unreadable_config_stops_wipe :
  let r := run (request (@delete_project_memory bucket_store refusing_server no_schema 3 (λ _, []) (Some (a_client, signed_in)) 1 2 (uuid_str 2))) (store_state "acme") in
  is_ok r.1 = false ∧ map ep_is_deleted (st_committed r.2 episodes) = [true; true].
Proof. by vm_compute. Qed.

(** Started by hand for an episode, a collection does not ask whether it is deleted. *)
Example live_episode_collected :
  let r := run (collect nothing_stored (Some (uuid_str 9))) (store_state "openzync-blobs") in
  r.1 = inr 1 ∧ map eb_id (st_committed r.2 episode_blobs) = [20] ∧ map ep_is_deleted (st_committed r.2 episodes) = [false; true].
Proof. by vm_compute. Qed.
