(* ===== verification/Freshness.v ===== *)
(** Theorems on the context cache (Context.v): a cached text is the text that was
    assembled, generations clear a project's cache, and no request is answered from
    before a bump that it follows. *)
From S2P Require Import Prelude Errors Data Effects Json Retrieval Formatter Context.
Open Scope Z_scope.

(** * Calls and their answers *)

(** Every call a program makes, given the answers it gets, takes a step in [R]. *)
Fixpoint answered_in {A} (R : state → state → Prop) (p : prog A) : Prop :=
  match p with
  | Call o k => ∀ s, R s (op_sem o s).2 ∧ answered_in R (k (op_sem o s).1)
  | _ => True
  end.

Lemma answered_in_bind {A B} R (p : prog A) (f : A → prog B) :
  answered_in R p → (∀ a, answered_in R (f a)) → answered_in R (p ≫= f).
Proof.
  intros Hp Hf. induction p as [a|e|X o k IH]; [apply Hf|done|]. intros s. destruct (Hp s) as [Hs Hk].
  split; [exact Hs|]. by apply IH.
Qed.

Lemma answered_in_try {A} R (p : prog A) sel h :
  answered_in R p → (∀ e, answered_in R (h e)) → answered_in R (try_except p sel h).
Proof.
  intros Hp Hh. unfold try_except. induction p as [a|e|X o k IH]; [done| |].
  - cbn. destruct (sel e); [apply Hh|done].
  - intros s. destruct (Hp s) as [Hs Hk]. split; [exact Hs|]. by apply IH.
Qed.

Lemma answered_in_call {X} R (o : op X) : (∀ s, R s (op_sem o s).2) → answered_in R (call o).
Proof. intros Ho s. split; [apply Ho|]. by destruct (op_sem o s).1. Qed.

Lemma answered_in_weaken {A} (R R' : state → state → Prop) (p : prog A) :
  (∀ s s', R s s' → R' s s') → answered_in R p → answered_in R' p.
Proof.
  intros HR. induction p as [a|e|X o k IH]; [done|done|]. intros Hp s. destruct (Hp s). auto.
Qed.

(** * UTF-8 *)

Lemma codes_byte_string l : Forall (λ b, 0 ≤ b < 256) l → codes (byte_string l) = l.
Proof.
  unfold codes, byte_string. rewrite String.list_ascii_of_string_of_list_ascii, map_map.
  induction 1 as [|b l Hb _ IH]; [done|]. cbn [map]. rewrite IH. f_equal.
  rewrite nat_ascii_embedding by lia. lia.
Qed.

Lemma utf8_char_bytes c : char_ok c → Forall (λ b, 0 ≤ b < 256) (utf8_char c).
Proof.
  unfold char_ok, utf8_char. intros Hc.
  repeat case_goal; repeat (apply Forall_cons; split; [|]); try apply Forall_nil_2; try done;
    Z.to_euclidean_division_equations; lia.
Qed.

Lemma utf8_bytes_char c l : char_ok c → utf8_bytes (utf8_char c ++ l) = option_map (cons c) (utf8_bytes l).
Proof.
  unfold char_ok, utf8_char. intros Hc.
  destruct (Z.ltb_spec c 128) as [H1|H1].
  { cbn. by rewrite (proj2 (Z.ltb_lt _ _) H1). }
  destruct (Z.ltb_spec c 2048) as [H2|H2]; [|destruct (Z.ltb_spec c 65536) as [H3|H3]]; cbn -[Z.div Z.modulo].
  - rewrite (proj2 (Z.ltb_ge _ 128)), (proj2 (Z.ltb_lt _ 224)) by (Z.to_euclidean_division_equations; lia).
    f_equal. f_equal. Z.to_euclidean_division_equations; lia.
  - rewrite (proj2 (Z.ltb_ge _ 128)), (proj2 (Z.ltb_ge _ 224)), (proj2 (Z.ltb_lt _ 240))
      by (Z.to_euclidean_division_equations; lia).
    f_equal. f_equal. Z.to_euclidean_division_equations; lia.
  - rewrite (proj2 (Z.ltb_ge _ 128)), (proj2 (Z.ltb_ge _ 224)), (proj2 (Z.ltb_ge _ 240))
      by (Z.to_euclidean_division_equations; lia).
    f_equal. f_equal. Z.to_euclidean_division_equations; lia.
Qed.

Lemma utf8_decode_utf8 t : Forall char_ok t → utf8_decode (utf8 t) = Some t.
Proof.
  intros Ht. unfold utf8_decode, utf8. rewrite codes_byte_string.
  - induction Ht as [|c t Hc _ IH]; [done|]. cbn [flat_map]. by rewrite utf8_bytes_char, IH.
  - induction Ht as [|c t Hc _ IH]; [done|]. cbn [flat_map]. apply Forall_app. split; [by apply utf8_char_bytes|done].
Qed.

(** * Keys *)


Section keys.
Context `{Hashlib}.

(** [sha256_hexdigest] returns hexadecimal text. *)
Hypothesis hex_digest : ∀ q, str_mem ":" (sha256_hexdigest q) = false.

(** What a key tells of a request: of its query, 64 bits of the digest. *)
Definition fingerprint (r : Request) : string * option string * string * string * Z :=
  (String.substring 0 16 (sha256_hexdigest (cr_query r)), option_map isoformat_utc (cr_as_of r), cr_sort r,
   cr_format r, cr_limit r).

(** The values the endpoint admits. *)
Definition admissible (r : Request) : Prop :=
  cr_sort r ∈ ["relevance"; "recent"]%string ∧ cr_format r ∈ ["text"; "json"]%string.

Lemma substring_sep c n m s : str_mem c s = false → str_mem c (String.substring n m s) = false.
Proof.
  revert n m; induction s as [|a s IH]; intros [|n] [|m] Hs; try done; cbn in Hs |- *;
    apply orb_false_elim in Hs as [Ha Hs]; rewrite ?Ha; apply IH; done.
Qed.

(** The optional segments of a key. *)
Definition segments (as_of : option Z) (recent : bool) : string :=
  match as_of with Some t => ":" +:+ isoformat_utc t | None => EmptyString end
  +:+ (if recent then ":recent" else EmptyString).

(** An instant ends in a digit, an order does not. *)
Lemma segments_inj (a b : option Z) (p q : bool) :
  segments a p = segments b q → option_map isoformat_utc a = option_map isoformat_utc b ∧ p = q.
Proof.
  unfold segments, isoformat_utc. intros E.
  assert (∀ x : string, x +:+ ":recent" = x +:+ (":"%char ::: "recent")) as Er by done.
  assert (∀ x : string, x +:+ "+00:00" = (x +:+ "+00") +:+ (":"%char ::: "00")) as Ei
    by (intros x; by rewrite str_app_assoc).
  destruct a as [a|], b as [b|], p, q; rewrite ?str_app_nil_r, ?str_app_nil_l in E; try done;
    try (apply (rsplit_inj ":") in E as [E _]; [|done|done]);
    rewrite ?Er, ?Ei, <- ?str_app_assoc in E;
    try (apply (rsplit_inj ":") in E as [E Ex]; [|done|done]); try done.
  all: split; [|done]; cbn [option_map]; unfold isoformat_utc; rewrite !Ei.
  all: rewrite !str_app_assoc in E; apply str_app_inj_l in E; by rewrite E.
Qed.

Lemma segments_colon a p : ∃ x, segments a p +:+ ":" = ":"%char ::: x.
Proof. destruct a, p; eexists; reflexivity. Qed.

Definition digits (v : string) : Prop := str_mem ":" v = false.

Lemma version_segments_inj v v' a b p q :
  digits v → digits v' → v +:+ segments a p = v' +:+ segments b q →
  v = v' ∧ option_map isoformat_utc a = option_map isoformat_utc b ∧ p = q.
Proof.
  intros Hv Hv' E. apply (f_equal (λ s, s +:+ ":")) in E. rewrite !str_app_assoc in E.
  destruct (segments_colon a p) as [x Ex], (segments_colon b q) as [y Ey]. rewrite Ex, Ey in E.
  apply lsplit_inj in E as [-> ->]; [|done|done]. split; [done|]. apply segments_inj.
  rewrite <- Ey in Ex. by apply (rsplit_inj ":" _ _ EmptyString EmptyString) in Ex as [-> _].
Qed.

Definition by_recency (r : Request) : bool := negb (cr_sort r =? "relevance")%string.

(** A key, split at its last separators. *)
Lemma context_key_split o p r v :
  admissible r →
  context_key o p r v =
    "ctx:" +:+ uuid_str o +:+ ":" +:+ uuid_str p +:+ ":v"
    +:+ ((((v +:+ segments (cr_as_of r) (by_recency r)) +:+ (":"%char ::: cr_format r))
           +:+ (":"%char ::: str_of_Z (cr_limit r)))
           +:+ (":"%char ::: String.substring 0 16 (sha256_hexdigest (cr_query r)))).
Proof.
  intros [Hs _]. unfold context_key, build_context_cache_key, segments, by_recency.
  rewrite !str_app_assoc. do 6 f_equal.
  apply elem_of_cons in Hs as [->|[->|Hs%elem_of_nil]%elem_of_cons]; [..|done]; cbn [String.eqb Ascii.eqb Bool.eqb negb];
    destruct (cr_as_of r); cbn [option_map]; rewrite ?str_app_assoc, ?str_app_nil_l; reflexivity.
Qed.

Lemma context_key_inj o p r v o' p' r' v' :
  uuid_wf o → uuid_wf p → uuid_wf o' → uuid_wf p' → digits v → digits v' → admissible r → admissible r' →
  context_key o p r v = context_key o' p' r' v' →
  o = o' ∧ p = p' ∧ v = v' ∧ fingerprint r = fingerprint r'.
Proof.
  intros Ho Hp Ho' Hp' Hv Hv' Hr Hr' E. rewrite !context_key_split in E by done.
  apply str_app_inj_l, str_app_inj_len in E as [Eo E]; [|by rewrite !uuid_str_length].
  apply uuid_str_inj in Eo as <-; [|done..].
  apply str_app_inj_l, str_app_inj_len in E as [Ep E]; [|by rewrite !uuid_str_length].
  apply uuid_str_inj in Ep as <-; [|done..]. apply str_app_inj_l in E.
  apply rsplit_inj in E as [E Eq]; [|by apply substring_sep..].
  apply rsplit_inj in E as [E El]; [|by apply str_of_Z_sep; repeat constructor..].
  destruct Hr as [Hs Hf], Hr' as [Hs' Hf'].
  assert (∀ f, f ∈ ["text"; "json"]%string → str_mem ":" f = false) as Hc.
  { intros f [->|[->|?%elem_of_nil]%elem_of_cons]%elem_of_cons; done. }
  apply rsplit_inj in E as [E Ef]; [|by apply Hc..].
  apply version_segments_inj in E as (Ev & Ea & Er); [|done|done].
  assert (cr_sort r = cr_sort r') as Es.
  { revert Er. unfold by_recency.
    apply elem_of_cons in Hs as [->|[->|Hs%elem_of_nil]%elem_of_cons]; [..|done];
      apply elem_of_cons in Hs' as [->|[->|Hs'%elem_of_nil]%elem_of_cons]; done. }
  apply (f_equal Z_of_str) in El. rewrite !Z_of_str_of_Z in El. injection El as El.
  unfold fingerprint. by rewrite Eq, Ea, Ef, Es, El.
Qed.
End keys.

(** * The cache by its specification

    A cache with deadlines per project and fingerprint, whose invalidation clears the
    project's entries. *)

Definition slot : Type := uuid * uuid * (string * option string * string * string * Z).

Record Spec := mkSpec { sp_clock : Z; sp_entries : slot → option (text * Z) }.

Definition empty_spec (now : Z) : Spec := mkSpec now (λ _, None).

Inductive cache_op :=
| CGet (org_id project_id : uuid) (r : Request)
| CPut (org_id project_id : uuid) (r : Request) (ttl : Z) (t : text)
| CInvalidate (org_id project_id : uuid)
| CWait (us : Z).

Section refinement.
Context `{Hashlib}.

Definition spec_op (c : cache_op) (a : Spec) : option text * Spec :=
  match c with
  | CGet o p r =>
      (match sp_entries a (o, p, fingerprint r) with
       | Some (t, d) => if sp_clock a <? d then Some t else None
       | None => None
       end, a)
  | CPut o p r ttl t =>
      (None, mkSpec (sp_clock a)
               (λ k, if decide (k = (o, p, fingerprint r)) then Some (t, sp_clock a + ttl * us_per_s)
                     else sp_entries a k))
  | CInvalidate o p =>
      (None, mkSpec (sp_clock a) (λ k, if decide (k.1 = (o, p)) then None else sp_entries a k))
  | CWait d => (None, mkSpec (sp_clock a + d) (sp_entries a))
  end.

Fixpoint spec_ops (l : list cache_op) (a : Spec) : list (option text) :=
  match l with [] => [] | c :: l => (spec_op c a).1 :: spec_ops l (spec_op c a).2 end.

(** The operations as the service performs them. *)
Definition redis_op (c : cache_op) : prog (option text) :=
  match c with
  | CGet o p r =>
      version ← get_context_version (uuid_str o) (uuid_str p);
      cache_get_as utf8_decode (context_key o p r version)
  | CPut o p r ttl t =>
      version ← get_context_version (uuid_str o) (uuid_str p);
      _ ← cache_set ttl (context_key o p r version) (utf8 t) None;
      Ret None
  | CInvalidate o p => _ ← bump_context_version (uuid_str o) (uuid_str p); Ret None
  | CWait d => _ ← call (Sleep d); Ret None
  end.

Fixpoint redis_ops (l : list cache_op) : prog (list (option text)) :=
  match l with [] => Ret [] | c :: l => x ← redis_op c; xs ← redis_ops l; Ret (x :: xs) end.

Definition op_ok (c : cache_op) : Prop :=
  match c with
  | CGet o p r => uuid_wf o ∧ uuid_wf p ∧ admissible r
  | CPut o p r ttl t => uuid_wf o ∧ uuid_wf p ∧ admissible r ∧ 0 < ttl ∧ Forall char_ok t
  | CInvalidate o p => uuid_wf o ∧ uuid_wf p
  | CWait d => 0 ≤ d
  end.

(** The generation counter of a project is at [g]. *)
Definition generation_at (o p : uuid) (g : Z) (m : keyspace) : Prop :=
  0 ≤ g ∧
  (g = 0 ∧ m !! build_context_version_key (uuid_str o) (uuid_str p) = None ∨
   m !! build_context_version_key (uuid_str o) (uuid_str p) = Some (REntry (RStr (str_of_Z g)) None)).

(** Before any context has been cached. *)
Definition no_contexts (m : keyspace) : Prop := ∀ k, str_prefix "ctx" k = true → m !! k = None.

Lemma run_version {A} o p g (s : state) (f : string → prog A) :
  generation_at o p g (st_redis s) →
  run (get_context_version (uuid_str o) (uuid_str p) ≫= f) s = run (f (str_of_Z g)) s.
Proof.
  intros [_ Hg]. unfold get_context_version, try_except. rewrite run_bind, run_bind, run_catch. unfold redis.
  rewrite run_call. cbn [exec state_world op_sem]. unfold ks_get, find_key.
  destruct Hg as [[-> E]|E]; rewrite E; cbn; rewrite set_redis_id; reflexivity.
Qed.

Lemma run_bump {A} o p g (s : state) (f : Z → prog A) :
  generation_at o p g (st_redis s) →
  run (bump_context_version (uuid_str o) (uuid_str p) ≫= f) s =
  run (f (g + 1)) (set_redis (<[build_context_version_key (uuid_str o) (uuid_str p)
                                := REntry (RStr (str_of_Z (g + 1))) None]> (st_redis s)) s).
Proof.
  intros [_ Hg]. unfold bump_context_version, try_except. rewrite run_bind, run_catch. unfold redis.
  rewrite run_call. cbn [exec state_world op_sem]. unfold ks_incr, ks_incrby, find_key.
  destruct Hg as [[-> E]|E]; rewrite E; cbn; [reflexivity|]. by rewrite Z_of_str_of_Z.
Qed.

Lemma run_cache_get {A B} (dec : string → option A) key (s : state) (f : option A → prog B) e :
  find_key (st_clock s) key (st_redis s) = e →
  match e with None => True | Some (REntry (RStr v) _) => is_Some (dec v) | _ => False end →
  run (cache_get_as dec key ≫= f) s =
  run (f (match e with Some (REntry (RStr v) _) => dec v | _ => None end)) s.
Proof.
  intros E Hd. unfold cache_get_as, try_except. rewrite run_bind, run_catch, run_bind. unfold redis.
  rewrite run_call. cbn [exec state_world op_sem]. unfold ks_get. rewrite E.
  destruct e as [[[v| |] d]|]; try done; cbn; rewrite set_redis_id; [|done].
  destruct Hd as [x Hx]. by rewrite Hx.
Qed.

Lemma run_cache_set {A} ttl key v (s : state) (f : unit → prog A) :
  0 < ttl →
  run (cache_set ttl key v None ≫= f) s =
  run (f tt) (set_redis (<[key := REntry (RStr v) (Some (st_clock s + ttl * us_per_s))]> (st_redis s)) s).
Proof.
  intros Ht. unfold cache_set, try_except. rewrite run_bind, run_catch. unfold redis. rewrite run_call.
  cbn [exec state_world op_sem default]. unfold ks_setex. by rewrite (proj2 (Z.leb_gt _ _)).
Qed.
(** ** Simulation *)

Hypothesis hex_digest : ∀ q, str_mem ":" (sha256_hexdigest q) = false.

Lemma digits_of_Z n : digits (str_of_Z n).
Proof. apply str_of_Z_sep. repeat constructor. Qed.

Lemma version_key_inj o p o' p' :
  uuid_wf o → uuid_wf p → uuid_wf o' → uuid_wf p' →
  build_context_version_key (uuid_str o) (uuid_str p) = build_context_version_key (uuid_str o') (uuid_str p') →
  o = o' ∧ p = p'.
Proof.
  intros ???? E. unfold build_context_version_key in E.
  apply str_app_inj_l, str_app_inj_len in E as [Eo E]; [|by rewrite !uuid_str_length].
  apply str_app_inj_l in E. by split; apply uuid_str_inj.
Qed.

Lemma version_key_ne o p o' p' r v :
  build_context_version_key o p ≠ context_key o' p' r v.
Proof. done. Qed.

Definition stored (now : Z) (e : option (text * Z)) : option rentry :=
  match e with
  | Some (t, d) => if now <? d then Some (REntry (RStr (utf8 t)) (Some d)) else None
  | None => None
  end.

(** What a project's keys hold when its generation is [g]. *)
Definition holds_spec (a : Spec) (now : Z) (m : keyspace) (o p : uuid) (g : Z) : Prop :=
  generation_at o p g m ∧
  (∀ r n, admissible r → g < n → m !! context_key o p r (str_of_Z n) = None) ∧
  ∀ r, admissible r → find_key now (context_key o p r (str_of_Z g)) m = stored now (sp_entries a (o, p, fingerprint r)).

Definition refines (a : Spec) (s : state) : Prop :=
  sp_clock a = st_clock s ∧
  (∀ k t d, sp_entries a k = Some (t, d) → Forall char_ok t) ∧
  ∀ o p, uuid_wf o → uuid_wf p → ∃ g, holds_spec a (st_clock s) (st_redis s) o p g.

Lemma refines_put a s o p r g t ttl :
  refines a s → op_ok (CPut o p r ttl t) → holds_spec a (st_clock s) (st_redis s) o p g →
  refines (spec_op (CPut o p r ttl t) a).2
    (set_redis (<[context_key o p r (str_of_Z g) := REntry (RStr (utf8 t)) (Some (st_clock s + ttl * us_per_s))]>
       (st_redis s)) s).
Proof.
  intros (Hc & Ht & R) (Ho & Hp & Hr & Httl & Hok) G. cbn [spec_op snd]. split; [done|]. split.
  { intros k t' d. cbn [sp_entries]. destruct (decide _) as [_|_]; [by intros [= <- <-]|apply Ht]. }
  intros o' p' Ho' Hp'. cbn [st_clock st_redis set_redis].
  assert (∃ g', holds_spec a (st_clock s) (st_redis s) o' p' g' ∧ (o = o' → p = p' → g' = g)) as (g' & (V & N & F) & Hg).
  { destruct (decide (o = o' ∧ p = p')) as [[<- <-]|Hne]; [by exists g|].
    destruct (R o' p' Ho' Hp') as [g' G']. exists g'. split; [done|]. intros -> ->. by destruct Hne. }
  exists g'. split_and!.
  - destruct V as [V0 V]. split; [done|]. by rewrite lookup_insert_ne.
  - intros r' n Hr' Hn. rewrite lookup_insert_ne; [by apply N|]. intros E.
    apply (context_key_inj hex_digest) in E as (<- & <- & E & _); try apply digits_of_Z; try done.
    apply (f_equal Z_of_str) in E. rewrite !Z_of_str_of_Z in E. injection E as ->. specialize (Hg eq_refl eq_refl). lia.
  - intros r' Hr'. cbn [sp_entries]. destruct (decide _) as [E|Hne].
    + injection E as -> -> E1 E2 E3 E4 E5. rewrite (Hg eq_refl eq_refl).
      assert (context_key o p r' (str_of_Z g) = context_key o p r (str_of_Z g)) as ->.
      { rewrite !context_key_split by done. unfold by_recency. rewrite E1, E3, E4, E5. unfold segments.
        revert E2.
        destruct (cr_as_of r), (cr_as_of r'); cbn [option_map]; try done. intros E2%(inj Some). by rewrite E2. }
      unfold find_key. rewrite lookup_insert_eq. cbn. rewrite Hc.
      by rewrite (proj2 (Z.ltb_lt _ _)) by (unfold us_per_s; lia).
    + unfold find_key in *. rewrite lookup_insert_ne; [by apply F|]. intros E.
      apply (context_key_inj hex_digest) in E as (<- & <- & _ & E); try apply digits_of_Z; try done.
      apply Hne. by rewrite E.
Qed.
Lemma refines_bump a s o p g :
  refines a s → uuid_wf o → uuid_wf p → holds_spec a (st_clock s) (st_redis s) o p g →
  refines (spec_op (CInvalidate o p) a).2
    (set_redis (<[build_context_version_key (uuid_str o) (uuid_str p) := REntry (RStr (str_of_Z (g + 1))) None]>
       (st_redis s)) s).
Proof.
  intros (Hc & Ht & R) Ho Hp G. cbn [spec_op snd]. split; [done|]. split.
  { intros k t d. cbn [sp_entries]. destruct (decide _); [done|apply Ht]. }
  intros o' p' Ho' Hp'. cbn [st_clock st_redis set_redis].
  destruct (decide (o = o' ∧ p = p')) as [[<- <-]|Hne].
  - destruct G as ([V0 V] & N & _). exists (g + 1). split_and!.
    + split; [lia|]. right. apply lookup_insert_eq.
    + intros r n Hr Hn. rewrite lookup_insert_ne by apply version_key_ne. apply N; [done|lia].
    + intros r Hr. cbn [sp_entries fst]. rewrite decide_True by done. unfold find_key.
      rewrite lookup_insert_ne by apply version_key_ne. rewrite N; [done|done|lia].
  - destruct (R o' p' Ho' Hp') as (g' & [V0 V] & N & F). exists g'. split_and!.
    + split; [done|]. rewrite lookup_insert_ne; [done|]. intros E. by apply version_key_inj in E.
    + intros r n Hr Hn. rewrite lookup_insert_ne by apply version_key_ne. by apply N.
    + intros r Hr. cbn [sp_entries fst]. rewrite decide_False by (intros [= -> ->]; by destruct Hne).
      unfold find_key in *. rewrite lookup_insert_ne by apply version_key_ne. by apply F.
Qed.

Lemma stored_later now d m k e :
  0 ≤ d → find_key now k m = stored now e → find_key (now + d) k m = stored (now + d) e.
Proof.
  unfold find_key, stored, live. intros Hd. destruct e as [[t D]|].
  - destruct (Z.ltb_spec now D).
    + destruct (m !! k) as [[v [D'|]]|]; try done. cbn [re_deadline]. destruct (now <? D'); [|done].
      by intros [= -> ->].
    + rewrite (proj2 (Z.ltb_ge (now + d) D)) by lia.
      destruct (m !! k) as [[v [D'|]]|]; try done. cbn [re_deadline].
      destruct (Z.ltb_spec now D'); [done|]. by rewrite (proj2 (Z.ltb_ge (now + d) D')) by lia.
  - destruct (m !! k) as [[v [D'|]]|]; try done. cbn [re_deadline].
    destruct (Z.ltb_spec now D'); [done|]. by rewrite (proj2 (Z.ltb_ge (now + d) D')) by lia.
Qed.

Lemma redis_op_refines {A} c a s (f : option text → prog A) :
  op_ok c → refines a s →
  ∃ s', run (redis_op c ≫= f) s = run (f (spec_op c a).1) s' ∧ refines (spec_op c a).2 s'.
Proof.
  intros Hok R. pose proof R as (Hc & Ht & Rp). destruct c as [o p r|o p r ttl t|o p|d]; cbn [redis_op].
  - destruct Hok as (Ho & Hp & Hr). destruct (Rp o p Ho Hp) as (g & V & N & F). exists s. split; [|done].
    rewrite run_assoc, (run_version o p g) by done. cbn [spec_op fst].
    rewrite (run_cache_get _ _ _ _ _ (F r Hr)).
    + unfold stored. destruct (sp_entries a _) as [[t D]|] eqn:E; [|done]. rewrite Hc.
      destruct (st_clock s <? D); [|done]. by rewrite utf8_decode_utf8 by (by eapply Ht).
    + unfold stored. destruct (sp_entries a _) as [[t D]|] eqn:E; [|done].
      destruct (st_clock s <? D); [|done]. rewrite utf8_decode_utf8; [by eexists|by eapply Ht].
  - pose proof Hok as (Ho & Hp & Hr & Httl & _). destruct (Rp o p Ho Hp) as (g & G).
    eexists. rewrite run_assoc, (run_version o p g) by apply G. rewrite run_assoc, run_cache_set by done.
    split; [done|]. by apply refines_put.
  - destruct Hok as [Ho Hp]. destruct (Rp o p Ho Hp) as (g & G). eexists.
    rewrite run_assoc, (run_bump o p g) by apply G. split; [done|]. by apply refines_bump.
  - eexists. rewrite run_assoc, run_sleep. split; [done|]. cbn in Hok.
    cbn [spec_op snd]. split; [cbn; rewrite Hc; lia|]. split; [done|]. intros o p Ho Hp.
    destruct (Rp o p Ho Hp) as (g & V & N & F). exists g. split_and!; [done|done|]. intros r Hr.
    cbn [st_clock st_redis op_sem snd sp_entries]. rewrite Z.max_r by done. by apply stored_later, F.
Qed.

Lemma redis_ops_refine l a s :
  Forall op_ok l → refines a s → (run (redis_ops l) s).1 = inr (spec_ops l a).
Proof.
  intros Hl. revert a s; induction Hl as [|c l Hc _ IH]; intros a s R; [done|]. cbn [redis_ops spec_ops].
  destruct (redis_op_refines c a s (λ x, xs ← redis_ops l; Ret (x :: xs)) Hc R) as (s' & -> & R').
  rewrite run_bind. specialize (IH _ _ R'). destruct (run (redis_ops l) s') as [r s'']. cbn in IH. by rewrite IH.
Qed.

(** C20. Bumping a counter clears a cache: whatever is read, written, invalidated and waited
    for in whatever projects, the answers of the generation-stamped keys in Redis are those
    of a cache with deadlines per project whose invalidation deletes the entries; and no
    project sees another's. *)
Theorem generations_refine_clearing {W} `{World W} (w : W) (l : list cache_op) :
  steady w → no_contexts (st_redis (abs w)) → Forall op_ok l →
  (run (redis_ops l) w).1 = inr (spec_ops l (empty_spec (st_clock (abs w)))).
Proof.
  intros Hw Hn Hl. destruct (run_steady (redis_ops l) w Hw) as [-> _]. apply redis_ops_refine; [done|].
  split; [done|]. split; [done|]. intros o p Ho Hp. exists 0. split_and!.
  - split; [done|]. left. split; [done|]. by apply Hn.
  - intros r n Hr _. by apply Hn.
  - intros r Hr. unfold find_key. by rewrite Hn.
Qed.
End refinement.

(** * The purge *)

Section purge.
Context `{RedisScan}.

Lemma ks_delete_spec ks now (m : keyspace) :
  ∃ n m', ks_delete ks now m = (inr n, m') ∧ ∀ k, m' !! k = if bool_decide (k ∈ ks) then None else m !! k.
Proof.
  revert m; induction ks as [|x ks IH]; intros m; [by exists 0, m|]. cbn [ks_delete].
  destruct (IH (delete x m)) as (n & m' & -> & Hm). eexists _, m'. split; [done|]. intros k. rewrite Hm.
  case_bool_decide as H1; case_bool_decide as H2; try done.
  - destruct H2. by right.
  - apply elem_of_cons in H2 as [->|]; [apply lookup_delete_eq|done].
  - apply lookup_delete_ne. intros ->. apply H2. left.
Qed.

(** The pages of an iteration from a cursor: each with its keyspace. *)
Record iteration (p : string) (c : Z) (m m' : keyspace) (pages : list (Z * keyspace)) : Prop := {
  it_start : head pages = Some (c, m);
  it_chain i c1 m1 c2 m2 : pages !! i = Some (c1, m1) → pages !! S i = Some (c2, m2) →
    (scan c1 p 100 m1).1 = c2 ∧ c2 ≠ 0;
  it_last c1 m1 : last pages = Some (c1, m1) → (scan c1 p 100 m1).1 = 0;
  it_gone c1 m1 k : (c1, m1) ∈ pages → k ∈ (scan c1 p 100 m1).2 → m' !! k = None;
  it_kept c1 m1 k e : (c1, m1) ∈ pages → m' !! k = Some e → m1 !! k = Some e;
  it_only k : m' !! k = m !! k ∨ m' !! k = None ∧ glob_match p k = true;
}.

Lemma run_scan_delete fuel p c del (s : state) :
  (scan_rank c < fuel)%nat →
  ∃ n m' pages, run (scan_delete fuel p c del) s = (inr n, set_redis m' s) ∧ iteration p c (st_redis s) m' pages.
Proof.
  revert c del s; induction fuel as [|fuel IH]; intros c del s Hf; [lia|]. cbn [scan_delete].
  destruct (scan c p 100 (st_redis s)) as [c' ks] eqn:E.
  assert (∃ n m1, run (redis (λ _ m, (inr (scan c p 100 m), m)) ≫= λ page,
      deleted ← (if (length page.2 =? 0)%nat then Ret del else n ← redis (ks_delete page.2); Ret (del + n));
      if page.1 =? 0 then Ret deleted else scan_delete fuel p page.1 deleted) s =
    run (if c' =? 0 then Ret n else scan_delete fuel p c' n) (set_redis m1 s) ∧
    ∀ k, m1 !! k = if bool_decide (k ∈ ks) then None else st_redis s !! k) as (n & m1 & -> & Hm1).
  { erewrite run_redis_ok by reflexivity. rewrite set_redis_id, E. cbn [fst snd].
    destruct ks as [|k0 ks]; cbn [length Nat.eqb].
    - exists del, (st_redis s). split; [by rewrite set_redis_id|]. intros k. by rewrite bool_decide_eq_false_2 by apply not_elem_of_nil.
    - destruct (ks_delete_spec (k0 :: ks) (st_clock s) (st_redis s)) as (n & m' & Ed & Hm').
      exists (del + n), m'. split; [|done]. by rewrite run_assoc, (run_redis_ok _ _ _ _ _ Ed). }
  assert (∀ k, k ∈ ks → glob_match p k = true) as Hk.
  { intros k Hk. apply (scan_matches c p 100 (st_redis s)). by rewrite E. }
  destruct (Z.eqb_spec c' 0) as [->|Hc'].
  - exists n, m1, [(c, st_redis s)]. split; [done|]. split.
    + done.
    + intros [|i]; done.
    + intros c1 m2 [= <- <-]. by rewrite E.
    + intros c1 m2 k [= -> ->]%list_elem_of_singleton. rewrite E. intros Hin. rewrite Hm1. by rewrite bool_decide_eq_true_2.
    + intros c1 m2 k e [= -> ->]%list_elem_of_singleton. rewrite Hm1. by case_bool_decide.
    + intros k. rewrite Hm1. case_bool_decide; [right; auto|by left].
  - destruct (IH c' n (set_redis m1 s)) as (n' & m' & pages & -> & [Hs Hc Hl Hg Hkp Ho]).
    { destruct (scan_ends c p 100 (st_redis s)) as [E'|E']; rewrite E in E'; cbn in E'; [done|lia]. }
    exists n', m', ((c, st_redis s) :: pages). split; [done|]. cbn [st_redis set_redis] in *.
    assert (∀ k e, m' !! k = Some e → st_redis s !! k = Some e) as Hsub.
    { intros k e He. destruct (Ho k) as [Hk'|[Hk' _]]; rewrite Hk' in He; [|done]. rewrite Hm1 in He. by case_bool_decide. }
    split.
    + done.
    + intros [|i] c1 m2 c2 m3; [|apply Hc]. intros [= <- <-]. cbn. destruct pages as [|x pages]; [done|].
      injection Hs as ->. intros [= <- <-]. by rewrite E.
    + intros c1 m2. destruct pages; [done|]. apply Hl.
    + intros c1 m2 k [[= -> ->]|Hin]%elem_of_cons; [|by eapply Hg]. rewrite E. intros Hin.
      destruct (m' !! k) as [e|] eqn:He; [|done]. destruct (Ho k) as [Hk'|[Hk' _]]; rewrite Hk' in He; [|done].
      rewrite Hm1 in He. by rewrite bool_decide_eq_true_2 in He.
    + intros c1 m2 k e [[= -> ->]|Hin]%elem_of_cons; [by apply Hsub|by eapply Hkp].
    + intros k. destruct (Ho k) as [->|]; [|by right]. rewrite Hm1. case_bool_decide; [right; auto|by left].
Qed.
Lemma run_purge {A} p (s : state) (f : Z → prog A) :
  forallb (λ c, negb (str_mem c p)) ["*"; "?"; "["; "\"]%char = true →
  ∃ n m', run (purge (p +:+ "*") ≫= f) s = run (f n) (set_redis m' s) ∧
    ∀ k, m' !! k = if str_prefix p k then None else st_redis s !! k.
Proof.
  intros Hp. destruct (run_scan_delete (S (scan_rank 0)) (p +:+ "*") 0 0 s) as (n & m' & pages & E & [Hs Hc Hl Hg Hk Ho]);
    [lia|].
  exists n, m'. split.
  - unfold purge, try_except. rewrite run_bind, run_catch, E. done.
  - intros k. destruct (str_prefix p k) eqn:Ek.
    + destruct (m' !! k) as [e|] eqn:He; [|done].
      destruct (scan_covers (p +:+ "*") 100 pages k) as (c & m & Hin & Hk').
      * intros i c m c2 m2 ??. by eapply Hc.
      * by rewrite Hs.
      * done.
      * by rewrite glob_prefix.
      * intros c m Hin. exists e. by eapply Hk.
      * by rewrite (Hg _ _ _ Hin Hk') in He.
    + destruct (Ho k) as [->|[_ Hm]]; [done|]. by rewrite glob_prefix, Ek in Hm by done.
Qed.
End purge.

(** * Freshness

    Requests for a project's contexts, bumps and purges of its cache, and background work
    run interleaved. [D] is something the database may come to hold for good (a fact has
    been committed); [Good] is what every search that runs while it does returns. *)

Definition attached (ep ep' : item) : Prop := ep' = ep ∨ ∃ l, ep' = with_blobs l ep.

Section fresh.
Context `{RedisScan} `{Orjson} `{Hashlib} `{IsoDate} `{PyStr} `{BlobStorage}.
Context (org_id project_id : uuid) (search : Request → prog SearchResult).
Context (D : database → Prop) (Good : Request → SearchResult → Prop).

Inductive client :=
| Ask (ttl : Z) (r : Request)
| Bump
| Purge
| Background (p : prog unit).

Definition client_prog (c : client) : prog (option Assembled) :=
  match c with
  | Ask ttl r => a ← assemble (Some ttl) (search r) org_id project_id r; Ret (Some a)
  | Bump => _ ← _invalidate_context_cache org_id project_id; Ret None
  | Purge => _ ← invalidate_project_context (uuid_str org_id) (uuid_str project_id); Ret None
  | Background p => _ ← p; Ret None
  end.

Definition version_key : string := build_context_version_key (uuid_str org_id) (uuid_str project_id).
Definition key_at (r : Request) (n : Z) : string := context_key org_id project_id r (str_of_Z n).

Definition generation (s : state) : Z :=
  match st_redis s !! version_key with
  | Some (REntry (RStr v) _) => default 0 (Z_of_str v)
  | _ => 0
  end.

(** A step that leaves the counter alone, stores no context, and keeps what [D] says. *)
Definition quiet_step (s s' : state) : Prop :=
  st_redis s' !! version_key = st_redis s !! version_key ∧
  (∀ r n e, st_redis s' !! key_at r n = Some e → st_redis s !! key_at r n = Some e) ∧
  (D (st_db s) → D (st_db s')).

(** A text that was formatted from a good result for a request with the same key. *)
Definition good_text (r : Request) (t : text) : Prop :=
  ∃ r' res eps, admissible r' ∧ fingerprint r' = fingerprint r ∧ Good r' res ∧
    Forall2 attached (sr_episodes res) eps ∧ formatted (cr_format r') eps res = inr t.

Definition client_ok (c : client) : Prop :=
  match c with
  | Ask _ r => admissible r
  | Background p => answered_in quiet_step p
  | _ => True
  end.
(** ** One program

    [threshold] is the first generation that is good; [upto n p Φ]: from generation [n] on,
    and while [D] holds or the threshold is not reached, every step of [p] keeps the
    invariant and what it returns satisfies [Φ]. *)

Context (threshold : Z).

Definition cached_good (r : Request) (e : rentry) : Prop :=
  ∃ t d, e = REntry (RStr (utf8 t)) d ∧ Forall char_ok t ∧ good_text r t.

Definition inv (s : state) : Prop :=
  generation_at org_id project_id (generation s) (st_redis s) ∧
  ∀ r n e, admissible r → threshold ≤ n → st_redis s !! key_at r n = Some e → cached_good r e.

Definition settled (s : state) : Prop := D (st_db s) ∨ generation s < threshold.

Fixpoint upto {A} (n : Z) (p : prog A) (Φ : A → Prop) : Prop :=
  match p with
  | Ret a => Φ a
  | Throw _ => True
  | Call o k => ∀ s, inv s → n ≤ generation s → settled s →
      let s' := (op_sem o s).2 in
      inv s' ∧ generation s ≤ generation s' ∧ (D (st_db s) → D (st_db s')) ∧
      upto (generation s') (k (op_sem o s).1) Φ
  end.

Lemma quiet_inv s s' : quiet_step s s' → inv s → inv s' ∧ generation s' = generation s.
Proof.
  intros (Hv & Hk & _) [[Hg0 Hg] Hi].
  assert (generation s' = generation s) as E by (unfold generation; by rewrite Hv).
  split; [|done]. split.
  - rewrite E. split; [done|]. unfold version_key in Hv. by rewrite Hv.
  - intros r n e Hr Hn He. by apply (Hi r n), Hk.
Qed.

Lemma upto_later {A} n n' (p : prog A) Φ : n ≤ n' → upto n p Φ → upto n' p Φ.
Proof. intros Hn. destruct p; [done|done|]. intros Hp s Hi Hs. apply Hp; [done|lia]. Qed.

(** A quiet program, whose results are good from the threshold on. *)
Lemma upto_quiet {A B} n (p : prog A) (f : A → prog B) (Ψ : A → Prop) Φ :
  answered_in quiet_step p → (threshold ≤ n → finds (λ s, D (st_db s)) p Ψ) →
  (∀ n' a, n ≤ n' → (threshold ≤ n → Ψ a) → upto n' (f a) Φ) → upto n (p ≫= f) Φ.
Proof.
  intros Hq Hf. assert (∀ m, n ≤ m → (∀ n' a, n ≤ n' → (threshold ≤ n → Ψ a) → upto n' (f a) Φ) →
    upto m (p ≫= f) Φ) as H'; [|by apply H'].
  induction p as [a|e|X o k IH]; intros m Hm Hk; [apply Hk; auto|done|].
  intros s Hi Hs Hset. destruct (Hq s) as [Hqs Hqk]. destruct (quiet_inv _ _ Hqs Hi) as [Hi' Hg].
  cbv zeta. rewrite Hg. split_and!; [done|lia|apply Hqs|]. apply IH; [done| |lia|done].
  intros Ht. apply (Hf Ht). destruct Hset as [|]; [done|lia].
Qed.

Lemma quiet_redis {X} (c : KS X) s :
  (c (st_clock s) (st_redis s)).2 = st_redis s → quiet_step s (op_sem (Redis c) s).2.
Proof. intros E. cbn. rewrite E, set_redis_id. by split_and!. Qed.
(** ** A context request *)

Hypothesis hex_digest : ∀ q, str_mem ":" (sha256_hexdigest q) = false.
Hypothesis org_wf : uuid_wf org_id.
Hypothesis project_wf : uuid_wf project_id.
Hypothesis search_quiet : ∀ r, answered_in quiet_step (search r).
Hypothesis search_finds : ∀ r, finds (λ s, D (st_db s)) (search r) (Good r).
Hypothesis sign_quiet : match generate_download_url with
                        | Some sign => ∀ k, answered_in quiet_step (sign k)
                        | None => True
                        end.

Lemma upto_version {A} n (f : string → prog A) Φ :
  (∀ v, n ≤ v → upto v (f (str_of_Z v)) Φ) →
  upto n (or_miss (get_context_version (uuid_str org_id) (uuid_str project_id)) "0"%string ≫= f) Φ.
Proof.
  intros Hf s Hi Hs Hset. cbn zeta. pose proof Hi as [[Hg0 Hg] _]. fold version_key in Hg |- *.
  assert (quiet_step s (op_sem (Redis (ks_get version_key)) s).2) as Hq.
  { apply quiet_redis. unfold ks_get. by destruct (find_key _ _ _) as [[[] ?]|]. }
  destruct (quiet_inv _ _ Hq Hi) as [Hi' E]. split_and!; [done|by rewrite E|apply Hq|].
  rewrite E. cbn [op_sem fst]. unfold ks_get, find_key.
  destruct Hg as [[Hz Hn]|Hn]; rewrite Hn; cbn.
  - rewrite Hz. apply (Hf 0). lia.
  - by apply Hf.
Qed.
Lemma upto_cache_get {A} n v r (f : option text → prog A) Φ :
  admissible r →
  (∀ m, n ≤ m → upto m (f None) Φ) →
  (∀ m t, n ≤ m → (threshold ≤ v → good_text r t) → upto m (f (Some t)) Φ) →
  upto n (or_miss (cache_get_as utf8_decode (key_at r v)) None ≫= f) Φ.
Proof.
  intros Hr Hnone Hsome s Hi Hs Hset. cbn zeta.
  assert (quiet_step s (op_sem (Redis (ks_get (key_at r v))) s).2) as Hq.
  { apply quiet_redis. unfold ks_get. by destruct (find_key _ _ _) as [[[] ?]|]. }
  destruct (quiet_inv _ _ Hq Hi) as [Hi' E]. split_and!; [done|by rewrite E|apply Hq|].
  rewrite E. cbn [op_sem fst]. unfold ks_get, find_key.
  destruct (st_redis s !! key_at r v) as [e|] eqn:Ee; [|by apply Hnone].
  destruct (live (st_clock s) e); [|by apply Hnone].
  destruct e as [[x| |] d]; cbn; [|by apply Hnone..].
  destruct (utf8_decode x) as [t|] eqn:Et; cbn; [|by apply Hnone].
  apply Hsome; [done|]. intros Ht. destruct Hi as [_ Hi].
  destruct (Hi r v _ Hr Ht Ee) as (t' & d' & [= -> ->] & Hok & Hg). rewrite utf8_decode_utf8 in Et by done.
  by injection Et as ->.
Qed.

Lemma good_text_same r r' t : fingerprint r' = fingerprint r → good_text r t → good_text r' t.
Proof. intros E (r0 & res & eps & Ha & Ef & H'). exists r0, res, eps. by rewrite Ef, E. Qed.

Lemma key_at_inj r n r' n' :
  admissible r → admissible r' → key_at r n = key_at r' n' → n = n' ∧ fingerprint r = fingerprint r'.
Proof.
  intros Hr Hr' E.
  destruct (context_key_inj hex_digest _ _ _ _ _ _ _ _ org_wf project_wf org_wf project_wf
    (digits_of_Z n) (digits_of_Z n') Hr Hr' E) as (_ & _ & Ev & Ef).
  apply (f_equal Z_of_str) in Ev. rewrite !Z_of_str_of_Z in Ev. split; [by injection Ev|done].
Qed.

Lemma key_not_version r n : key_at r n ≠ version_key.
Proof. exact (λ E, version_key_ne _ _ _ _ _ _ (eq_sym E)). Qed.

Lemma upto_cache_set {A} n v ttl r t (f : unit → prog A) Φ :
  admissible r → Forall char_ok t → (threshold ≤ v → good_text r t) →
  (∀ m, n ≤ m → upto m (f tt) Φ) →
  upto n (or_miss (cache_set ttl (key_at r v) (utf8 t) None) tt ≫= f) Φ.
Proof.
  intros Hr Hok Hg Hf s Hi Hs Hset. cbn zeta. cbn [op_sem fst snd]. unfold ks_setex.
  destruct (default ttl None <=? 0).
  { cbn. rewrite set_redis_id. split_and!; [done|done|done|by apply Hf]. }
  cbn [fst snd]. set (s' := set_redis _ s).
  assert (st_redis s' !! version_key = st_redis s !! version_key) as Hv.
  { apply lookup_insert_ne, key_not_version. }
  assert (generation s' = generation s) as E by (unfold generation; by rewrite Hv).
  rewrite E. split_and!; [|done|done|by apply Hf].
  destruct Hi as [[Hg0 Hgen] Hi]. split.
  - rewrite E. split; [done|]. unfold version_key in Hv. by rewrite Hv.
  - intros r' n' e Hr' Hn' He. destruct (decide (key_at r v = key_at r' n')) as [Ek|Hne].
    + subst s'. cbn [st_redis set_redis] in He. rewrite Ek, lookup_insert_eq in He. injection He as <-.
      destruct (key_at_inj _ _ _ _ Hr Hr' Ek) as [<- Ef]. eexists _, _. split; [done|]. split; [done|].
      apply (good_text_same r); [done|]. by apply Hg.
    + subst s'. cbn [st_redis set_redis] in He. rewrite lookup_insert_ne in He by done. by apply (Hi r' n').
Qed.

Lemma upto_lift {A B} n (x : exn + A) (f : A → prog B) Φ :
  (∀ a, x = inr a → upto n (f a) Φ) → upto n (lift x ≫= f) Φ.
Proof. destruct x as [e|a]; [done|]. intros Hf. by apply Hf. Qed.

(** *** Blobs *)

Lemma select_quiet t q : answered_in quiet_step (call (Select t q)).
Proof. apply answered_in_call. intros s. by split_and!. Qed.

Lemma blob_links_quiet l : answered_in quiet_step (blob_links l).
Proof.
  induction l as [|b l IH]; [done|]. cbn [blob_links]. apply answered_in_bind.
  - unfold blob_link. destruct generate_download_url as [sign|]; [|done]. by apply answered_in_bind.
  - intros x. by apply answered_in_bind.
Qed.

Lemma load_blobs_quiet eps : answered_in quiet_step (load_blobs eps).
Proof.
  unfold load_blobs. destruct eps as [|ep eps]; [done|]. apply answered_in_bind.
  - unfold get_by_episodes. case_goal; [done|]. apply answered_in_bind; [apply select_quiet|done].
  - intros blobs. generalize (ep :: eps) as l. induction l as [|x l IH]; [done|]. cbn [attach_all].
    apply answered_in_bind; [|by intros y; apply answered_in_bind].
    unfold attach_blobs. repeat case_goal; try done. apply answered_in_bind; [apply blob_links_quiet|done].
Qed.

Lemma finds_any {A} (p : prog A) : finds (λ s, D (st_db s)) p (λ _, True).
Proof. induction p as [a|e|X o k IH]; [done|done|]. intros s _. apply IH. Qed.

Lemma load_blobs_finds eps : finds (λ s, D (st_db s)) (load_blobs eps) (Forall2 attached eps).
Proof.
  unfold load_blobs. destruct eps as [|ep eps]; [by constructor|].
  apply (finds_bind _ _ _ (λ _, True)); [apply finds_any|]. intros blobs _.
  generalize (ep :: eps) as l. induction l as [|x l IH]; [by constructor|]. cbn [attach_all].
  apply (finds_bind _ _ _ (attached x)).
  - unfold attach_blobs. repeat case_goal; try by left.
    apply (finds_bind _ _ _ (λ _, True)); [apply finds_any|]. intros l' _. right. by eexists.
  - intros y Hy. apply (finds_bind _ _ _ (Forall2 attached l)); [done|]. intros ys Hys. by constructor.
Qed.

Lemma formatted_ok fmt eps res t : formatted fmt eps res = inr t → Forall char_ok t.
Proof.
  unfold formatted. case_goal; [intros <-%(inj inr); apply orjson_text|apply format_text_ok].
Qed.
(** ** The clients *)

Lemma upto_assoc {A B C} n (p : prog A) (f : A → prog B) (g : B → prog C) Φ :
  upto n (p ≫= λ a, f a ≫= g) Φ → upto n ((p ≫= f) ≫= g) Φ.
Proof.
  revert n; induction p as [a|e|X o k IH]; intros n Hp; [done|done|]. intros s Hi Hs Hset.
  destruct (Hp s Hi Hs Hset) as (? & ? & ? & ?). split_and!; [done..|]. by apply IH.
Qed.

Lemma upto_weaken {A} n (p : prog A) (Φ Ψ : A → Prop) : (∀ a, Φ a → Ψ a) → upto n p Φ → upto n p Ψ.
Proof.
  intros HΦ. revert n; induction p as [a|e|X o k IH]; intros n Hp; [by apply HΦ|done|]. intros s Hi Hs Hset.
  destruct (Hp s Hi Hs Hset) as (? & ? & ? & ?). split_and!; [done..|]. by apply IH.
Qed.

Lemma upto_map {A B} n (p : prog A) (g : A → B) (Φ : A → Prop) (Ψ : B → Prop) :
  upto n p Φ → (∀ a, Φ a → Ψ (g a)) → upto n (x ← p; Ret (g x)) Ψ.
Proof.
  intros Hp HΨ. revert n Hp; induction p as [a|e|X o k IH]; intros n Hp; [by apply HΨ|done|]. intros s Hi Hs Hset.
  destruct (Hp s Hi Hs Hset) as (? & ? & ? & ?). split_and!; [done..|]. by apply IH.
Qed.

(** What follows a program once it has returned. *)
Lemma upto_then {A B} n (p : prog A) (g : A → B) Φ : upto n p Φ → upto n (x ← p; Ret (g x)) (λ _, True).
Proof. intros Hp. by eapply upto_map. Qed.

Lemma ask_upto n ttl r :
  admissible r →
  upto n (assemble (Some ttl) (search r) org_id project_id r) (λ a, threshold ≤ n → good_text r (ac_context a)).
Proof.
  intros Hr. unfold assemble.
  apply upto_assoc, upto_version. intros v Hv. apply upto_assoc, upto_cache_get; [done|..].
  - intros m Hm. cbn beta iota.
    apply (upto_quiet _ _ _ (Good r)); [done|by intros|]. intros m1 res Hm1 Hres.
    apply (upto_quiet _ _ _ (Forall2 attached (sr_episodes res))); [apply load_blobs_quiet| |].
    { intros _. apply load_blobs_finds. }
    intros m2 eps Hm2 Heps. apply upto_lift. intros t Ht.
    assert (threshold ≤ v → good_text r t) as Hg.
    { intros Hv'. exists r, res, eps. split_and!; [done|done|apply Hres; lia|apply Heps; lia|done]. }
    apply (upto_cache_set _ v); [done|by eapply formatted_ok|done|]. intros m3 Hm3. cbn. intros. apply Hg. lia.
  - intros m t Hm Hg. cbn. intros. apply Hg. lia.
Qed.

Lemma glob_free : forallb (λ c, negb (str_mem c ("ctx:" +:+ uuid_str org_id +:+ ":" +:+ uuid_str project_id +:+ ":")))
  ["*"; "?"; "["; "\"]%char = true.
Proof. cbn [forallb]. rewrite !str_mem_app, !uuid_str_sep by (repeat constructor). reflexivity. Qed.

Lemma answered_in_redis {X A} R (c : KS X) (f : X → prog A) :
  (∀ s, R s (op_sem (Redis c) s).2 ∧
        match (c (st_clock s) (st_redis s)).1 with inr x => answered_in R (f x) | inl _ => True end) →
  answered_in R (redis c ≫= f).
Proof.
  intros Hc s. destruct (Hc s) as [Hs Hk]. split; [done|]. cbn [op_sem fst].
  by destruct (c (st_clock s) (st_redis s)).1.
Qed.

Lemma delete_quiet ks : version_key ∉ ks → answered_in quiet_step (redis (ks_delete ks)).
Proof.
  intros Hv. apply answered_in_call. intros s. cbn [op_sem snd].
  destruct (ks_delete_spec ks (st_clock s) (st_redis s)) as (n & m' & E & Hm). rewrite E. cbn [fst snd].
  split_and!; [| |done]; cbn [st_redis set_redis].
  - by rewrite Hm, bool_decide_eq_false_2.
  - intros r n' e. rewrite Hm. by case_bool_decide.
Qed.

Lemma scan_delete_quiet fuel p c del :
  forallb (λ c, negb (str_mem c p)) ["*"; "?"; "["; "\"]%char = true → str_prefix p version_key = false →
  answered_in quiet_step (scan_delete fuel (p +:+ "*") c del).
Proof.
  intros Hp Hv. revert c del; induction fuel as [|fuel IH]; intros c del; [done|]. cbn [scan_delete].
  apply answered_in_redis. intros s. split; [by apply quiet_redis|]. cbn [fst].
  apply answered_in_bind.
  - case_goal; [done|]. apply answered_in_bind; [|done]. apply delete_quiet. intros Hin%scan_matches.
    by rewrite glob_prefix, Hv in Hin.
  - intros d. case_goal; [done|]. apply IH.
Qed.

Lemma purge_quiet : answered_in quiet_step (invalidate_project_context (uuid_str org_id) (uuid_str project_id)).
Proof.
  unfold invalidate_project_context, purge. apply answered_in_try; [|done].
  assert (build_project_cache_pattern (uuid_str org_id) (uuid_str project_id) =
          ("ctx:" +:+ uuid_str org_id +:+ ":" +:+ uuid_str project_id +:+ ":") +:+ "*") as ->
    by (unfold build_project_cache_pattern; by rewrite !str_app_assoc).
  by apply scan_delete_quiet; [apply glob_free|].
Qed.

Lemma bump_upto n : upto n (_invalidate_context_cache org_id project_id) (λ _, True).
Proof.
  intros s Hi Hs Hset. cbn zeta. cbn [op_sem fst snd]. fold version_key.
  destruct Hi as [[Hg0 Hg] Hi]. fold version_key in Hg.
  assert (ks_incr version_key (st_clock s) (st_redis s) =
          (inr (generation s + 1), <[version_key := REntry (RStr (str_of_Z (generation s + 1))) None]> (st_redis s))) as ->.
  { unfold ks_incr, ks_incrby, find_key. destruct Hg as [[Hz Hn]|Hn]; rewrite Hn; cbn.
    - by rewrite Hz.
    - by rewrite Z_of_str_of_Z. }
  cbn [fst snd]. set (s' := set_redis _ s).
  assert (generation s' = generation s + 1) as E.
  { unfold generation. subst s'. cbn [st_redis set_redis]. rewrite lookup_insert_eq. by rewrite Z_of_str_of_Z. }
  rewrite E. split_and!; [|lia|done|done]. split.
  - rewrite E. split; [lia|]. right. apply lookup_insert_eq.
  - intros r n' e Hr Hn' He. apply (Hi r n'); [done|done|]. subst s'. cbn [st_redis set_redis] in He.
    rewrite lookup_insert_ne in He; [done|]. intros Ek. by apply (key_not_version r n').
Qed.

Lemma client_upto n c : client_ok c → upto n (client_prog c) (λ _, True).
Proof.
  destruct c as [ttl r| | |p]; cbn [client_prog client_ok].
  - intros Hr. apply (upto_then _ _ _ _ (ask_upto n ttl r Hr)).
  - intros _. apply (upto_then _ _ _ _ (bump_upto n)).
  - intros _. apply (upto_quiet _ _ _ (λ _, True)); [apply purge_quiet|intros; apply finds_any|done].
  - intros Hp. apply (upto_quiet _ _ _ (λ _, True)); [done|intros; apply finds_any|done].
Qed.
(** ** The counter only goes up *)

Definition counting (s s' : state) : Prop :=
  generation_at org_id project_id (generation s) (st_redis s) →
  generation_at org_id project_id (generation s') (st_redis s') ∧ generation s ≤ generation s'.

Lemma same_counter s s' : st_redis s' !! version_key = st_redis s !! version_key → counting s s'.
Proof.
  intros Hv [Hg0 Hg]. assert (generation s' = generation s) as E by (unfold generation; by rewrite Hv).
  rewrite E. split; [|done]. split; [done|]. unfold version_key in Hv. by rewrite Hv.
Qed.

Lemma quiet_counting {A} (p : prog A) : answered_in quiet_step p → answered_in counting p.
Proof. apply answered_in_weaken. intros s s' (Hv & _). by apply same_counter. Qed.

Lemma redis_counting {X} (c : KS X) :
  (∀ now m, (c now m).2 !! version_key = m !! version_key) → answered_in counting (redis c).
Proof. intros Hv. apply answered_in_call. intros s. apply same_counter, Hv. Qed.

Lemma get_counting k : answered_in counting (redis (ks_get k)).
Proof. apply redis_counting. intros now m. unfold ks_get. by destruct (find_key _ _ _) as [[[] ?]|]. Qed.

Lemma answered_in_assoc {A B C} R (p : prog A) (f : A → prog B) (g : B → prog C) :
  answered_in R (p ≫= λ a, f a ≫= g) → answered_in R ((p ≫= f) ≫= g).
Proof.
  induction p as [a|e|X o k IH]; intros Hp; [done|done|]. intros s. destruct (Hp s). auto.
Qed.

Lemma ask_counting ttl r : answered_in counting (assemble (Some ttl) (search r) org_id project_id r).
Proof.
  unfold assemble. apply answered_in_assoc, answered_in_bind.
  { apply answered_in_try; [|done]. apply answered_in_bind; [|done]. apply answered_in_try; [apply get_counting|done]. }
  intros v. cbv zeta. apply (answered_in_assoc _ (or_miss _ _)). apply answered_in_bind.
  { apply answered_in_try; [|done]. apply answered_in_try; [|done]. apply answered_in_bind; [apply get_counting|].
    intros x. by repeat case_goal. }
  intros cached. destruct cached; [done|].
  apply (answered_in_bind _ (search r)); [by apply quiet_counting|]. intros res.
  apply answered_in_bind; [apply quiet_counting, load_blobs_quiet|]. intros eps.
  apply answered_in_bind; [by destruct (formatted _ _ _)|]. intros t.
  apply answered_in_bind; [|done]. apply answered_in_try; [|done]. apply answered_in_try; [|done].
  apply redis_counting. intros now m. unfold ks_setex. case_goal; [done|]. apply lookup_insert_ne.
  exact (λ E, version_key_ne _ _ _ _ _ _ (eq_sym E)).
Qed.

Lemma client_counting c : client_ok c → answered_in counting (client_prog c).
Proof.
  destruct c as [ttl r| | |p]; cbn [client_prog client_ok]; intros Hc; apply answered_in_bind; try done.
  - apply ask_counting.
  - apply answered_in_bind; [|done]. apply answered_in_call. intros s [Hg0 Hg]. cbn [op_sem snd].
    fold version_key in Hg |- *. unfold ks_incr, ks_incrby, find_key.
    assert (∀ m, generation (set_redis (<[version_key := REntry (RStr (str_of_Z (generation s + 1))) None]> m) s) =
      generation s + 1) as E.
    { intros m. unfold generation at 1. cbn [st_redis set_redis]. by rewrite lookup_insert_eq, Z_of_str_of_Z. }
    destruct Hg as [[Hz Hn]|Hn]; rewrite Hn; cbn [live re_deadline]; rewrite ?Z_of_str_of_Z; cbn [snd].
    + rewrite <- (Z.add_0_l 1), <- Hz, E. split; [|lia]. split; [lia|]. right. apply lookup_insert_eq.
    + rewrite E. split; [|lia]. split; [lia|]. right. apply lookup_insert_eq.
  - apply quiet_counting, purge_quiet.
  - by apply quiet_counting.
Qed.

Definition all_counting (c : list (prog (option Assembled)) * state) : Prop :=
  generation_at org_id project_id (generation c.2) (st_redis c.2) ∧ ∀ i p, c.1 !! i = Some p → answered_in counting p.

Lemma pstep_counting c c' : pstep c c' → all_counting c → all_counting c' ∧ generation c.2 ≤ generation c'.2.
Proof.
  intros Hp [Hg Hc]. destruct Hp as [i ps s X o k Hi|ps s d Hd]; cbn [fst snd] in *.
  - destruct (Hc _ _ Hi s) as [Hs Hk]. destruct (Hs Hg) as [Hg' Hle]. split; [|done]. split; [done|].
    intros j p [(-> & <- & _)|[Hne Hj]]%list_lookup_insert_Some; [done|by eapply Hc].
  - split; [by split|]. done.
Qed.
Lemma psteps_counting c c' : psteps c c' → all_counting c → all_counting c' ∧ generation c.2 ≤ generation c'.2.
Proof.
  induction 1 as [c|c1 c2 c3 Hp _ IH]; intros Hc; [done|].
  destruct (pstep_counting _ _ Hp Hc) as [Hc2 Hle]. destruct (IH Hc2). split; [done|lia].
Qed.

(** ** All programs *)

Definition all_upto (Φ : nat → option Assembled → Prop) (c : list (prog (option Assembled)) * state) : Prop :=
  inv c.2 ∧ ∀ i p, c.1 !! i = Some p → ∃ n, n ≤ generation c.2 ∧ upto n p (Φ i).

Lemma pstep_upto Φ c c' :
  pstep c c' → settled c.2 → all_upto Φ c → all_upto Φ c' ∧ (D (st_db c.2) → D (st_db c'.2)).
Proof.
  intros Hp Hset [Hi Hu]. destruct Hp as [i ps s X o k Hl|ps s d Hd]; cbn [fst snd] in *.
  - destruct (Hu _ _ Hl) as (n & Hn & Hk). destruct (Hk s Hi Hn Hset) as (Hi' & Hle & HD & Hk').
    split; [|done]. split; [done|]. intros j p [(-> & <- & _)|[Hne Hj]]%list_lookup_insert_Some; [by eexists; split; [|exact Hk']|].
    destruct (Hu _ _ Hj) as (m & Hm & Hp). exists m. split; [cbn [snd]; lia|done].
  - split; [|done]. by split.
Qed.

Lemma psteps_settled Φ c c' :
  psteps c c' → D (st_db c.2) → all_upto Φ c → all_upto Φ c' ∧ D (st_db c'.2).
Proof.
  induction 1 as [c|c1 c2 c3 Hp _ IH]; intros HD Hc; [done|].
  destruct (pstep_upto _ _ _ Hp (or_introl HD) Hc) as [Hc2 HD2]. auto.
Qed.

Lemma psteps_below Φ c c' :
  psteps c c' → all_counting c → generation c'.2 < threshold → all_upto Φ c → all_upto Φ c'.
Proof.
  induction 1 as [c|c1 c2 c3 Hp Hps IH]; intros Hn Hlt Hc; [done|].
  destruct (pstep_counting _ _ Hp Hn) as [Hn2 Hle], (psteps_counting _ _ Hps Hn2) as [_ Hle2].
  assert (settled c1.2) as Hset by (right; lia).
  destruct (pstep_upto _ _ _ Hp Hset Hc). auto.
Qed.

Lemma fresh_answer cs s0 c1 c2 c3 i ttl r a :
  no_contexts (st_redis s0) → Forall client_ok cs → threshold = generation c1.2 + 1 →
  psteps (map client_prog cs, s0) c1 → D (st_db c1.2) →
  psteps c1 c2 → generation c1.2 < generation c2.2 →
  c2.1 !! i = Some (client_prog (Ask ttl r)) → admissible r →
  psteps c2 c3 → c3.1 !! i = Some (Ret (Some a)) → good_text r (ac_context a).
Proof.
  intros Hn Hcs Ht H01 HD H12 Hlt Hi Hr H23 Ha.
  assert (generation s0 = 0) as Hg0.
  { unfold generation. by rewrite (Hn version_key). }
  assert (all_counting (map client_prog cs, s0)) as Hc0.
  { split; cbn [fst snd].
    - rewrite Hg0. split; [done|]. left. split; [done|]. by apply Hn.
    - intros j p. rewrite list_lookup_fmap. intros (c & Hc & ->)%fmap_Some_1. apply client_counting.
      by eapply Forall_lookup_1. }
  assert (all_upto (λ _ _, True) (map client_prog cs, s0)) as Hu0.
  { split; cbn [fst snd].
    - split; [by apply Hc0|]. intros r' n e _ _. by rewrite Hn.
    - intros j p. rewrite list_lookup_fmap. intros (c & Hc & ->)%fmap_Some_1. exists 0. rewrite Hg0.
      split; [done|]. apply client_upto. by eapply Forall_lookup_1. }
  assert (all_upto (λ _ _, True) c1) as Hu1 by (eapply psteps_below; [done|done|lia|done]).
  destruct (psteps_settled _ _ _ H12 HD Hu1) as [[Hi2 Hu2] HD2].
  assert (all_upto (λ j x, j = i → ∀ b, x = Some b → good_text r (ac_context b)) c2) as Hui.
  { split; [done|]. intros j p Hj. destruct (decide (j = i)) as [->|Hne].
    - rewrite Hi in Hj. injection Hj as <-. exists (generation c2.2). split; [done|].
      apply (upto_map _ _ Some _ _ (ask_upto (generation c2.2) ttl r Hr)). intros b Hb _ b' [= <-]. apply Hb. lia.
    - destruct (Hu2 _ _ Hj) as (n & ? & Hp). exists n. split; [done|]. by eapply upto_weaken. }
  destruct (psteps_settled _ _ _ H23 HD2 Hui) as [[_ Hu3] _].
  destruct (Hu3 _ _ Ha) as (n & _ & Hp). by apply Hp.
Qed.
End fresh.

(** C21. A bump retires every context from before it. Context requests, bumps, purges and
    background work of a project run interleaved in any order, from an empty cache. Once the
    database holds [D] for good and the counter has been bumped after that, whoever asks is
    answered with the text of a search that ran while [D] held, from the cache or not, even
    when requests that began earlier write to the cache in the meantime. *)
Theorem bump_retires_contexts `{RedisScan} `{Orjson} `{Hashlib} `{IsoDate} `{PyStr} `{BlobStorage}
    (org_id project_id : uuid) (search : Request → prog SearchResult)
    (D : database → Prop) (Good : Request → SearchResult → Prop)
    (clients : list client) s0 ps1 s1 ps2 s2 ps3 s3 i ttl r a :
  (∀ q, str_mem ":" (sha256_hexdigest q) = false) →
  uuid_wf org_id → uuid_wf project_id →
  (∀ r, answered_in (quiet_step org_id project_id D) (search r)) →
  (∀ r, finds (λ s, D (st_db s)) (search r) (Good r)) →
  match generate_download_url with
  | Some sign => ∀ k, answered_in (quiet_step org_id project_id D) (sign k)
  | None => True
  end →
  no_contexts (st_redis s0) → Forall (client_ok org_id project_id D) clients →
  psteps (map (client_prog org_id project_id search) clients, s0) (ps1, s1) → D (st_db s1) →
  psteps (ps1, s1) (ps2, s2) → generation org_id project_id s1 < generation org_id project_id s2 →
  ps2 !! i = Some (client_prog org_id project_id search (Ask ttl r)) → admissible r →
  psteps (ps2, s2) (ps3, s3) → ps3 !! i = Some (Ret (Some a)) →
  ∃ r' res eps, fingerprint r' = fingerprint r ∧ Good r' res ∧ Forall2 attached (sr_episodes res) eps ∧
    formatted (cr_format r') eps res = inr (ac_context a).
Proof.
  intros Hhex Ho Hp Hq Hf Hs Hn Hcs H01 HD H12 Hlt Hi Hr H23 Ha.
  destruct (fresh_answer org_id project_id search D Good (generation org_id project_id s1 + 1) Hhex Ho Hp Hq Hf Hs
    clients s0 (ps1, s1) (ps2, s2) (ps3, s3) i ttl r a Hn Hcs eq_refl H01 HD H12 Hlt Hi Hr H23 Ha)
    as (r' & res & eps & _ & Hfp & Hg & Heps & Ht).
  by exists r', res, eps.
Qed.

(** A purge ends and takes everything: however SCAN pages through the keys, the loop
    comes to its end, every context of the project is gone and no other key is touched. *)
Theorem purge_clears_project `{RedisScan} {W} `{World W} (w : W) (org_id project_id : uuid) :
  steady w →
  let s := abs w in
  ∃ n m, (run (invalidate_project_context (uuid_str org_id) (uuid_str project_id)) w).1 = inr n ∧
    abs (run (invalidate_project_context (uuid_str org_id) (uuid_str project_id)) w).2 = set_redis m s ∧
    ∀ k, m !! k = if str_prefix ("ctx:" +:+ uuid_str org_id +:+ ":" +:+ uuid_str project_id +:+ ":") k
                  then None else st_redis s !! k.
Proof.
  intros Hw s.
  destruct (run_steady (invalidate_project_context (uuid_str org_id) (uuid_str project_id)) w Hw) as (-> & -> & _).
  destruct (run_purge ("ctx:" +:+ uuid_str org_id +:+ ":" +:+ uuid_str project_id +:+ ":") s Ret
    (glob_free org_id project_id)) as (n & m & E & Hm).
  exists n, m. unfold invalidate_project_context.
  assert (build_project_cache_pattern (uuid_str org_id) (uuid_str project_id) =
          ("ctx:" +:+ uuid_str org_id +:+ ":" +:+ uuid_str project_id +:+ ":") +:+ "*") as ->
    by (unfold build_project_cache_pattern; by rewrite !str_app_assoc).
  rewrite run_bind in E. fold s. destruct (run (purge _) s) as [[e|x] s']; cbn in E; [done|].
  injection E as -> ->. done.
Qed.

(** * Concrete runs *)

(** One page holds every key. *)
Definition starred (p k : string) : bool := let '(h, f, _) := rpartition "*" p in f && str_prefix h k.

Definition one_page : RedisScan.
Proof.
  refine {| glob_match := starred;
            scan := λ _ p _ m, (0, List.filter (starred p) (map fst (map_to_list m)));
            scan_rank := λ _, 0%nat |}.
  - intros p k _. unfold starred. change (p +:+ "*") with (p +:+ ("*"%char ::: EmptyString)). by rewrite rpartition_app.
  - by left.
  - intros _ p _ m k [_ Hk]%filter_elem. done.
  - intros p _ pages k Hc Hh _ Hk Hp. destruct pages as [|[c m] [|[c' m'] pages]]; [done| |].
    + exists c, m. split; [left|]. apply filter_elem. split; [|done].
      destruct (Hp c m) as [e He]; [left|]. apply list_elem_of_fmap. exists (k, e). split; [done|].
      by apply elem_of_map_to_list.
    + by destruct (Hc 0%nat _ _ _ _ eq_refl eq_refl) as [<- ?].
Defined.

Definition no_json : Orjson.
Proof. refine {| orjson_value := λ _, EmptyString; orjson_context := λ _, [] |}. intros _. constructor. Defined.

Definition colonless : Hashlib := {| sha256_hexdigest := str_filter (λ c, negb (Ascii.eqb c ":")) |}.
Definition no_dates : IsoDate := {| iso_date := λ _, None |}.
Definition plain_str : PyStr := {| py_str_other := λ _, EmptyString |}.
Definition no_storage : BlobStorage := {| generate_download_url := None |}.

(** A search that lists the facts. *)
Definition rain_fact : Fact :=
  mkFact 5 1 2 9 "rain" None None None "entity" "entity" 1%Q None None None None None None None None.
Definition fact_item (f : Fact) : item := mkItem (UuidId (f_id f)) NoStamp (Some (f_content f)) None None None [].
Definition list_facts (r : Request) : prog SearchResult :=
  rows ← call (Select facts (λ _, true));
  Ret (mkSearchResult [] (map fact_item rows) [] (Z.of_nat (length rows)) false []).

Definition knows_rain (d : database) : Prop := Exists (λ f, f_content f = "rain"%string) (d facts).
Definition mentions_rain (r : Request) (res : SearchResult) : Prop :=
  Exists (λ i, it_content i = Some "rain"%string) (sr_facts res).

Definition weather : Request := mkRequest "weather" 20 "text" None "relevance".

Definition ingest_rain : prog unit :=
  _ ← call (Insert facts (no_arbiter facts) [rain_fact]); call Commit.

Definition ask_prog := client_prog (H := one_page) (H0 := no_json) (H1 := colonless) (H2 := no_dates) (H3 := plain_str)
  (H4 := no_storage) 1 2 list_facts.

(** A purge alone does not help: a request that has searched before the ingestion caches
    its context after the purge, and the next request is served it; a bump would have
    retired its key. *)
Example stale_after_purge :
  let clients := [Ask 300 weather; Background ingest_rain; Purge; Ask 300 weather] in
  let turns := [0; 0; 0; 1; 1; 2; 0; 3; 3]%nat in
  match (take_turns turns (map ask_prog clients) empty_state).1 !! 3%nat with
  | Some (Ret (Some a)) => ac_cache_hit a = true ∧ ac_context a = no_context
  | _ => False
  end.
Proof. vm_compute. split; reflexivity. Qed.

(** When the read of the counter is lost and the next command is answered, the request is
    served from generation 0, however old that is. *)
Example lost_read_serves_generation_0 :
  let key := context_key (H0 := colonless) 1 2 weather "0" in
  let s := set_redis (<[key := REntry (RStr "stale") (Some 300000000)]>
             (<[build_context_version_key (uuid_str 1) (uuid_str 2) := REntry (RStr "1") None]> ∅)) empty_state in
  match (run (ask_prog (Ask 300 weather)) ((s, [true]) : faulty)).1 with
  | inr (Some a) => ac_cache_hit a = true ∧ ac_context a = codes "stale"
  | _ => False
  end.
Proof. vm_compute. split; reflexivity. Qed.

(** A computation that outlives its lock deletes the lock another request has taken. *)
Example lock_of_another_deleted :
  let slow d := get_or_compute (H0 := no_json) 300 "k" (_ ← call (Sleep d); Ret (CText "v")) None true in
  let turns := [0; 0; 0; 1; 1; 0; 0]%nat in
  let (ps, s) := take_turns turns [slow 11000000; slow 5000000] empty_state in
  ps !! 0%nat = Some (Ret (CText "v")) ∧ is_Some (ps !! 1%nat ≫= λ p, resume p s) ∧
  st_redis s !! "k:lock"%string = None.
Proof. vm_compute. split_and!; [reflexivity|by eexists|reflexivity]. Qed.

(** ** Witnesses *)

Lemma colonless_hex q : str_mem ":" (sha256_hexdigest (Hashlib := colonless) q) = false.
Proof.
  cbn. induction q as [|a q IH]; [done|]. cbn [str_filter]. destruct (Ascii.eqb a ":") eqn:E; [done|].
  cbn [negb str_mem]. by rewrite E, IH.
Qed.

Lemma uuid_small u : bool_decide (uuid_wf u) = true → uuid_wf u.
Proof. apply bool_decide_eq_true_1. Qed.

Definition cache_ops : list cache_op :=
  [CPut 1 2 weather 300 no_context; CGet 1 2 weather; CGet 1 3 weather; CInvalidate 1 2; CGet 1 2 weather;
   CPut 1 2 weather 300 no_context; CWait 299000000; CGet 1 2 weather; CWait 1000000; CGet 1 2 weather].

Lemma weather_ok : admissible weather.
Proof. split; repeat constructor. Qed.

Lemma no_context_ok : Forall char_ok no_context.
Proof. apply codes_ok. Qed.

Lemma generations_refine_clearing_witness :
  Forall op_ok cache_ops ∧
  (run (redis_ops (H := colonless) cache_ops) empty_state).1 = inr (spec_ops (H := colonless) cache_ops (empty_spec 0)) ∧
  spec_ops (H := colonless) cache_ops (empty_spec 0) =
    [None; Some no_context; None; None; None; None; None; Some no_context; None; None].
Proof.
  assert (Forall op_ok cache_ops) as Hok.
  { unfold cache_ops. repeat (apply Forall_cons; split); [..|apply Forall_nil_2]; cbn [op_ok]; split_and?;
      first [exact weather_ok | apply uuid_small; reflexivity | exact no_context_ok | done]. }
  split; [exact Hok|]. split; [|vm_compute; reflexivity].
  exact (generations_refine_clearing (H := colonless) colonless_hex empty_state cache_ops I (λ _ _, eq_refl) Hok).
Defined.

Lemma ingest_rain_quiet : answered_in (quiet_step (H1 := colonless) 1 2 knows_rain) ingest_rain.
Proof.
  unfold ingest_rain. apply answered_in_bind.
  - apply answered_in_call. intros s. cbn [op_sem snd]. destruct (check_rows facts [rain_fact]); [|by split_and!].
    destruct (insert_rows facts (no_arbiter facts) [rain_fact] (st_db s facts)) as [[ins l]|] eqn:E; [|by split_and!].
    apply insert_rows_spec in E as [-> _]. split_and!; [done|done|]. unfold knows_rain. intros Hd. apply Exists_app. by left.
  - intros x. apply answered_in_call. intros s. by split_and!.
Qed.

Lemma list_facts_quiet r : answered_in (quiet_step (H1 := colonless) 1 2 knows_rain) (list_facts r).
Proof. apply answered_in_bind; [|done]. apply answered_in_call. intros s. by split_and!. Qed.

Lemma list_facts_finds r : finds (λ s, knows_rain (st_db s)) (list_facts r) (mentions_rain r).
Proof.
  intros s Hd. cbn. unfold mentions_rain. cbn [sr_facts]. unfold knows_rain in Hd.
  rewrite filter_all by done. revert Hd. induction 1 as [f l Hf|f l _ IH]; [|by right].
  left. cbn. by rewrite Hf.
Qed.

Lemma take_turns_split {A} turns (ps : list (prog A)) (s : state) :
  psteps (ps, s) ((take_turns turns ps s).1, (take_turns turns ps s).2).
Proof. rewrite <- surjective_pairing. apply take_turns_psteps. Qed.

Definition rain_clients : list client := [Ask 300 weather; Background ingest_rain; Bump; Ask 300 weather].
Definition rain_1 := take_turns [0; 0; 0; 1; 1]%nat (map ask_prog rain_clients) empty_state.
Definition rain_2 := take_turns [2; 0]%nat rain_1.1 rain_1.2.
Definition rain_3 := take_turns [3; 3; 3; 3]%nat rain_2.1 rain_2.2.
Definition rain_answer : Assembled :=
  match rain_3.1 !! 3%nat with Some (Ret (Some a)) => a | _ => mkAssembled [] false 0 None end.

Lemma bump_retires_contexts_witness :
  ∃ r' res eps, fingerprint (H := colonless) r' = fingerprint (H := colonless) weather ∧ mentions_rain r' res ∧
    Forall2 attached (sr_episodes res) eps ∧
    formatted (H := no_json) (H1 := no_dates) (H2 := plain_str) (cr_format r') eps res = inr (ac_context rain_answer).
Proof.
  apply (bump_retires_contexts (H := one_page) (H0 := no_json) (H1 := colonless) (H2 := no_dates) (H3 := plain_str)
    (H4 := no_storage) 1 2 list_facts knows_rain mentions_rain rain_clients empty_state
    rain_1.1 rain_1.2 rain_2.1 rain_2.2 rain_3.1 rain_3.2 3 300 weather rain_answer).
  - exact colonless_hex.
  - apply uuid_small. reflexivity.
  - apply uuid_small. reflexivity.
  - exact list_facts_quiet.
  - exact list_facts_finds.
  - exact I.
  - done.
  - repeat (apply Forall_cons; split); try apply Forall_nil_2; try exact weather_ok; try exact I. exact ingest_rain_quiet.
  - exact (take_turns_split [0; 0; 0; 1; 1]%nat (map ask_prog rain_clients) empty_state).
  - vm_compute. left. reflexivity.
  - exact (take_turns_split [2; 0]%nat rain_1.1 rain_1.2).
  - vm_compute. reflexivity.
  - reflexivity.
  - exact weather_ok.
  - exact (take_turns_split [3; 3; 3; 3]%nat rain_2.1 rain_2.2).
  - vm_compute. reflexivity.
Defined.

Definition cached_world : faulty :=
  (set_redis (<["ctx:other"%string := REntry (RStr "x") None]>
     (<[context_key (H0 := colonless) 1 2 weather "0" := REntry (RStr "old") (Some 300000000)]> ∅)) empty_state, []).

Lemma purge_clears_project_witness :
  let w := cached_world in
  let s := abs w in
  steady w ∧
  ∃ n m, (run (invalidate_project_context (H := one_page) (uuid_str 1) (uuid_str 2)) w).1 = inr n ∧
    abs (run (invalidate_project_context (H := one_page) (uuid_str 1) (uuid_str 2)) w).2 = set_redis m s ∧
    ∀ k, m !! k = if str_prefix ("ctx:" +:+ uuid_str 1 +:+ ":" +:+ uuid_str 2 +:+ ":") k
                  then None else st_redis s !! k.
Proof.
  intros w s. assert (steady w) as Hw by reflexivity. split; [exact Hw|].
  apply (purge_clears_project (H := one_page) w 1 2 Hw).
Defined.
